(* ===== verification/_CoqProject ===== *)
-Q . S2P
Prelude.v
ApiTypes.v
K8sTypes.v
Names.v
Config.v
PropertiesFile.v
Catalog.v
Pods.v
Effects.v
Status.v
Services.v
ConfigMaps.v
ReplicaSets.v
Hpa.v
Reconcile.v
Webhook.v
Examples.v
NameFacts.v
ConfigFacts.v
CatalogFacts.v
PodFacts.v
HpaFacts.v
Traces.v
StatusFacts.v
Store.v
ServiceStages.v
PodStages.v
Machine.v
Refinement.v
Invariant.v
Convergence.v
Construction.v
MemoryServer.v
SelectorFacts.v
Safety.v
PanicFree.v
Controller.v
Periodic.v
Termination.v
Startup.v
GoHeap.v
DeepCopy.v
Views.v
DeepCopyFacts.v
Json.v
JsonFacts.v
OpenApi.v
OpenApiFacts.v
