(* ===== verification/Prelude.v ===== *)
(** * Steerd Presto Operator: a verification development

    The program is a Kubernetes operator in Go. A user writes a custom resource
    of kind Presto; the operator creates, and keeps, the objects of a Presto
    cluster for it: two services, three config maps, a ReplicaSet for the
    coordinator and one for the workers and, on request, a horizontal pod
    autoscaler. All paths below are under src/pkg; presto/ stands for
    controller/presto/ and v1alpha1/ for apis/falarica/v1alpha1/.

    ** The parts and how they interact

    main (src/cmd/manager/main.go) makes a manager, registers the types of the
    resource and the controller with it, and starts it.
    controller-runtime calls Reconcile (presto/presto_controller.go) with the
    name of a resource. Reconcile reads it, registers it for periodic events,
    gives it a UUID when it has none, and runs eight stages, returning at the
    first that fails or changes the cluster; when none does it reports the
    state of the coordinator pod in the status of the resource. A stage looks
    for its object by label (presto/services.go, common_util.go, presto_pods.go,
    hpa_handler.go) and creates it from the spec when it is absent. Events of
    the resource go through a filter (presto/watch_predicate.go), changes of the
    resource through a validating webhook (v1alpha1/presto_webhook.go). A
    goroutine sends events for the registered resources at an interval. The
    resource is stored as JSON, by the tags of v1alpha1/presto_types.go, checked
    against the schema of v1alpha1/zz_generated.openapi.go, and copied by
    v1alpha1/zz_generated.deepcopy.go when it leaves the cache.

    ** The model

    - Prelude: strings, slices, integers of fixed width and map iteration of Go.
    - ApiTypes: v1alpha1/presto_types.go, a record per struct.
    - K8sTypes: the fields of the Kubernetes objects that the operator uses;
      Go errors (presto/errors.go and API status errors); the functions of
      apimachinery as class [Apimachinery].
    - Names: presto/common_util.go and the constants of presto/constants.go.
    - Config: presto/presto_properties.go and the shutdown script.
    - Catalog: presto/catalog.go.
    - Pods: the pod templates and ReplicaSet objects of presto/presto_pods.go.
    - Effects: programs as trees of requests to the environment (client,
      metrics client, event recorder, clock, UUID generator, registry) and their
      execution against an environment; the monad [M] threads the two objects
      the stages share and mutate, the resource and the label map.
    - Status: updateStatus, getPresto, getCPUUsage and getCoordinatorPodPhase of
      presto/presto_controller.go.
    - Services: presto/services.go.
    - ConfigMaps: createConfigMap and its callers in presto/common_util.go,
      presto_properties.go and catalog.go.
    - ReplicaSets: the functions of presto/presto_pods.go that call the API.
    - Hpa: presto/hpa_handler.go.
    - Reconcile: Reconcile and its stages in presto/presto_controller.go.
    - Webhook: v1alpha1/presto_webhook.go and presto/watch_predicate.go.
    - Controller (its definitions): the registry of newReconciler and the
      watches of add, in presto/presto_controller.go.
    - Periodic: the goroutine of newReconciler beside the worker that calls
      Reconcile, as a step relation: the ticker, Range on the sync.Map, the
      channel, on which a send waits for the receiver that the channel watch of
      add starts, the work queue, one request of a reconciliation at a time.
      What Range may visit, and the buffer of the receiver, of any size, are the
      documented behaviour of sync.Map and of source.Channel.
    - Startup: main, AddToManager (controller/controller.go, add_presto.go), Add
      and newReconciler, AddToScheme (apis/apis.go and the init functions), as a
      process that logs its calls and exits with a code; the goroutine may
      panic at any point after it was started.
    - GoHeap and DeepCopy: v1alpha1/presto_types.go once more, with pointers,
      maps and slices as locations of a heap, and the methods of
      v1alpha1/zz_generated.deepcopy.go. A struct is indexed by its
      representation: with locations, or as the tree of what they hold.
    - Json: the struct tags, as encoders to and decoders from JSON values, with
      strings made valid UTF-8.
    - OpenApi: the definitions of v1alpha1/zz_generated.openapi.go, and what it
      is to conform to a schema.

    Definitions keep the names of the source. A Go panic (nil pointer, index,
    slice) is [None] or the outcome [Panicked]; a Go error is the left side of
    a sum or an optional [goerror]. Records are values; where the source shares
    a mutable object and the sharing shows, the model does too (the label map
    and the resource in Effects). The order in which Go ranges over a map is
    not specified: class [GoMapRange] is any choice of a permutation for each
    map and each loop of the source, and the theorems hold for all choices.
    Everything else the operator calls is a parameter: an environment [env W]
    answers each request, with a state of any type [W]; the structs of the
    Kubernetes API within the resource, with their copies, JSON and schemas,
    are classes (ForeignTypes, ForeignCopies, ForeignJson). No recursion of the
    source needs fuel: its loops range over finite lists and maps, and a call
    of Reconcile is a finite tree of requests. Conformance to a schema follows
    references and has fuel; eleven steps reach every leaf of the definition of
    Presto, and the theorem holds from eleven on.

    ** The theorems

    - Any environment (Safety, from ServiceStages and PodStages over Traces).
      Whatever the API server answers, a call of Reconcile asks for at most one
      change; the change belongs to the resource, comes after the objects it
      depends on were listed, and its error is returned. A resource that cannot
      be read causes nothing else. Two of the theorems assume that a successful
      status update returns the resource that was sent, up to fields the
      operator does not set, and the one on ownership also that lists keep to
      the namespace and labels asked for: an object that is updated or deleted
      is one that was listed so.
    - No panic (PanicFree). Reconcile returns in every environment that answers
      with well-formed objects, and a spec that makes it panic.
    - Refinement and convergence (Store, Machine, Refinement, Invariant,
      Convergence, Construction, MemoryServer). Store is the interface of an API
      server, as class [ApiServer]: requests succeed, lists reflect earlier
      writes, creation assigns a fresh name and identity, times are kept to the
      second. Machine is the
      abstract specification: eight stages, each settled or not, and a step
      that settles the first that is not. Against every server of the
      interface a call of Reconcile is one step of the machine, eight calls
      settle it, a settled cluster is left alone, and from nothing nine calls
      build exactly the objects of the spec. The bounds eight and nine are the
      number of stages, and one more for the UUID. MemoryServer is a server of
      the interface, on which the theorems are run.
    - Objects (ConfigFacts and CatalogFacts over PropertiesFile, PodFacts,
      HpaFacts, NameFacts, SelectorFacts). The generated files read back as the
      properties they come from, in any map order; refused configurations,
      ports and heap sizes are characterised; pods mount their volumes, whose names are distinct exactly
      when the user's volumes allow it;
      workers find the coordinator; selectors select the pods they are meant
      for and no pod of another cluster; names are distinct and short.
    - Status (StatusFacts): the reported CPU usage, in 64-bit arithmetic, and
      the reported cluster state.
    - Around Reconcile (Controller, Periodic, Startup, Webhook): the registry
      follows the resources; in every interleaving a periodic round sends one
      event for each resource registered throughout it, takes a bounded number
      of steps, and can always end; the watches; the order, the errors and the
      exit codes of the start-up; behind the webhook the
      coordinator's CPU request is immutable.
    - Termination: a reconciliation makes at most twenty requests, a bound that
      is attained.
    - The resource as data (DeepCopyFacts over Views, JsonFacts, OpenApiFacts).
      A deep copy has the contents of the original and shares no memory with it;
      the JSON form reads back with the same contents, when strings are valid
      UTF-8, and times to the second; it conforms to the
      OpenAPI definition exactly when four conditions hold, which are named.
    - Some theorems state behaviour that is probably not meant: the coordinator
      container gets the memory limit of the workers (PodFacts), a headless
      service that was deleted is not created again (SelectorFacts), removed
      autoscaler bounds cause a panic (PanicFree), autoscalers are not watched
      (Controller), storing the UUID does not queue the resource again
      (Construction), the schema refers to a definition that is not there and
      refuses the null that is written for absent property files (OpenApiFacts),
      the webhook is not set up and an interval of zero ends the process
      (Startup).

    Examples has the concrete resource and environments of the witnesses.

    ** What is not modelled

    Log calls are left out, they have no effect on the rest; so are the
    descriptions of the OpenAPI definitions. The model of main starts with the
    result of parsing the flags. PrestoList has deep copies but no JSON form; the operator lists through
    the client. In the reconciliation itself the resource is a value, beside the
    sharing described above; the deep copies are where the memory of a resource
    is modelled. The controller runs one reconciliation at a time, so calls of
    Reconcile do not interleave with each other. Of the resource kept in the
    registry only the identity matters: events are turned into requests by it,
    and it does not change. The API server, the cache, the parser of quantities
    and the garbage collection of owned objects are parameters or outside the
    model.

    ** Plan

    Left for later: reconciliation against a stale cache (objects created twice
    or refused with AlreadyExists), and several resources in one store. *)

From stdpp Require Export gmap strings list fin_maps pretty.
From Stdlib Require Export ZArith Lia.

(** ** Notations of the development *)

Declare Scope go_scope.
Delimit Scope go_scope with go.

(** Byte concatenation of Go strings. *)
Notation "a ⊕ b" := (String.append a b)
  (at level 60, right associativity) : go_scope.

Open Scope go_scope.

(** ** Go values

    A Go computation that can stop with a run-time panic and has no other
    effect is an [option]: [None] is the panic. A Go pointer is an [option]
    as well, [None] being [nil], so that dereferencing it is the identity. *)

Definition deref {A} (p : option A) : option A := p.

(** The length in bytes, [len(s)]. *)
Definition len (s : string) : Z := Z.of_nat (String.length s).

(** [len(s) == 0]. *)
Definition is_empty (s : string) : bool := (len s =? 0)%Z.

(** The slice expression [s[:n]] panics when [s] is shorter than [n]. *)
Definition slice_to (n : nat) (s : string) : option string :=
  if (n <=? String.length s)%nat then Some (String.substring 0 n s) else None.

(** The verb [%d] of package fmt on an integer. *)
Definition fmt_d (z : Z) : string := pretty z.

(** The newline byte. *)
Definition nl : string := String (Ascii.ascii_of_nat 10) EmptyString.

(** The double quote byte. *)
Definition dq : string := String (Ascii.ascii_of_nat 34) EmptyString.

(** [strings.ReplaceAll(s, old, new)] for a non-empty [old]: the
    non-overlapping instances of [old], found from left to right, are replaced.
    [skip] counts the bytes of a replaced instance still to be dropped. *)
Fixpoint ReplaceAll_from (skip : nat) (s old new : string) : string :=
  match s with
  | EmptyString => EmptyString
  | String c s' =>
    match skip with
    | S k => ReplaceAll_from k s' old new
    | O =>
      if String.prefix old s
      then new ⊕ ReplaceAll_from (pred (String.length old)) s' old new
      else String c (ReplaceAll_from 0 s' old new)
    end
  end.

Definition ReplaceAll (s old new : string) : string := ReplaceAll_from 0 s old new.

(** Two's complement wrap-around of int64 arithmetic. *)
Definition wrap64 (z : Z) : Z := ((z + 2 ^ 63) mod 2 ^ 64 - 2 ^ 63)%Z.

Definition in_int64 (z : Z) : Prop := (- 2 ^ 63 <= z < 2 ^ 63)%Z.

Definition in_int32 (z : Z) : Prop := (- 2 ^ 31 <= z < 2 ^ 31)%Z.

(** ** Ranging over a Go map

    [for k, v := range m] visits every entry of [m] once, in an order the
    language leaves open and which may differ from one loop to the next. An
    instance of [GoMapRange] fixes the order of every loop: the first argument
    of [map_range] tells the dynamic occurrences of range statements apart. *)
Class GoMapRange := {
  map_range {V : Type} : nat → gmap string V → list (string * V);
  map_range_perm {V : Type} (site : nat) (m : gmap string V) :
    map_range site m ≡ₚ map_to_list m
}.

(** [for k, v := range src { dst[k] = v }] *)
Definition map_copy `{GoMapRange} {V} (site : nat) (src dst : gmap string V) : gmap string V :=
  foldl (λ m kv, <[kv.1 := kv.2]> m) dst (map_range site src).

(** The range order of a deterministic run. *)
Definition sorted_range : GoMapRange :=
  {| map_range V _ m := map_to_list m;
     map_range_perm V _ m := Permutation_refl (map_to_list m) |}.

(** ** Lemmas on strings *)

Lemma append_cons c (a b : string) : String c a ⊕ b = String c (a ⊕ b).
Proof. done. Qed.

Lemma length_append (a b : string) :
  String.length (a ⊕ b) = (String.length a + String.length b)%nat.
Proof. induction a as [|c a IH]; [done|]. rewrite append_cons. simpl. by rewrite IH. Qed.

Lemma append_nil_r (a : string) : a ⊕ EmptyString = a.
Proof. induction a as [|c a IH]; [done|]. by rewrite append_cons, IH. Qed.

Lemma append_assoc (a b c : string) : (a ⊕ b) ⊕ c = a ⊕ (b ⊕ c).
Proof. induction a as [|x a IH]; [done|]. by rewrite !append_cons, IH. Qed.

Lemma append_nil_l (a : string) : EmptyString ⊕ a = a.
Proof. done. Qed.

Lemma append_inj_tail (a b s t : string) :
  String.length s = String.length t → a ⊕ s = b ⊕ t → a = b ∧ s = t.
Proof.
  intros Hlen. revert b.
  induction a as [|c a IH]; intros [|d b]; rewrite ?append_cons, ?append_nil_l.
  - done.
  - intros Heq. apply (f_equal String.length) in Heq. simpl in Heq.
    rewrite length_append in Heq. lia.
  - intros Heq. apply (f_equal String.length) in Heq. simpl in Heq.
    rewrite length_append in Heq. lia.
  - intros [= -> [-> ->]%IH]. done.
Qed.

Lemma length_substring_0 (n : nat) (s : string) :
  (n <= String.length s)%nat → String.length (String.substring 0 n s) = n.
Proof.
  revert s. induction n as [|n IH]; intros [|c s]; simpl; [lia..|].
  intros. rewrite IH; lia.
Qed.

Lemma slice_to_Some (n : nat) (s : string) :
  (n <= String.length s)%nat → slice_to n s = Some (String.substring 0 n s).
Proof. intros. unfold slice_to. by rewrite (proj2 (Nat.leb_le _ _)). Qed.

Lemma slice_to_None (n : nat) (s : string) :
  (String.length s < n)%nat → slice_to n s = None.
Proof. intros. unfold slice_to. by rewrite (proj2 (Nat.leb_gt _ _)). Qed.

Lemma slice_to_length (n : nat) (s p : string) :
  slice_to n s = Some p → String.length p = n.
Proof.
  unfold slice_to. destruct (Nat.leb_spec n (String.length s)); intros [= <-].
  by apply length_substring_0.
Qed.

Lemma is_empty_true (s : string) : is_empty s = true ↔ s = EmptyString.
Proof. destruct s; unfold is_empty, len; simpl; split; (done || lia). Qed.

Lemma is_empty_false (s : string) : is_empty s = false ↔ s ≠ EmptyString.
Proof. destruct s; unfold is_empty, len; simpl; split; (done || lia). Qed.

(** ** Lemmas on lists *)

Lemma hd_elem {A} (d : A) (l : list A) : l ≠ [] → hd d l ∈ l.
Proof. destruct l; [done|]. left. Qed.

(** ** Lemmas on map ranges *)

Section ranges.
Context `{GoMapRange} {V : Type}.
Implicit Types m : gmap string V.

Lemma elem_of_map_range site m k v : (k, v) ∈ map_range site m ↔ m !! k = Some v.
Proof. by rewrite map_range_perm, elem_of_map_to_list. Qed.

Lemma NoDup_map_range_keys site m : NoDup (map_range site m).*1.
Proof. rewrite map_range_perm. apply NoDup_fst_map_to_list. Qed.

Lemma list_to_map_range site m : list_to_map (map_range site m) = m.
Proof. symmetry. apply list_to_map_flip. by rewrite map_range_perm. Qed.

Lemma foldl_insert_lookup (l : list (string * V)) m k :
  NoDup l.*1 →
  foldl (λ m kv, <[kv.1 := kv.2]> m) m l !! k
  = match (list_to_map l : gmap string V) !! k with Some v => Some v | None => m !! k end.
Proof.
  revert m. induction l as [|[k' v] l IH]; intros m; csimpl; intros Hnd.
  - by rewrite lookup_empty.
  - apply NoDup_cons in Hnd as [Hni Hnd]. rewrite (IH _ Hnd).
    destruct (decide (k' = k)) as [->|Hne].
    + rewrite lookup_insert_eq.
      rewrite (not_elem_of_list_to_map_1 l k Hni). by rewrite lookup_insert_eq.
    + by rewrite !lookup_insert_ne.
Qed.

(** Copying a map into another is the left-biased union. *)
Lemma map_copy_union site (src dst : gmap string V) :
  map_copy site src dst = src ∪ dst.
Proof.
  apply map_eq. intros k. unfold map_copy.
  rewrite foldl_insert_lookup by apply NoDup_map_range_keys.
  rewrite list_to_map_range, lookup_union.
  by destruct (src !! k), (dst !! k).
Qed.
End ranges.

(** ** Lemmas on machine integers *)

Lemma wrap64_id z : in_int64 z → wrap64 z = z.
Proof. unfold in_int64, wrap64. intros. rewrite Z.mod_small; lia. Qed.

Lemma wrap64_range z : in_int64 (wrap64 z).
Proof.
  unfold in_int64, wrap64.
  pose proof (Z.mod_pos_bound (z + 2 ^ 63) (2 ^ 64) ltac:(lia)). lia.
Qed.

(** ** Proof automation *)

Create HintDb go.
Create Rewrite HintDb go.

#[export] Hint Resolve wrap64_range : go.
#[export] Hint Rewrite length_append append_assoc append_nil_r : go.

(** Split every [match] on a hypothesis-free scrutinee of the goal. *)
Ltac split_match :=
  match goal with
  | |- context [match ?x with _ => _ end] => destruct x eqn:?
  end.

(** Run the option monad in the hypotheses. *)
Ltac inv_option :=
  repeat match goal with
  | H : mbind _ _ = Some _ |- _ =>
      apply bind_Some in H; destruct H as (? & ? & H)
  | H : Some _ = Some _ |- _ => injection H as H
  | H : mret _ = Some _ |- _ => injection H as H
  end.
