(* ===== verification/ApiTypes.v ===== *)
(** The custom resource of the operator: the Go structs of
    pkg/apis/falarica/v1alpha1/presto_types.go as records, field by field, with
    the fields of metav1.TypeMeta and metav1.ObjectMeta the operator reads or
    writes. A Go pointer field is an [option]; a [map[string]string] is a
    [gmap string string]. Structs of the Kubernetes API that the operator only
    copies from the resource into the objects it creates are carried as
    [Opaque] data. *)

From S2P Require Import Prelude.

(** A Kubernetes API value the operator copies without looking into it. *)
Definition Opaque := string.

(** metav1.TypeMeta *)
Record TypeMeta := mkTypeMeta {
  tm_Kind : string;
  tm_APIVersion : string
}.

(** metav1.OwnerReference, with the fields [getOwnerReference] sets. *)
Record OwnerReference := mkOwnerReference {
  or_APIVersion : string;
  or_Kind : string;
  or_Name : string;
  or_UID : string;
  or_Controller : option bool
}.

(** metav1.ObjectMeta, with the fields the operator reads or writes. *)
Record ObjectMeta := mkObjectMeta {
  om_Name : string;
  om_GenerateName : string;
  om_Namespace : string;
  om_UID : string;
  om_ResourceVersion : string;
  om_Generation : Z;
  om_Labels : gmap string string;
  om_OwnerReferences : list OwnerReference
}.

Record CoordinatorSpec := mkCoordinatorSpec {
  cs_MemoryLimit : string;
  cs_AdditionalJVMConfig : string;
  cs_AdditionalProps : gmap string string;
  cs_CpuLimit : string;
  cs_CpuRequest : string;
  cs_HttpsEnabled : bool;
  cs_HttpsKeyPairSecretName : string;
  cs_HttpsKeyPairSecretKey : string;
  cs_HttpsKeyPairPassword : string
}.

Record AutoscalingSpec := mkAutoscalingSpec {
  as_Enabled : option bool;
  as_MinReplicas : option Z;
  as_MaxReplicas : option Z;
  as_TargetCPUUtilizationPercentage : option Z
}.

Record WorkerSpec := mkWorkerSpec {
  ws_MemoryLimit : string;
  ws_AdditionalJVMConfig : string;
  ws_AdditionalProps : gmap string string;
  ws_CpuLimit : string;
  ws_CpuRequest : string;
  ws_TerminationGracePeriodSeconds : option Z;
  ws_Count : option Z;
  ws_Autoscaling : AutoscalingSpec
}.

Record CatalogSpec := mkCatalogSpec {
  cat_Name : string;
  cat_Content : gmap string string
}.

Record CatalogSecret := mkCatalogSecret {
  csec_SecretName : string;
  csec_SecretKey : string
}.

Record CatalogList := mkCatalogList {
  cl_CatalogSecrets : list CatalogSecret;
  cl_CatalogSpec : list CatalogSpec
}.

(** The user's part of the external service. *)
Record ServiceSpec := mkServiceSpec {
  ss_NodePort : option Z;
  ss_Port : option Z;
  ss_ClusterIP : string;
  ss_Type : string;
  ss_ExternalIPs : list string;
  ss_SessionAffinity : string;
  ss_LoadBalancerIP : string;
  ss_LoadBalancerSourceRanges : list string;
  ss_ExternalName : string;
  ss_ExternalTrafficPolicy : string;
  ss_HealthCheckNodePort : Z;
  ss_PublishNotReadyAddresses : bool;
  ss_SessionAffinityConfig : option Opaque;
  ss_IPFamily : option string
}.

Record ImageSpec := mkImageSpec {
  is_Name : string;
  is_PrestoPath : string
}.

(** corev1.KeyToPath and the projections of a projected volume. *)
Record KeyToPath := mkKeyToPath {
  kp_Key : string;
  kp_Path : string
}.

Inductive VolumeProjection :=
  | ProjConfigMap (name : string)
  | ProjSecret (name : string) (items : list KeyToPath).

(** corev1.VolumeSource: the two kinds the operator builds, and the kinds a
    user may list under [volumes], which the operator only copies. *)
Inductive VolumeSource :=
  | VSProjected (sources : list VolumeProjection)
  | VSSecret (secretName : string)
  | VSOther (source : Opaque).

Record PrestoVolumeSpec := mkPrestoVolumeSpec {
  pv_Name : string;
  pv_VolumeSource : VolumeSource;
  pv_ReadOnly : bool;
  pv_MountPath : string;
  pv_SubPath : string;
  pv_MountPropagation : option string;
  pv_SubPathExpr : string
}.

(** PrestoSpec; the empty struct InternalHiveMetaStore carries no data. *)
Record PrestoSpec := mkPrestoSpec {
  Coordinator : CoordinatorSpec;
  Worker : WorkerSpec;
  Catalogs : CatalogList;
  Service_ : ServiceSpec;
  ImageDetails : ImageSpec;
  AdditionalPrestoPropFiles : gmap string string;
  Volumes : list PrestoVolumeSpec
}.

Definition ClusterState := string.

Definition ClusterFailedState : ClusterState := "Failed"%string.
Definition ClusterReadyState : ClusterState := "Ready"%string.
Definition ClusterPending : ClusterState := "Pending"%string.
Definition ClusterUnknown : ClusterState := "Unknown"%string.

Record PrestoStatus := mkPrestoStatus {
  Uuid : string;
  DesiredWorkers : Z;
  CurrentWorkers : Z;
  HeadlessService : string;
  st_Service : string;
  CoordinatorAddress : string;
  CatalogConfig : string;
  CoordinatorConfig : string;
  WorkerConfig : string;
  WorkerReplicaset : string;
  CoordinatorReplicaset : string;
  HpaName : string;
  st_ClusterState : ClusterState;
  ErrorReason : string;
  ModificationTime : Z;
  CoordinatorCPU : string;
  WorkerCPU : string
}.

Record Presto := mkPresto {
  p_TypeMeta : TypeMeta;
  p_ObjectMeta : ObjectMeta;
  Spec : PrestoSpec;
  Status : PrestoStatus
}.

(** Promoted fields of the embedded structs. *)
Definition p_Kind (p : Presto) : string := tm_Kind (p_TypeMeta p).
Definition p_APIVersion (p : Presto) : string := tm_APIVersion (p_TypeMeta p).
Definition p_Name (p : Presto) : string := om_Name (p_ObjectMeta p).
Definition p_Namespace (p : Presto) : string := om_Namespace (p_ObjectMeta p).
Definition p_UID (p : Presto) : string := om_UID (p_ObjectMeta p).
Definition p_Labels (p : Presto) : gmap string string := om_Labels (p_ObjectMeta p).
Definition p_Uuid (p : Presto) : string := Uuid (Status p).

(** [prestoCopy.Status = s] *)
Definition set_Status (p : Presto) (s : PrestoStatus) : Presto :=
  mkPresto (p_TypeMeta p) (p_ObjectMeta p) (Spec p) s.

(** types.NamespacedName, the key of a reconcile request. *)
Record NamespacedName := mkNamespacedName {
  nn_Namespace : string;
  nn_Name : string
}.

#[export] Instance NamespacedName_eq_dec : EqDecision NamespacedName.
Proof. solve_decision. Defined.

#[export] Instance NamespacedName_countable : Countable NamespacedName.
Proof.
  refine (inj_countable' (λ k, (nn_Namespace k, nn_Name k))
                         (λ '(ns, n), mkNamespacedName ns n) _).
  by intros [].
Defined.

#[export] Instance VolumeSource_eq_dec : EqDecision VolumeSource.
Proof.
  assert (EqDecision KeyToPath) by solve_decision.
  assert (EqDecision VolumeProjection) by solve_decision.
  solve_decision.
Defined.
