(* ===== verification/K8sTypes.v ===== *)
(** The Kubernetes API objects the operator creates, reads and updates
    (Service, ConfigMap, ReplicaSet with its pod template, Pod,
    HorizontalPodAutoscaler, PodMetrics), as records holding the fields the
    operator reads or writes, the error values of the client calls, and the
    interface of the third-party helpers of package apimachinery. *)

From S2P Require Import Prelude ApiTypes.

(** ** Errors

    A Go [error] of this program is an API status error or the operator's own
    [OperatorError] (pkg/controller/presto/errors.go). *)

Inductive StatusReason :=
  | StatusReasonNotFound
  | StatusReasonAlreadyExists
  | StatusReasonConflict
  | StatusReasonOther.

Inductive goerror :=
  | StatusError (reason : StatusReason) (message : string)
  | OperatorError (errormsg : string).

#[export] Instance StatusReason_eq_dec : EqDecision StatusReason.
Proof. solve_decision. Defined.

#[export] Instance goerror_eq_dec : EqDecision goerror.
Proof. solve_decision. Defined.

(** The Error method. *)
Definition Error (e : goerror) : string :=
  match e with
  | StatusError _ message => message
  | OperatorError errormsg => errormsg
  end.

(** errors.IsNotFound and errors.IsAlreadyExists of apimachinery look at the
    reason of a status error; on a nil error they are false. *)
Definition IsNotFound (e : option goerror) : bool :=
  match e with Some (StatusError StatusReasonNotFound _) => true | _ => false end.

Definition IsAlreadyExists (e : option goerror) : bool :=
  match e with Some (StatusError StatusReasonAlreadyExists _) => true | _ => false end.

(** resource.Quantity, seen through the two methods the operator calls. *)
Record Quantity := mkQuantity {
  q_Value : Z;
  q_MilliValue : Z
}.

(** Functions of k8s.io/apimachinery the operator calls, as parameters. *)
Class Apimachinery := {
  ParseQuantity : string → Quantity * option goerror;
  NewNotFound : string → string → goerror
}.

(** What the operator relies on: the error made by errors.NewNotFound is
    recognised by errors.IsNotFound. *)
Class ApimachineryLaws `{Apimachinery} : Prop := {
  NewNotFound_IsNotFound r n : IsNotFound (Some (NewNotFound r n)) = true
}.

(** ** Objects *)

Record ServicePort := mkServicePort {
  sp_Name : string;
  sp_Port : Z;
  sp_NodePort : Z;
  sp_TargetPort : Z
}.

Record K8sServiceSpec := mkK8sServiceSpec {
  kss_Selector : gmap string string;
  kss_ClusterIP : string;
  kss_Type : string;
  kss_ExternalIPs : list string;
  kss_SessionAffinity : string;
  kss_LoadBalancerIP : string;
  kss_LoadBalancerSourceRanges : list string;
  kss_ExternalName : string;
  kss_ExternalTrafficPolicy : string;
  kss_HealthCheckNodePort : Z;
  kss_PublishNotReadyAddresses : bool;
  kss_SessionAffinityConfig : option Opaque;
  kss_IPFamily : option string;
  kss_Ports : list ServicePort
}.

Record Service := mkService {
  svc_ObjectMeta : ObjectMeta;
  svc_Spec : K8sServiceSpec
}.

Record ConfigMap := mkConfigMap {
  cm_ObjectMeta : ObjectMeta;
  cm_Data : gmap string string
}.

Record VolumeMount := mkVolumeMount {
  vm_Name : string;
  vm_ReadOnly : bool;
  vm_MountPath : string;
  vm_SubPath : string;
  vm_MountPropagation : option string;
  vm_SubPathExpr : string
}.

Record Volume := mkVolume {
  vol_Name : string;
  vol_VolumeSource : VolumeSource
}.

(** corev1.Lifecycle: the PreStop exec command; PostStart is always nil. *)
Record Lifecycle := mkLifecycle {
  lc_PreStop_Command : list string
}.

Record Container := mkContainer {
  co_Name : string;
  co_Image : string;
  co_Limits : gmap string Quantity;
  co_Requests : gmap string Quantity;
  co_Lifecycle : option Lifecycle;
  co_VolumeMounts : list VolumeMount
}.

Record PodSpec := mkPodSpec {
  ps_TerminationGracePeriodSeconds : option Z;
  ps_Containers : list Container;
  ps_Hostname : string;
  ps_Subdomain : string;
  ps_Volumes : list Volume
}.

Record PodTemplateSpec := mkPodTemplateSpec {
  pt_ObjectMeta : ObjectMeta;
  pt_Spec : PodSpec
}.

Record ReplicaSet := mkReplicaSet {
  rs_TypeMeta : TypeMeta;
  rs_ObjectMeta : ObjectMeta;
  rs_Replicas : option Z;
  rs_MatchLabels : gmap string string;
  rs_Template : PodTemplateSpec;
  rs_AvailableReplicas : Z
}.

Record HorizontalPodAutoscaler := mkHPA {
  hpa_ObjectMeta : ObjectMeta;
  hpa_ScaleTargetRef_APIVersion : string;
  hpa_ScaleTargetRef_Kind : string;
  hpa_ScaleTargetRef_Name : string;
  hpa_MinReplicas : option Z;
  hpa_MaxReplicas : Z;
  hpa_TargetCPUUtilizationPercentage : option Z
}.

Definition PodPhase := string.

Definition PodPending : PodPhase := "Pending"%string.
Definition PodRunning : PodPhase := "Running"%string.
Definition PodFailed : PodPhase := "Failed"%string.
Definition PodUnknown : PodPhase := "Unknown"%string.

Record Pod := mkPod {
  pod_ObjectMeta : ObjectMeta;
  pod_Phase : PodPhase
}.

Record ContainerMetrics := mkContainerMetrics {
  cmx_Name : string;
  cmx_Usage : gmap string Quantity
}.

Record PodMetrics := mkPodMetrics {
  pmx_Containers : list ContainerMetrics
}.

(** Constants of package corev1 the operator uses. *)
Definition ResourceCPU : string := "cpu"%string.
Definition ResourceMemory : string := "memory"%string.
Definition ServiceTypeExternalName : string := "ExternalName"%string.
Definition EventTypeNormal : string := "Normal"%string.
Definition EventTypeWarning : string := "Warning"%string.

(** A label selector made by labels.SelectorFromSet from a set: it selects the
    objects whose labels contain the set, and everything when the set is empty. *)
Definition selects (sel lbls : gmap string string) : Prop := sel ⊆ lbls.

#[export] Instance selects_dec sel lbls : Decision (selects sel lbls).
Proof. unfold selects. apply _. Defined.

(** Metadata of an object built by the operator: the fields a struct literal
    leaves out have their zero value. *)
Definition newObjectMeta (name generateName ns : string)
    (lbls : gmap string string) (owners : list OwnerReference) : ObjectMeta :=
  mkObjectMeta name generateName ns EmptyString EmptyString 0%Z lbls owners.

Definition noTypeMeta : TypeMeta := mkTypeMeta EmptyString EmptyString.
