(* ===== verification/Names.v ===== *)
(** Names, labels and owner references of the objects of one Presto cluster:
    pkg/controller/presto/common_util.go (its function createConfigMap is in
    ConfigMaps.v) and constants.go. A name takes the first eight bytes of the
    cluster UUID, [clusterUUID[:8]], and so is an [option]: [None] is the
    slice panic on a shorter UUID. *)

From S2P Require Import Prelude ApiTypes K8sTypes.

Local Open Scope string_scope.

(** ** constants.go *)

Definition nodePropertiesKey : string := "node.properties".
Definition configPropertiesKey : string := "config.properties".
Definition jvmConfigKey : string := "jvm.config".
Definition prestoPort : Z := 8080%Z.
Definition mountPath : string := "/etc/presto".
Definition httpsVolPath : string := "/etc/httpssecret".
Definition prestoShutdownScript : string := "presto_shutdown.sh".
Definition DefaultTerminationGracePeriodSeconds : Z := 7200%Z.
Definition catalogFileSuffix : string := ".properties".
Definition catalogMountPath : string := "/catalog/".

(** ** Names *)

(** The prefix of a name followed by the short UUID. *)
Definition short_name (prefix clusterUUID : string) : option string :=
  u ← slice_to 8 clusterUUID; Some (prefix ⊕ u).

Definition getPodDiscoveryServiceName := short_name "pod-discovery-".

Definition getPodDiscoveryServiceLabel (clusterUUID : string) : string * string :=
  ("pod-discovery", clusterUUID).

Definition getExternalServiceName := short_name "external-presto-svc-".

Definition getExternalServiceLabel (clusterUUID : string) : string * string :=
  ("external-presto-svc", clusterUUID).

Definition getCoordinatorPodName := short_name "coordinatorpod-".
Definition getCoordinatorReplicaset := short_name "coordinatorreplicaset-".
Definition getWorkerReplicaSet := short_name "workerreplicaset-".
Definition getCatalogConfigMapName := short_name "catalogconfig-".
Definition getCatalogVolName := short_name "catalogvol-".
Definition getHTTPSSecretVolName := short_name "httpssecret-".
Definition getHPAName := short_name "hpa-".
Definition getCoordinatorContainerName := short_name "coordinatorcontainer-".
Definition getCoordinatorConfigMapName := short_name "coordinatorconfig-".
Definition getCoordinatorConfigVolumeName := short_name "coordinatorconfvol-".
Definition getWorkerContainerPrefix := short_name "workerrcontainer-".
Definition getWorkerConfigMapName := short_name "workerconfig-".
Definition getWorkerConfigVolumeName := short_name "workerconfvol-".

(** The host name of the coordinator pod under the headless service. *)
Definition getCoordinatorInternalName (clusterUUID : string) : option string :=
  host ← getCoordinatorContainerName clusterUUID;
  svc ← getPodDiscoveryServiceName clusterUUID;
  Some (host ⊕ "." ⊕ svc).

(** ** Labels *)

Definition getCoordinatorPodLabel (clusterUUID : string) : string * string :=
  ("coordinator", clusterUUID).

Definition getWorkerPodLabel (clusterUUID : string) : string * string :=
  ("worker", clusterUUID).

(** [lbls[k] = v] for a pair of results [k, v]. *)
Definition set_label (kv : string * string) (lbls : gmap string string) : gmap string string :=
  <[kv.1 := kv.2]> lbls.

(** [labels.Set{k: v}] *)
Definition single_label (kv : string * string) : gmap string string := {[ kv.1 := kv.2 ]}.

Section labels.
Context `{GoMapRange}.

Definition getCoordinatorPodLabels (baseLabels : gmap string string) (clusterUUID : string)
    : gmap string string :=
  set_label (getCoordinatorPodLabel clusterUUID) (map_copy 0 baseLabels ∅).

Definition getWorkerPodLabels (baseLabels : gmap string string) (clusterUUID : string)
    : gmap string string :=
  set_label (getWorkerPodLabel clusterUUID) (map_copy 1 baseLabels ∅).
End labels.

(** ** Owner reference and image path *)

Definition getOwnerReference (app : Presto) : OwnerReference :=
  mkOwnerReference (p_APIVersion app) (p_Kind app) (p_Name app) (p_UID app) (Some true).

Definition getPrestoPath (presto : Presto) : string :=
  let prestoPath := is_PrestoPath (ImageDetails (Spec presto)) in
  if is_empty (is_PrestoPath (ImageDetails (Spec presto))) then mountPath else prestoPath.

(** ** Well-formedness of the cluster UUID *)

(** The UUIDs for which no name function panics. *)
Definition uuid_ok (clusterUUID : string) : Prop := (8 <= String.length clusterUUID)%nat.

(** ** Lemmas *)

Lemma short_name_ok prefix u : uuid_ok u →
  short_name prefix u = Some (prefix ⊕ String.substring 0 8 u).
Proof. intros. unfold short_name. by rewrite slice_to_Some. Qed.

Lemma short_name_panics prefix u : ¬ uuid_ok u → short_name prefix u = None.
Proof. unfold uuid_ok. intros. unfold short_name. rewrite slice_to_None; [done|lia]. Qed.

Lemma short_name_Some prefix u n : short_name prefix u = Some n → uuid_ok u.
Proof.
  intros Hn. unfold uuid_ok. destruct (decide (8 <= String.length u)%nat) as [|Hu]; [done|].
  by rewrite (short_name_panics _ _ Hu) in Hn.
Qed.

Lemma short_name_is_Some prefix u : is_Some (short_name prefix u) ↔ uuid_ok u.
Proof.
  split; [intros [n Hn]; by eapply short_name_Some|].
  intros Hu. rewrite short_name_ok by done. by eexists.
Qed.

Lemma short_name_length prefix u n :
  short_name prefix u = Some n → String.length n = (String.length prefix + 8)%nat.
Proof.
  intros Hn. pose proof (short_name_Some _ _ _ Hn) as Hu.
  rewrite short_name_ok in Hn by done. injection Hn as <-.
  rewrite length_append, length_substring_0; done.
Qed.

(** A name determines its prefix and the short UUID. *)
Lemma short_name_inj p1 p2 u1 u2 n :
  short_name p1 u1 = Some n → short_name p2 u2 = Some n →
  p1 = p2 ∧ slice_to 8 u1 = slice_to 8 u2.
Proof.
  intros H1 H2.
  pose proof (short_name_Some _ _ _ H1) as U1. pose proof (short_name_Some _ _ _ H2) as U2.
  rewrite short_name_ok in H1, H2 by done. injection H1 as <-. injection H2 as H2.
  rewrite !slice_to_Some by done.
  apply append_inj_tail in H2 as [-> ->]; [done|].
  by rewrite !length_substring_0.
Qed.

#[export] Hint Rewrite short_name_ok using done : go.

Section label_lemmas.
Context `{GoMapRange}.

Lemma getCoordinatorPodLabels_eq base u :
  getCoordinatorPodLabels base u = <["coordinator" := u]> base.
Proof.
  unfold getCoordinatorPodLabels, set_label. simpl.
  by rewrite map_copy_union, map_union_empty.
Qed.

Lemma getWorkerPodLabels_eq base u : getWorkerPodLabels base u = <["worker" := u]> base.
Proof.
  unfold getWorkerPodLabels, set_label. simpl.
  by rewrite map_copy_union, map_union_empty.
Qed.
End label_lemmas.

Lemma getPrestoPath_nonempty p : getPrestoPath p ≠ EmptyString.
Proof.
  unfold getPrestoPath. destruct (is_empty _) eqn:E; [done|]. by apply is_empty_false.
Qed.
