(* ===== verification/Config.v ===== *)
(** Presto configuration files: pkg/controller/presto/presto_properties.go
    (without createCoordinatorConfig and createWorkerConfig, which call the API
    and are in ConfigMaps.v) and the shutdown script of constants.go. A function
    that can panic returns an [option], a function that returns a Go error
    returns a sum with the error on the left. *)

From S2P Require Import Prelude ApiTypes K8sTypes Names.

Local Open Scope string_scope.

(** ** The shutdown script *)

(** The script of constants.go, one element per line. *)
Definition shutdownScriptLines : list string :=
  [
    EmptyString;
    "#!/bin/bash";
    "# This works for worker only. Coordinator doesn't support graceful shutdown.";
    "# This script will block until the server has actually shutdown.";
    "set -x";
    "http_port=" ⊕ dq ⊕ "$(cat {MOUNT_PATH}/config.properties | grep 'http-server.http.port' | sed 's/^.*=\(.*\)$/\1/')" ⊕ dq;
    "https_port=" ⊕ dq ⊕ "$(cat {MOUNT_PATH}/config.properties | grep 'http-server.https.port' | sed 's/^.*=\(.*\)$/\1/')" ⊕ dq;
    EmptyString;
    "if [ -n " ⊕ dq ⊕ "$http_port" ⊕ dq ⊕ " ] ; then";
    "    res=$(curl -s -o /dev/null -w " ⊕ dq ⊕ "%{http_code}" ⊕ dq ⊕ "  -XPUT --data '" ⊕ dq ⊕ "SHUTTING_DOWN" ⊕ dq ⊕ "' -H " ⊕ dq ⊕ "Content-type: application/json" ⊕ dq ⊕ " http://localhost:${http_port}/v1/info/state)";
    "fi";
    EmptyString;
    "if [ -z " ⊕ dq ⊕ "$res" ⊕ dq ⊕ " -o " ⊕ dq ⊕ "$res" ⊕ dq ⊕ " != " ⊕ dq ⊕ "200" ⊕ dq ⊕ " ] && [ -n " ⊕ dq ⊕ "$https_port" ⊕ dq ⊕ " ]; then";
    "    res=$(curl -k -s -o /dev/null -w " ⊕ dq ⊕ "%{http_code}" ⊕ dq ⊕ "  -XPUT --data '" ⊕ dq ⊕ "SHUTTING_DOWN" ⊕ dq ⊕ "' -H " ⊕ dq ⊕ "Content-type: application/json" ⊕ dq ⊕ " https://localhost:${https_port}/v1/info/state)";
    "fi";
    EmptyString;
    "if [ -z " ⊕ dq ⊕ "$res" ⊕ dq ⊕ " -o " ⊕ dq ⊕ "$res" ⊕ dq ⊕ " != " ⊕ dq ⊕ "200" ⊕ dq ⊕ " ] ; then";
    "  # Failed to send the shutdown request.";
    "  exit -1";
    "else";
    "  # Server is shutting down. Block until the server is actually down.";
    "  while curl http://localhost:${http_port}/v1/info/state; do";
    "    sleep 3";
    "  done";
    "fi"
  ].

Definition shutdownScriptContent : string :=
  foldr (λ l rest, l ⊕ nl ⊕ rest) EmptyString shutdownScriptLines.

(** The script as mounted: the marker is replaced by the configuration path. *)
Definition shutdownScriptFor (path : string) : string :=
  ReplaceAll shutdownScriptContent "{MOUNT_PATH}" path.

(** ** Properties files *)

(** [fmt.Sprintf("%s=%s\n", key, value)] *)
Definition prop_line (kv : string * string) : string := kv.1 ⊕ "=" ⊕ kv.2 ⊕ nl.

(** A range loop that writes one line per entry to the string builder. *)
Definition write_props (sb : string) (l : list (string * string)) : string :=
  foldl (λ sb kv, sb ⊕ prop_line kv) sb l.

Definition system_property_error : goerror :=
  OperatorError "%s is a system property. Cannot be specified as additional property".

(** The second loop: an additional property that is a system property is an
    error, and the loop returns at once. *)
Fixpoint write_additional (systemProps : gmap string string) (sb : string)
    (l : list (string * string)) : goerror + string :=
  match l with
  | [] => inr sb
  | (key, value) :: l' =>
    match systemProps !! key with
    | Some _ => inl system_property_error
    | None => write_additional systemProps (sb ⊕ prop_line (key, value)) l'
    end
  end.

Definition coordinatorNodePropsMap : string :=
  ("node.environment=prestoproduction" ⊕ nl) ⊕ ("node.data-dir=/data/presto" ⊕ nl).

Definition workerNodePropsMap : string :=
  ("node.environment=prestoproduction" ⊕ nl) ⊕ ("node.data-dir=/data/presto" ⊕ nl).

(** ** JVM configuration *)

Definition defaultJVMProps : list string :=
  ["-server"; "-XX:-UseBiasedLocking"; "-XX:+UseG1GC"; "-XX:G1HeapRegionSize=32M";
   "-XX:+ExplicitGCInvokesConcurrent"; "-XX:+ExitOnOutOfMemoryError";
   "-XX:+UseGCOverheadLimit"; "-XX:+HeapDumpOnOutOfMemoryError";
   "-XX:ReservedCodeCacheSize=512M"; "-Djdk.attach.allowAttachSelf=true";
   "-Djdk.nio.maxCachedBufferSize=2000000"].

Definition addDefaultJVMProps (sb : string) : string :=
  foldl (λ sb l, sb ⊕ (l ⊕ nl)) sb defaultJVMProps.

(** [memlimit.Value()/1024/1024]: int64 division truncates toward zero. *)
Definition memoryMb (memlimit : Quantity) : Z :=
  Z.quot (Z.quot (q_Value memlimit) 1024) 1024.

(** ** Ports *)

(** The HTTP port and the HTTPS port, -1 when HTTPS is off. *)
Definition getHTTPPort (presto : Presto) : Z * Z :=
  let port := match ss_Port (Service_ (Spec presto)) with
              | Some p => p
              | None => prestoPort
              end in
  if cs_HttpsEnabled (Coordinator (Spec presto)) then
    let httpport := if (port =? prestoPort)%Z then (prestoPort + 1)%Z else prestoPort in
    (httpport, port)
  else (port, (-1)%Z).

Section config.
Context `{GoMapRange, Apimachinery}.

Definition coordinatorJVMConfigMap (presto : Presto) : goerror + string :=
  let sb := addDefaultJVMProps EmptyString in
  let MemoryLimit := cs_MemoryLimit (Coordinator (Spec presto)) in
  match ParseQuantity MemoryLimit with
  | (_, Some err) =>
    inl (OperatorError ("cannot parse presto.Spec.Coordinator.MemoryLimit: '"
                        ⊕ MemoryLimit ⊕ "': " ⊕ Error err))
  | (memlimit, None) =>
    let sb := sb ⊕ ("-Xmx" ⊕ fmt_d (memoryMb memlimit) ⊕ "m" ⊕ nl) in
    let additional := cs_AdditionalJVMConfig (Coordinator (Spec presto)) in
    inr (if (len additional >? 0)%Z then sb ⊕ (additional ⊕ nl) else sb)
  end.

Definition workerJVMConfigMap (presto : Presto) : goerror + string :=
  let sb := addDefaultJVMProps EmptyString in
  let MemoryLimit := ws_MemoryLimit (Worker (Spec presto)) in
  match ParseQuantity MemoryLimit with
  | (_, Some err) =>
    inl (OperatorError ("cannot parse presto.Spec.Worker.MemoryLimit: '"
                        ⊕ MemoryLimit ⊕ "': " ⊕ Error err))
  | (memlimit, None) =>
    let sb := sb ⊕ ("-Xmx" ⊕ fmt_d (memoryMb memlimit) ⊕ "m" ⊕ nl) in
    let additional := ws_AdditionalJVMConfig (Worker (Spec presto)) in
    inr (if (len additional >? 0)%Z then sb ⊕ (additional ⊕ nl) else sb)
  end.

(** The properties the operator reserves in the coordinator's
    config.properties. *)
Definition getSystemProps (presto : Presto) (coordinatorInternalName : string)
    : goerror + gmap string string :=
  let '(httpPort, httpsPort) := getHTTPPort presto in
  let c := Coordinator (Spec presto) in
  if cs_HttpsEnabled c then
    if is_empty (cs_HttpsKeyPairPassword c) then
      inl (OperatorError "HttpsKeyPairPassword has to be specified when HTTPS is enabled")
    else if is_empty (cs_HttpsKeyPairSecretKey c) then
      inl (OperatorError "HttpsKeyPairSecretKey has to be specified when HTTPS is enabled")
    else if is_empty (cs_HttpsKeyPairSecretName c) then
      inl (OperatorError "HttpsKeyPairSecretName has to be specified when HTTPS is enabled")
    else inr (list_to_map [
      ("coordinator", "true");
      ("node.internal-address", coordinatorInternalName);
      ("discovery.uri", "http://" ⊕ coordinatorInternalName ⊕ ":" ⊕ fmt_d httpPort ⊕ nl);
      ("node-scheduler.include-coordinator", "false");
      ("discovery-server.enabled", "true");
      ("http-server.http.enabled", "true");
      ("http-server.https.enabled", "true");
      ("http-server.https.port", fmt_d httpsPort);
      ("http-server.http.port", fmt_d httpPort);
      ("http-server.https.keystore.path", httpsVolPath ⊕ "/" ⊕ cs_HttpsKeyPairSecretKey c);
      ("http-server.https.keystore.key", cs_HttpsKeyPairPassword c)])
  else inr (list_to_map [
      ("coordinator", "true");
      ("http-server.http.port", fmt_d httpPort);
      ("node.internal-address", coordinatorInternalName);
      ("discovery.uri", "http://" ⊕ coordinatorInternalName ⊕ ":" ⊕ fmt_d httpPort ⊕ nl);
      ("node-scheduler.include-coordinator", "false");
      ("discovery-server.enabled", "true");
      ("http-server.https.enabled", "false")]).

Definition coordinatorConfigPropsMap (presto : Presto) : option (goerror + string) :=
  coordinatorInternalName ← getCoordinatorInternalName (p_Uuid presto);
  match getSystemProps presto coordinatorInternalName with
  | inl err => Some (inl err)
  | inr systemProps =>
    let sb := write_props EmptyString (map_range 2 systemProps) in
    Some (write_additional systemProps sb
            (map_range 3 (cs_AdditionalProps (Coordinator (Spec presto)))))
  end.

(** The properties the operator reserves in the workers' config.properties. *)
Definition workerSystemProps (presto : Presto) (coordinatorInternalName : string)
    : gmap string string :=
  let '(httpPort, _) := getHTTPPort presto in
  list_to_map [
    ("coordinator", "false");
    ("http-server.http.port", fmt_d prestoPort);
    ("discovery.uri", "http://" ⊕ coordinatorInternalName ⊕ ":" ⊕ fmt_d httpPort)].

Definition workerConfigPropsMap (presto : Presto) : option (goerror + string) :=
  coordinatorInternalName ← getCoordinatorInternalName (p_Uuid presto);
  let systemProps := workerSystemProps presto coordinatorInternalName in
  let sb := write_props EmptyString (map_range 4 systemProps) in
  Some (write_additional systemProps sb
          (map_range 5 (ws_AdditionalProps (Worker (Spec presto))))).

(** The config map holding the files of one role. *)
Definition buildConfigMap (presto : Presto) (isCoordinator : bool) (configMapName : string)
    (labels : gmap string string) : option (goerror + ConfigMap) :=
  let nodeProperties :=
    if isCoordinator then coordinatorNodePropsMap else workerNodePropsMap in
  configProperties ←
    (if isCoordinator then coordinatorConfigPropsMap presto else workerConfigPropsMap presto);
  match configProperties with
  | inl err => Some (inl err)
  | inr configProperties =>
    match (if isCoordinator then coordinatorJVMConfigMap presto
           else workerJVMConfigMap presto) with
    | inl err => Some (inl err)
    | inr jvmConfig =>
      let propertiesFiles : gmap string string := list_to_map [
        (nodePropertiesKey, nodeProperties);
        (configPropertiesKey, configProperties);
        (jvmConfigKey, jvmConfig);
        (prestoShutdownScript, shutdownScriptFor (getPrestoPath presto))] in
      let propertiesFiles :=
        map_copy 6 (AdditionalPrestoPropFiles (Spec presto)) propertiesFiles in
      Some (inr (mkConfigMap
        (newObjectMeta configMapName EmptyString (p_Namespace presto) labels
           [getOwnerReference presto])
        propertiesFiles))
    end
  end.
End config.

(** ** The volume of the configuration files *)

(** [podSpec.Volumes = append(podSpec.Volumes, v)] *)
Definition append_volume (podSpec : PodSpec) (v : Volume) : PodSpec :=
  mkPodSpec (ps_TerminationGracePeriodSeconds podSpec) (ps_Containers podSpec)
    (ps_Hostname podSpec) (ps_Subdomain podSpec) (ps_Volumes podSpec ++ [v]).

(** A mount with the fields of the operator's own volumes set. *)
Definition readOnlyMount (name path : string) : VolumeMount :=
  mkVolumeMount name true path EmptyString None EmptyString.

Definition getPropsVolumeMount (presto : Presto) (podSpec : PodSpec) (isCoordinator : bool)
    : option (PodSpec * VolumeMount) :=
  let uuid := p_Uuid presto in
  configMap ← (if isCoordinator then getCoordinatorConfigMapName uuid
               else getWorkerConfigMapName uuid);
  configMapVol ← (if isCoordinator then getCoordinatorConfigVolumeName uuid
                  else getWorkerConfigVolumeName uuid);
  let propsVolume := mkVolume configMapVol (VSProjected [ProjConfigMap configMap]) in
  Some (append_volume podSpec propsVolume,
        readOnlyMount configMapVol (getPrestoPath presto)).
