(* ===== verification/PropertiesFile.v ===== *)
(** Properties files: a reader of the format the operator writes ("key=value"
    lines), as the reference against which the writers of Config.v and
    Catalog.v are proved correct. *)

From S2P Require Import Prelude ApiTypes K8sTypes Names Config.

(** ** The reader *)

Definition is_char (n : nat) (c : Ascii.ascii) : bool := Ascii.eqb c (Ascii.ascii_of_nat n).

(** The lines of a file: the text between newline bytes. *)
Fixpoint split_lines (s : string) : list string :=
  match s with
  | EmptyString => [EmptyString]
  | String c s' =>
    if is_char 10 c then EmptyString :: split_lines s'
    else match split_lines s' with
         | [] => [String c EmptyString]
         | l :: ls => String c l :: ls
         end
  end.

(** A line split at its first equals sign; a line without one has no property. *)
Fixpoint split_prop (line : string) : option (string * string) :=
  match line with
  | EmptyString => None
  | String c s' =>
    if is_char 61 c then Some (EmptyString, s')
    else '(k, v) ← split_prop s'; Some (String c k, v)
  end.

(** The properties of a file; a later line overrides an earlier one. *)
Definition parse_properties (s : string) : gmap string string :=
  foldl (λ m kv, <[kv.1 := kv.2]> m) ∅ (omap split_prop (split_lines s)).

(** ** Clean keys and values *)

Fixpoint has_char (n : nat) (s : string) : bool :=
  match s with
  | EmptyString => false
  | String c s' => is_char n c || has_char n s'
  end.

(** A value without its final newline. *)
Fixpoint chomp (s : string) : string :=
  match s with
  | EmptyString => EmptyString
  | String c s' =>
    match s' with
    | EmptyString => if is_char 10 c then EmptyString else String c EmptyString
    | _ => String c (chomp s')
    end
  end.

Definition clean_key (k : string) : Prop := has_char 10 k = false ∧ has_char 61 k = false.
Definition clean_value (v : string) : Prop := has_char 10 (chomp v) = false.

Definition clean_props (m : gmap string string) : Prop :=
  map_Forall (λ k v, clean_key k ∧ clean_value v) m.

(** ** Lemmas *)

Lemma has_char_append n a b : has_char n (a ⊕ b) = has_char n a || has_char n b.
Proof.
  induction a as [|c a IH]; [done|]. rewrite append_cons. simpl. rewrite IH.
  by destruct (is_char n c).
Qed.

Lemma split_lines_nl a s :
  has_char 10 a = false → split_lines (a ⊕ nl ⊕ s) = a :: split_lines s.
Proof.
  induction a as [|c a IH]; [done|]. rewrite append_cons. simpl.
  intros [Hc Ha]%orb_false_iff. by rewrite Hc, (IH Ha).
Qed.

Lemma split_prop_eq k v :
  has_char 61 k = false → split_prop (k ⊕ "=" ⊕ v)%string = Some (k, v).
Proof.
  induction k as [|c k IH]; [done|]. rewrite append_cons. simpl.
  intros [Hc Hk]%orb_false_iff. rewrite Hc. by rewrite (IH Hk).
Qed.

Lemma chomp_cases v : v = chomp v ∨ v = chomp v ⊕ nl.
Proof.
  induction v as [|c [|d v] IH]; [by left| |].
  - simpl. destruct (is_char 10 c) eqn:Hc; [|by left]. right.
    unfold is_char in Hc. apply Ascii.eqb_eq in Hc. by subst.
  - change (chomp (String c (String d v))) with (String c (chomp (String d v))).
    rewrite append_cons. destruct IH as [<-|<-]; [by left|by right].
Qed.

Lemma chomp_nl v : has_char 10 v = false → chomp v = v.
Proof.
  induction v as [|c [|d v] IH]; [done| |]; intros Hv.
  - simpl in *. by rewrite orb_false_r in Hv; rewrite Hv.
  - change (chomp (String c (String d v))) with (String c (chomp (String d v))).
    simpl in Hv. apply orb_false_iff in Hv as [_ Hv]. by rewrite IH.
Qed.

Lemma chomp_append_nl v : chomp (v ⊕ nl) = v.
Proof.
  induction v as [|c v IH]; [done|]. rewrite append_cons.
  destruct v as [|d v]; [done|].
  rewrite append_cons in *. simpl in *. by rewrite IH.
Qed.

(** The text of a list of properties. *)
Definition lines_of (l : list (string * string)) : string :=
  foldr (λ kv acc, prop_line kv ⊕ acc) EmptyString l.

Lemma write_props_lines sb l : write_props sb l = sb ⊕ lines_of l.
Proof.
  revert sb. induction l as [|kv l IH]; intros sb; simpl; [by rewrite append_nil_r|].
  unfold write_props in *. simpl. rewrite IH. by rewrite append_assoc.
Qed.

Lemma write_additional_lines sys sb l r :
  write_additional sys sb l = inr r → r = sb ⊕ lines_of l.
Proof.
  revert sb. induction l as [|[k v] l IH]; intros sb; simpl.
  - intros [= <-]. by rewrite append_nil_r.
  - destruct (sys !! k); [done|]. intros ->%IH. by rewrite append_assoc.
Qed.

Lemma lines_of_app l1 l2 : lines_of (l1 ++ l2) = lines_of l1 ⊕ lines_of l2.
Proof. induction l1 as [|kv l1 IH]; [done|]. simpl. by rewrite IH, append_assoc. Qed.

Lemma parse_line k v rest :
  clean_key k → clean_value v →
  omap split_prop (split_lines (prop_line (k, v) ⊕ rest))
  = (k, chomp v) :: omap split_prop (split_lines rest).
Proof.
  intros [Hk1 Hk2] Hv. unfold prop_line. simpl. rewrite !append_assoc.
  assert (has_char 10 (k ⊕ "=" ⊕ chomp v)%string = false) as Hline
    by (rewrite !has_char_append, Hk1, Hv; done).
  destruct (chomp_cases v) as [Hc|Hc]; rewrite Hc at 1.
  - replace (k ⊕ "=" ⊕ chomp v ⊕ nl ⊕ rest)%string
      with ((k ⊕ "=" ⊕ chomp v) ⊕ nl ⊕ rest)%string by by rewrite !append_assoc.
    rewrite split_lines_nl by done. simpl. by rewrite split_prop_eq.
  - replace (k ⊕ "=" ⊕ (chomp v ⊕ nl) ⊕ nl ⊕ rest)%string
      with ((k ⊕ "=" ⊕ chomp v) ⊕ nl ⊕ nl ⊕ rest)%string by by rewrite !append_assoc.
    rewrite split_lines_nl by done. simpl. rewrite split_prop_eq by done. done.
Qed.

Lemma parse_lines l :
  Forall (λ kv, clean_key kv.1 ∧ clean_value kv.2) l →
  omap split_prop (split_lines (lines_of l)) = (λ kv, (kv.1, chomp kv.2)) <$> l.
Proof.
  induction 1 as [|[k v] l [Hk Hv] _ IH]; [done|]. simpl lines_of.
  rewrite parse_line by done. simpl. by rewrite IH.
Qed.

(** Reading back what was written, in any order of the entries. *)
Lemma parse_lines_map l :
  NoDup l.*1 → clean_props (list_to_map l) →
  parse_properties (lines_of l) = chomp <$> (list_to_map l : gmap string string).
Proof.
  intros Hnd Hm. apply map_eq. intros k. unfold parse_properties.
  rewrite parse_lines.
  2:{ apply Forall_forall. intros [k' v] Hin.
      apply (Hm k' v). by apply elem_of_list_to_map_1. }
  assert (((λ kv, (kv.1, chomp kv.2)) <$> l).*1 = l.*1) as Hfst.
  { rewrite <-list_fmap_compose. by apply list_fmap_ext. }
  rewrite foldl_insert_lookup by by rewrite Hfst.
  assert ((list_to_map ((λ kv, (kv.1, chomp kv.2)) <$> l) : gmap string string)
          = chomp <$> list_to_map l) as ->.
  { clear. induction l as [|[k v] l IH]; [symmetry; apply fmap_empty|].
    rewrite fmap_cons, !list_to_map_cons, fmap_insert. by rewrite <-IH. }
  destruct ((chomp <$> list_to_map l) !! k); [done|]. by rewrite lookup_empty.
Qed.

Section ranges.
Context `{GoMapRange}.

Lemma parse_range site (m : gmap string string) :
  clean_props m → parse_properties (lines_of (map_range site m)) = chomp <$> m.
Proof.
  intros Hm. rewrite <-(list_to_map_range site m) at 2.
  apply parse_lines_map; [apply NoDup_map_range_keys|]. by rewrite list_to_map_range.
Qed.

(** Two maps with no common key, written one after the other. *)
Lemma parse_two_ranges i j (m1 m2 : gmap string string) :
  m1 ##ₘ m2 → clean_props m1 → clean_props m2 →
  parse_properties (lines_of (map_range i m1) ⊕ lines_of (map_range j m2))
  = chomp <$> (m1 ∪ m2).
Proof.
  intros Hd H1 H2. rewrite <-lines_of_app.
  assert (list_to_map (map_range i m1 ++ map_range j m2) = m1 ∪ m2) as Heq
    by by rewrite list_to_map_app, !list_to_map_range.
  rewrite <-Heq. apply parse_lines_map.
  - rewrite fmap_app. apply NoDup_app. split_and!; [apply NoDup_map_range_keys| |
      apply NoDup_map_range_keys].
    intros k [[k1 v1] [-> Hin1]]%list_elem_of_fmap [[k2 v2] [Hk Hin2]]%list_elem_of_fmap.
    simpl in Hk. subst k2. apply elem_of_map_range in Hin1, Hin2.
    by eapply (map_disjoint_spec m1 m2).
  - rewrite Heq. by apply map_Forall_union_2.
Qed.
End ranges.

(** Decimal numbers have no newline. *)
Lemma pretty_N_go_clean n s : has_char 10 s = false → has_char 10 (pretty_N_go n s) = false.
Proof.
  revert s. induction (N.lt_wf_0 n) as [n _ IH]. intros s Hs.
  destruct (decide (0 < n)%N) as [Hn|Hn].
  - rewrite pretty_N_go_step by done. apply IH; [by apply N.div_lt|].
    simpl. rewrite Hs, orb_false_r. unfold pretty_N_char. by repeat case_match.
  - replace n with 0%N by lia. by rewrite pretty_N_go_0.
Qed.

Lemma fmt_d_clean z : has_char 10 (fmt_d z) = false.
Proof.
  unfold fmt_d, pretty, pretty_Z. destruct z as [|p|p]; [done| |].
  - unfold pretty, pretty_positive, pretty, pretty_N. case_decide; [done|].
    by apply pretty_N_go_clean.
  - rewrite has_char_append. simpl.
    unfold pretty, pretty_positive, pretty, pretty_N. case_decide; [done|].
    by apply pretty_N_go_clean.
Qed.

Global Arguments chomp : simpl never.
