(* ===== verification/Catalog.v ===== *)
(** Catalogs: pkg/controller/presto/catalog.go (createCatalogConfig, which calls
    the API, is in ConfigMaps.v). *)

From S2P Require Import Prelude ApiTypes K8sTypes Names Config.

Local Open Scope string_scope.

(** The projection of one catalog secret: its key becomes a properties file. *)
Definition catalogSecretProjection (s : CatalogSecret) : VolumeProjection :=
  ProjSecret (csec_SecretName s)
    [mkKeyToPath (csec_SecretKey s) (csec_SecretKey s ⊕ catalogFileSuffix)].

Definition getCatalogVolumeMount (presto : Presto) (podSpec : PodSpec)
    : option (PodSpec * VolumeMount) :=
  let uuid := p_Uuid presto in
  configMap ← getCatalogConfigMapName uuid;
  let volumeProjectionsCatalogs :=
    ProjConfigMap configMap ::
    map catalogSecretProjection (cl_CatalogSecrets (Catalogs (Spec presto))) in
  volName ← getCatalogVolName uuid;
  let catalogVolume := mkVolume volName (VSProjected volumeProjectionsCatalogs) in
  Some (append_volume podSpec catalogVolume,
        readOnlyMount volName (getPrestoPath presto ⊕ catalogMountPath)).

(** The catalogs the operator adds by default. *)
Definition defaultCatalogs : gmap string string := list_to_map [
  ("jmx", "connector.name=jmx" ⊕ nl);
  ("tpch", "connector.name=tpch" ⊕ nl);
  ("tpcds", "connector.name=tpcds" ⊕ nl)].

(** Whether the two inner loops of getDefaultCatalogs set the flag: the resource
    names a catalog [catalogName] itself, in its spec or as a secret key. *)
Definition catalogPresentInSpec (presto : Presto) (catalogName : string) : bool :=
  existsb (λ c, String.eqb (cat_Name c) catalogName) (cl_CatalogSpec (Catalogs (Spec presto)))
  || existsb (λ s, String.eqb (csec_SecretKey s) catalogName)
       (cl_CatalogSecrets (Catalogs (Spec presto))).

Section catalog.
Context `{GoMapRange}.

Definition getDefaultCatalogs (presto : Presto) : gmap string string :=
  foldl (λ pruned '(catalogName, content),
           if catalogPresentInSpec presto catalogName then pruned
           else <[catalogName := content]> pruned)
        ∅ (map_range 7 defaultCatalogs).

(** The first loop of buildCatalogConfigMap, from the [i]-th catalog on. *)
Fixpoint addSpecCatalogs (i : nat) (l : list CatalogSpec) (catalogData : gmap string string)
    : gmap string string :=
  match l with
  | [] => catalogData
  | catalog :: l' =>
    let sb := write_props EmptyString (map_range (9 + i) (cat_Content catalog)) in
    addSpecCatalogs (S i) l' (<[cat_Name catalog ⊕ catalogFileSuffix := sb]> catalogData)
  end.

Definition buildCatalogConfigMap (presto : Presto) (catalogConfigName : string)
    (labels : gmap string string) : goerror + ConfigMap :=
  let catalogData := addSpecCatalogs 0 (cl_CatalogSpec (Catalogs (Spec presto))) ∅ in
  let catalogData :=
    foldl (λ data '(k, v), <[k ⊕ catalogFileSuffix := v]> data)
          catalogData (map_range 8 (getDefaultCatalogs presto)) in
  inr (mkConfigMap
    (newObjectMeta catalogConfigName EmptyString (p_Namespace presto) labels
       [getOwnerReference presto])
    catalogData).
End catalog.
