(* ===== verification/Pods.v ===== *)
(** Pod templates: the part of pkg/controller/presto/presto_pods.go that builds
    pod specs and ReplicaSet objects. The part that calls the API is in
    ReplicaSets.v. *)

From S2P Require Import Prelude ApiTypes K8sTypes Names Config Catalog.

Local Open Scope string_scope.

(** [podSpec.Containers[0].VolumeMounts = append(..., m)]: the index panics on a
    pod without containers. *)
Definition append_mounts (podSpec : PodSpec) (ms : list VolumeMount) : option PodSpec :=
  match ps_Containers podSpec with
  | [] => None
  | c :: cs =>
    Some (mkPodSpec (ps_TerminationGracePeriodSeconds podSpec)
      (mkContainer (co_Name c) (co_Image c) (co_Limits c) (co_Requests c) (co_Lifecycle c)
         (co_VolumeMounts c ++ ms) :: cs)
      (ps_Hostname podSpec) (ps_Subdomain podSpec) (ps_Volumes podSpec))
  end.

(** The user's volumes and their mounts, as the two append functions make them. *)
Definition additionalVolume (volSpec : PrestoVolumeSpec) : Volume :=
  mkVolume (pv_Name volSpec) (pv_VolumeSource volSpec).

Definition additionalVolumeMount (volSpec : PrestoVolumeSpec) : VolumeMount :=
  mkVolumeMount (pv_Name volSpec) (pv_ReadOnly volSpec) (pv_MountPath volSpec)
    (pv_SubPath volSpec) (pv_MountPropagation volSpec) (pv_SubPathExpr volSpec).

Definition appendAdditionalVolumes (presto : Presto) (podSpec : PodSpec) : PodSpec :=
  foldl (λ ps volSpec, append_volume ps (additionalVolume volSpec))
        podSpec (Volumes (Spec presto)).

Fixpoint appendAdditionalVolumeMounts_loop (vols : list PrestoVolumeSpec) (podSpec : PodSpec)
    : option PodSpec :=
  match vols with
  | [] => Some podSpec
  | volSpec :: vols' =>
    podSpec' ← append_mounts podSpec [additionalVolumeMount volSpec];
    appendAdditionalVolumeMounts_loop vols' podSpec'
  end.

Definition appendAdditionalVolumeMounts (presto : Presto) (podSpec : PodSpec) : option PodSpec :=
  appendAdditionalVolumeMounts_loop (Volumes (Spec presto)) podSpec.

Definition getHTTPSVolumeMount (presto : Presto) (podSpec : PodSpec)
    : option (PodSpec * VolumeMount) :=
  volName ← getHTTPSSecretVolName (p_Uuid presto);
  let httpsSecretVolume :=
    mkVolume volName (VSSecret (cs_HttpsKeyPairSecretName (Coordinator (Spec presto)))) in
  Some (append_volume podSpec httpsSecretVolume, readOnlyMount volName httpsVolPath).

(** The hook run before a worker stops. *)
Definition workerLifecycle (presto : Presto) : Lifecycle :=
  mkLifecycle ["/bin/sh"; getPrestoPath presto ⊕ "/" ⊕ prestoShutdownScript].

Definition createPrestoPodSpec (presto : Presto) (isCoordinator : bool)
    (limitResource requestResource : gmap string Quantity) : option PodSpec :=
  let uuid := p_Uuid presto in
  let imageName := is_Name (ImageDetails (Spec presto)) in
  let imageName := if is_empty imageName then "prestosql/presto:333" else imageName in
  containerPrefix ← (if isCoordinator then getCoordinatorContainerName uuid
                     else getWorkerContainerPrefix uuid);
  let lifecycle := if isCoordinator then None else Some (workerLifecycle presto) in
  let terminationGraceSeconds :=
    if isCoordinator then None
    else match ws_TerminationGracePeriodSeconds (Worker (Spec presto)) with
         | None => Some DefaultTerminationGracePeriodSeconds
         | Some s => Some s
         end in
  hostname ← (if isCoordinator then getCoordinatorContainerName uuid else Some EmptyString);
  subdomain ← (if isCoordinator then getPodDiscoveryServiceName uuid else Some EmptyString);
  let podSpec := mkPodSpec terminationGraceSeconds
    [mkContainer containerPrefix imageName limitResource requestResource lifecycle []]
    hostname subdomain [] in
  '(podSpec, catalogMount) ← getCatalogVolumeMount presto podSpec;
  '(podSpec, propsMount) ← getPropsVolumeMount presto podSpec isCoordinator;
  let podSpec := appendAdditionalVolumes presto podSpec in
  podSpec ← append_mounts podSpec [propsMount];
  podSpec ← append_mounts podSpec [catalogMount];
  podSpec ← (if isCoordinator && cs_HttpsEnabled (Coordinator (Spec presto)) then
               '(podSpec, httpsMount) ← getHTTPSVolumeMount presto podSpec;
               append_mounts podSpec [httpsMount]
             else Some podSpec);
  appendAdditionalVolumeMounts presto podSpec.

Section resources.
Context `{Apimachinery}.

(** [q, err = resource.ParseQuantity(s)] with the error wrapped in an
    OperatorError that names the field. *)
Definition parseField (field s : string) : goerror + Quantity :=
  match ParseQuantity s with
  | (_, Some err) =>
    inl (OperatorError ("cannot parse " ⊕ field ⊕ ": '" ⊕ s ⊕ "': " ⊕ Error err))
  | (q, None) => inr q
  end.

Definition getPrestoWorkerPod (presto : Presto) : option (goerror + PodSpec) :=
  let w := Worker (Spec presto) in
  match parseField "presto.Spec.Worker.CpuLimit" (ws_CpuLimit w) with
  | inl err => Some (inl err)
  | inr cpuLimit =>
  match parseField "presto.Spec.Worker.MemoryLimit" (ws_MemoryLimit w) with
  | inl err => Some (inl err)
  | inr memLimit =>
  match (if is_empty (ws_CpuRequest w)
         then parseField "presto.Spec.Worker.CpuLimit" (ws_CpuLimit w)
         else parseField "presto.Spec.Worker.CpuRequest" (ws_CpuRequest w)) with
  | inl err => Some (inl err)
  | inr cpuRequest =>
    podSpec ← createPrestoPodSpec presto false
      (<[ResourceMemory := memLimit]> {[ResourceCPU := cpuLimit]})
      {[ResourceCPU := cpuRequest]};
    Some (inr podSpec)
  end end end.

(** The memory limit of the coordinator pod is read from the worker's field,
    as in the source. *)
Definition getPrestoCoordinatorPodSpec (presto : Presto) : option (goerror + PodSpec) :=
  let c := Coordinator (Spec presto) in
  match parseField "presto.Spec.Coordinator.CpuLimit" (cs_CpuLimit c) with
  | inl err => Some (inl err)
  | inr cpuLimit =>
  match parseField "presto.Spec.Worker.MemoryLimit" (ws_MemoryLimit (Worker (Spec presto))) with
  | inl err => Some (inl err)
  | inr memLimit =>
  match (if is_empty (cs_CpuRequest c)
         then parseField "presto.Spec.Coordinator.CpuLimit" (cs_CpuLimit c)
         else parseField "presto.Spec.Coordinator.CpuRequest" (cs_CpuRequest c)) with
  | inl err => Some (inl err)
  | inr cpuRequest =>
    podSpec ← createPrestoPodSpec presto true
      (<[ResourceMemory := memLimit]> {[ResourceCPU := cpuLimit]})
      {[ResourceCPU := cpuRequest]};
    Some (inr podSpec)
  end end end.

(** The ReplicaSet literal of the two create functions. *)
Definition newReplicaSet (presto : Presto) (generateName : string)
    (lbls : gmap string string) (replicas : Z) (podSpec : PodSpec) : ReplicaSet :=
  mkReplicaSet noTypeMeta
    (newObjectMeta EmptyString generateName (p_Namespace presto) lbls
       [getOwnerReference presto])
    (Some replicas) lbls
    (mkPodTemplateSpec
       (newObjectMeta EmptyString EmptyString (p_Namespace presto) lbls
          [getOwnerReference presto])
       podSpec)
    0%Z.

Definition createReplicaSetForWorker (presto : Presto) (lbls : gmap string string)
    (workerCount : Z) : option (goerror + ReplicaSet) :=
  r ← getPrestoWorkerPod presto;
  match r with
  | inl err => Some (inl err)
  | inr podSpec =>
    generateName ← getWorkerReplicaSet (p_Uuid presto);
    Some (inr (newReplicaSet presto generateName lbls workerCount podSpec))
  end.

Definition createReplicaSetForCoordinator (presto : Presto) (lbls : gmap string string)
    : option (goerror + ReplicaSet) :=
  r ← getPrestoCoordinatorPodSpec presto;
  match r with
  | inl err => Some (inl err)
  | inr podSpec =>
    generateName ← getCoordinatorReplicaset (p_Uuid presto);
    Some (inr (newReplicaSet presto generateName lbls 1%Z podSpec))
  end.
End resources.
