(* ===== verification/Effects.v ===== *)
(** Effects of the controller.

    The operator acts on the world through the client of controller-runtime, the
    metrics client, the event recorder, the clock, the UUID generator and the
    sync.Map [registeredPrestos] it shares with its periodic goroutine. A
    function of the controller that does so is a [prog]: a tree whose nodes are
    requests and whose branches are the possible responses. A request is
    answered by code outside the repository, so nothing is assumed of the
    responses here: [wp] quantifies over all of them, and [run] takes the
    environment as a parameter. *)

From S2P Require Import Prelude ApiTypes K8sTypes.

(** ** Requests and responses *)

Inductive req :=
  | GetPresto (key : NamespacedName)
  | ListPrestos (ns : string) (sel : gmap string string)
  | UpdatePrestoStatus (p : Presto)
  | ListServices (ns : string) (sel : gmap string string)
  | CreateService (s : Service)
  | ListConfigMaps (ns : string) (sel : gmap string string)
  | CreateConfigMap (cm : ConfigMap)
  | ListReplicaSets (ns : string) (sel : gmap string string)
  | CreateReplicaSet (rs : ReplicaSet)
  | UpdateReplicaSet (rs : ReplicaSet)
  | ListHPAs (ns : string) (sel : gmap string string)
  | CreateHPA (h : HorizontalPodAutoscaler)
  | UpdateHPA (h : HorizontalPodAutoscaler)
  | DeleteHPA (h : HorizontalPodAutoscaler)
  | ListPods (ns : string) (sel : gmap string string)
  | ListPodMetrics (ns : string) (tm : TypeMeta) (sel : gmap string string)
  | Now
  | NewUUID
  | Eventf (p : Presto) (eventtype reason message : string)
  | RegisteredLoad (key : NamespacedName)
  | RegisteredStore (key : NamespacedName) (p : Presto)
  | RegisteredDelete (key : NamespacedName).

(** A read answers with an error or the objects; a write whose object is used
    afterwards answers with an error or the object as the API server returns
    it, which the client decodes into the argument. *)
Definition resp (r : req) : Type :=
  match r with
  | GetPresto _ => goerror + Presto
  | ListPrestos _ _ => goerror + list Presto
  | UpdatePrestoStatus _ => goerror + Presto
  | ListServices _ _ => goerror + list Service
  | ListConfigMaps _ _ => goerror + list ConfigMap
  | ListReplicaSets _ _ => goerror + list ReplicaSet
  | CreateReplicaSet _ | UpdateReplicaSet _ => goerror + ReplicaSet
  | ListHPAs _ _ => goerror + list HorizontalPodAutoscaler
  | CreateService _ | CreateConfigMap _ | CreateHPA _ | UpdateHPA _ | DeleteHPA _ =>
    option goerror
  | ListPods _ _ => goerror + list Pod
  | ListPodMetrics _ _ _ => goerror + list PodMetrics
  | Now => Z
  | NewUUID => string
  | Eventf _ _ _ _ => unit
  | RegisteredLoad _ => option Presto
  | RegisteredStore _ _ | RegisteredDelete _ => unit
  end.

(** ** Programs *)

Inductive prog (A : Type) : Type :=
  | Ret (a : A)
  | Panic
  | Vis (r : req) (k : resp r → prog A).

Arguments Ret {A} a.
Arguments Panic {A}.
Arguments Vis {A} r k.

Fixpoint prog_bind {A B} (f : A → prog B) (m : prog A) : prog B :=
  match m with
  | Ret a => f a
  | Panic => Panic
  | Vis r k => Vis r (λ x, prog_bind f (k x))
  end.

#[export] Instance prog_ret : MRet prog := @Ret.
#[export] Instance prog_mbind : MBind prog := @prog_bind.

(** One request. *)
Definition call (r : req) : prog (resp r) := Vis r Ret.

(** A pure computation that may panic. *)
Definition ofOption {A} (o : option A) : prog A :=
  match o with Some a => Ret a | None => Panic end.

(** ** One reconciliation

    The functions called by Reconcile share two mutable objects: the Presto
    resource, which updateStatus modifies in place when the cache does not list
    it, and the label map [baseLabels], to which the two service functions add
    a key. *)
Record shared := mkShared {
  sh_presto : Presto;
  sh_baseLabels : gmap string string
}.

Definition M (A : Type) : Type := shared → prog (A * shared).

Definition M_ret {A} (a : A) : M A := λ s, Ret (a, s).
Definition M_bind {A B} (f : A → M B) (m : M A) : M B :=
  λ s, prog_bind (λ '(a, s'), f a s') (m s).

#[export] Instance M_mret : MRet M := @M_ret.
#[export] Instance M_mbind : MBind M := @M_bind.

Definition liftP {A} (m : prog A) : M A := λ s, prog_bind (λ a, Ret (a, s)) m.
Definition callM (r : req) : M (resp r) := liftP (call r).
Definition liftO {A} (o : option A) : M A := liftP (ofOption o).

Definition getPrestoObj : M Presto := λ s, Ret (sh_presto s, s).
Definition putPrestoObj (p : Presto) : M unit :=
  λ s, Ret (tt, mkShared p (sh_baseLabels s)).
Definition getLabels : M (gmap string string) := λ s, Ret (sh_baseLabels s, s).
Definition putLabels (l : gmap string string) : M unit :=
  λ s, Ret (tt, mkShared (sh_presto s) l).

(** ** Outcomes and traces *)

Inductive outcome (A : Type) :=
  | Returned (a : A)
  | Panicked.

Arguments Returned {A} a.
Arguments Panicked {A}.

(** A request with the response it got. *)
Definition event : Type := { r : req & resp r }.
Definition ev (r : req) (x : resp r) : event := existT r x.

Definition trace := list event.

Definition requests (t : trace) : list req := projT1 <$> t.

(** What is known of the responses to a request. *)
Definition contract : Type := ∀ r : req, resp r → Prop.

(** Nothing is known. *)
Definition anyResponse : contract := λ _ _, True.

(** [wp E m Q]: whatever the responses that [E] allows, the trace of [m] and its
    outcome satisfy [Q]. *)
Fixpoint wp {A} (E : contract) (m : prog A) (Q : trace → outcome A → Prop) : Prop :=
  match m with
  | Ret a => Q [] (Returned a)
  | Panic => Q [] Panicked
  | Vis r k => ∀ x, E r x → wp E (k x) (λ t o, Q (ev r x :: t) o)
  end.

(** An environment answers a request and moves to its next state. *)
Definition env (W : Type) := W → ∀ r : req, resp r * W.

Fixpoint run {W A} (h : env W) (m : prog A) (w : W) : outcome A * trace * W :=
  match m with
  | Ret a => (Returned a, [], w)
  | Panic => (Panicked, [], w)
  | Vis r k =>
    let '(x, w1) := h w r in
    let '(o, t, w2) := run h (k x) w1 in
    (o, ev r x :: t, w2)
  end.

(** An environment that keeps a contract. *)
Definition keeps {W} (h : env W) (E : contract) : Prop := ∀ w r, E r (h w r).1.

(** ** Lemmas *)

Lemma wp_mono {A} E (m : prog A) (P Q : trace → outcome A → Prop) :
  (∀ t o, P t o → Q t o) → wp E m P → wp E m Q.
Proof.
  revert P Q. induction m as [a| |r k IH]; intros P Q HPQ; simpl; [by apply HPQ..|].
  intros Hm x Hx. eapply IH; [|by apply Hm]. intros t o. apply HPQ.
Qed.

Lemma wp_bind {A B} E (m : prog A) (f : A → prog B) (Q : trace → outcome B → Prop) :
  wp E m (λ t o, match o with
                 | Returned a => wp E (f a) (λ t' o', Q (t ++ t') o')
                 | Panicked => Q t Panicked
                 end) →
  wp E (prog_bind f m) Q.
Proof.
  revert Q. induction m as [a| |r k IH]; intros Q; simpl; [done..|].
  intros Hm x Hx. by apply IH, Hm.
Qed.

Lemma wp_and {A} E (m : prog A) (P Q : trace → outcome A → Prop) :
  wp E m P → wp E m Q → wp E m (λ t o, P t o ∧ Q t o).
Proof.
  revert P Q. induction m as [a| |r k IH]; intros P Q; simpl; [done..|].
  intros HP HQ x Hx. apply IH; [by apply HP|by apply HQ].
Qed.

Lemma wp_bind_assoc {A B C} E (m : prog A) (f : A → prog B) (g : B → prog C) Q :
  wp E (prog_bind (λ a, prog_bind g (f a)) m) Q → wp E (prog_bind g (prog_bind f m)) Q.
Proof.
  revert Q. induction m as [a| |r k IH]; intros Q; simpl; [done..|].
  intros Hm x Hx. by apply IH, Hm.
Qed.

(** What holds for all the responses a contract allows holds in every
    environment that keeps the contract. *)
Lemma wp_run {W A} E (h : env W) (m : prog A) (Q : trace → outcome A → Prop) w :
  keeps h E → wp E m Q → Q (run h m w).1.2 (run h m w).1.1.
Proof.
  intros Hk. revert Q w. induction m as [a| |r k IH]; intros Q w; simpl; [done..|].
  intros Hm. specialize (Hk w r). destruct (h w r) as [x w1].
  specialize (IH x _ w1 (Hm x Hk)). by destruct (run h (k x) w1) as [[o t] w2].
Qed.

Lemma keeps_any {W} (h : env W) : keeps h anyResponse.
Proof. done. Qed.

Lemma run_bind {W A B} (h : env W) (m : prog A) (f : A → prog B) w :
  run h (prog_bind f m) w =
  match run h m w with
  | (Returned a, t, w1) =>
    let '(o, t', w2) := run h (f a) w1 in (o, t ++ t', w2)
  | (Panicked, t, w1) => (Panicked, t, w1)
  end.
Proof.
  revert w. induction m as [a| |r k IH]; intros w; simpl.
  - by destruct (run h (f a) w) as [[??]?].
  - done.
  - destruct (h w r) as [x w1]. rewrite IH.
    destruct (run h (k x) w1) as [[[a|] t] w2]; [|done].
    by destruct (run h (f a) w2) as [[??]?].
Qed.

Lemma requests_app t1 t2 : requests (t1 ++ t2) = requests t1 ++ requests t2.
Proof. apply fmap_app. Qed.
