(* ===== verification/Status.v ===== *)
(** The status of a cluster: getPresto, ClusterUpdateAction, updateStatus,
    getCPUUsage and getCoordinatorPodPhase of
    pkg/controller/presto/presto_controller.go. *)

From S2P Require Import Prelude ApiTypes K8sTypes Names Effects.

Local Open Scope string_scope.

(** ** Status updates *)

(** What a stage of Reconcile wants to change in the status; a nil pointer, or
    the empty cluster state, leaves a field alone. *)
Record ClusterUpdateAction := mkAction {
  cu_clusterUUID : option string;
  cu_service : option Service;
  cu_headlessService : option string;
  cu_workerConfMap : option string;
  cu_coordinatorConfMap : option string;
  cu_catalogConfMap : option string;
  cu_coordinatorReplicaSetName : option string;
  cu_hpaName : option string;
  cu_workerReplicaSet : option ReplicaSet;
  cu_clusterState : ClusterState;
  cu_errorReason : option string;
  cu_coordinatorCPUUsage : option string;
  cu_workerCPUUsage : option string
}.

(** The struct literals of the source, which set one or two fields. *)
Definition noAction : ClusterUpdateAction :=
  mkAction None None None None None None None None None EmptyString None None None.

Definition actUUID (u : string) : ClusterUpdateAction :=
  mkAction (Some u) None None None None None None None None EmptyString None None None.
Definition actError (reason : string) : ClusterUpdateAction :=
  mkAction None None None None None None None None None ClusterFailedState (Some reason) None None.
Definition actHeadless (n : string) : ClusterUpdateAction :=
  mkAction None None (Some n) None None None None None None ClusterPending None None None.
Definition actService (s : option Service) : ClusterUpdateAction :=
  mkAction None s None None None None None None None ClusterPending None None None.
Definition actWorkerConfig (n : string) : ClusterUpdateAction :=
  mkAction None None None (Some n) None None None None None ClusterPending None None None.
Definition actCoordinatorConfig (n : string) : ClusterUpdateAction :=
  mkAction None None None None (Some n) None None None None ClusterPending None None None.
Definition actCatalogConfig (n : string) : ClusterUpdateAction :=
  mkAction None None None None None (Some n) None None None ClusterPending None None None.
Definition actCoordinatorReplicaSet (n : string) : ClusterUpdateAction :=
  mkAction None None None None None None (Some n) None None ClusterPending None None None.
Definition actHpa (n : string) : ClusterUpdateAction :=
  mkAction None None None None None None None (Some n) None ClusterPending None None None.
Definition actWorkers (state : ClusterState) (rs : ReplicaSet) : ClusterUpdateAction :=
  mkAction None None None None None None None None (Some rs) state None None None.
Definition actReady (rs : ReplicaSet) (coordinatorCPU workerCPU : string) : ClusterUpdateAction :=
  mkAction None None None None None None None None (Some rs) ClusterReadyState None
    (Some coordinatorCPU) (Some workerCPU).

(** Service name and coordinator address; [Ports[0]] panics on a service
    without ports. *)
Definition serviceFields (svc : option Service) (st : PrestoStatus) : option (string * string) :=
  match svc with
  | None => Some (st_Service st, CoordinatorAddress st)
  | Some s =>
    match kss_Ports (svc_Spec s) with
    | [] => None
    | port :: _ =>
      Some (om_Name (svc_ObjectMeta s),
            kss_ClusterIP (svc_Spec s) ⊕ ":" ⊕ fmt_d (sp_Port port) ⊕ "/"
              ⊕ fmt_d (sp_NodePort port))
    end
  end.

(** ReplicaSet name, desired and current workers; [*Spec.Replicas] panics when
    the pointer is nil. *)
Definition workerFields (rs : option ReplicaSet) (st : PrestoStatus) : option (string * Z * Z) :=
  match rs with
  | None => Some (WorkerReplicaset st, DesiredWorkers st, CurrentWorkers st)
  | Some r =>
    replicas ← deref (rs_Replicas r);
    Some (om_Name (rs_ObjectMeta r), replicas, rs_AvailableReplicas r)
  end.

Definition is_set {A} (p : option A) : bool :=
  match p with Some _ => true | None => false end.

(** The flag [update] of updateStatus: some field of the action is set. *)
Definition action_updates (a : ClusterUpdateAction) : bool :=
  is_set (cu_clusterUUID a) || is_set (cu_service a) || is_set (cu_headlessService a)
  || is_set (cu_workerConfMap a) || is_set (cu_coordinatorConfMap a)
  || is_set (cu_catalogConfMap a) || is_set (cu_coordinatorReplicaSetName a)
  || is_set (cu_hpaName a) || negb (is_empty (cu_clusterState a))
  || is_set (cu_errorReason a) || is_set (cu_workerCPUUsage a)
  || is_set (cu_coordinatorCPUUsage a) || is_set (cu_workerReplicaSet a).

(** The assignments of updateStatus to [prestoCopy.Status], and the flag
    [update]. *)
Definition applyAction (a : ClusterUpdateAction) (st : PrestoStatus) : option (PrestoStatus * bool) :=
  '(svcName, address) ← serviceFields (cu_service a) st;
  '(wrs, desired, current) ← workerFields (cu_workerReplicaSet a) st;
  let st' := mkPrestoStatus
    (default (Uuid st) (cu_clusterUUID a))
    desired current
    (default (HeadlessService st) (cu_headlessService a))
    svcName address
    (default (CatalogConfig st) (cu_catalogConfMap a))
    (default (CoordinatorConfig st) (cu_coordinatorConfMap a))
    (default (WorkerConfig st) (cu_workerConfMap a))
    wrs
    (default (CoordinatorReplicaset st) (cu_coordinatorReplicaSetName a))
    (default (HpaName st) (cu_hpaName a))
    (if is_empty (cu_clusterState a) then st_ClusterState st else cu_clusterState a)
    (default (ErrorReason st) (cu_errorReason a))
    (ModificationTime st)
    (default (CoordinatorCPU st) (cu_coordinatorCPUUsage a))
    (default (WorkerCPU st) (cu_workerCPUUsage a)) in
  Some (st', action_updates a).

Definition set_ModificationTime (st : PrestoStatus) (now : Z) : PrestoStatus :=
  mkPrestoStatus (Uuid st) (DesiredWorkers st) (CurrentWorkers st) (HeadlessService st)
    (st_Service st) (CoordinatorAddress st) (CatalogConfig st) (CoordinatorConfig st)
    (WorkerConfig st) (WorkerReplicaset st) (CoordinatorReplicaset st) (HpaName st)
    (st_ClusterState st) (ErrorReason st) now (CoordinatorCPU st) (WorkerCPU st).

(** The resource as listed by the cache, or nil when it is not listed. *)
Definition getPresto (oldPrestoObj : Presto) : prog (goerror + option Presto) :=
  r ← call (ListPrestos (p_Namespace oldPrestoObj) (p_Labels oldPrestoObj));
  match r with
  | inl err => mret (inl err)
  | inr items => mret (inr (List.find (λ pc, String.eqb (p_Name pc) (p_Name oldPrestoObj)) items))
  end.

(** Writing through [prestoCopy]: it is the shared object itself when the cache
    did not list the resource, and a copy otherwise. *)
Definition storeBack (listed : option Presto) (prestoCopy : Presto) : M unit :=
  match listed with
  | Some _ => mret tt
  | None => putPrestoObj prestoCopy
  end.

Definition updateStatus (updateAction : ClusterUpdateAction) : M (bool * option goerror) :=
  presto ← getPrestoObj;
  r ← liftP (getPresto presto);
  match r with
  | inl err => mret (false, Some err)
  | inr listed =>
    let prestoCopy := default presto listed in
    '(st, update) ← liftO (applyAction updateAction (Status prestoCopy));
    let prestoCopy := set_Status prestoCopy st in
    _ ← storeBack listed prestoCopy;
    if (update : bool) then
      now ← callM Now;
      let prestoCopy := set_Status prestoCopy (set_ModificationTime st now) in
      _ ← storeBack listed prestoCopy;
      r ← callM (UpdatePrestoStatus prestoCopy);
      match r with
      | inl err => mret (false, Some err)
      | inr stored =>
        _ ← storeBack listed stored;
        mret (update, None)
      end
    else mret (update, None)
  end.

(** ** CPU usage *)

Section cpu.
Context `{GoMapRange, Apimachinery}.

(** The body of the innermost loop over [cm.Usage], with [totalAllotted] and
    [totalUsed] as its state. *)
Definition addUsage (containerPrefix : string) (allotted : Z) (cm : ContainerMetrics)
    (tot : Z * Z) (ku : string * Quantity) : Z * Z :=
  if String.eqb ku.1 ResourceCPU && String.eqb (cmx_Name cm) containerPrefix
  then (wrap64 (tot.1 + allotted), wrap64 (tot.2 + q_MilliValue ku.2))
  else tot.

Definition sumContainer containerPrefix allotted (tot : Z * Z) (cm : ContainerMetrics) : Z * Z :=
  foldl (addUsage containerPrefix allotted cm) tot (map_range 0 (cmx_Usage cm)).

Definition sumUsage containerPrefix allotted (items : list PodMetrics) : Z * Z :=
  foldl (λ tot pm, foldl (sumContainer containerPrefix allotted) tot (pmx_Containers pm))
        (0%Z, 0%Z) items.

(** [(totalUsed * 100) / totalAllotted] in int64, 0 when nothing is allotted. *)
Definition usagePercent (tot : Z * Z) : Z :=
  if (tot.1 =? 0)%Z then 0%Z else wrap64 (Z.quot (wrap64 (tot.2 * 100)) tot.1).

Definition getCPUUsage (presto : Presto) (isCoordinator : bool) : prog Z :=
  let uuid := p_Uuid presto in
  let podLabels := single_label
    (if isCoordinator then getCoordinatorPodLabel uuid else getWorkerPodLabel uuid) in
  containerPrefix ← ofOption (if isCoordinator then getCoordinatorContainerName uuid
                              else getWorkerContainerPrefix uuid);
  let cpuLimit := if isCoordinator then cs_CpuLimit (Coordinator (Spec presto))
                  else ws_CpuLimit (Worker (Spec presto)) in
  r ← call (ListPodMetrics (p_Namespace presto) (p_TypeMeta presto) podLabels);
  match r with
  | inl _ => mret 0%Z
  | inr items =>
    let '(allottedQuantity, _) := ParseQuantity cpuLimit in
    mret (usagePercent (sumUsage containerPrefix (q_MilliValue allottedQuantity) items))
  end.
End cpu.

(** ** Phase of the coordinator pod *)

Section phase.
Context `{GoMapRange}.

Definition getCoordinatorPodPhase (presto : Presto) (baseLabels : gmap string string)
    : prog (option goerror * PodPhase) :=
  r ← call (ListPods (p_Namespace presto) (getCoordinatorPodLabels baseLabels (p_Uuid presto)));
  match r with
  | inl err => mret (Some err, PodUnknown)
  | inr [] => mret (None, PodUnknown)
  | inr (pod :: _) => mret (None, pod_Phase pod)
  end.
End phase.
