(* ===== verification/Services.v ===== *)
(** The two services of a cluster: pkg/controller/presto/services.go. *)

From S2P Require Import Prelude ApiTypes K8sTypes Names Effects.

Local Open Scope string_scope.

(** The headless service object. Its selector is the label map itself. *)
Definition headlessService (presto : Presto) (name : string) (lbls : gmap string string) : Service :=
  mkService
    (newObjectMeta name EmptyString (p_Namespace presto) lbls [getOwnerReference presto])
    (mkK8sServiceSpec lbls "None" EmptyString [] EmptyString EmptyString [] EmptyString
       EmptyString 0%Z false None None []).

(** Returns the error and whether the service was created. *)
Definition createHeadLessPodDiscoverySvc (presto : Presto) : M (option goerror * bool) :=
  let kv := getPodDiscoveryServiceLabel (p_Uuid presto) in
  lbls ← getLabels;
  let lbls := set_label kv lbls in
  _ ← putLabels lbls;
  name ← liftO (getPodDiscoveryServiceName (p_Uuid presto));
  let service := headlessService presto name lbls in
  r ← callM (ListServices (p_Namespace presto) (single_label kv));
  match r with
  | inl err => mret (Some err, false)
  | inr [] =>
    createErr ← callM (CreateService service);
    match createErr with
    | Some err => mret (Some err, false)
    | None => mret (None, true)
    end
  | inr (_ :: _) => mret (None, false)
  end.

(** The first service with the labels, nil when there is none. *)
Definition getService (presto : Presto) (lbls : gmap string string)
    : prog (goerror + option Service) :=
  r ← call (ListServices (p_Namespace presto) lbls);
  match r with
  | inl err => mret (inl err)
  | inr [] => mret (inr None)
  | inr (s :: _) => mret (inr (Some s))
  end.

Definition getServicePort (presto : Presto) : list ServicePort :=
  let s := Service_ (Spec presto) in
  let port := match ss_Port s with Some p => p | None => prestoPort end in
  match ss_NodePort s with
  | Some nodePort =>
    if negb (String.eqb (ss_Type s) "ClusterIP")
    then [mkServicePort "presto-coordinator-port" port nodePort port]
    else [mkServicePort "presto-coordinator-port" port 0%Z port]
  | None => [mkServicePort "presto-coordinator-port" port 0%Z port]
  end.

(** The external service object. *)
Definition externalService (presto : Presto) (name : string) (lbls : gmap string string) : Service :=
  let s := Service_ (Spec presto) in
  mkService
    (newObjectMeta name EmptyString (p_Namespace presto) lbls [getOwnerReference presto])
    (mkK8sServiceSpec
       (single_label (getCoordinatorPodLabel (p_Uuid presto)))
       (ss_ClusterIP s) (ss_Type s) (ss_ExternalIPs s) (ss_SessionAffinity s)
       (ss_LoadBalancerIP s) (ss_LoadBalancerSourceRanges s) (ss_ExternalName s)
       (ss_ExternalTrafficPolicy s) (ss_HealthCheckNodePort s)
       (ss_PublishNotReadyAddresses s) (ss_SessionAffinityConfig s) (ss_IPFamily s)
       (getServicePort presto)).

Definition externalName_error : goerror :=
  OperatorError ("Service of the following type not supported: " ⊕ ServiceTypeExternalName).

(** Returns the error, the service (nil when the cache does not list it yet)
    and whether it was created. *)
Definition createOrGetService (presto : Presto) : M (option goerror * option Service * bool) :=
  let kv := getExternalServiceLabel (p_Uuid presto) in
  lbls ← getLabels;
  let lbls := set_label kv lbls in
  _ ← putLabels lbls;
  if String.eqb (ss_Type (Service_ (Spec presto))) ServiceTypeExternalName then
    mret (Some externalName_error, None, false)
  else
    name ← liftO (getExternalServiceName (p_Uuid presto));
    let service := externalService presto name lbls in
    r ← liftP (getService presto (single_label kv));
    match r with
    | inl err => mret (Some err, None, false)
    | inr (Some retService) => mret (None, Some retService, false)
    | inr None =>
      createErr ← callM (CreateService service);
      match createErr with
      | Some err => mret (Some err, None, false)
      | None =>
        r ← liftP (getService presto lbls);
        match r with
        | inl err => mret (Some err, None, true)
        | inr retService => mret (None, retService, true)
        end
      end
    end.
