(* ===== verification/ConfigMaps.v ===== *)
(** Creating the config maps: createConfigMap of
    pkg/controller/presto/common_util.go, createCoordinatorConfig and
    createWorkerConfig of presto_properties.go, createCatalogConfig of
    catalog.go. *)

From S2P Require Import Prelude ApiTypes K8sTypes Names Config Catalog Effects.

(** Creates the config map unless one with its name is listed under the labels.
    Returns whether it was created, and the error. *)
Definition createConfigMap (configMapName : string) (presto : Presto) (configMap : ConfigMap)
    (lbls : gmap string string) : prog (bool * option goerror) :=
  r ← call (ListConfigMaps (p_Namespace presto) lbls);
  match r with
  | inl err => mret (false, Some err)
  | inr items =>
    if existsb (λ cm, String.eqb (om_Name (cm_ObjectMeta cm)) configMapName) items
    then mret (false, None)
    else
      createErr ← call (CreateConfigMap configMap);
      match createErr with
      | Some err => mret (false, Some err)
      | None => mret (true, None)
      end
  end.

Section configmaps.
Context `{GoMapRange, Apimachinery}.

Definition createCoordinatorConfig (presto : Presto) (lbls : gmap string string)
    : prog (bool * option goerror) :=
  configMapName ← ofOption (getCoordinatorConfigMapName (p_Uuid presto));
  b ← ofOption (buildConfigMap presto true configMapName lbls);
  match b with
  | inl err => mret (false, Some err)
  | inr configMap => createConfigMap configMapName presto configMap lbls
  end.

Definition createWorkerConfig (presto : Presto) (lbls : gmap string string)
    : prog (bool * option goerror) :=
  configMapName ← ofOption (getWorkerConfigMapName (p_Uuid presto));
  b ← ofOption (buildConfigMap presto false configMapName lbls);
  match b with
  | inl err => mret (false, Some err)
  | inr configMap => createConfigMap configMapName presto configMap lbls
  end.

Definition createCatalogConfig (presto : Presto) (lbls : gmap string string)
    : prog (bool * option goerror) :=
  catalogConfigName ← ofOption (getCatalogConfigMapName (p_Uuid presto));
  match buildCatalogConfigMap presto catalogConfigName lbls with
  | inl err => mret (false, Some err)
  | inr configMap => createConfigMap catalogConfigName presto configMap lbls
  end.
End configmaps.
