(* ===== verification/ReplicaSets.v ===== *)
(** The ReplicaSets of the coordinator and the workers: the functions of
    pkg/controller/presto/presto_pods.go that call the API. *)

From S2P Require Import Prelude ApiTypes K8sTypes Names Pods Effects.

Local Open Scope string_scope.

(** [replicaSetCopy.Spec.Replicas = count] *)
Definition set_Replicas (rs : ReplicaSet) (count : option Z) : ReplicaSet :=
  mkReplicaSet (rs_TypeMeta rs) (rs_ObjectMeta rs) count (rs_MatchLabels rs)
    (rs_Template rs) (rs_AvailableReplicas rs).

Section replicasets.
Context `{GoMapRange, Apimachinery}.

(** The first ReplicaSet with the label, a NotFound error when there is none. *)
Definition getReplicaSet (presto : Presto) (getLabel : string → string * string)
    : prog (goerror + ReplicaSet) :=
  r ← call (ListReplicaSets (p_Namespace presto) (single_label (getLabel (p_Uuid presto))));
  match r with
  | inl err =>
    if IsNotFound (Some err) then mret (inl (NewNotFound "replicasets" EmptyString))
    else mret (inl err)
  | inr [] => mret (inl (NewNotFound "replicasets" EmptyString))
  | inr (rs :: _) => mret (inr rs)
  end.

(** Whether the spec lets the operator set the worker count:
    [Enabled == nil || !*Enabled]. *)
Definition countManaged (presto : Presto) : bool :=
  match as_Enabled (ws_Autoscaling (Worker (Spec presto))) with
  | None => true
  | Some enabled => negb enabled
  end.

(** Returns the ReplicaSet, whether it was created, whether it was updated, or
    the error. *)
Definition createUpdateReplicaSetForWorker (presto : Presto) (lbls : gmap string string)
    : prog (goerror + ReplicaSet * bool * bool) :=
  r ← getReplicaSet presto getWorkerPodLabel;
  match r with
  | inl err =>
    if IsNotFound (Some err) then
      count ← ofOption (deref (ws_Count (Worker (Spec presto))));
      b ← ofOption (createReplicaSetForWorker presto lbls count);
      match b with
      | inl err => mret (inl err)
      | inr replicaSet =>
        c ← call (CreateReplicaSet replicaSet);
        match c with
        | inl err => mret (inl err)
        | inr replicaSet => mret (inr (replicaSet, true, false))
        end
      end
    else mret (inl err)
  | inr replicaSet =>
    if countManaged presto then
      match ws_Count (Worker (Spec presto)) with
      | None => mret (inr (replicaSet, false, false))
      | Some count =>
        replicas ← ofOption (deref (rs_Replicas replicaSet));
        if (count =? replicas)%Z then mret (inr (replicaSet, false, false))
        else
          c ← call (UpdateReplicaSet (set_Replicas replicaSet (Some count)));
          match c with
          | inl err => mret (inl err)
          | inr replicaSetCopy => mret (inr (replicaSetCopy, false, true))
          end
      end
    else mret (inr (replicaSet, false, false))
  end.

(** Returns whether the ReplicaSet was created, or the error. *)
Definition createUpdateReplicaSetForCoordinator (presto : Presto) (lbls : gmap string string)
    : prog (goerror + ReplicaSet * bool) :=
  r ← getReplicaSet presto getCoordinatorPodLabel;
  match r with
  | inl err =>
    if IsNotFound (Some err) then
      b ← ofOption (createReplicaSetForCoordinator presto lbls);
      match b with
      | inl err => mret (inl err)
      | inr replicaSet =>
        c ← call (CreateReplicaSet replicaSet);
        match c with
        | inl err => mret (inl err)
        | inr replicaSet => mret (inr (replicaSet, true))
        end
      end
    else mret (inl err)
  | inr replicaSet => mret (inr (replicaSet, false))
  end.
End replicasets.
