(* ===== verification/Hpa.v ===== *)
(** The horizontal pod autoscaler of the workers:
    pkg/controller/presto/hpa_handler.go. *)

From S2P Require Import Prelude ApiTypes K8sTypes Names Effects.

Local Open Scope string_scope.

Definition checkAutoscalingEnabled (presto : Presto) : bool :=
  match as_Enabled (ws_Autoscaling (Worker (Spec presto))) with
  | None => false
  | Some enabled => enabled
  end.

Definition isCreatedByHpaController (hpa : HorizontalPodAutoscaler) (presto : Presto) : bool :=
  existsb (λ ref, String.eqb (or_Name ref) (p_Name presto) && String.eqb (or_Kind ref) (p_Kind presto))
    (om_OwnerReferences (hpa_ObjectMeta hpa)).

(** [a || b] of two conditions that may panic: [b] is only evaluated when [a]
    is false. *)
Definition or_else (a b : option bool) : option bool :=
  v ← a; if (v : bool) then Some true else b.

(** [*x != *y] *)
Definition deref_ne (x y : option Z) : option bool :=
  a ← deref x; b ← deref y; Some (negb (a =? b)%Z).

(** Whether the autoscaler differs from the spec; a nil pointer panics. *)
Definition autoscaleSpecChanged (hpa : HorizontalPodAutoscaler) (presto : Presto) : option bool :=
  let a := ws_Autoscaling (Worker (Spec presto)) in
  or_else (deref_ne (Some (hpa_MaxReplicas hpa)) (as_MaxReplicas a))
  (or_else (deref_ne (hpa_MinReplicas hpa) (as_MinReplicas a))
           (deref_ne (hpa_TargetCPUUtilizationPercentage hpa)
                     (as_TargetCPUUtilizationPercentage a))).

(** The autoscaler object; an absent bound or target is an error. *)
Definition createHPASpec (presto : Presto) (workerReplicaSet : ReplicaSet)
    (lbls : gmap string string) (resourceVersion : string)
    : option (goerror + HorizontalPodAutoscaler) :=
  let a := ws_Autoscaling (Worker (Spec presto)) in
  match as_MinReplicas a, as_MaxReplicas a, as_TargetCPUUtilizationPercentage a with
  | None, _, _ => Some (inl (OperatorError "MinReplicas cannot be null"))
  | Some _, None, _ => Some (inl (OperatorError "MaxReplicas cannot be null"))
  | Some _, Some _, None =>
    Some (inl (OperatorError "TargetCPUUtilizationPercentage cannot be null"))
  | Some minReplicas, Some maxReplicas, Some targetCPUUtilization =>
    name ← getHPAName (p_Uuid presto);
    Some (inr (mkHPA
      (mkObjectMeta name EmptyString (p_Namespace presto) EmptyString resourceVersion 0%Z lbls
         [getOwnerReference presto])
      (tm_APIVersion (rs_TypeMeta workerReplicaSet))
      (tm_Kind (rs_TypeMeta workerReplicaSet))
      (om_Name (rs_ObjectMeta workerReplicaSet))
      (Some minReplicas) maxReplicas (Some targetCPUUtilization)))
  end.

(** What handleReplicaSet did: the flags created, updated, deleted. *)
Inductive hpaChange := HpaNone | HpaCreated | HpaUpdated | HpaDeleted.

#[export] Instance hpaChange_eq_dec : EqDecision hpaChange.
Proof. solve_decision. Defined.

(** [err != nil && !errors.IsAlreadyExists(err)] *)
Definition failed (err : option goerror) : option goerror :=
  if IsAlreadyExists err then None else err.

Section hpa.
Context `{Apimachinery}.

(** The first autoscaler with the labels, a NotFound error when there is none. *)
Definition getPrestoHPA (presto : Presto) (lbls : gmap string string)
    : prog (goerror + HorizontalPodAutoscaler) :=
  r ← call (ListHPAs (p_Namespace presto) lbls);
  match r with
  | inl err =>
    if IsNotFound (Some err) then mret (inl (NewNotFound "HPA" EmptyString))
    else mret (inl err)
  | inr [] => mret (inl (NewNotFound "HPA" EmptyString))
  | inr (h :: _) => mret (inr h)
  end.

Definition handleReplicaSet (presto : Presto) (workerReplicaSet : ReplicaSet)
    (lbls : gmap string string) : prog (goerror + hpaChange) :=
  let autoScalingEnabled := checkAutoscalingEnabled presto in
  r ← getPrestoHPA presto lbls;
  match r with
  | inr hpa =>
    if autoScalingEnabled then
      changed ← ofOption (autoscaleSpecChanged hpa presto);
      if (changed : bool) then
        b ← ofOption (createHPASpec presto workerReplicaSet lbls
                        (om_ResourceVersion (hpa_ObjectMeta hpa)));
        match b with
        | inl err => mret (inl err)
        | inr hpa =>
          err ← call (UpdateHPA hpa);
          match failed err with
          | Some err => mret (inl err)
          | None => mret (inr HpaUpdated)
          end
        end
      else mret (inr HpaNone)
    else
      err ← call (DeleteHPA hpa);
      match err with
      | Some err => mret (inl err)
      | None => mret (inr HpaDeleted)
      end
  | inl err =>
    if IsNotFound (Some err) then
      if autoScalingEnabled then
        b ← ofOption (createHPASpec presto workerReplicaSet lbls EmptyString);
        match b with
        | inl err => mret (inl err)
        | inr hpa =>
          err ← call (CreateHPA hpa);
          match failed err with
          | Some err => mret (inl err)
          | None => mret (inr HpaCreated)
          end
        end
      else mret (inr HpaNone)
    else mret (inl err)
  end.
End hpa.
