(* ===== verification/Reconcile.v ===== *)
(** The reconciliation of one Presto resource: Reconcile and its stages in
    pkg/controller/presto/presto_controller.go. *)

From S2P Require Import Prelude ApiTypes K8sTypes Names Effects Status Services.
From S2P Require Import ConfigMaps ReplicaSets Hpa.

Local Open Scope string_scope.

(** reconcile.Result *)
Record Result := mkResult {
  Requeue : bool;
  RequeueAfter : Z
}.

Definition emptyResult : Result := mkResult false 0%Z.

(** [r.eventRecorder.Eventf(presto, ...)] on the shared resource. *)
Definition recordEvent (eventtype reason message : string) : M unit :=
  presto ← getPrestoObj;
  callM (Eventf presto eventtype reason message).

(** ** Stages: each returns its error and whether it changed the cluster *)

Definition headlessServiceConfig : M (option goerror * bool) :=
  presto ← getPrestoObj;
  '(err, created) ← createHeadLessPodDiscoverySvc presto;
  match err with
  | Some e =>
    let errorReason := "Failed to create headless service for pods " ⊕ Error e in
    _ ← recordEvent EventTypeWarning "Failed" errorReason;
    _ ← updateStatus (actError errorReason);
    mret (err, false)
  | None =>
    if (created : bool) then
      headlessSvc ← liftO (getPodDiscoveryServiceName (p_Uuid presto));
      _ ← recordEvent EventTypeNormal "Created" ("Created Headless Service. " ⊕ headlessSvc);
      _ ← updateStatus (actHeadless headlessSvc);
      mret (err, true)
    else mret (err, false)
  end.

Definition serviceConfig : M (option goerror * bool * option Service) :=
  presto ← getPrestoObj;
  '(err, service, created) ← createOrGetService presto;
  match err with
  | Some e =>
    let errorReason := "Failed to create service for pods " ⊕ Error e in
    _ ← recordEvent EventTypeWarning "Failed" errorReason;
    _ ← updateStatus (actError errorReason);
    mret (err, false, None)
  | None =>
    _ ← (if (created : bool) then
           name ← liftO (getExternalServiceName (p_Uuid presto));
           recordEvent EventTypeNormal "Created" ("Created Service. " ⊕ name)
         else mret tt);
    _ ← (if created || is_empty (CoordinatorAddress (Status presto)) then
           _ ← updateStatus (actService service); mret tt
         else mret tt);
    mret (err, created, service)
  end.

Section stages.
Context `{GoMapRange, Apimachinery}.

Definition coordinatorConfig : M (option goerror * bool) :=
  presto ← getPrestoObj;
  baseLabels ← getLabels;
  '(created, err) ← liftP (createCoordinatorConfig presto baseLabels);
  match err with
  | Some e =>
    _ ← updateStatus (actError ("Failed to create coordinator config map " ⊕ Error e));
    _ ← recordEvent EventTypeWarning "Failed"
          ("failed to create coordinator config map " ⊕ Error e);
    mret (err, false)
  | None =>
    _ ← (if (created : bool) then
           cm ← liftO (getCoordinatorConfigMapName (p_Uuid presto));
           _ ← updateStatus (actCoordinatorConfig cm);
           recordEvent EventTypeNormal "Created" ("Created Coordinator Config. " ⊕ cm)
         else mret tt);
    mret (None, created)
  end.

Definition workerConfig : M (option goerror * bool) :=
  presto ← getPrestoObj;
  baseLabels ← getLabels;
  '(created, err) ← liftP (createWorkerConfig presto baseLabels);
  match err with
  | Some e =>
    let errorReason := "Failed to create worker config map " ⊕ Error e in
    _ ← updateStatus (actError errorReason);
    _ ← recordEvent EventTypeWarning "Failed" errorReason;
    mret (err, created)
  | None =>
    _ ← (if (created : bool) then
           wm ← liftO (getWorkerConfigMapName (p_Uuid presto));
           _ ← updateStatus (actWorkerConfig wm);
           recordEvent EventTypeNormal "Created" ("Created Worker Config. " ⊕ wm)
         else mret tt);
    mret (None, created)
  end.

Definition catalogConfig : M (option goerror * bool) :=
  presto ← getPrestoObj;
  baseLabels ← getLabels;
  '(created, err) ← liftP (createCatalogConfig presto baseLabels);
  match err with
  | Some e =>
    let errorReason := "Failed to create catalog config map " ⊕ Error e in
    _ ← updateStatus (actError errorReason);
    _ ← recordEvent EventTypeWarning "Failed" errorReason;
    mret (err, created)
  | None =>
    _ ← (if (created : bool) then
           cc ← liftO (getCatalogConfigMapName (p_Uuid presto));
           _ ← updateStatus (actCatalogConfig cc);
           recordEvent EventTypeNormal "Created" ("Created Catalog Config. " ⊕ cc)
         else mret tt);
    mret (None, created)
  end.

Definition coordinatorReplicaset : M (option goerror * bool) :=
  presto ← getPrestoObj;
  baseLabels ← getLabels;
  r ← liftP (createUpdateReplicaSetForCoordinator presto
               (getCoordinatorPodLabels baseLabels (p_Uuid presto)));
  match r with
  | inl e =>
    _ ← updateStatus (actError ("Failed to create coordinator replicaset " ⊕ Error e));
    _ ← recordEvent EventTypeWarning "Failed"
          ("Failed to create/update coordinator replicaset " ⊕ Error e);
    mret (Some e, false)
  | inr (_, created) =>
    _ ← (if (created : bool) then
           cr ← liftO (getCoordinatorReplicaset (p_Uuid presto));
           _ ← updateStatus (actCoordinatorReplicaSet cr);
           recordEvent EventTypeNormal "Created" ("Created Coordinator Replicaset. " ⊕ cr)
         else mret tt);
    mret (None, created)
  end.

(** Returns the error, or whether it changed the cluster and the ReplicaSet. *)
Definition workerReplicaset : M (goerror + bool * ReplicaSet) :=
  presto ← getPrestoObj;
  baseLabels ← getLabels;
  r ← liftP (createUpdateReplicaSetForWorker presto
               (getWorkerPodLabels baseLabels (p_Uuid presto)));
  match r with
  | inl e =>
    let errorReason := "Failed to create worker replicaset " ⊕ Error e in
    _ ← updateStatus (actError errorReason);
    _ ← recordEvent EventTypeWarning "Failed" errorReason;
    mret (inl e)
  | inr (workerReplicaSet, created, updated) =>
    let name := om_Name (rs_ObjectMeta workerReplicaSet) in
    _ ← (if (updated : bool) then
           _ ← recordEvent EventTypeNormal "Updated"
                 ("Updated Worker Replicaset. " ⊕ name ⊕ " ");
           _ ← updateStatus (actWorkers ClusterPending workerReplicaSet);
           mret tt
         else mret tt);
    _ ← (if (created : bool) then
           _ ← updateStatus (actWorkers ClusterPending workerReplicaSet);
           recordEvent EventTypeNormal "Created" ("Created Worker Replicaset. " ⊕ name)
         else mret tt);
    mret (inr (updated || created, workerReplicaSet))
  end.

Definition hpaReplicaset (workerReplicaSet : ReplicaSet) : M (option goerror * bool) :=
  presto ← getPrestoObj;
  baseLabels ← getLabels;
  r ← liftP (handleReplicaSet presto workerReplicaSet baseLabels);
  match r with
  | inl e =>
    _ ← updateStatus (actError ("Failed to create autoscale config " ⊕ Error e));
    _ ← recordEvent EventTypeWarning "Failed"
          ("failed to create/update autoscale replicaset " ⊕ Error e);
    mret (Some e, false)
  | inr HpaNone => mret (None, false)
  | inr HpaCreated =>
    hpaName ← liftO (getHPAName (p_Uuid presto));
    _ ← updateStatus (actHpa hpaName);
    _ ← recordEvent EventTypeNormal "Created" ("Created HPA. " ⊕ hpaName);
    mret (None, true)
  | inr HpaUpdated =>
    hpaName ← liftO (getHPAName (p_Uuid presto));
    _ ← recordEvent EventTypeNormal "Updated" ("Updated HPA. " ⊕ hpaName);
    mret (None, true)
  | inr HpaDeleted =>
    hpaName ← liftO (getHPAName (p_Uuid presto));
    _ ← recordEvent EventTypeNormal "Deleted" ("Deleted HPA. " ⊕ hpaName);
    _ ← updateStatus (actHpa EmptyString);
    mret (None, true)
  end.

(** The last part of Reconcile: the cluster state follows the phase of the
    coordinator pod. The results of updateStatus are dropped. *)
Definition reportState (workerReplicaSet : ReplicaSet) : M (Result * option goerror) :=
  presto ← getPrestoObj;
  baseLabels ← getLabels;
  '(_, coordinatorPodPhase) ← liftP (getCoordinatorPodPhase presto baseLabels);
  _ ← (if String.eqb coordinatorPodPhase PodPending then
         updateStatus (actWorkers ClusterPending workerReplicaSet)
       else if String.eqb coordinatorPodPhase PodFailed then
         updateStatus (actWorkers ClusterFailedState workerReplicaSet)
       else if String.eqb coordinatorPodPhase PodRunning then
         workerCPU ← liftP (getCPUUsage presto false);
         coordinatorCPU ← liftP (getCPUUsage presto true);
         updateStatus (actReady workerReplicaSet (fmt_d coordinatorCPU ⊕ "%")
                         (fmt_d workerCPU ⊕ "%"))
       else updateStatus (actWorkers ClusterUnknown workerReplicaSet));
  mret (emptyResult, None).

(** [err, changesMade = stage; if err != nil { return err }; if changesMade
    { return nil }] *)
Definition unlessChanged (stage : M (option goerror * bool))
    (next : M (Result * option goerror)) : M (Result * option goerror) :=
  '(err, changesMade) ← stage;
  match err with
  | Some _ => mret (emptyResult, err)
  | None => if (changesMade : bool) then mret (emptyResult, None) else next
  end.

(** The stages after the UUID is known. *)
Definition reconcileStages : M (Result * option goerror) :=
  unlessChanged headlessServiceConfig (
  unlessChanged ('(err, changesMade, _) ← serviceConfig; mret (err, changesMade)) (
  unlessChanged coordinatorConfig (
  unlessChanged workerConfig (
  unlessChanged catalogConfig (
  unlessChanged coordinatorReplicaset (
  r ← workerReplicaset;
  match r with
  | inl err => mret (emptyResult, Some err)
  | inr (true, _) => mret (emptyResult, None)
  | inr (false, workerReplicaSet) =>
    unlessChanged (hpaReplicaset workerReplicaSet) (reportState workerReplicaSet)
  end)))))).

(** [labels.Set{"clusterUUID": ..., "clusterName": ...}] *)
Definition clusterLabels (presto : Presto) : gmap string string :=
  list_to_map [("clusterUUID", p_Uuid presto); ("clusterName", p_Name presto)].

(** Labelling and the stages, on the shared resource. *)
Definition reconcileLabelled : M (Result * option goerror) :=
  presto ← getPrestoObj;
  _ ← putLabels (clusterLabels presto);
  reconcileStages.

(** Assigning the cluster UUID first when there is none. *)
Definition reconcileBody : M (Result * option goerror) :=
  presto ← getPrestoObj;
  if is_empty (p_Uuid presto) then
    clusterUUID ← callM NewUUID;
    '(updated, err) ← updateStatus (actUUID clusterUUID);
    match err with
    | Some _ => mret (emptyResult, err)
    | None =>
      if (updated : bool) then mret (mkResult false 0%Z, None) else reconcileLabelled
    end
  else reconcileLabelled.

Definition Reconcile (request : NamespacedName) : prog (Result * option goerror) :=
  r ← call (GetPresto request);
  match r with
  | inl err =>
    if IsNotFound (Some err) then
      _ ← call (RegisteredDelete request);
      mret (emptyResult, None)
    else mret (emptyResult, Some err)
  | inr presto =>
    registered ← call (RegisteredLoad request);
    _ ← (match registered with
         | Some _ => mret tt
         | None => call (RegisteredStore request presto)
         end);
    '(res, _) ← reconcileBody (mkShared presto ∅);
    mret res
  end.
End stages.
