(* ===== verification/Webhook.v ===== *)
(** The validating webhook (pkg/apis/falarica/v1alpha1/presto_webhook.go) and the
    filter on update events (pkg/controller/presto/watch_predicate.go). *)

From S2P Require Import Prelude ApiTypes.

Local Open Scope string_scope.

Module Webhook.

(** field.Error *)
Record FieldError := mkFieldError {
  fe_Type : string;
  fe_Field : string;
  fe_BadValue : string;
  fe_Detail : string
}.

Definition immutableCpuRequest : FieldError :=
  mkFieldError "FieldImmutable" "Field is Immutable"
    "Spec.Coordinator.CpuRequest" "Field Spec.Coordinator.CpuRequest is Immutable".

(** apierrors.NewInvalid of a group, a kind, a name and the field errors. *)
Record InvalidError := mkInvalid {
  ie_Group : string;
  ie_Kind : string;
  ie_Name : string;
  ie_Errors : list FieldError
}.

Definition ValidateCreate (r : Presto) : option InvalidError := None.

Definition validatePrestoSpec (r old : Presto) : list FieldError :=
  if negb (String.eqb (cs_CpuRequest (Coordinator (Spec old)))
                      (cs_CpuRequest (Coordinator (Spec r))))
  then [immutableCpuRequest] else [].

Definition validatePrestoUpdate (r old : Presto) : option InvalidError :=
  match validatePrestoSpec r old with
  | [] => None
  | errs => Some (mkInvalid "falarica.io" "Presto" (p_Name r) errs)
  end.

Definition ValidateUpdate (r old : Presto) : option InvalidError := validatePrestoUpdate r old.

Definition ValidateDelete (r : Presto) : option InvalidError := None.

End Webhook.

Module WatchPredicate.

(** event.UpdateEvent: old and new metadata, reduced to their generation, and
    whether the old and new objects are there. *)
Record UpdateEvent := mkUpdateEvent {
  MetaOld : option Z;
  ObjectOld : bool;
  MetaNew : option Z;
  ObjectNew : bool
}.

(** GenerationChangedPredicate.Update *)
Definition Update (e : UpdateEvent) : bool :=
  match MetaOld e with
  | None => false
  | Some oldGeneration =>
    if negb (ObjectOld e) then false
    else if negb (ObjectNew e) then false
    else match MetaNew e with
         | None => false
         | Some newGeneration =>
           if (newGeneration =? oldGeneration)%Z && negb (newGeneration =? 0)%Z
           then false else true
         end
  end.

End WatchPredicate.

(** ** Theorems *)

Lemma update_accepted r old :
  Webhook.ValidateUpdate r old = None ↔
  cs_CpuRequest (Coordinator (Spec r)) = cs_CpuRequest (Coordinator (Spec old)).
Proof.
  unfold Webhook.ValidateUpdate, Webhook.validatePrestoUpdate, Webhook.validatePrestoSpec.
  destruct (String.eqb_spec (cs_CpuRequest (Coordinator (Spec old)))
              (cs_CpuRequest (Coordinator (Spec r)))); simpl; naive_solver.
Qed.

(** The resource after a sequence of updates: one the webhook refuses is not
    stored. *)
Definition updated (p : Presto) (updates : list Presto) : Presto :=
  foldl (λ old r, match Webhook.ValidateUpdate r old with None => r | Some _ => old end) p updates.

Lemma updated_cpu p updates :
  cs_CpuRequest (Coordinator (Spec (updated p updates))) = cs_CpuRequest (Coordinator (Spec p)).
Proof.
  revert p. induction updates as [|r rest IH]; intros p; [done|]. unfold updated in *. simpl.
  rewrite IH. destruct (Webhook.ValidateUpdate r p) eqn:E; [done|]. by apply update_accepted.
Qed.

(** C40: the coordinator's CPU request is immutable. Behind the webhook it is the
    one the resource was created with after every sequence of updates, whatever
    they ask for. An update at any point of it is stored exactly when it keeps that
    request, and is otherwise refused with one error for that field of that
    resource. Creations and deletions are accepted. *)
Theorem cpu_request_immutable p updates r :
  Webhook.ValidateCreate p = None ∧ Webhook.ValidateDelete (updated p updates) = None
  ∧ cs_CpuRequest (Coordinator (Spec (updated p updates))) = cs_CpuRequest (Coordinator (Spec p))
  ∧ match Webhook.ValidateUpdate r (updated p updates) with
    | None => cs_CpuRequest (Coordinator (Spec r)) = cs_CpuRequest (Coordinator (Spec p))
              ∧ updated p (updates ++ [r])%list = r
    | Some e => cs_CpuRequest (Coordinator (Spec r)) ≠ cs_CpuRequest (Coordinator (Spec p))
                ∧ updated p (updates ++ [r])%list = updated p updates
                ∧ e = Webhook.mkInvalid "falarica.io" "Presto" (p_Name r)
                        [Webhook.immutableCpuRequest]
    end.
Proof.
  split; [done|]. split; [done|]. split; [apply updated_cpu|].
  unfold updated at 2 4. rewrite !foldl_app. fold (updated p updates). simpl.
  destruct (Webhook.ValidateUpdate r (updated p updates)) as [e|] eqn:E.
  - assert (cs_CpuRequest (Coordinator (Spec r)) ≠ cs_CpuRequest (Coordinator (Spec p))) as Hne.
    { rewrite <-(updated_cpu p updates), <-update_accepted. congruence. }
    split; [done|]. split; [done|]. revert E.
    unfold Webhook.ValidateUpdate, Webhook.validatePrestoUpdate, Webhook.validatePrestoSpec.
    destruct (String.eqb_spec (cs_CpuRequest (Coordinator (Spec (updated p updates))))
                (cs_CpuRequest (Coordinator (Spec r)))); [done|]. by intros [= <-].
  - split; [|done]. apply update_accepted in E. by rewrite E, updated_cpu.
Qed.

(** The filter on update events lets an event through exactly when it is
    complete and the generation of the resource changed or is not maintained; an
    update of the status alone keeps the generation and is dropped. *)
Theorem update_events_filtered e :
  WatchPredicate.Update e = true ↔
  WatchPredicate.ObjectOld e = true ∧ WatchPredicate.ObjectNew e = true ∧
  ∃ old new, WatchPredicate.MetaOld e = Some old ∧ WatchPredicate.MetaNew e = Some new
    ∧ (old ≠ new ∨ new = 0%Z).
Proof.
  unfold WatchPredicate.Update. destruct e as [[old|] [] [new|] []]; simpl; try naive_solver.
  destruct (Z.eqb_spec new old), (Z.eqb_spec new 0); simpl; naive_solver.
Qed.
