(* ===== verification/Examples.v ===== *)
(** Concrete inputs: a Presto resource like the one of docs/prestoresource.md, an
    instance of the apimachinery functions, and environments with simple
    responses. They show that the hypotheses of the theorems can hold. *)

From S2P Require Import Prelude ApiTypes K8sTypes Names Effects.

Local Open Scope string_scope.

(** Every non-empty quantity is read as 1Gi with 500 milli units. *)
Definition exampleApi : Apimachinery := {|
  ParseQuantity s :=
    if is_empty s
    then (mkQuantity 0 0, Some (StatusError StatusReasonOther "quantities must match"))
    else (mkQuantity 1073741824 500, None);
  NewNotFound r n := StatusError StatusReasonNotFound (r ⊕ n ⊕ " not found") |}.

Lemma exampleApi_laws : @ApimachineryLaws exampleApi.
Proof. by constructor. Qed.

Definition exampleCoordinator : CoordinatorSpec :=
  mkCoordinatorSpec "1Gi" EmptyString ∅ "0.5" EmptyString false
    "prestokeystore" "prestoserverkeystore.jks" "hemant".

Definition exampleWorker (autoscaling : AutoscalingSpec) : WorkerSpec :=
  mkWorkerSpec "1Gi" EmptyString {["shutdown.grace-period" := "10s"]} "0.5" EmptyString None
    (Some 1%Z) autoscaling.

Definition autoscalingOff : AutoscalingSpec :=
  mkAutoscalingSpec (Some false) (Some 2%Z) (Some 3%Z) (Some 20%Z).

Definition autoscalingOn : AutoscalingSpec :=
  mkAutoscalingSpec (Some true) (Some 2%Z) (Some 3%Z) (Some 20%Z).

Definition exampleService : ServiceSpec :=
  mkServiceSpec (Some 30002%Z) (Some 8100%Z) EmptyString "NodePort" [] EmptyString EmptyString []
    EmptyString EmptyString 0%Z false None None.

Definition exampleSpec (autoscaling : AutoscalingSpec) : PrestoSpec :=
  mkPrestoSpec exampleCoordinator (exampleWorker autoscaling)
    (mkCatalogList [mkCatalogSecret "tpchsecret" "mytpch"]
       [mkCatalogSpec "newtpch" {["connector.name" := "tpch"]};
        mkCatalogSpec "tpcds" {["connector.name" := "tpcds"]}])
    exampleService (mkImageSpec EmptyString EmptyString)
    {["access-control.properties" := "access-control.name=read-only"]}
    [mkPrestoVolumeSpec "spillvol" (VSOther "emptyDir") false "/prestospill" EmptyString None
       EmptyString].

Definition emptyStatus : PrestoStatus :=
  mkPrestoStatus EmptyString 0 0 EmptyString EmptyString EmptyString EmptyString EmptyString
    EmptyString EmptyString EmptyString EmptyString EmptyString EmptyString 0 EmptyString
    EmptyString.

Definition exampleUuid : string := "03f118d2-d399-4e66-8417-b5caa96988ec".

Definition statusWithUuid (u : string) : PrestoStatus :=
  mkPrestoStatus u 0 0 EmptyString EmptyString EmptyString EmptyString EmptyString
    EmptyString EmptyString EmptyString EmptyString EmptyString EmptyString 0 EmptyString
    EmptyString.

Definition exampleMeta : ObjectMeta :=
  mkObjectMeta "mycluster" EmptyString "default" "ea4e17e6" "1" 1%Z ∅ [].

Definition exampleKey : NamespacedName := mkNamespacedName "default" "mycluster".

(** The resource before its first reconciliation, and with its UUID. *)
Definition freshPresto (a : AutoscalingSpec) : Presto :=
  mkPresto (mkTypeMeta "Presto" "falarica.io/v1alpha1") exampleMeta (exampleSpec a) emptyStatus.

Definition examplePresto (a : AutoscalingSpec) : Presto :=
  mkPresto (mkTypeMeta "Presto" "falarica.io/v1alpha1") exampleMeta (exampleSpec a)
    (statusWithUuid exampleUuid).

(** An environment that lists the given objects whatever the selector, and
    answers every change with [err]. *)
Definition fixedCluster (p : Presto) (svcs : list Service) (cms : list ConfigMap)
    (rss : list ReplicaSet) (hpas : list HorizontalPodAutoscaler) (pods : list Pod)
    (err : option goerror) : env unit :=
  λ _ r, (match r return resp r with
          | GetPresto _ => inr p
          | ListPrestos _ _ => inr [p]
          | UpdatePrestoStatus q => inr q
          | ListServices _ _ => inr svcs
          | CreateService _ => err
          | ListConfigMaps _ _ => inr cms
          | CreateConfigMap _ => err
          | ListReplicaSets _ _ => inr rss
          | CreateReplicaSet rs | UpdateReplicaSet rs =>
            match err with Some e => inl e | None => inr rs end
          | ListHPAs _ _ => inr hpas
          | CreateHPA _ | UpdateHPA _ | DeleteHPA _ => err
          | ListPods _ _ => inr pods
          | ListPodMetrics _ _ _ => inr []
          | Now => 0%Z
          | NewUUID => exampleUuid
          | Eventf _ _ _ _ => tt
          | RegisteredLoad _ => None
          | RegisteredStore _ _ | RegisteredDelete _ => tt
          end, tt).

(** An environment in which the cluster has no object but the resource. *)
Definition emptyCluster (p : Presto) (err : option goerror) : env unit :=
  fixedCluster p [] [] [] [] [] err.

(** The config maps of the example cluster, by name. *)
Definition configMapNamed (name : string) : ConfigMap :=
  mkConfigMap (newObjectMeta name EmptyString "default" ∅ []) ∅.

Definition exampleConfigMaps : list ConfigMap :=
  map configMapNamed (omap (λ name, name exampleUuid)
    [getCoordinatorConfigMapName; getWorkerConfigMapName; getCatalogConfigMapName]).

(** A service with one port. *)
Definition someService : Service :=
  mkService (newObjectMeta "external-presto-svc-03f118d2" EmptyString "default" ∅ [])
    (mkK8sServiceSpec ∅ "10.8.10.201" "NodePort" [] EmptyString EmptyString [] EmptyString
       EmptyString 0%Z false None None
       [mkServicePort "presto-coordinator-port" 8100%Z 30002%Z 8100%Z]).

Definition exampleError : goerror := StatusError StatusReasonOther "connection refused".
