(* ===== verification/NameFacts.v ===== *)
(** Correctness of the names of Names.v. *)

From S2P Require Import Prelude ApiTypes K8sTypes Names Examples.

Local Open Scope string_scope.

(** The names the objects, pods and volumes of a cluster are given. *)
Definition name_functions : list (string → option string) :=
  [getPodDiscoveryServiceName; getExternalServiceName; getCoordinatorPodName;
   getCoordinatorReplicaset; getWorkerReplicaSet; getCatalogConfigMapName; getCatalogVolName;
   getHTTPSSecretVolName; getHPAName; getCoordinatorContainerName; getCoordinatorConfigMapName;
   getCoordinatorConfigVolumeName; getWorkerContainerPrefix; getWorkerConfigMapName;
   getWorkerConfigVolumeName].

Definition name_prefixes : list string :=
  ["pod-discovery-"; "external-presto-svc-"; "coordinatorpod-"; "coordinatorreplicaset-";
   "workerreplicaset-"; "catalogconfig-"; "catalogvol-"; "httpssecret-"; "hpa-";
   "coordinatorcontainer-"; "coordinatorconfig-"; "coordinatorconfvol-"; "workerrcontainer-";
   "workerconfig-"; "workerconfvol-"].

Lemma name_functions_prefixes : name_functions = map short_name name_prefixes.
Proof. reflexivity. Qed.

Lemma name_prefixes_nodup : NoDup name_prefixes.
Proof. apply (bool_decide_unpack _). by vm_compute. Qed.

(** C35: the names of a cluster. With a UUID of eight bytes or more no name
    function panics, the fifteen names are distinct, and each fits the 63
    characters Kubernetes allows for a label or host name; with a shorter UUID
    every one of the functions panics. *)
Theorem cluster_names u :
  match mapM (λ f, f u) name_functions with
  | Some names => uuid_ok u ∧ NoDup names ∧ Forall (λ n, (1 <= String.length n <= 63)%nat) names
  | None => ¬ uuid_ok u ∧ Forall (λ f, f u = None) name_functions
  end.
Proof.
  rewrite name_functions_prefixes. destruct (decide (8 <= String.length u)%nat) as [Hu|Hu].
  - assert (mapM (λ f, f u) (map short_name name_prefixes)
            = Some (map (λ pre, pre ⊕ String.substring 0 8 u) name_prefixes)) as ->.
    { generalize name_prefixes as l. induction l as [|pre l IH]; [done|]. simpl.
      rewrite (short_name_ok _ _ Hu). simpl. by rewrite IH. }
    split; [done|]. split.
    + apply NoDup_fmap_2; [|apply name_prefixes_nodup]. intros a b Hab.
      by apply (append_inj_tail a b (String.substring 0 8 u) (String.substring 0 8 u) eq_refl) in Hab
        as [-> _].
    + apply Forall_map. apply Forall_forall. intros pre Hpre.
      rewrite length_append, length_substring_0 by done.
      assert (Forall (λ pre, (String.length pre <= 55)%nat) name_prefixes) as Hlen
        by (repeat constructor; vm_compute; lia).
      rewrite Forall_forall in Hlen. specialize (Hlen pre Hpre). lia.
  - assert (mapM (λ f, f u) (map short_name name_prefixes) = None) as ->
      by (unfold name_prefixes; simpl; rewrite !(short_name_panics _ _ Hu); reflexivity).
    split; [done|].
    apply Forall_map, Forall_forall. intros pre _. by apply short_name_panics.
Qed.

(** C36: two names are equal exactly when they are for the same purpose and the
    first eight bytes of the UUIDs agree: clusters whose UUIDs differ later only
    are given the same names for all their objects. *)
Theorem names_collide_iff f g u v :
  f ∈ name_functions → g ∈ name_functions → uuid_ok u → uuid_ok v →
  (f u = g v ↔ f = g ∧ slice_to 8 u = slice_to 8 v).
Proof.
  rewrite name_functions_prefixes.
  intros (a & -> & Ha)%list_elem_of_fmap (b & -> & Hb)%list_elem_of_fmap Hu Hv. split.
  - intros Heq. destruct (proj2 (short_name_is_Some a u) Hu) as [n Hn].
    destruct (short_name_inj a b u v n) as [-> ->]; [done|congruence|done].
  - intros [-> Hs]. unfold short_name. by rewrite Hs.
Qed.

Lemma names_collide_iff_witness :
  getHPAName "03f118d2-d399-4e66-8417-b5caa96988ec"
  = getHPAName "03f118d2-0000-4e66-8417-000000000000".
Proof.
  apply (names_collide_iff getHPAName getHPAName);
    [do 8 right; left|do 8 right; left|apply Nat.leb_le; reflexivity|apply Nat.leb_le; reflexivity|].
  split; reflexivity.
Defined.
