(* ===== verification/ConfigFacts.v ===== *)
(** Correctness of the configuration files of Config.v: what a reader of the
    generated config.properties sees, when the generation is refused, the ports,
    the heap size and the files of the config map. *)

From S2P Require Import Prelude ApiTypes K8sTypes Names Config PropertiesFile Services Examples.

Local Open Scope string_scope.

(** The strings of the resource that end up in config.properties have no
    newline. *)
Definition clean_presto (p : Presto) : Prop :=
  has_char 10 (p_Uuid p) = false
  ∧ has_char 10 (cs_HttpsKeyPairSecretKey (Coordinator (Spec p))) = false
  ∧ has_char 10 (cs_HttpsKeyPairPassword (Coordinator (Spec p))) = false.

(** HTTPS is asked for without all that it needs. *)
Definition https_incomplete (p : Presto) : Prop :=
  let c := Coordinator (Spec p) in
  cs_HttpsEnabled c = true
  ∧ (cs_HttpsKeyPairPassword c = EmptyString ∨ cs_HttpsKeyPairSecretKey c = EmptyString
     ∨ cs_HttpsKeyPairSecretName c = EmptyString).

(** The URI under which the coordinator is announced. *)
Definition discovery_uri (p : Presto) (host : string) : string :=
  "http://" ⊕ host ⊕ ":" ⊕ fmt_d (getHTTPPort p).1.

(** ** Lemmas *)

Lemma has_char_slice c n s r :
  slice_to n s = Some r → has_char c s = false → has_char c r = false.
Proof.
  unfold slice_to. destruct (n <=? String.length s)%nat; [|done]. intros [= <-].
  revert s. induction n as [|n IH]; intros [|x s]; simpl; try done.
  intros [-> ?]%orb_false_iff. simpl. by apply IH.
Qed.

Lemma short_name_clean c prefix u n :
  short_name prefix u = Some n → has_char c prefix = false → has_char c u = false →
  has_char c n = false.
Proof.
  unfold short_name. intros Hn Hp Hu. apply bind_Some in Hn as (r & Hr & [= <-]).
  rewrite has_char_append, Hp. simpl. by eapply has_char_slice.
Qed.

Lemma internal_name_clean u host :
  getCoordinatorInternalName u = Some host → has_char 10 u = false → has_char 10 host = false.
Proof.
  unfold getCoordinatorInternalName. intros Hh Hu. inv_option. subst.
  rewrite !has_char_append.
  by rewrite (short_name_clean 10 _ _ _ H eq_refl Hu), (short_name_clean 10 _ _ _ H0 eq_refl Hu).
Qed.

Lemma clean_insert k v m :
  clean_key k → clean_value v → clean_props m → clean_props (<[k := v]> m).
Proof. intros Hk Hv Hm. by apply map_Forall_insert_2. Qed.

Lemma clean_empty : clean_props ∅.
Proof. apply map_Forall_empty. Qed.

Lemma clean_value_plain v : has_char 10 v = false → clean_value v.
Proof. intros Hv. unfold clean_value. by rewrite chomp_nl. Qed.

Lemma clean_value_line v : has_char 10 v = false → clean_value (v ⊕ nl).
Proof. intros Hv. unfold clean_value. by rewrite chomp_append_nl. Qed.

Lemma discovery_uri_clean p host : has_char 10 host = false → has_char 10 (discovery_uri p host) = false.
Proof. intros Hh. unfold discovery_uri. by rewrite !has_char_append, Hh, fmt_d_clean. Qed.

Lemma discovery_line p host :
  "http://" ⊕ host ⊕ ":" ⊕ fmt_d (getHTTPPort p).1 ⊕ nl = discovery_uri p host ⊕ nl.
Proof. unfold discovery_uri. by rewrite !append_assoc. Qed.

#[local] Hint Resolve clean_empty clean_insert clean_value_plain clean_value_line discovery_uri_clean fmt_d_clean : go.

(** The text of jvm.config, for a memory limit and additional options. *)
Definition jvm_text (q : Quantity) (additional : string) : string :=
  let sb := addDefaultJVMProps EmptyString ⊕ ("-Xmx" ⊕ fmt_d (memoryMb q) ⊕ "m" ⊕ nl) in
  if (len additional >? 0)%Z then sb ⊕ (additional ⊕ nl) else sb.

Lemma memoryMb_bounds q :
  (0 <= q_Value q)%Z → (memoryMb q * 2 ^ 20 <= q_Value q < (memoryMb q + 1) * 2 ^ 20)%Z.
Proof.
  intros Hv. unfold memoryMb.
  rewrite (Z.quot_div_nonneg (q_Value q) 1024), Z.quot_div_nonneg, Z.div_div; try lia.
  2: by apply Z.div_pos.
  pose proof (Z.div_mod (q_Value q) (1024 * 1024)).
  pose proof (Z.mod_pos_bound (q_Value q) (1024 * 1024)). lia.
Qed.

Lemma split_lines_many ls rest :
  Forall (λ l, has_char 10 l = false) ls →
  split_lines (foldr (λ l acc, l ⊕ nl ⊕ acc) rest ls) = (ls ++ split_lines rest)%list.
Proof.
  induction 1 as [|l ls Hl _ IH]; [done|]. simpl foldr. rewrite split_lines_nl by done.
  by rewrite IH.
Qed.

Lemma foldl_lines sb ls rest :
  foldl (λ sb l, sb ⊕ (l ⊕ nl)) sb ls ⊕ rest
  = sb ⊕ foldr (λ l acc, l ⊕ nl ⊕ acc) rest ls.
Proof.
  revert sb. induction ls as [|l ls IH]; intros sb; simpl; [done|].
  rewrite IH. by rewrite !append_assoc.
Qed.

Lemma jvm_text_lines q additional :
  split_lines (jvm_text q additional)
  = (defaultJVMProps ++ ("-Xmx" ⊕ fmt_d (memoryMb q) ⊕ "m")
      :: (if is_empty additional then [EmptyString] else split_lines (additional ⊕ nl)))%list.
Proof.
  set (xmx := ("-Xmx" ⊕ fmt_d (memoryMb q) ⊕ "m")).
  set (rest := if is_empty additional then EmptyString else additional ⊕ nl).
  assert (has_char 10 xmx = false) as Hx by (unfold xmx; by rewrite !has_char_append, fmt_d_clean).
  assert (jvm_text q additional = foldl (λ sb l, sb ⊕ (l ⊕ nl)) EmptyString defaultJVMProps
                                    ⊕ (xmx ⊕ nl ⊕ rest)) as ->.
  { unfold jvm_text, addDefaultJVMProps, rest, xmx, is_empty.
    destruct additional; cbn -[foldl String.append]; by rewrite !append_assoc, ?append_nil_r. }
  rewrite foldl_lines, append_nil_l, split_lines_many by repeat constructor.
  rewrite split_lines_nl by done. unfold rest. by destruct (is_empty additional).
Qed.

Lemma common_key (sys add : gmap string string) :
  ¬ sys ##ₘ add ↔ ∃ k, k ∈ dom sys ∧ k ∈ dom add.
Proof.
  rewrite map_disjoint_dom. split.
  - intros Hd. destruct (decide (dom sys ∩ dom add = ∅)) as [He|He].
    + exfalso. apply Hd. set_solver.
    + apply set_choose_L in He as [k Hk]. exists k. set_solver.
  - set_solver.
Qed.

Lemma worker_system_keys p host :
  dom (workerSystemProps p host) = {["coordinator"; "http-server.http.port"; "discovery.uri"]}.
Proof.
  unfold workerSystemProps. destruct (getHTTPPort p). simpl. rewrite !dom_insert_L. set_solver.
Qed.

(** ** The shutdown script *)

Definition unlines (ls : list string) : string := foldr (λ l rest, l ⊕ nl ⊕ rest) EmptyString ls.

(** The line of the script that reads a port from the mounted file. *)
Definition port_line (variable property path : string) : string :=
  variable ⊕ "=" ⊕ dq ⊕ "$(cat " ⊕ path ⊕ "/config.properties | grep '" ⊕ property
    ⊕ "' | sed 's/^.*=\(.*\)$/\1/')" ⊕ dq.

(** The script of constants.go with its two port lines for a path. *)
Definition script_lines (path : string) : list string :=
  <[6%nat := port_line "https_port" "http-server.https.port" path]>
    (<[5%nat := port_line "http_port" "http-server.http.port" path]> shutdownScriptLines).

(** Both occurrences of the marker are replaced, whatever the path, and nothing
    else is. *)
Lemma shutdown_script_lines path : shutdownScriptFor path = unlines (script_lines path).
Proof.
  unfold unlines, script_lines, shutdownScriptLines. cbn [foldr insert list_insert].
  unfold port_line. rewrite !append_assoc. reflexivity.
Qed.

Section facts.
Context `{GoMapRange, Apimachinery}.

Lemma system_props_clean p host sys :
  clean_presto p → has_char 10 host = false → getSystemProps p host = inr sys →
  clean_props sys.
Proof.
  intros (_ & Hk & Hp) Hh. unfold getSystemProps.
  pose proof (discovery_line p host) as Hd.
  destruct (getHTTPPort p) as [http https] eqn:Hport. simpl in Hd.
  assert (has_char 10 (httpsVolPath ⊕ "/" ⊕ cs_HttpsKeyPairSecretKey (Coordinator (Spec p))) = false)
    by (rewrite !has_char_append; by rewrite Hk).
  repeat case_match; intros [= <-]; rewrite Hd;
    repeat (apply clean_insert; [done|auto with go|]); apply clean_empty.
Qed.

Lemma worker_props_clean p host :
  has_char 10 host = false → clean_props (workerSystemProps p host).
Proof.
  intros Hh. unfold workerSystemProps. pose proof (discovery_uri_clean p host Hh) as Hd.
  unfold discovery_uri in Hd. destruct (getHTTPPort p) as [http https]. simpl in Hd.
  repeat (apply clean_insert; [done|auto with go|]); apply clean_empty.
Qed.

Lemma write_additional_ok sys sb l :
  (∃ r, write_additional sys sb l = inr r) ↔ Forall (λ kv, sys !! kv.1 = None) l.
Proof.
  revert sb. induction l as [|[k v] l IH]; intros sb; simpl.
  - split; [done|by eexists].
  - rewrite Forall_cons. simpl. destruct (sys !! k) eqn:Hk.
    + split; [by intros [? ?]|by intros [? ?]].
    + rewrite IH. naive_solver.
Qed.

Lemma write_additional_error sys sb l e :
  write_additional sys sb l = inl e → e = system_property_error.
Proof.
  revert sb. induction l as [|[k v] l IH]; intros sb; simpl; [done|].
  destruct (sys !! k); [by intros [= <-]|apply IH].
Qed.

Lemma no_system_key site (sys add : gmap string string) :
  Forall (λ kv, sys !! kv.1 = None) (map_range site add) ↔ sys ##ₘ add.
Proof.
  rewrite Forall_forall, map_disjoint_alt. split.
  - intros Hall k. destruct (add !! k) as [v|] eqn:Hk; [left|by right].
    apply (Hall (k, v)). by apply elem_of_map_range.
  - intros Hd [k v] Hin. apply elem_of_map_range in Hin. destruct (Hd k); naive_solver.
Qed.

(** Both writers: refusal exactly on a common key, or the text of both maps. *)
Lemma write_config_ok i j (sys add : gmap string string) :
  match write_additional sys (write_props EmptyString (map_range i sys)) (map_range j add) with
  | inl e => e = system_property_error ∧ ¬ sys ##ₘ add
  | inr f => sys ##ₘ add ∧ f = lines_of (map_range i sys) ⊕ lines_of (map_range j add)
  end.
Proof.
  destruct (write_additional _ _ _) as [e|f] eqn:Hw.
  - split; [by eapply write_additional_error|].
    rewrite <-(no_system_key j), <-write_additional_ok. intros [r Hr].
    by erewrite Hw in Hr.
  - split; [rewrite <-(no_system_key j), <-write_additional_ok; eauto|].
    apply write_additional_lines in Hw. by rewrite write_props_lines, append_nil_l in Hw.
Qed.

Lemma coordinator_file p f :
  coordinatorConfigPropsMap p = Some (inr f) →
  let add := cs_AdditionalProps (Coordinator (Spec p)) in
  ∃ host sys, getCoordinatorInternalName (p_Uuid p) = Some host
    ∧ getSystemProps p host = inr sys ∧ sys ##ₘ add
    ∧ f = lines_of (map_range 2 sys) ⊕ lines_of (map_range 3 add).
Proof.
  unfold coordinatorConfigPropsMap. intros Hf.
  apply bind_Some in Hf as (host & Hh & Hf). destruct (getSystemProps p host) as [|sys] eqn:Hs; [done|].
  injection Hf as Hf.
  pose proof (write_config_ok 2 3 sys (cs_AdditionalProps (Coordinator (Spec p)))) as Hw.
  rewrite Hf in Hw. naive_solver.
Qed.

Lemma worker_file p f :
  workerConfigPropsMap p = Some (inr f) →
  let add := ws_AdditionalProps (Worker (Spec p)) in
  ∃ host, getCoordinatorInternalName (p_Uuid p) = Some host
    ∧ workerSystemProps p host ##ₘ add
    ∧ f = lines_of (map_range 4 (workerSystemProps p host)) ⊕ lines_of (map_range 5 add).
Proof.
  unfold workerConfigPropsMap. intros Hf.
  apply bind_Some in Hf as (host & Hh & Hf). injection Hf as Hf.
  pose proof (write_config_ok 4 5 (workerSystemProps p host) (ws_AdditionalProps (Worker (Spec p)))) as Hw.
  rewrite Hf in Hw. naive_solver.
Qed.

Lemma getSystemProps_error p host :
  (∃ e, getSystemProps p host = inl e) ↔ https_incomplete p.
Proof.
  unfold getSystemProps, https_incomplete. destruct (getHTTPPort p) as [http https].
  repeat case_match; rewrite ?is_empty_true, ?is_empty_false in *; naive_solver.
Qed.

Lemma parse_coordinator_config p f :
  clean_presto p → clean_props (cs_AdditionalProps (Coordinator (Spec p))) →
  coordinatorConfigPropsMap p = Some (inr f) →
  ∃ host sys, getCoordinatorInternalName (p_Uuid p) = Some host
    ∧ getSystemProps p host = inr sys
    ∧ sys ##ₘ cs_AdditionalProps (Coordinator (Spec p))
    ∧ parse_properties f = chomp <$> (sys ∪ cs_AdditionalProps (Coordinator (Spec p))).
Proof.
  intros Hp Hadd (host & sys & Hh & Hs & Hd & ->)%coordinator_file.
  exists host, sys. split_and!; [done..|]. apply parse_two_ranges; [done| |done].
  eapply system_props_clean; [done| |done]. by apply (internal_name_clean _ _ Hh), Hp.
Qed.

Lemma parse_worker_config p f :
  clean_presto p → clean_props (ws_AdditionalProps (Worker (Spec p))) →
  workerConfigPropsMap p = Some (inr f) →
  ∃ host, getCoordinatorInternalName (p_Uuid p) = Some host
    ∧ parse_properties f
      = <["coordinator" := "false"]> (<["http-server.http.port" := fmt_d prestoPort]>
          (<["discovery.uri" := discovery_uri p host]>
            (chomp <$> ws_AdditionalProps (Worker (Spec p))))).
Proof.
  intros Hp Hadd (host & Hh & Hd & ->)%worker_file.
  assert (has_char 10 host = false) as Hclean by by apply (internal_name_clean _ _ Hh), Hp.
  exists host. split; [done|].
  rewrite parse_two_ranges; [|done|by apply worker_props_clean|done].
  rewrite map_fmap_union.
  pose proof (chomp_nl _ (discovery_uri_clean p host Hclean)) as Hc.
  unfold workerSystemProps, discovery_uri in *.
  destruct (getHTTPPort p) as [http https]. simpl in *.
  rewrite !fmap_insert, fmap_empty, Hc, <-!insert_union_l, (left_id_L ∅ (∪)). done.
Qed.

(** C10: reading the coordinator's config.properties back gives exactly the
    reserved properties and the additional properties of the resource, in
    whatever order the two maps were ranged over, as long as no string of the
    resource that is written has a newline. *)
Theorem coordinator_config_roundtrip p f :
  clean_presto p → clean_props (cs_AdditionalProps (Coordinator (Spec p))) →
  coordinatorConfigPropsMap p = Some (inr f) →
  ∃ host sys, getCoordinatorInternalName (p_Uuid p) = Some host
    ∧ getSystemProps p host = inr sys
    ∧ sys ##ₘ cs_AdditionalProps (Coordinator (Spec p))
    ∧ parse_properties f = chomp <$> (sys ∪ cs_AdditionalProps (Coordinator (Spec p))).
Proof. apply parse_coordinator_config. Qed.

(** C18: reading the workers' config.properties back gives exactly the three
    reserved properties, which make the node a worker that listens on the
    default port and announces itself to the coordinator, and the additional
    properties of the resource. *)
Theorem worker_config_roundtrip p f :
  clean_presto p → clean_props (ws_AdditionalProps (Worker (Spec p))) →
  workerConfigPropsMap p = Some (inr f) →
  ∃ host, getCoordinatorInternalName (p_Uuid p) = Some host
    ∧ parse_properties f
      = <["coordinator" := "false"]> (<["http-server.http.port" := fmt_d prestoPort]>
          (<["discovery.uri" := discovery_uri p host]>
            (chomp <$> ws_AdditionalProps (Worker (Spec p))))).
Proof. apply parse_worker_config. Qed.

(** C20: a configuration is refused exactly when HTTPS is asked for without its
    password, secret key or secret name, or when an additional property is a
    reserved one. The two files need no other condition, and the worker's file
    does not depend on the HTTPS settings. *)
Theorem config_refused_iff p host :
  getCoordinatorInternalName (p_Uuid p) = Some host →
  ((∃ e, coordinatorConfigPropsMap p = Some (inl e)) ↔
     https_incomplete p ∨
     ∃ sys k, getSystemProps p host = inr sys ∧ k ∈ dom sys
       ∧ k ∈ dom (cs_AdditionalProps (Coordinator (Spec p)))) ∧
  ((∃ e, workerConfigPropsMap p = Some (inl e)) ↔
     ∃ k, k ∈ ({["coordinator"; "http-server.http.port"; "discovery.uri"]} : gset string)
       ∧ k ∈ dom (ws_AdditionalProps (Worker (Spec p)))).
Proof.
  intros Hh. split.
  - rewrite <-(getSystemProps_error p host). unfold coordinatorConfigPropsMap. rewrite Hh. simpl.
    destruct (getSystemProps p host) as [e|sys]; [naive_solver|].
    pose proof (write_config_ok 2 3 sys (cs_AdditionalProps (Coordinator (Spec p)))) as Hw.
    destruct (write_additional _ _ _) as [e|f]; [destruct Hw as [-> Hw]|destruct Hw as [Hw _]].
    + split; [|by eexists]. intros _. right. exists sys.
      apply common_key in Hw as [k Hk]. naive_solver.
    + split; [naive_solver|]. intros [[? ?]|(? & k & [= <-] & Hk)]; [done|].
      exfalso. apply (proj2 (common_key _ _)) in Hw; [done|]. by exists k.
  - unfold workerConfigPropsMap. rewrite Hh. simpl. rewrite <-(worker_system_keys p host).
    pose proof (write_config_ok 4 5 (workerSystemProps p host) (ws_AdditionalProps (Worker (Spec p)))) as Hw.
    destruct (write_additional _ _ _) as [e|f]; [destruct Hw as [-> Hw]|destruct Hw as [Hw _]].
    + split; [|by eexists]. intros _. by apply common_key.
    + split; [naive_solver|]. intros Hk. by apply common_key in Hk.
Qed.

(** C26: the heap given to the JVM never exceeds the memory limit of the
    resource and wastes less than a megabyte of it: the file sets it once,
    between the default options and the additional ones. *)
Theorem jvm_heap_fits p (isCoordinator : bool) f q :
  let limit := if isCoordinator then cs_MemoryLimit (Coordinator (Spec p))
               else ws_MemoryLimit (Worker (Spec p)) in
  let additional := if isCoordinator then cs_AdditionalJVMConfig (Coordinator (Spec p))
                    else ws_AdditionalJVMConfig (Worker (Spec p)) in
  ParseQuantity limit = (q, None) → (0 <= q_Value q)%Z →
  (if isCoordinator then coordinatorJVMConfigMap p else workerJVMConfigMap p) = inr f →
  ∃ mb, (mb * 2 ^ 20 <= q_Value q < (mb + 1) * 2 ^ 20)%Z
    ∧ split_lines f
      = (defaultJVMProps ++ ("-Xmx" ⊕ fmt_d mb ⊕ "m")
           :: (if is_empty additional then [EmptyString] else split_lines (additional ⊕ nl)))%list.
Proof.
  intros limit additional Hq Hv Hf. exists (memoryMb q). split; [by apply memoryMb_bounds|].
  assert (f = jvm_text q additional) as ->
    by (destruct isCoordinator; unfold coordinatorJVMConfigMap, workerJVMConfigMap in Hf;
        subst limit additional; rewrite Hq in Hf; by injection Hf).
  apply jvm_text_lines.
Qed.

Lemma buildConfigMap_data p (isCoordinator : bool) name lbls cm :
  buildConfigMap p isCoordinator name lbls = Some (inr cm) →
  ∃ config jvm,
    (if isCoordinator then coordinatorConfigPropsMap p else workerConfigPropsMap p)
      = Some (inr config) ∧
    (if isCoordinator then coordinatorJVMConfigMap p else workerJVMConfigMap p) = inr jvm ∧
    om_Name (cm_ObjectMeta cm) = name ∧
    ∀ file, cm_Data cm !! file =
      match AdditionalPrestoPropFiles (Spec p) !! file with
      | Some content => Some content
      | None =>
        (list_to_map [(nodePropertiesKey, coordinatorNodePropsMap);
           (configPropertiesKey, config); (jvmConfigKey, jvm);
           (prestoShutdownScript, shutdownScriptFor (getPrestoPath p))] : gmap string string)
          !! file
      end.
Proof.
  unfold buildConfigMap. intros Hb. apply bind_Some in Hb as ([e|config] & Hc & Hb); [done|].
  destruct (if isCoordinator then coordinatorJVMConfigMap p else workerJVMConfigMap p)
    as [e|jvm] eqn:Hj; [done|]. injection Hb as <-. exists config, jvm.
  split; [by destruct isCoordinator|]. split; [done|]. split; [done|]. intros file. simpl.
  rewrite map_copy_union, lookup_union.
  destruct (AdditionalPrestoPropFiles (Spec p) !! file) as [content|]; simpl.
  - by destruct (_ !! file).
  - rewrite (left_id None union). by destruct isCoordinator.
Qed.

(** C27: the config map of a role holds its four files, the user's additional
    files, which win over a generated file of the same name, and nothing else. *)
Theorem config_map_files p (isCoordinator : bool) name lbls cm file :
  buildConfigMap p isCoordinator name lbls = Some (inr cm) →
  ∃ config jvm,
    (if isCoordinator then coordinatorConfigPropsMap p else workerConfigPropsMap p)
      = Some (inr config) ∧
    (if isCoordinator then coordinatorJVMConfigMap p else workerJVMConfigMap p) = inr jvm ∧
    cm_Data cm !! file =
      match AdditionalPrestoPropFiles (Spec p) !! file with
      | Some content => Some content
      | None =>
        if decide (file = "config.properties") then Some config
        else if decide (file = "jvm.config") then Some jvm
        else if decide (file = "node.properties")
             then Some ("node.environment=prestoproduction" ⊕ nl ⊕ "node.data-dir=/data/presto" ⊕ nl)
        else if decide (file = "presto_shutdown.sh")
             then Some (unlines (script_lines (getPrestoPath p)))
        else None
      end.
Proof.
  intros (config & jvm & Hc & Hj & _ & Hd)%buildConfigMap_data. exists config, jvm.
  split; [done|]. split; [done|]. rewrite Hd, shutdown_script_lines.
  destruct (AdditionalPrestoPropFiles (Spec p) !! file); [done|].
  destruct (decide (file = "config.properties")) as [->|]; [done|].
  destruct (decide (file = "jvm.config")) as [->|]; [done|].
  destruct (decide (file = "node.properties")) as [->|]; [done|].
  destruct (decide (file = "presto_shutdown.sh")) as [->|]; [done|].
  simpl. by rewrite !lookup_insert_ne.
Qed.
End facts.

(** The port asked for in the resource. *)
Definition asked_port (p : Presto) : Z := default prestoPort (ss_Port (Service_ (Spec p))).

(** C25: for a valid port in the resource, the coordinator's HTTP port is valid
    and differs from its HTTPS port; the one port of the external service is the
    HTTPS port when HTTPS is on and the HTTP port when it is off, and it is
    never given a node port under the type ClusterIP. *)
Theorem ports_agree p :
  (1 <= asked_port p <= 65535)%Z →
  let '(http, https) := getHTTPPort p in
  http ≠ https
  ∧ (1 <= http <= 65535)%Z
  ∧ ∃ sp, getServicePort p = [sp] ∧ sp_Port sp = sp_TargetPort sp
      ∧ sp_TargetPort sp = (if cs_HttpsEnabled (Coordinator (Spec p)) then https else http)
      ∧ (ss_Type (Service_ (Spec p)) = "ClusterIP" → sp_NodePort sp = 0%Z).
Proof.
  unfold asked_port, getHTTPPort, getServicePort, prestoPort.
  set (port := match ss_Port _ with Some q => q | None => 8080%Z end).
  replace (default 8080%Z (ss_Port (Service_ (Spec p)))) with port
    by (unfold port; by destruct (ss_Port _)).
  intros Hport. clearbody port.
  assert (∀ hp, hp = port → ∃ sp,
    match ss_NodePort (Service_ (Spec p)) with
    | Some nodePort =>
      if negb (String.eqb (ss_Type (Service_ (Spec p))) "ClusterIP")
      then [mkServicePort "presto-coordinator-port" port nodePort port]
      else [mkServicePort "presto-coordinator-port" port 0%Z port]
    | None => [mkServicePort "presto-coordinator-port" port 0%Z port]
    end = [sp] ∧ sp_Port sp = sp_TargetPort sp ∧ sp_TargetPort sp = hp
    ∧ (ss_Type (Service_ (Spec p)) = "ClusterIP" → sp_NodePort sp = 0%Z)) as Hsp.
  { intros hp ->. destruct (ss_NodePort _); [|by eexists].
    destruct (String.eqb_spec (ss_Type (Service_ (Spec p))) "ClusterIP"); by eexists. }
  destruct (cs_HttpsEnabled _); [destruct (Z.eqb_spec port 8080)|]; (split; [lia|]);
    (split; [lia|]); by apply Hsp.
Qed.

(** ** Witnesses *)

#[local] Existing Instance sorted_range.
#[local] Existing Instance exampleApi.

Definition exampleConfigured : Presto := examplePresto autoscalingOff.

Lemma exampleConfigured_clean : clean_presto exampleConfigured.
Proof. by vm_compute. Qed.

Lemma example_worker_additional_clean :
  clean_props (ws_AdditionalProps (Worker (Spec exampleConfigured))).
Proof. apply map_Forall_singleton. by vm_compute. Qed.

Lemma coordinator_config_roundtrip_witness : ∃ f host sys,
  coordinatorConfigPropsMap exampleConfigured = Some (inr f)
  ∧ getSystemProps exampleConfigured host = inr sys
  ∧ parse_properties f = chomp <$> (sys ∪ ∅).
Proof.
  eexists. edestruct (coordinator_config_roundtrip exampleConfigured) as (host & sys & _ & Hs & _ & Hp).
  - apply exampleConfigured_clean.
  - apply clean_empty.
  - vm_compute. reflexivity.
  - exists host, sys. split; [vm_compute; reflexivity|]. split; [exact Hs|exact Hp].
Defined.

Lemma worker_config_roundtrip_witness : ∃ f,
  workerConfigPropsMap exampleConfigured = Some (inr f)
  ∧ parse_properties f !! "shutdown.grace-period" = Some "10s".
Proof.
  eexists. split; [vm_compute; reflexivity|].
  edestruct (worker_config_roundtrip exampleConfigured) as (host & Hh & ->).
  - apply exampleConfigured_clean.
  - apply example_worker_additional_clean.
  - vm_compute. reflexivity.
  - vm_compute. reflexivity.
Defined.

Lemma config_refused_iff_witness : ¬ ∃ e, workerConfigPropsMap exampleConfigured = Some (inl e).
Proof.
  edestruct (config_refused_iff exampleConfigured) as [_ Hw]; [vm_compute; reflexivity|].
  rewrite Hw. intros (k & Hk & Hin). simpl in Hin.
  apply elem_of_dom in Hin as [v Hv]. apply lookup_singleton_Some in Hv as [<- _].
  set_solver.
Defined.

Lemma jvm_heap_fits_witness : ∃ f mb, workerJVMConfigMap exampleConfigured = inr f
  ∧ (mb * 2 ^ 20 <= 1073741824)%Z ∧ "-Xmx" ⊕ fmt_d mb ⊕ "m" ∈ split_lines f.
Proof.
  eexists. edestruct (jvm_heap_fits exampleConfigured false) as (mb & Hb & Hl).
  - vm_compute. reflexivity.
  - vm_compute. discriminate.
  - vm_compute. reflexivity.
  - exists mb. split; [vm_compute; reflexivity|]. split; [apply Hb|].
    rewrite Hl. apply elem_of_app. right. left.
Defined.

Lemma config_map_files_witness : ∃ cm,
  buildConfigMap exampleConfigured false "workerconfig-03f118d2" ∅ = Some (inr cm)
  ∧ cm_Data cm !! "access-control.properties" = Some "access-control.name=read-only".
Proof.
  eexists. split; [vm_compute; reflexivity|].
  edestruct (λ cm, config_map_files exampleConfigured false "workerconfig-03f118d2" ∅ cm
               "access-control.properties") as (config & jvm & _ & _ & ->).
  - vm_compute. reflexivity.
  - vm_compute. reflexivity.
Defined.

Lemma ports_agree_witness : (getHTTPPort exampleConfigured).1 ≠ (getHTTPPort exampleConfigured).2.
Proof. by apply (ports_agree exampleConfigured). Defined.
