(* ===== verification/CatalogFacts.v ===== *)
(** Correctness of the catalog config map of Catalog.v. *)

From S2P Require Import Prelude ApiTypes K8sTypes Names Config PropertiesFile Catalog Examples.

Local Open Scope string_scope.

(** The catalog of a name in the resource: the last one of that name. *)
Definition spec_catalog (p : Presto) (name : string) : option CatalogSpec :=
  List.find (λ c, String.eqb (cat_Name c) name) (reverse (cl_CatalogSpec (Catalogs (Spec p)))).

(** The keys of the catalog secrets. *)
Definition secret_keys (p : Presto) : list string :=
  map csec_SecretKey (cl_CatalogSecrets (Catalogs (Spec p))).

(** ** Lemmas *)

Lemma find_app {A} (f : A → bool) l1 l2 :
  List.find f (l1 ++ l2)%list = match List.find f l1 with Some x => Some x | None => List.find f l2 end.
Proof. induction l1 as [|x l1 IH]; simpl; [done|]. by destruct (f x). Qed.

Lemma suffix_inj a b : a ⊕ catalogFileSuffix = b ⊕ catalogFileSuffix → a = b.
Proof. intros Heq. by apply append_inj_tail in Heq as [-> _]. Qed.

Lemma existsb_false_find {A} (f : A → bool) l : existsb f l = false → List.find f (reverse l) = None.
Proof.
  induction l as [|x l IH]; [done|]. simpl. intros [Hx Hl]%orb_false_iff.
  rewrite reverse_cons, find_app, IH by done. simpl. by rewrite Hx.
Qed.

Lemma existsb_true_find {A} (f : A → bool) l :
  existsb f l = true → ∃ x, List.find f (reverse l) = Some x.
Proof.
  induction l as [|x l IH]; [done|]. simpl. rewrite reverse_cons, find_app.
  destruct (List.find f (reverse l)) as [y|] eqn:Hy; [by eexists|]. simpl.
  destruct (f x); [by eexists|]. simpl. intros [? ?]%IH. congruence.
Qed.

Section facts.
Context `{GoMapRange}.

Lemma addSpecCatalogs_lookup i l data name :
  match List.find (λ c, String.eqb (cat_Name c) name) (reverse l) with
  | Some c => ∃ site, addSpecCatalogs i l data !! (name ⊕ catalogFileSuffix)
                = Some (lines_of (map_range site (cat_Content c)))
  | None => addSpecCatalogs i l data !! (name ⊕ catalogFileSuffix)
            = data !! (name ⊕ catalogFileSuffix)
  end.
Proof.
  revert i data. induction l as [|c l IH]; intros i data; [done|].
  rewrite reverse_cons, find_app. cbn [addSpecCatalogs].
  specialize (IH (S i) (<[cat_Name c ⊕ catalogFileSuffix
    := write_props EmptyString (map_range (9 + i) (cat_Content c))]> data)).
  destruct (List.find _ (reverse l)) as [c'|]; [done|]. rewrite IH. simpl.
  destruct (String.eqb_spec (cat_Name c) name) as [->|Hne].
  - exists (9 + i)%nat. by rewrite lookup_insert_eq, write_props_lines.
  - rewrite lookup_insert_ne; [done|]. by intros ?%suffix_inj.
Qed.

Lemma addSpecCatalogs_keys i l data k :
  is_Some (addSpecCatalogs i l data !! k) →
  (∃ name, k = name ⊕ catalogFileSuffix) ∨ is_Some (data !! k).
Proof.
  revert i data. induction l as [|c l IH]; intros i data; [by right|]. cbn [addSpecCatalogs].
  intros [?|Hk]%IH; [by left|]. rewrite lookup_insert_is_Some in Hk.
  destruct Hk as [<-|[_ Hk]]; [left; by eexists|by right].
Qed.

Lemma getDefaultCatalogs_lookup p name :
  getDefaultCatalogs p !! name
  = if catalogPresentInSpec p name then None else defaultCatalogs !! name.
Proof.
  unfold getDefaultCatalogs. rewrite <-(list_to_map_range 7 defaultCatalogs) at 2.
  pose proof (NoDup_map_range_keys 7 defaultCatalogs) as Hnd.
  induction (map_range 7 defaultCatalogs) as [|[k v] l IH] using rev_ind; simpl.
  { by destruct (catalogPresentInSpec p name). }
  rewrite fmap_app, NoDup_app in Hnd. destruct Hnd as (Hnd & Hni & _).
  rewrite foldl_app, list_to_map_app, lookup_union. simpl.
  assert (k ∉ l.*1) as Hk by (intros Hin; apply (Hni k Hin); left).
  destruct (decide (k = name)) as [->|Hne].
  - rewrite lookup_insert_eq, (not_elem_of_list_to_map_1 _ _ Hk). simpl.
    destruct (catalogPresentInSpec p name) eqn:Hp; [by rewrite IH|by rewrite lookup_insert_eq].
  - rewrite lookup_insert_ne, lookup_empty, (right_id None union) by done.
    destruct (catalogPresentInSpec p k); [by apply IH|].
    rewrite lookup_insert_ne by done. by apply IH.
Qed.

Lemma addDefaults_lookup (l : list (string * string)) (data : gmap string string) name :
  NoDup l.*1 →
  foldl (λ data '(k, v), <[k ⊕ catalogFileSuffix := v]> data) data l !! (name ⊕ catalogFileSuffix)
  = match (list_to_map l : gmap string string) !! name with
    | Some v => Some v
    | None => data !! (name ⊕ catalogFileSuffix)
    end.
Proof.
  revert data. induction l as [|[k v] l IH]; intros data; csimpl; [by rewrite lookup_empty|].
  intros [Hni Hnd]%NoDup_cons. rewrite (IH _ Hnd).
  destruct (decide (k = name)) as [->|Hne].
  - by rewrite lookup_insert_eq, (not_elem_of_list_to_map_1 _ _ Hni), lookup_insert_eq.
  - rewrite !(lookup_insert_ne _ k) by done.
    rewrite (lookup_insert_ne _ (k ⊕ catalogFileSuffix)); [done|]. by intros ?%suffix_inj.
Qed.

Lemma addDefaults_keys (l : list (string * string)) (data : gmap string string) key :
  is_Some (foldl (λ data '(k, v), <[k ⊕ catalogFileSuffix := v]> data) data l !! key) →
  (∃ name, key = name ⊕ catalogFileSuffix) ∨ is_Some (data !! key).
Proof.
  revert data. induction l as [|[k v] l IH]; intros data; simpl; [by right|].
  intros [?|Hk]%IH; [by left|]. rewrite lookup_insert_is_Some in Hk.
  destruct Hk as [<-|[_ Hk]]; [left; by eexists|by right].
Qed.

Lemma catalog_present p name :
  catalogPresentInSpec p name = true ↔ (∃ c, spec_catalog p name = Some c) ∨ name ∈ secret_keys p.
Proof.
  unfold catalogPresentInSpec, spec_catalog, secret_keys. rewrite orb_true_iff. f_equiv.
  - destruct (existsb _ _) eqn:He.
    + apply existsb_true_find in He. naive_solver.
    + apply existsb_false_find in He. rewrite He. naive_solver.
  - rewrite existsb_exists, list_elem_of_fmap. setoid_rewrite list_elem_of_In.
    setoid_rewrite String.eqb_eq. naive_solver.
Qed.

(** C22: the catalog config map. A file is there for every catalog of the
    resource (the last one of a name), and reads back as its properties; a
    default catalog is there exactly when the resource has no catalog of its
    name, neither in its spec nor as a secret key, so that a file of a secret
    is never hidden by a default; there is no other file. *)
Theorem catalog_files p name lbls cm catalog :
  buildCatalogConfigMap p name lbls = inr cm →
  match spec_catalog p catalog with
  | Some c => ∃ text, cm_Data cm !! (catalog ⊕ ".properties") = Some text
      ∧ (clean_props (cat_Content c) → parse_properties text = chomp <$> cat_Content c)
  | None => cm_Data cm !! (catalog ⊕ ".properties")
      = if decide (catalog ∈ secret_keys p) then None else defaultCatalogs !! catalog
  end ∧
  ∀ file, is_Some (cm_Data cm !! file) → ∃ n, file = n ⊕ ".properties".
Proof.
  unfold buildCatalogConfigMap. intros [= <-]. simpl. split.
  - fold catalogFileSuffix. pose proof (catalog_present p catalog) as Hin.
    assert (∀ data : gmap string string,
      foldl (λ data '(k, v), <[k ⊕ catalogFileSuffix := v]> data) data
        (map_range 8 (getDefaultCatalogs p)) !! (catalog ⊕ catalogFileSuffix)
      = match (if catalogPresentInSpec p catalog then None else defaultCatalogs !! catalog) with
        | Some v => Some v | None => data !! (catalog ⊕ catalogFileSuffix) end) as Hd.
    { intros data. rewrite addDefaults_lookup by apply NoDup_map_range_keys.
      by rewrite list_to_map_range, getDefaultCatalogs_lookup. }
    rewrite !Hd.
    pose proof (addSpecCatalogs_lookup 0 (cl_CatalogSpec (Catalogs (Spec p))) ∅ catalog) as Ha.
    fold (spec_catalog p catalog) in Ha.
    destruct (spec_catalog p catalog) as [c|].
    + rewrite (proj2 Hin) by (left; by eexists). destruct Ha as [site Ha].
      exists (lines_of (map_range site (cat_Content c))). split; [done|]. apply parse_range.
    + rewrite Ha, lookup_empty. destruct (decide (catalog ∈ secret_keys p)) as [Hs|Hs].
      * by rewrite (proj2 Hin) by by right.
      * destruct (catalogPresentInSpec p catalog); [|by destruct (defaultCatalogs !! catalog)].
        destruct (proj1 Hin eq_refl) as [[? ?]|?]; done.
  - intros file Hf. apply addDefaults_keys in Hf as [?|Hf]; [done|].
    apply addSpecCatalogs_keys in Hf as [?|[? Hf]]; [done|]. by rewrite lookup_empty in Hf.
Qed.
End facts.

(** ** Witnesses *)

#[local] Existing Instance sorted_range.

Lemma catalog_files_witness : ∃ cm,
  buildCatalogConfigMap (examplePresto autoscalingOff) "catalogconfig-03f118d2" ∅ = inr cm
  ∧ cm_Data cm !! "tpch.properties" = Some ("connector.name=tpch" ⊕ nl)
  ∧ cm_Data cm !! "mytpch.properties" = None.
Proof.
  eexists. split; [reflexivity|]. split.
  - destruct (catalog_files (examplePresto autoscalingOff) "catalogconfig-03f118d2" ∅ _ "tpch"
                eq_refl) as [Hl _]. exact Hl.
  - destruct (catalog_files (examplePresto autoscalingOff) "catalogconfig-03f118d2" ∅ _ "mytpch"
                eq_refl) as [Hl _]. exact Hl.
Defined.
