(* ===== verification/PodFacts.v ===== *)
(** Correctness of the pod templates of Pods.v: their volumes and mounts, their
    resources, and how they fit the configuration files and the services. *)

From S2P Require Import Prelude ApiTypes K8sTypes Names Config PropertiesFile.
From S2P Require Import Catalog Pods Services Examples ConfigFacts.

Local Open Scope string_scope.

(** ** The pod template in closed form *)

Definition short (p : Presto) : string := String.substring 0 8 (p_Uuid p).

(** The volumes of the operator itself, in the order of the template. *)
Definition catalogVolume (p : Presto) : Volume :=
  mkVolume ("catalogvol-" ⊕ short p)
    (VSProjected (ProjConfigMap ("catalogconfig-" ⊕ short p)
                    :: map catalogSecretProjection (cl_CatalogSecrets (Catalogs (Spec p))))).

Definition propsVolumeName (p : Presto) (isCoordinator : bool) : string :=
  (if isCoordinator then "coordinatorconfvol-" else "workerconfvol-") ⊕ short p.

Definition propsVolume (p : Presto) (isCoordinator : bool) : Volume :=
  mkVolume (propsVolumeName p isCoordinator)
    (VSProjected [ProjConfigMap
       ((if isCoordinator then "coordinatorconfig-" else "workerconfig-") ⊕ short p)]).

Definition usesHttps (p : Presto) (isCoordinator : bool) : bool :=
  isCoordinator && cs_HttpsEnabled (Coordinator (Spec p)).

Definition httpsVolumes (p : Presto) (isCoordinator : bool) : list Volume :=
  if usesHttps p isCoordinator
  then [mkVolume ("httpssecret-" ⊕ short p)
          (VSSecret (cs_HttpsKeyPairSecretName (Coordinator (Spec p))))]
  else [].

Definition httpsMounts (p : Presto) (isCoordinator : bool) : list VolumeMount :=
  if usesHttps p isCoordinator then [readOnlyMount ("httpssecret-" ⊕ short p) httpsVolPath]
  else [].

Definition podVolumes (p : Presto) (isCoordinator : bool) : list Volume :=
  ([catalogVolume p; propsVolume p isCoordinator]
     ++ map additionalVolume (Volumes (Spec p)) ++ httpsVolumes p isCoordinator)%list.

Definition podMounts (p : Presto) (isCoordinator : bool) : list VolumeMount :=
  ([readOnlyMount (propsVolumeName p isCoordinator) (getPrestoPath p);
    readOnlyMount ("catalogvol-" ⊕ short p) (getPrestoPath p ⊕ catalogMountPath)]
     ++ httpsMounts p isCoordinator ++ map additionalVolumeMount (Volumes (Spec p)))%list.

Definition podTemplate (p : Presto) (isCoordinator : bool)
    (limits requests : gmap string Quantity) : PodSpec :=
  let image := is_Name (ImageDetails (Spec p)) in
  let host := "coordinatorcontainer-" ⊕ short p in
  mkPodSpec
    (if isCoordinator then None
     else Some (default DefaultTerminationGracePeriodSeconds
                  (ws_TerminationGracePeriodSeconds (Worker (Spec p)))))
    [mkContainer (if isCoordinator then host else "workerrcontainer-" ⊕ short p)
       (if is_empty image then "prestosql/presto:333" else image) limits requests
       (if isCoordinator then None else Some (workerLifecycle p))
       (podMounts p isCoordinator)]
    (if isCoordinator then host else EmptyString)
    (if isCoordinator then "pod-discovery-" ⊕ short p else EmptyString)
    (podVolumes p isCoordinator).

(** ** Lemmas *)

Lemma appendAdditionalVolumes_eq p ps :
  appendAdditionalVolumes p ps =
  mkPodSpec (ps_TerminationGracePeriodSeconds ps) (ps_Containers ps) (ps_Hostname ps)
    (ps_Subdomain ps) (ps_Volumes ps ++ map additionalVolume (Volumes (Spec p)))%list.
Proof.
  unfold appendAdditionalVolumes. revert ps.
  induction (Volumes (Spec p)) as [|v vs IH]; intros ps; simpl.
  - rewrite app_nil_r. by destruct ps.
  - rewrite IH. unfold append_volume. simpl. by rewrite <-app_assoc.
Qed.

Lemma appendAdditionalVolumeMounts_eq vols grace c host sub vs :
  appendAdditionalVolumeMounts_loop vols (mkPodSpec grace [c] host sub vs) =
  Some (mkPodSpec grace
    [mkContainer (co_Name c) (co_Image c) (co_Limits c) (co_Requests c) (co_Lifecycle c)
       (co_VolumeMounts c ++ map additionalVolumeMount vols)%list] host sub vs).
Proof.
  revert c. induction vols as [|v vols IH]; intros c; simpl.
  - rewrite app_nil_r. by destruct c.
  - rewrite IH. simpl. by rewrite <-app_assoc.
Qed.

Lemma createPrestoPodSpec_eq p isCoordinator limits requests :
  uuid_ok (p_Uuid p) →
  createPrestoPodSpec p isCoordinator limits requests
  = Some (podTemplate p isCoordinator limits requests).
Proof.
  intros Hu. unfold createPrestoPodSpec, getCatalogVolumeMount, getPropsVolumeMount,
    getHTTPSVolumeMount, getCoordinatorContainerName, getWorkerContainerPrefix,
    getPodDiscoveryServiceName, getCatalogConfigMapName, getCatalogVolName,
    getCoordinatorConfigMapName, getWorkerConfigMapName, getCoordinatorConfigVolumeName,
    getWorkerConfigVolumeName, getHTTPSSecretVolName.
  rewrite !(short_name_ok _ _ Hu). fold (short p).
  unfold appendAdditionalVolumeMounts, podTemplate, podVolumes, podMounts, httpsVolumes,
    httpsMounts, usesHttps.
  assert (match ws_TerminationGracePeriodSeconds (Worker (Spec p)) with
          | None => Some DefaultTerminationGracePeriodSeconds | Some s => Some s end
          = Some (default DefaultTerminationGracePeriodSeconds
                    (ws_TerminationGracePeriodSeconds (Worker (Spec p))))) as Hg
    by by destruct (ws_TerminationGracePeriodSeconds _).
  destruct isCoordinator; [destruct (cs_HttpsEnabled _)|]; simpl;
    rewrite ?Hg, appendAdditionalVolumes_eq; simpl;
    rewrite appendAdditionalVolumeMounts_eq; simpl;
    rewrite ?app_nil_r, <-?app_assoc; done.
Qed.

Lemma createPrestoPodSpec_panics p isCoordinator limits requests :
  ¬ uuid_ok (p_Uuid p) → createPrestoPodSpec p isCoordinator limits requests = None.
Proof.
  intros Hu. unfold createPrestoPodSpec, getCoordinatorContainerName, getWorkerContainerPrefix.
  destruct isCoordinator; by rewrite (short_name_panics _ _ Hu).
Qed.

(** A template that is built has the closed form. *)
Lemma createPrestoPodSpec_inv p isCoordinator limits requests ps :
  createPrestoPodSpec p isCoordinator limits requests = Some ps →
  uuid_ok (p_Uuid p) ∧ ps = podTemplate p isCoordinator limits requests.
Proof.
  intros Hps. destruct (decide (8 <= String.length (p_Uuid p))%nat) as [Hu|Hu].
  - rewrite createPrestoPodSpec_eq in Hps by done. by injection Hps.
  - by rewrite createPrestoPodSpec_panics in Hps.
Qed.

(** The names of the operator's own volumes of a role. *)
Definition operator_volumes (p : Presto) (isCoordinator : bool) : list string :=
  map (λ prefix, prefix ⊕ short p)
    ("catalogvol-" :: (if isCoordinator then "coordinatorconfvol-" else "workerconfvol-")
       :: if usesHttps p isCoordinator then ["httpssecret-"] else []).

Lemma short_prefix_inj p a b : a ⊕ short p = b ⊕ short p → a = b.
Proof. intros Heq. by apply append_inj_tail in Heq as [-> _]. Qed.

Lemma podVolumes_names p isCoordinator :
  map vol_Name (podVolumes p isCoordinator)
  ≡ₚ (operator_volumes p isCoordinator ++ map pv_Name (Volumes (Spec p)))%list.
Proof.
  unfold podVolumes, operator_volumes, httpsVolumes, propsVolume, propsVolumeName.
  rewrite !map_app, map_map. simpl. do 2 constructor.
  destruct (usesHttps p isCoordinator); simpl; [apply Permutation_app_comm|by rewrite app_nil_r].
Qed.

Lemma podMounts_names p isCoordinator :
  map vm_Name (podMounts p isCoordinator)
  ≡ₚ (operator_volumes p isCoordinator ++ map pv_Name (Volumes (Spec p)))%list.
Proof.
  unfold podMounts, operator_volumes, httpsMounts, propsVolumeName.
  rewrite !map_app, map_map. simpl. rewrite Permutation_swap. do 2 constructor.
  by destruct (usesHttps p isCoordinator).
Qed.

Lemma operator_volumes_nodup p isCoordinator : NoDup (operator_volumes p isCoordinator).
Proof.
  unfold operator_volumes. apply NoDup_fmap_2; [exact (short_prefix_inj p)|].
  destruct isCoordinator, (usesHttps p _); apply (bool_decide_unpack _); vm_compute; exact I.
Qed.

Lemma system_props_discovery p host sys :
  has_char 10 host = false → getSystemProps p host = inr sys →
  (chomp <$> sys) !! "discovery.uri" = Some (discovery_uri p host)
  ∧ (chomp <$> sys) !! "http-server.http.port" = Some (fmt_d (getHTTPPort p).1).
Proof.
  intros Hh. unfold getSystemProps. rewrite !lookup_fmap.
  pose proof (discovery_line p host) as Hd.
  pose proof (chomp_append_nl (discovery_uri p host)) as Hc.
  destruct (getHTTPPort p) as [http https]. simpl in *.
  pose proof (chomp_nl _ (fmt_d_clean http)) as Hn.
  repeat case_match; intros [= <-]; rewrite Hd; simplify_map_eq;
    rewrite Hc, Hn; done.
Qed.

Lemma lookup_system (sys add : gmap string string) k v :
  (chomp <$> sys) !! k = Some v → (chomp <$> (sys ∪ add)) !! k = Some v.
Proof.
  rewrite !lookup_fmap, lookup_union. destruct (sys !! k); [|done]. by destruct (add !! k).
Qed.

(** ** Theorems *)

(** C23: volumes and mounts. The one container of a pod template mounts every
    volume of the template once, and nothing else. The volume names, which
    Kubernetes requires to be distinct, are so exactly when the user's volumes
    have distinct names and none has a name of the operator's own volumes of
    the role; the operator does not check it. *)
Theorem pod_volumes_wellformed p isCoordinator limits requests ps :
  createPrestoPodSpec p isCoordinator limits requests = Some ps →
  (∃ c, ps_Containers ps = [c] ∧ map vm_Name (co_VolumeMounts c) ≡ₚ map vol_Name (ps_Volumes ps))
  ∧ (NoDup (map vol_Name (ps_Volumes ps)) ↔
     NoDup (map pv_Name (Volumes (Spec p)))
     ∧ ∀ v, v ∈ Volumes (Spec p) → pv_Name v ∉ operator_volumes p isCoordinator).
Proof.
  intros [Hu ->]%createPrestoPodSpec_inv. cbn [podTemplate ps_Containers ps_Volumes]. split.
  - eexists. split; [done|]. cbn [co_VolumeMounts]. by rewrite podMounts_names, podVolumes_names.
  - rewrite podVolumes_names, NoDup_app. pose proof (operator_volumes_nodup p isCoordinator).
    split.
    + intros (_ & Hd & Hn). split; [done|]. intros v Hv Hin. apply (Hd _ Hin).
      apply list_elem_of_fmap. by exists v.
    + intros [Hn Hd]. split_and!; [done| |done]. intros n Hn1 (v & -> & Hv)%list_elem_of_fmap.
      by apply (Hd v).
Qed.

Section theorems.
Context `{GoMapRange, Apimachinery}.

(** C19: the workers find the coordinator: the discovery URI in the workers'
    configuration is the one the coordinator announces, its host is the host
    name of the coordinator pod in the subdomain of the headless service, and
    its port is the HTTP port on which the coordinator listens. *)
Theorem workers_find_coordinator p cf wf limits requests ps :
  clean_presto p → clean_props (cs_AdditionalProps (Coordinator (Spec p))) →
  clean_props (ws_AdditionalProps (Worker (Spec p))) →
  coordinatorConfigPropsMap p = Some (inr cf) → workerConfigPropsMap p = Some (inr wf) →
  createPrestoPodSpec p true limits requests = Some ps →
  ∃ port,
    let uri := "http://" ⊕ (ps_Hostname ps ⊕ "." ⊕ ps_Subdomain ps) ⊕ ":" ⊕ port in
    parse_properties wf !! "discovery.uri" = Some uri
    ∧ parse_properties cf !! "discovery.uri" = Some uri
    ∧ parse_properties cf !! "http-server.http.port" = Some port
    ∧ getPodDiscoveryServiceName (p_Uuid p) = Some (ps_Subdomain ps).
Proof.
  intros Hp Hca Hwa Hcf Hwf [Hu ->]%createPrestoPodSpec_inv.
  destruct (parse_coordinator_config p cf) as (host & sys & Hh & Hs & _ & Hc); [done..|].
  destruct (parse_worker_config p wf) as (host' & Hh' & Hw); [done..|].
  rewrite Hh in Hh'. injection Hh' as <-.
  pose proof (internal_name_clean _ _ Hh (proj1 Hp)) as Hhc.
  unfold getCoordinatorInternalName, getCoordinatorContainerName, getPodDiscoveryServiceName in Hh.
  rewrite !(short_name_ok _ _ Hu) in Hh. simpl in Hh. injection Hh as Hh. fold (short p) in Hh.
  exists (fmt_d (getHTTPPort p).1). simpl. rewrite Hh.
  destruct (system_props_discovery p host sys Hhc Hs) as [Hd Hport].
  rewrite Hc, Hw. split_and!.
  - by simplify_map_eq.
  - by apply lookup_system.
  - by apply lookup_system.
  - unfold getPodDiscoveryServiceName. by rewrite (short_name_ok _ _ Hu).
Qed.

(** C24: the hook that runs before a worker stops is in the pod: its command is
    a file of the directory at which the pod mounts the workers' config map,
    the config map built for the workers has the file, unless the user
    replaced it, and it is the shutdown script for that directory. A worker
    gets the user's grace period or two hours. *)
Theorem worker_prestop_script p limits requests ps name lbls cm :
  createPrestoPodSpec p false limits requests = Some ps →
  getWorkerConfigMapName (p_Uuid p) = Some name →
  buildConfigMap p false name lbls = Some (inr cm) →
  AdditionalPrestoPropFiles (Spec p) !! "presto_shutdown.sh" = None →
  ∃ c m v, ps_Containers ps = [c]
    ∧ co_Lifecycle c = Some (mkLifecycle ["/bin/sh"; vm_MountPath m ⊕ "/" ⊕ "presto_shutdown.sh"])
    ∧ m ∈ co_VolumeMounts c ∧ v ∈ ps_Volumes ps ∧ vol_Name v = vm_Name m
    ∧ vol_VolumeSource v = VSProjected [ProjConfigMap (om_Name (cm_ObjectMeta cm))]
    ∧ cm_Data cm !! "presto_shutdown.sh" = Some (shutdownScriptFor (vm_MountPath m))
    ∧ ps_TerminationGracePeriodSeconds ps
      = Some (default 7200%Z (ws_TerminationGracePeriodSeconds (Worker (Spec p)))).
Proof.
  intros [Hu ->]%createPrestoPodSpec_inv Hn Hcm Hno.
  unfold getWorkerConfigMapName in Hn. rewrite (short_name_ok _ _ Hu) in Hn.
  injection Hn as <-. apply buildConfigMap_data in Hcm as (config & jvm & _ & _ & Hname & Hd).
  eexists _, (readOnlyMount (propsVolumeName p false) (getPrestoPath p)), (propsVolume p false).
  split; [done|]. split; [done|]. split; [left|]. split; [right; left|]. split; [done|].
  split; [by rewrite Hname|]. split; [|done]. by rewrite Hd, Hno.
Qed.

(** The pod template of a role, and the strings of the resource its resources
    come from. *)
Definition rolePod (p : Presto) (isCoordinator : bool) : option (goerror + PodSpec) :=
  if isCoordinator then getPrestoCoordinatorPodSpec p else getPrestoWorkerPod p.

Definition cpuLimitOf (p : Presto) (isCoordinator : bool) : string :=
  if isCoordinator then cs_CpuLimit (Coordinator (Spec p)) else ws_CpuLimit (Worker (Spec p)).

Definition cpuRequestOf (p : Presto) (isCoordinator : bool) : string :=
  let r := if isCoordinator then cs_CpuRequest (Coordinator (Spec p))
           else ws_CpuRequest (Worker (Spec p)) in
  if is_empty r then cpuLimitOf p isCoordinator else r.

Lemma rolePod_resources p isCoordinator ps :
  rolePod p isCoordinator = Some (inr ps) →
  ∃ cpu mem req,
    ParseQuantity (cpuLimitOf p isCoordinator) = (cpu, None)
    ∧ ParseQuantity (ws_MemoryLimit (Worker (Spec p))) = (mem, None)
    ∧ ParseQuantity (cpuRequestOf p isCoordinator) = (req, None)
    ∧ uuid_ok (p_Uuid p)
    ∧ ps = podTemplate p isCoordinator
             (<["memory" := mem]> {["cpu" := cpu]}) {["cpu" := req]}.
Proof.
  unfold rolePod, getPrestoCoordinatorPodSpec, getPrestoWorkerPod, parseField, cpuRequestOf,
    cpuLimitOf.
  destruct isCoordinator.
  all: destruct (ParseQuantity _) as [cpu [e|]] eqn:Hcpu; [done|].
  all: destruct (ParseQuantity (ws_MemoryLimit _)) as [mem [e|]] eqn:Hmem; [done|].
  all: destruct (is_empty _).
  all: repeat match goal with |- context [match ParseQuantity ?x with _ => _ end] =>
         destruct (ParseQuantity x) as [req [e|]] eqn:?; [done|] end.
  all: rewrite ?Hcpu; intros Hps; apply bind_Some in Hps as (ps' & Hps & [= ->]);
    apply createPrestoPodSpec_inv in Hps as [Hu ->].
  all: eexists _, _, _; split_and!; done.
Qed.

(** C34: the resources of the one container of a pod: its limits are the CPU
    limit of its role and the memory limit of the workers, and its CPU request
    is the one of the resource or, when there is none, its CPU limit. *)
Theorem pod_resources p isCoordinator ps :
  rolePod p isCoordinator = Some (inr ps) →
  ∃ c cpu mem req, ps_Containers ps = [c]
    ∧ ParseQuantity (cpuLimitOf p isCoordinator) = (cpu, None)
    ∧ ParseQuantity (ws_MemoryLimit (Worker (Spec p))) = (mem, None)
    ∧ ParseQuantity (cpuRequestOf p isCoordinator) = (req, None)
    ∧ co_Limits c = <["memory" := mem]> {["cpu" := cpu]}
    ∧ co_Requests c = {["cpu" := req]}.
Proof.
  intros (cpu & mem & req & Hc & Hm & Hr & _ & ->)%rolePod_resources.
  eexists _, cpu, mem, req. split_and!; done.
Qed.

(** The coordinator's heap comes from the coordinator's memory limit and
    its container's limit from the workers': when the former is at least a
    megabyte larger, the JVM of the coordinator is given a heap that does not
    fit its container. *)
Theorem coordinator_heap_over_limit p ps f qc qw :
  rolePod p true = Some (inr ps) → coordinatorJVMConfigMap p = inr f →
  ParseQuantity (cs_MemoryLimit (Coordinator (Spec p))) = (qc, None) →
  ParseQuantity (ws_MemoryLimit (Worker (Spec p))) = (qw, None) →
  (0 <= q_Value qw)%Z → (q_Value qw + 2 ^ 20 <= q_Value qc)%Z →
  ∃ c mem mb, ps_Containers ps = [c] ∧ co_Limits c !! "memory" = Some mem
    ∧ ("-Xmx" ⊕ fmt_d mb ⊕ "m") ∈ split_lines f ∧ (q_Value mem < mb * 2 ^ 20)%Z.
Proof.
  intros (cpu & mem & req & _ & Hm & _ & _ & ->)%rolePod_resources Hf Hqc Hqw Hpos Hlt.
  rewrite Hqw in Hm. injection Hm as ->.
  eexists _, mem, (memoryMb qc). split; [done|]. split; [done|].
  pose proof (memoryMb_bounds qc ltac:(lia)) as Hb. split; [|lia].
  assert (f = jvm_text qc (cs_AdditionalJVMConfig (Coordinator (Spec p)))) as ->
    by (unfold coordinatorJVMConfigMap in Hf; rewrite Hqc in Hf; by injection Hf).
  rewrite jvm_text_lines. apply elem_of_app. right. left.
Qed.
End theorems.

(** ** Witnesses *)

#[local] Existing Instance sorted_range.

(** Quantities of two sizes, and a coordinator larger than its workers. *)
Definition sizedApi : Apimachinery := {|
  ParseQuantity s :=
    if String.eqb s "4Gi" then (mkQuantity 4294967296 4294967296000, None)
    else (mkQuantity 1073741824 500, None);
  NewNotFound r n := StatusError StatusReasonNotFound (r ⊕ n ⊕ " not found") |}.

#[local] Existing Instance sizedApi.

Definition bigCoordinator : Presto :=
  mkPresto (mkTypeMeta "Presto" "falarica.io/v1alpha1") exampleMeta
    (mkPrestoSpec
       (mkCoordinatorSpec "4Gi" EmptyString ∅ "0.5" EmptyString false EmptyString EmptyString
          EmptyString)
       (exampleWorker autoscalingOff) (mkCatalogList [] []) exampleService
       (mkImageSpec EmptyString EmptyString) ∅
       [mkPrestoVolumeSpec "spillvol" (VSOther "emptyDir") false "/prestospill" EmptyString None
          EmptyString])
    (statusWithUuid exampleUuid).

Lemma coordinator_heap_over_limit_witness : ∃ ps f c mem mb,
  rolePod bigCoordinator true = Some (inr ps) ∧ coordinatorJVMConfigMap bigCoordinator = inr f
  ∧ ps_Containers ps = [c] ∧ co_Limits c !! "memory" = Some mem
  ∧ ("-Xmx" ⊕ fmt_d mb ⊕ "m") ∈ split_lines f ∧ (q_Value mem < mb * 2 ^ 20)%Z.
Proof.
  eexists _, _.
  edestruct (coordinator_heap_over_limit bigCoordinator) as (c & mem & mb & Hc & Hm & Hl & Hlt);
    [vm_compute; reflexivity|vm_compute; reflexivity|vm_compute; reflexivity|
     vm_compute; reflexivity|vm_compute; discriminate|vm_compute; discriminate|].
  exists c, mem, mb. split; [vm_compute; reflexivity|]. split; [vm_compute; reflexivity|].
  split_and!; assumption.
Defined.

Lemma pod_resources_witness : ∃ ps c, rolePod bigCoordinator false = Some (inr ps)
  ∧ ps_Containers ps = [c] ∧ is_Some (co_Requests c !! "cpu").
Proof.
  eexists. edestruct (pod_resources bigCoordinator false)
    as (c & cpu & mem & req & Hc & _ & _ & _ & _ & Hr); [vm_compute; reflexivity|].
  exists c. split; [vm_compute; reflexivity|]. split; [exact Hc|]. rewrite Hr. by exists req.
Defined.

Lemma bigCoordinator_volumes v :
  v ∈ Volumes (Spec bigCoordinator) → pv_Name v ∉ operator_volumes bigCoordinator true.
Proof. intros ->%list_elem_of_singleton. vm_compute. set_solver. Qed.

Lemma pod_volumes_wellformed_witness : ∃ ps,
  createPrestoPodSpec bigCoordinator true ∅ ∅ = Some ps ∧ NoDup (map vol_Name (ps_Volumes ps)).
Proof.
  eexists. split; [vm_compute; reflexivity|].
  apply (pod_volumes_wellformed bigCoordinator true ∅ ∅); [vm_compute; reflexivity|].
  split; [apply NoDup_singleton|apply bigCoordinator_volumes].
Defined.

Lemma bigCoordinator_clean : clean_presto bigCoordinator.
Proof. by vm_compute. Qed.

Lemma bigCoordinator_worker_clean : clean_props (ws_AdditionalProps (Worker (Spec bigCoordinator))).
Proof. apply map_Forall_singleton. by vm_compute. Qed.

Lemma workers_find_coordinator_witness : ∃ cf wf port,
  coordinatorConfigPropsMap bigCoordinator = Some (inr cf)
  ∧ workerConfigPropsMap bigCoordinator = Some (inr wf)
  ∧ parse_properties wf !! "discovery.uri" = Some
      ("http://" ⊕ "coordinatorcontainer-03f118d2.pod-discovery-03f118d2" ⊕ ":" ⊕ port)
  ∧ parse_properties cf !! "http-server.http.port" = Some port.
Proof.
  eexists _, _.
  edestruct (workers_find_coordinator bigCoordinator) as (port & Hw & _ & Hport & _);
    [apply bigCoordinator_clean|apply clean_empty|apply bigCoordinator_worker_clean|
     vm_compute; reflexivity|vm_compute; reflexivity|
     apply (createPrestoPodSpec_eq bigCoordinator true ∅ ∅); apply Nat.leb_le; reflexivity|].
  exists port. split; [vm_compute; reflexivity|]. split; [vm_compute; reflexivity|].
  split; [exact Hw|exact Hport].
Defined.

Lemma worker_prestop_script_witness : ∃ cm path,
  buildConfigMap bigCoordinator false "workerconfig-03f118d2" ∅ = Some (inr cm)
  ∧ cm_Data cm !! "presto_shutdown.sh" = Some (shutdownScriptFor path).
Proof.
  eexists. edestruct (worker_prestop_script bigCoordinator)
    as (c & m & v & _ & _ & _ & _ & _ & _ & Hd & _);
    [apply (createPrestoPodSpec_eq bigCoordinator false ∅ ∅); apply Nat.leb_le; reflexivity|
     reflexivity|vm_compute; reflexivity|reflexivity|].
  exists (vm_MountPath m). split; [vm_compute; reflexivity|]. exact Hd.
Defined.
