(* ===== verification/HpaFacts.v ===== *)
(** Correctness of the autoscaler object of Hpa.v. *)

From S2P Require Import Prelude ApiTypes K8sTypes Names Pods Effects Hpa Examples.

Local Open Scope string_scope.

(** The bounds of the autoscaling spec. *)
Definition bounds (p : Presto) : option (Z * Z * Z) :=
  let a := ws_Autoscaling (Worker (Spec p)) in
  match as_MinReplicas a, as_MaxReplicas a, as_TargetCPUUtilizationPercentage a with
  | Some mi, Some ma, Some ta => Some (mi, ma, ta)
  | _, _, _ => None
  end.

(** C30: the autoscaler object. It is built exactly when the three bounds are in
    the spec, and an absent bound is an error; an object that is built scales
    the given ReplicaSet between the bounds of the spec, belongs to the resource
    and is not seen as changed, while one that differs from the spec in a bound
    is. *)
Theorem autoscaler_object p rs lbls version a :
  uuid_ok (p_Uuid p) →
  match bounds p with
  | None => ∃ e, createHPASpec p rs lbls version = Some (inl e)
  | Some (mi, ma, ta) =>
    (∃ h, createHPASpec p rs lbls version = Some (inr h)
       ∧ hpa_ScaleTargetRef_Name h = om_Name (rs_ObjectMeta rs)
       ∧ hpa_ScaleTargetRef_Kind h = tm_Kind (rs_TypeMeta rs)
       ∧ (hpa_MinReplicas h, hpa_MaxReplicas h, hpa_TargetCPUUtilizationPercentage h)
         = (Some mi, ma, Some ta)
       ∧ isCreatedByHpaController h p = true
       ∧ autoscaleSpecChanged h p = Some false) ∧
    (∀ m t, hpa_MinReplicas a = Some m → hpa_TargetCPUUtilizationPercentage a = Some t →
       autoscaleSpecChanged a p
       = Some (negb (bool_decide (m = mi ∧ hpa_MaxReplicas a = ma ∧ t = ta))))
  end.
Proof.
  intros Hu. unfold bounds, createHPASpec, autoscaleSpecChanged.
  destruct (as_MinReplicas _) as [mi|]; [|by eexists].
  destruct (as_MaxReplicas _) as [ma|]; [|by eexists].
  destruct (as_TargetCPUUtilizationPercentage _) as [ta|]; [|by eexists].
  unfold getHPAName. rewrite (short_name_ok _ _ Hu). split.
  - eexists. split; [done|]. simpl. split_and!; try done.
    + unfold isCreatedByHpaController. simpl. by rewrite !String.eqb_refl.
    + unfold or_else, deref_ne, deref. simpl. by rewrite !Z.eqb_refl.
  - intros m t -> ->. unfold or_else, deref_ne, deref. simpl.
    destruct (Z.eqb_spec (hpa_MaxReplicas a) ma), (Z.eqb_spec m mi), (Z.eqb_spec t ta); simpl;
      case_bool_decide; naive_solver.
Qed.

(** ** Witness *)

Definition targetSet : ReplicaSet :=
  newReplicaSet (examplePresto autoscalingOn) "workerreplicaset-03f118d2" ∅ 1%Z
    (mkPodSpec None [] EmptyString EmptyString []).

Definition someAutoscaler : HorizontalPodAutoscaler :=
  mkHPA (newObjectMeta "hpa-03f118d2" EmptyString "default" ∅ []) "apps/v1" "ReplicaSet"
    "workerreplicaset-03f118d2" (Some 1%Z) 3%Z (Some 20%Z).

Lemma autoscaler_object_witness :
  autoscaleSpecChanged someAutoscaler (examplePresto autoscalingOn) = Some true.
Proof.
  destruct (autoscaler_object (examplePresto autoscalingOn) targetSet ∅ EmptyString someAutoscaler)
    as [_ Hc]; [apply Nat.leb_le; reflexivity|].
  rewrite (Hc 1%Z 20%Z eq_refl eq_refl). reflexivity.
Defined.
