(* ===== verification/Traces.v ===== *)
(** Changes of the cluster in traces, and the symbolic execution of programs.

    A change is a request that creates, updates or deletes an object other than
    the status of the Presto resource. [stage_post] states what every stage of
    Reconcile does whatever the responses it gets; ServiceStages.v and
    PodStages.v prove it stage by stage. *)

From S2P Require Import Prelude ApiTypes K8sTypes Names Config Catalog Pods Effects.
From S2P Require Import Status Services ConfigMaps ReplicaSets Hpa Reconcile.

(** ** Changes of the cluster *)

(** The requests that create, update or delete an object of the cluster other
    than the status of the Presto resource. *)
Definition child_write (r : req) : bool :=
  match r with
  | CreateService _ | CreateConfigMap _ | CreateReplicaSet _ | UpdateReplicaSet _
  | CreateHPA _ | UpdateHPA _ | DeleteHPA _ => true
  | _ => false
  end.

Definition changes (t : trace) : list req := filter (λ r, child_write r = true) (requests t).

(** The error a change was answered with, if any; an update or creation of an
    autoscaler tolerates AlreadyExists. *)
Definition change_error (e : event) : option goerror :=
  match e with
  | existT (CreateService _) x => x
  | existT (CreateConfigMap _) x => x
  | existT (CreateReplicaSet _) x => match x with inl e => Some e | inr _ => None end
  | existT (UpdateReplicaSet _) x => match x with inl e => Some e | inr _ => None end
  | existT (CreateHPA _) x => failed x
  | existT (UpdateHPA _) x => failed x
  | existT (DeleteHPA _) x => x
  | existT _ _ => None
  end.

Definition change_errors (t : trace) : list goerror := omap change_error t.

(** The same cluster: what the owner reference, the namespace and the spec of
    the children are taken from. *)
Definition same_cluster (p q : Presto) : Prop :=
  p_Name p = p_Name q ∧ p_Namespace p = p_Namespace q ∧ p_UID p = p_UID q ∧
  p_Uuid p = p_Uuid q ∧ Spec p = Spec q.

#[export] Instance same_cluster_equiv : Equivalence same_cluster.
Proof.
  split.
  - done.
  - intros p q (?&?&?&?&?). by repeat split.
  - intros p q r (?&?&?&?&?) (?&?&?&?&?). repeat split; congruence.
Qed.

(** The API server answers a status update with the stored resource. *)
Definition statusContract (E : contract) : Prop :=
  ∀ p p', E (UpdatePrestoStatus p) (inr p') → same_cluster p p'.

(** ** Lemmas on traces *)

Lemma changes_app t1 t2 : changes (t1 ++ t2) = changes t1 ++ changes t2.
Proof. unfold changes. by rewrite requests_app, filter_app. Qed.

Lemma changes_cons r x t :
  changes (ev r x :: t) = if child_write r then r :: changes t else changes t.
Proof.
  unfold changes, requests. simpl. rewrite filter_cons. simpl.
  by destruct (child_write r).
Qed.

Lemma change_errors_app t1 t2 : change_errors (t1 ++ t2) = change_errors t1 ++ change_errors t2.
Proof. apply omap_app. Qed.

Lemma change_errors_cons e t :
  change_errors (e :: t) =
  match change_error e with Some x => x :: change_errors t | None => change_errors t end.
Proof. unfold change_errors. simpl. by destruct (change_error e). Qed.

(** A trace without changes. *)
Definition quiet (t : trace) : Prop := changes t = [] ∧ change_errors t = [].

Lemma quiet_nil : quiet [].
Proof. done. Qed.

Lemma quiet_app t1 t2 : quiet t1 → quiet t2 → quiet (t1 ++ t2).
Proof.
  intros [H1 H2] [H3 H4]. split.
  - by rewrite changes_app, H1, H3.
  - by rewrite change_errors_app, H2, H4.
Qed.

Lemma quiet_cons r x t : child_write r = false → quiet t → quiet (ev r x :: t).
Proof.
  intros Hr [H1 H2]. split.
  - by rewrite changes_cons, Hr.
  - rewrite change_errors_cons, H2. by destruct r.
Qed.

#[export] Hint Resolve quiet_nil quiet_app : go.
#[export] Hint Extern 1 (quiet (ev _ _ :: _)) => apply quiet_cons; [done|] : go.

(** ** Symbolic execution *)

(** Expose the next request of a program. *)
Ltac prog_simpl :=
  cbv [mbind mret M_mbind M_mret M_bind M_ret prog_mbind prog_ret callM liftP liftO call
       recordEvent getPrestoObj putPrestoObj getLabels putLabels storeBack];
  cbn [prog_bind wp sh_presto sh_baseLabels ofOption].

(** The value on which the next step of a program depends. *)
Ltac scrutinee m :=
  lazymatch m with
  | prog_bind _ ?m' => scrutinee m'
  | ofOption ?x => x
  | match ?x with _ => _ end => x
  | (match ?x with _ => _ end) _ => x
  end.

(** One step: answer a request, or split on a response. *)
Ltac prog_step :=
  lazymatch goal with
  | |- wp _ ?m _ =>
    let x := scrutinee m in
    first [is_var x; destruct x | destruct x eqn:?]
  | |- ∀ _ : resp _, _ =>
    let x := fresh "x" in let Hx := fresh "Hx" in intros x Hx; cbn [resp] in x
  end; prog_simpl.

(** ** updateStatus *)

Lemma applyAction_inv a st st' u :
  applyAction a st = Some (st', u) →
  Uuid st' = default (Uuid st) (cu_clusterUUID a) ∧ u = action_updates a.
Proof.
  unfold applyAction. intros H.
  destruct (serviceFields _ _) as [[??]|]; [|done]. simpl in H.
  destruct (workerFields _ _) as [[[??]?]|]; [|done]. simpl in H.
  by injection H as <- <-.
Qed.

(** The outcome of a status update: no change of the cluster, the labels are
    kept, and so is the cluster when the update does not assign a UUID. *)
Definition status_post (E : contract) (a : ClusterUpdateAction) (s : shared)
    (t : trace) (o : outcome (bool * option goerror * shared)) : Prop :=
  quiet t ∧
  match o with
  | Returned (u, err, s') =>
    sh_baseLabels s' = sh_baseLabels s ∧
    (statusContract E → cu_clusterUUID a = None → same_cluster (sh_presto s) (sh_presto s')) ∧
    (err = None → u = action_updates a)
  | Panicked => True
  end.

Lemma updateStatus_spec E a s : wp E (updateStatus a s) (status_post E a s).
Proof.
  unfold updateStatus, getPresto. prog_simpl. intros r _.
  destruct r as [err|items]; prog_simpl; [by repeat split; eauto with go|].
  destruct (List.find _ items) as [p|] eqn:Hf; simpl.
  all: destruct (applyAction _ _) as [[st update]|] eqn:Ha; prog_simpl;
    [|by split; eauto with go].
  all: apply applyAction_inv in Ha as [Ha Hupd].
  all: destruct update; prog_simpl; repeat prog_step.
  all: split; [by eauto 8 with go|split; [done|split; [|done]]]; simpl.
  all: intros HE Hu; rewrite Hu in Ha; simpl in Ha; try done.
  apply HE in Hx0. etransitivity; [|exact Hx0]. by repeat split.
Qed.

(** ** Stages *)

(** An object of the cluster of [p]: in its namespace, labelled with its UUID
    and controlled by it. The owner is identified by its UID; its kind and API
    version are those of the resource in memory, which the client may leave
    empty when it decodes the answer to a status update. *)
Definition owned (p : Presto) (om : ObjectMeta) : Prop :=
  om_Namespace om = p_Namespace p ∧
  om_Labels om !! "clusterUUID"%string = Some (p_Uuid p) ∧
  ∃ o, om_OwnerReferences om = [o] ∧ or_Name o = p_Name p ∧ or_UID o = p_UID p ∧
       or_Controller o = Some true.

(** The first object of an answer to the request for the worker ReplicaSets of
    [p], and to a request for the autoscalers with its UUID. *)
Definition listed_workers (p : Presto) (t : trace) (rs : ReplicaSet) : Prop :=
  ∃ rest, ev (ListReplicaSets (p_Namespace p) (single_label (getWorkerPodLabel (p_Uuid p))))
            (inr (rs :: rest)) ∈ t.

Definition listed_hpa (p : Presto) (t : trace) (hpa : HorizontalPodAutoscaler) : Prop :=
  ∃ sel rest, sel !! "clusterUUID"%string = Some (p_Uuid p) ∧
    ev (ListHPAs (p_Namespace p) sel) (inr (hpa :: rest)) ∈ t.

(** The changes Reconcile may ask for after the requests of [t]. An object it
    updates or deletes is one that was listed for the cluster; the update of a
    ReplicaSet sets its replicas and nothing else, the update of an autoscaler
    is one of the version that was listed. *)
Definition allowed_change (p : Presto) (t : trace) (r : req) : Prop :=
  match r with
  | CreateService s => owned p (svc_ObjectMeta s)
  | CreateConfigMap cm => owned p (cm_ObjectMeta cm)
  | CreateReplicaSet rs =>
    owned p (rs_ObjectMeta rs) ∧ owned p (pt_ObjectMeta (rs_Template rs)) ∧
    rs_MatchLabels rs = om_Labels (pt_ObjectMeta (rs_Template rs))
  | UpdateReplicaSet rs =>
    countManaged p = true ∧
    ∃ rs0 count, listed_workers p t rs0 ∧ ws_Count (Worker (Spec p)) = Some count ∧
      rs = set_Replicas rs0 (Some count)
  | CreateHPA h =>
    owned p (hpa_ObjectMeta h) ∧ getHPAName (p_Uuid p) = Some (om_Name (hpa_ObjectMeta h)) ∧
    checkAutoscalingEnabled p = true
  | UpdateHPA h =>
    owned p (hpa_ObjectMeta h) ∧ getHPAName (p_Uuid p) = Some (om_Name (hpa_ObjectMeta h)) ∧
    checkAutoscalingEnabled p = true ∧
    ∃ h0, listed_hpa p t h0 ∧
      om_ResourceVersion (hpa_ObjectMeta h) = om_ResourceVersion (hpa_ObjectMeta h0)
  | DeleteHPA h => checkAutoscalingEnabled p = false ∧ listed_hpa p t h
  | _ => True
  end.

(** The kinds of changes. *)
Definition on_service (r : req) : bool :=
  match r with CreateService _ => true | _ => false end.
Definition on_config_map (r : req) : bool :=
  match r with CreateConfigMap _ => true | _ => false end.
Definition on_replicaset (r : req) : bool :=
  match r with CreateReplicaSet _ | UpdateReplicaSet _ => true | _ => false end.
Definition on_hpa (r : req) : bool :=
  match r with CreateHPA _ | UpdateHPA _ | DeleteHPA _ => true | _ => false end.

(** The shared label map carries the cluster UUID. *)
Definition labelled (s : shared) : Prop :=
  sh_baseLabels s !! "clusterUUID"%string = Some (p_Uuid (sh_presto s)).

(** What a stage does, whatever the responses: at most one change, of the kind
    [K] of the stage and allowed; an error answered to the change is the error of the stage; a
    stage that reports no error and no change made none and has seen [Ev]. *)
Definition stage_post (E : contract) (s : shared) (K : req → bool) (Ev : trace → Prop)
    (t : trace) (o : outcome (option goerror * bool * shared)) : Prop :=
  (length (changes t) <= 1)%nat ∧
  Forall (λ r, K r = true) (changes t) ∧
  (labelled s → Forall (allowed_change (sh_presto s) t) (changes t)) ∧
  match o with
  | Panicked => True
  | Returned (err, changed, s') =>
    (statusContract E → same_cluster (sh_presto s) (sh_presto s')) ∧
    sh_baseLabels s' !! "clusterUUID"%string = sh_baseLabels s !! "clusterUUID"%string ∧
    (∀ e, e ∈ change_errors t → err = Some e) ∧
    (changed = true → err = None → changes t ≠ []) ∧
    (err = None → changed = false → changes t = [] ∧ Ev t)
  end.

(** The computation a program runs next. *)
Ltac innermost m :=
  lazymatch m with
  | prog_bind _ ?m' => innermost m'
  | _ => m
  end.

(** Move the continuations of a program to the postcondition. *)
Ltac wp_focus :=
  repeat lazymatch goal with |- wp _ (prog_bind _ _) _ => apply wp_bind end.

(** A status update inside a stage. *)
Ltac use_updateStatus :=
  lazymatch goal with
  | |- wp _ ?m _ =>
    lazymatch innermost m with
    | updateStatus ?a ?s =>
      wp_focus; eapply wp_mono; [|apply (updateStatus_spec _ a s)];
      let t := fresh "ts" in let Hq := fresh "Hq" in let Hs := fresh "Hs" in
      intros t [[[? ?] ?]|] [Hq Hs]; prog_simpl
    end
  end.

(** Run a stage to its returns. *)
Ltac stage_run := prog_simpl; repeat (prog_step || use_updateStatus).

(** Compute the changes of a trace. *)
Ltac trace_simpl :=
  repeat match goal with H : quiet _ |- _ => destruct H as [? ?] end;
  rewrite ?app_nil_r;
  repeat (rewrite changes_cons || rewrite changes_app || rewrite change_errors_cons
          || rewrite change_errors_app);
  cbn [child_write change_error ev];
  repeat match goal with
  | H : failed ?x = _ |- context [failed ?x] => rewrite H
  | H : changes ?t = [] |- _ => rewrite H
  | H : change_errors ?t = [] |- _ => rewrite H
  end; cbn [app].

Lemma owned_new p n g lbls :
  lbls !! "clusterUUID"%string = Some (p_Uuid p) →
  owned p (newObjectMeta n g (p_Namespace p) lbls [getOwnerReference p]).
Proof. intros. split; [done|]. split; [done|]. by eexists. Qed.

#[export] Hint Resolve owned_new : go.

Lemma discovery_label_uuid u m :
  set_label (getPodDiscoveryServiceLabel u) m !! "clusterUUID"%string = m !! "clusterUUID"%string.
Proof. unfold set_label. by rewrite lookup_insert_ne. Qed.

Lemma external_label_uuid u m :
  set_label (getExternalServiceLabel u) m !! "clusterUUID"%string = m !! "clusterUUID"%string.
Proof. unfold set_label. by rewrite lookup_insert_ne. Qed.

Lemma coordinator_labels_uuid `{GoMapRange} u m :
  getCoordinatorPodLabels m u !! "clusterUUID"%string = m !! "clusterUUID"%string.
Proof. rewrite getCoordinatorPodLabels_eq. by rewrite lookup_insert_ne. Qed.

Lemma worker_labels_uuid `{GoMapRange} u m :
  getWorkerPodLabels m u !! "clusterUUID"%string = m !! "clusterUUID"%string.
Proof. rewrite getWorkerPodLabels_eq. by rewrite lookup_insert_ne. Qed.

Create Rewrite HintDb labels.
#[export] Hint Rewrite discovery_label_uuid external_label_uuid @coordinator_labels_uuid
  @worker_labels_uuid : labels.

(** Close the conditions of [stage_post] at a return of a stage. *)
Ltac stage_solve :=
  unfold stage_post; trace_simpl;
  change (changes []) with (@nil req); change (change_errors []) with (@nil goerror);
  repeat match goal with
  | H : _ ∧ (statusContract _ → _) ∧ _ |- _ => destruct H as (? & ? & ?)
  end;
  cbn [sh_presto sh_baseLabels length] in *;
  repeat match goal with
  | |- _ ∧ _ => split
  | |- (_ <= _)%nat => lia
  | |- statusContract _ → _ => intros
  | |- labelled _ → _ => intros
  | |- Forall _ [] => constructor
  | |- Forall _ (_ :: _) => constructor
  | |- True => exact I
  | |- ∀ _, _ ∈ [] → _ => intros ? Hin; by apply elem_of_nil in Hin
  | |- ∀ _, _ ∈ [_] → _ => intros ? Hin; apply list_elem_of_singleton in Hin; by subst
  | |- _ = true → _ = None → _ => by intros
  | |- _ = None → _ = false → _ => (by intros) || intros _ _
  | |- _ !! _ = _ !! _ =>
      repeat match goal with H : sh_baseLabels _ = _ |- _ => rewrite H; clear H end;
      by autorewrite with labels
  end; try done; eauto 3 with go.

(** The object of a change is one of the cluster. *)
Ltac allowed_solve :=
  unfold labelled in *; cbn [allowed_change];
  repeat split; try done; try (apply owned_new; by autorewrite with labels).

(** *** What a stage that changes nothing has seen *)

Definition service_seen (p : Presto) (kv : string * string) (t : trace) : Prop :=
  ∃ s l, ev (ListServices (p_Namespace p) (single_label kv)) (inr (s :: l)) ∈ t.

Definition config_seen (p : Presto) (getName : string → option string) (t : trace) : Prop :=
  ∃ sel items n cm, getName (p_Uuid p) = Some n ∧
    ev (ListConfigMaps (p_Namespace p) sel) (inr items) ∈ t ∧
    cm ∈ items ∧ om_Name (cm_ObjectMeta cm) = n.

Definition replicaset_seen (p : Presto) (kv : string * string) (t : trace) : Prop :=
  ∃ rs l, ev (ListReplicaSets (p_Namespace p) (single_label kv)) (inr (rs :: l)) ∈ t.

