(* ===== verification/StatusFacts.v ===== *)
(** Correctness of the reported status: CPU usage and cluster state. *)

From S2P Require Import Prelude ApiTypes K8sTypes Names Effects Status Services.
From S2P Require Import ConfigMaps ReplicaSets Hpa Reconcile Examples Traces.

Local Open Scope string_scope.

(** ** CPU usage *)

(** The CPU usage of a container, when it is one of the cluster's role and the
    metrics have it. *)
Definition container_usage (containerName : string) (cm : ContainerMetrics) : list Z :=
  if String.eqb (cmx_Name cm) containerName then
    match cmx_Usage cm !! "cpu" with Some q => [q_MilliValue q] | None => [] end
  else [].

Definition usages (containerName : string) (items : list PodMetrics) : list Z :=
  concat (map (λ pm, concat (map (container_usage containerName) (pmx_Containers pm))) items).

Definition total (l : list Z) : Z := foldr Z.add 0%Z l.

(** Adding up in int64, one container after the other. *)
Definition add_usages (allotted : Z) (tot : Z * Z) (l : list Z) : Z * Z :=
  foldl (λ tot used, (wrap64 (tot.1 + allotted), wrap64 (tot.2 + used))) tot l.

Section cpu.
Context `{GoMapRange, Apimachinery}.

Lemma addUsage_other name allotted cm l tot :
  cmx_Name cm ≠ name ∨ "cpu" ∉ l.*1 → foldl (addUsage name allotted cm) tot l = tot.
Proof.
  revert tot. induction l as [|[k q] l IH]; intros tot Hl; [done|]. cbn [foldl].
  assert (addUsage name allotted cm tot (k, q) = tot) as ->.
  { unfold addUsage. simpl. destruct Hl as [Hn|Hk].
    - apply String.eqb_neq in Hn. by rewrite Hn, andb_false_r.
    - destruct (String.eqb_spec k ResourceCPU) as [->|]; [|done]. destruct Hk. left. }
  apply IH. destruct Hl as [?|Hk]; [by left|right]. intros Hin. apply Hk. by right.
Qed.

Lemma addUsage_list name allotted cm l tot :
  cmx_Name cm = name → NoDup l.*1 →
  foldl (addUsage name allotted cm) tot l
  = add_usages allotted tot
      match (list_to_map l : gmap string Quantity) !! "cpu" with
      | Some q => [q_MilliValue q]
      | None => []
      end.
Proof.
  intros Hn. revert tot. induction l as [|[k q] l IH]; intros tot Hnd; [done|].
  apply NoDup_cons in Hnd as [Hk Hnd]. cbn [foldl]. rewrite list_to_map_cons. simpl in Hk.
  destruct (decide (k = "cpu")) as [->|Hne].
  - rewrite lookup_insert_eq, addUsage_other by by right.
    unfold addUsage, add_usages. simpl. apply String.eqb_eq in Hn. by rewrite Hn.
  - rewrite lookup_insert_ne, <-IH by done. f_equal. unfold addUsage, ResourceCPU. simpl.
    by apply String.eqb_neq in Hne; rewrite Hne.
Qed.

(** The inner loop over the map of a container's usage adds at most once,
    whatever the order of the range. *)
Lemma sumContainer_usage name allotted tot cm :
  sumContainer name allotted tot cm = add_usages allotted tot (container_usage name cm).
Proof.
  unfold sumContainer, container_usage.
  destruct (String.eqb_spec (cmx_Name cm) name) as [Hn|Hn].
  - rewrite addUsage_list by (done || apply NoDup_map_range_keys). by rewrite list_to_map_range.
  - by rewrite addUsage_other by by left.
Qed.

Lemma add_usages_app allotted tot l1 l2 :
  add_usages allotted tot (l1 ++ l2)%list = add_usages allotted (add_usages allotted tot l1) l2.
Proof. apply foldl_app. Qed.

Lemma sumUsage_usages name allotted items :
  sumUsage name allotted items = add_usages allotted (0%Z, 0%Z) (usages name items).
Proof.
  unfold sumUsage, usages. generalize (0%Z, 0%Z) as tot.
  induction items as [|pm items IH]; intros tot; [done|]. simpl. rewrite add_usages_app, <-IH.
  f_equal. generalize (pmx_Containers pm) as cs. intros cs. revert tot.
  induction cs as [|cm cs IHc]; intros tot; [done|]. simpl.
  by rewrite add_usages_app, IHc, sumContainer_usage.
Qed.

Lemma total_nonneg l : Forall (λ u, 0 <= u)%Z l → (0 <= total l)%Z.
Proof. induction 1; simpl; [lia|]. unfold total in *. lia. Qed.

(** Without overflow the sums are exact. *)
Lemma add_usages_exact allotted l a b :
  (0 <= allotted)%Z → Forall (λ u, 0 <= u)%Z l → (0 <= a)%Z → (0 <= b)%Z →
  (a + Z.of_nat (length l) * allotted < 2 ^ 63)%Z → (b + total l < 2 ^ 63)%Z →
  add_usages allotted (a, b) l = (a + Z.of_nat (length l) * allotted, b + total l)%Z.
Proof.
  intros Hal Hl. revert a b. induction Hl as [|u l Hu Hl IH]; intros a b Ha Hb Hna Hnb.
  - simpl. f_equal; lia.
  - pose proof (total_nonneg l Hl) as Ht. unfold total in *. cbn [foldr length] in *.
    unfold add_usages in *. cbn [foldl fst snd].
    assert (0 <= Z.of_nat (length l) * allotted)%Z by (apply Z.mul_nonneg_nonneg; lia).
    rewrite !wrap64_id by (unfold in_int64; lia). rewrite IH by lia. f_equal; lia.
Qed.

Lemma percent_exact num den :
  (0 <= num < 2 ^ 63)%Z → (0 < den)%Z →
  (if den =? 0 then 0 else wrap64 (Z.quot (wrap64 num) den))%Z = (num / den)%Z.
Proof.
  intros Hnum Hden. destruct (Z.eqb_spec den 0); [lia|].
  rewrite (wrap64_id num) by (unfold in_int64; lia). rewrite Z.quot_div_nonneg by lia.
  apply wrap64_id. unfold in_int64. pose proof (Z.div_pos num den ltac:(lia) Hden).
  pose proof (Z.div_le_upper_bound num den num Hden ltac:(nia)). lia.
Qed.

(** C28: the CPU usage that is reported for a role. When the metrics are there,
    getCPUUsage returns the floor of the percentage that the containers of the
    role use of what they are allotted together, a container counting only
    when the metrics have its CPU, and 0 when none counts; the order in which
    the maps are ranged over does not matter, and int64 does not overflow for
    sums below 2^63 / 100. *)
Theorem cpu_usage_percent {W} (h : env W) w p (isCoordinator : bool) items q err name :
  let allotted := q_MilliValue q in
  let used := usages name items in
  (if isCoordinator then getCoordinatorContainerName (p_Uuid p)
   else getWorkerContainerPrefix (p_Uuid p)) = Some name →
  (h w (ListPodMetrics (p_Namespace p) (p_TypeMeta p)
          (single_label (if isCoordinator then getCoordinatorPodLabel (p_Uuid p)
                         else getWorkerPodLabel (p_Uuid p))))).1 = inr items →
  ParseQuantity (if isCoordinator then cs_CpuLimit (Coordinator (Spec p))
                 else ws_CpuLimit (Worker (Spec p))) = (q, err) →
  (0 < allotted)%Z → Forall (λ u, 0 <= u)%Z used →
  (Z.of_nat (length used) * allotted < 2 ^ 63)%Z → (100 * total used < 2 ^ 63)%Z →
  (run h (getCPUUsage p isCoordinator) w).1.1
  = Returned (if decide (used = []) then 0%Z
              else 100 * total used / (Z.of_nat (length used) * allotted))%Z.
Proof.
  intros allotted used Hname Hm Hq Hal Hused Hna Hnu.
  unfold getCPUUsage. rewrite Hname. cbv [mbind mret prog_mbind prog_ret call ofOption].
  cbn [prog_bind run]. destruct (h w _) as [x w1]. simpl in Hm. subst x. cbn [prog_bind].
  rewrite Hq. cbn [run fst snd]. f_equal. rewrite sumUsage_usages. fold allotted used.
  pose proof (total_nonneg used Hused) as Ht.
  rewrite add_usages_exact by (lia || done). unfold usagePercent. cbn [fst snd].
  case_decide as He.
  - rewrite He. done.
  - assert (0 < Z.of_nat (length used))%Z as Hlen by (destruct used; [done|simpl; lia]).
    assert (0 < Z.of_nat (length used) * allotted)%Z as Hpos by (apply Z.mul_pos_pos; lia).
    replace (0 + Z.of_nat (length used) * allotted)%Z
      with (Z.of_nat (length used) * allotted)%Z by lia.
    replace ((0 + total used) * 100)%Z with (100 * total used)%Z by lia.
    apply percent_exact; lia.
Qed.
End cpu.

(** ** The reported cluster state *)

(** The state for the answer to the listing of the coordinator's pods. *)
Definition phase_state (x : goerror + list Pod) : ClusterState :=
  match x with
  | inr (pod :: _) =>
    if decide (pod_Phase pod = "Pending") then "Pending"
    else if decide (pod_Phase pod = "Failed") then "Failed"
    else if decide (pod_Phase pod = "Running") then "Ready"
    else "Unknown"
  | _ => "Unknown"
  end.

(** The status that a status update sends. *)
Definition sends (a : ClusterUpdateAction) (t : trace) : Prop :=
  ∀ q, UpdatePrestoStatus q ∈ requests t →
    ∃ st st' u now, applyAction a st = Some (st', u) ∧ Status q = set_ModificationTime st' now.

Lemma updateStatus_sends E a s : wp E (updateStatus a s) (λ t _, sends a t).
Proof.
  unfold updateStatus, getPresto. prog_simpl. intros r _. cbn [resp] in r.
  destruct r as [err|items]; prog_simpl.
  { intros q Hq. set_solver. }
  destruct (List.find _ items) as [p|]; simpl.
  all: match goal with |- context [applyAction ?a ?st] =>
         destruct (applyAction a st) as [[st' u]|] eqn:Ha end;
    prog_simpl; [|intros q Hq; set_solver].
  all: destruct u; prog_simpl; [|intros q Hq; set_solver].
  all: intros now _; prog_simpl; intros y _; cbn [resp] in y; destruct y; prog_simpl;
    intros q Hq; cbn in Hq; rewrite !elem_of_cons in Hq;
    destruct Hq as [Hq|[Hq|[Hq|Hq]]]; try discriminate Hq; try (by apply elem_of_nil in Hq);
    injection Hq as ->; by eexists _, st', true, now.
Qed.

(** What is reported for a state and the worker ReplicaSet. *)
Definition reports (st : ClusterState) (rs : ReplicaSet) (t : trace) : Prop :=
  ∀ q, UpdatePrestoStatus q ∈ requests t →
    st_ClusterState (Status q) = st ∧ Some (DesiredWorkers (Status q)) = rs_Replicas rs
    ∧ CurrentWorkers (Status q) = rs_AvailableReplicas rs
    ∧ WorkerReplicaset (Status q) = om_Name (rs_ObjectMeta rs).

Lemma sends_reports a st rs t :
  cu_clusterState a = st → st ≠ EmptyString → cu_workerReplicaSet a = Some rs →
  sends a t → reports st rs t.
Proof.
  intros Hst Hne Hrs Hs q Hq. destruct (Hs q Hq) as (s0 & s1 & u & now & Ha & ->).
  unfold applyAction in Ha. rewrite Hrs, Hst in Ha. apply is_empty_false in Hne. rewrite Hne in Ha.
  destruct (serviceFields _ _) as [[svc addr]|]; [|done]. simpl in Ha.
  destruct (rs_Replicas rs) as [n|] eqn:Hn; [|done]. by injection Ha as <- <-.
Qed.

Lemma reports_other st rs r x t :
  (∀ q, r ≠ UpdatePrestoStatus q) → reports st rs t → reports st rs (ev r x :: t).
Proof.
  intros Hr Ht q Hq. cbn in Hq. apply elem_of_cons in Hq as [Hq|Hq]; [by destruct (Hr q)|by apply Ht].
Qed.

Section report.
Context `{GoMapRange, Apimachinery}.

(** The last status update of a reconciliation. *)
Lemma update_reports {A} E (f : bool * option goerror * shared → prog A) a st rs s :
  (∀ r, ∃ r', f r = Ret r') → cu_clusterState a = st → st ≠ EmptyString →
  cu_workerReplicaSet a = Some rs →
  wp E (prog_bind f (updateStatus a s)) (λ t _, reports st rs t).
Proof.
  intros Hf Ha1 Ha2 Ha3. apply wp_bind. eapply wp_mono; [|apply (updateStatus_sends E a s)].
  intros t [r|] Hs; simpl; [destruct (Hf r) as [r' ->]; simpl; rewrite app_nil_r|].
  all: by apply (sends_reports a).
Qed.

Lemma cpu_reports {A} E p c st rs (f : Z → prog A) :
  (∀ z, wp E (f z) (λ t _, reports st rs t)) →
  wp E (prog_bind f (getCPUUsage p c)) (λ t _, reports st rs t).
Proof.
  intros Hf. unfold getCPUUsage. prog_simpl.
  match goal with |- context [ofOption ?x] => destruct x end; prog_simpl; [|intros q Hq; set_solver].
  intros x _. cbn [resp] in x. destruct x as [e|items]; prog_simpl.
  2: destruct (ParseQuantity _); prog_simpl.
  all: eapply wp_mono; [|apply Hf]; intros t ?; by apply reports_other.
Qed.

Ltac reassociate :=
  repeat lazymatch goal with
  | |- wp _ (prog_bind _ (prog_bind _ _)) _ => apply wp_bind_assoc
  end.

Lemma reportState_reports E rs s :
  wp E (reportState rs s) (λ t _, ∃ x t',
    t = ev (ListPods (p_Namespace (sh_presto s))
          (getCoordinatorPodLabels (sh_baseLabels s) (p_Uuid (sh_presto s)))) x :: t'
    ∧ reports (phase_state x) rs t').
Proof.
  unfold reportState, getCoordinatorPodPhase. prog_simpl. intros x _.
  eapply (wp_mono _ _ (λ t _, reports (phase_state x) rs t)); [by intros t o Ht; exists x, t|].
  cbn [resp] in x. destruct x as [e|[|pod pods]]; prog_simpl.
  1,2: apply update_reports; [by intros [??]; eexists|done|done|done].
  unfold PodPending, PodFailed, PodRunning. cbn [phase_state].
  destruct (String.eqb_spec (pod_Phase pod) "Pending") as [Hp|Hp]; [rewrite decide_True by done|
    rewrite decide_False by done].
  { apply update_reports; [by intros [??]; eexists|done|done|done]. }
  destruct (String.eqb_spec (pod_Phase pod) "Failed") as [Hf|Hf]; [rewrite decide_True by done|
    rewrite decide_False by done].
  { apply update_reports; [by intros [??]; eexists|done|done|done]. }
  destruct (String.eqb_spec (pod_Phase pod) "Running") as [Hr|Hr]; [rewrite decide_True by done|
    rewrite decide_False by done].
  2:{ apply update_reports; [by intros [??]; eexists|done|done|done]. }
  reassociate. apply cpu_reports. intros z1. prog_simpl.
  reassociate. apply cpu_reports. intros z2. prog_simpl.
  apply update_reports; [by intros [??]; eexists|done|done|done].
Qed.

(** C29: the reported cluster state. At the end of a reconciliation the
    controller lists the pods of the coordinator, and the status it then
    writes has the state of the first one, Pending, Failed or Ready when it is
    running, and Unknown in all other cases, errors included, with the size
    and the name of the worker ReplicaSet. *)
Theorem reported_state {W} (h : env W) w rs s q :
  let t := (run h (reportState rs s) w).1.2 in
  UpdatePrestoStatus q ∈ requests t →
  ∃ x, ev (ListPods (p_Namespace (sh_presto s))
             (getCoordinatorPodLabels (sh_baseLabels s) (p_Uuid (sh_presto s)))) x ∈ t
    ∧ st_ClusterState (Status q) = phase_state x
    ∧ Some (DesiredWorkers (Status q)) = rs_Replicas rs
    ∧ CurrentWorkers (Status q) = rs_AvailableReplicas rs
    ∧ WorkerReplicaset (Status q) = om_Name (rs_ObjectMeta rs).
Proof.
  intros t Hq.
  destruct (wp_run anyResponse h (reportState rs s) _ w (keeps_any h) (reportState_reports _ rs s))
    as (x & t' & Ht & Hr). fold t in Ht. exists x. rewrite Ht in Hq |- *. split; [left|].
  apply Hr. cbn in Hq. by apply elem_of_cons in Hq as [?|?].
Qed.
End report.

(** ** Witnesses *)

#[local] Existing Instance sorted_range.
#[local] Existing Instance exampleApi.

(** Two worker containers that use 125 and 250 of their 500 milli CPUs, and one
    of another pod. *)
Definition exampleMetrics : list PodMetrics :=
  [mkPodMetrics [mkContainerMetrics "workerrcontainer-03f118d2"
     (<["memory" := mkQuantity 1 1000]> {["cpu" := mkQuantity 1 125]})];
   mkPodMetrics [mkContainerMetrics "workerrcontainer-03f118d2" {["cpu" := mkQuantity 1 250]};
                 mkContainerMetrics "sidecar" {["cpu" := mkQuantity 1 400]}]].

Definition metricsCluster : env unit := λ _ r,
  (match r as r return resp r with
   | ListPodMetrics _ _ _ => inr exampleMetrics
   | r' => (emptyCluster (examplePresto autoscalingOff) None tt r').1
   end, tt).

Lemma cpu_usage_percent_witness :
  (run metricsCluster (getCPUUsage (examplePresto autoscalingOff) false) tt).1.1 = Returned 37%Z.
Proof.
  rewrite (cpu_usage_percent metricsCluster tt (examplePresto autoscalingOff) false exampleMetrics
             (mkQuantity 1073741824 500) None "workerrcontainer-03f118d2").
  - reflexivity.
  - reflexivity.
  - reflexivity.
  - reflexivity.
  - reflexivity.
  - repeat constructor; discriminate.
  - reflexivity.
  - reflexivity.
Defined.

Definition runningCluster : env unit :=
  fixedCluster (examplePresto autoscalingOff) [] [] [] []
    [mkPod (newObjectMeta "coordinator" EmptyString "default" ∅ []) "Running"] None.

Definition oneWorker : ReplicaSet :=
  mkReplicaSet noTypeMeta (newObjectMeta "workers" EmptyString "default" ∅ []) (Some 1%Z) ∅
    (mkPodTemplateSpec (newObjectMeta EmptyString EmptyString "default" ∅ [])
       (mkPodSpec None [] EmptyString EmptyString []))
    1%Z.

Definition sharedExample : shared := mkShared (examplePresto autoscalingOff) ∅.

(** The status that is sent in this run. *)
Definition sentStatus : option Presto :=
  List.hd_error (omap (λ r, match r with UpdatePrestoStatus q => Some q | _ => None end)
    (requests (run runningCluster (reportState oneWorker sharedExample) tt).1.2)).

Lemma reported_state_witness : ∃ q x, sentStatus = Some q ∧ st_ClusterState (Status q) = phase_state x.
Proof.
  eexists. edestruct (reported_state runningCluster tt oneWorker sharedExample)
    as (x & _ & Hx & _); [|exists x; split; [vm_compute; reflexivity|exact Hx]].
  vm_compute. do 5 right. left.
Defined.
