(* ===== verification/Store.v ===== *)
(** An interface of the API server, as the controller sees it when its cache is
    up to date and requests succeed: the objects of the namespaces as a
    [store], and what each request answers and does to the store. The stateful
    weakest precondition [swp] runs a program of the controller against every
    server that keeps the interface. *)

From S2P Require Import Prelude ApiTypes K8sTypes Names Effects Status Reconcile Traces.

(** ** The store *)

(** The Presto resource under consideration and the objects of the kinds the
    operator creates, of all namespaces. *)
Record store := mkStore {
  s_presto : Presto;
  s_services : list Service;
  s_configmaps : list ConfigMap;
  s_replicasets : list ReplicaSet;
  s_hpas : list HorizontalPodAutoscaler
}.

Definition set_presto (σ : store) (p : Presto) : store :=
  mkStore p (s_services σ) (s_configmaps σ) (s_replicasets σ) (s_hpas σ).
Definition set_services (σ : store) (l : list Service) : store :=
  mkStore (s_presto σ) l (s_configmaps σ) (s_replicasets σ) (s_hpas σ).
Definition set_configmaps (σ : store) (l : list ConfigMap) : store :=
  mkStore (s_presto σ) (s_services σ) l (s_replicasets σ) (s_hpas σ).
Definition set_replicasets (σ : store) (l : list ReplicaSet) : store :=
  mkStore (s_presto σ) (s_services σ) (s_configmaps σ) l (s_hpas σ).
Definition set_hpas (σ : store) (l : list HorizontalPodAutoscaler) : store :=
  mkStore (s_presto σ) (s_services σ) (s_configmaps σ) (s_replicasets σ) l.

(** Listing: the objects of a namespace that a label selector selects. *)
Definition listed {A} (om : A → ObjectMeta) (ns : string) (sel : gmap string string)
    (l : list A) : list A :=
  filter (λ a, om_Namespace (om a) = ns ∧ selects sel (om_Labels (om a))) l.

(** Two objects of a kind are the same when they agree on namespace and name. *)
Definition same_key (a b : ObjectMeta) : Prop :=
  om_Namespace a = om_Namespace b ∧ om_Name a = om_Name b.

#[export] Instance same_key_dec a b : Decision (same_key a b).
Proof. unfold same_key. apply _. Defined.

(** Metadata after a request: the server assigns UID, versions and, when only a
    prefix is given, the name. *)
Definition stored_meta (a b : ObjectMeta) : Prop :=
  om_Namespace a = om_Namespace b ∧ om_Labels a = om_Labels b ∧
  om_OwnerReferences a = om_OwnerReferences b ∧
  (om_Name a ≠ EmptyString → om_Name a = om_Name b).

(** The server keeps the ports of a service, apart from the node ports it
    assigns, and its selector; it assigns a cluster IP when there is none. *)
Definition stored_service (a b : Service) : Prop :=
  stored_meta (svc_ObjectMeta a) (svc_ObjectMeta b) ∧
  kss_Selector (svc_Spec a) = kss_Selector (svc_Spec b) ∧
  map (λ q, (sp_Port q, sp_TargetPort q)) (kss_Ports (svc_Spec a))
  = map (λ q, (sp_Port q, sp_TargetPort q)) (kss_Ports (svc_Spec b)).

Definition stored_configmap (a b : ConfigMap) : Prop :=
  stored_meta (cm_ObjectMeta a) (cm_ObjectMeta b) ∧ cm_Data a = cm_Data b.

Definition stored_replicaset (a b : ReplicaSet) : Prop :=
  stored_meta (rs_ObjectMeta a) (rs_ObjectMeta b) ∧
  rs_Replicas a = rs_Replicas b ∧ rs_MatchLabels a = rs_MatchLabels b ∧
  rs_Template a = rs_Template b.

Definition stored_hpa (a b : HorizontalPodAutoscaler) : Prop :=
  stored_meta (hpa_ObjectMeta a) (hpa_ObjectMeta b) ∧
  hpa_ScaleTargetRef_Name a = hpa_ScaleTargetRef_Name b ∧
  hpa_MinReplicas a = hpa_MinReplicas b ∧ hpa_MaxReplicas a = hpa_MaxReplicas b ∧
  hpa_TargetCPUUtilizationPercentage a = hpa_TargetCPUUtilizationPercentage b.

(** A resource at another time: all but its status and its version is kept. *)
Definition same_resource (p q : Presto) : Prop :=
  p_TypeMeta p = p_TypeMeta q ∧ p_Name p = p_Name q ∧ p_Namespace p = p_Namespace q ∧
  p_UID p = p_UID q ∧ p_Labels p = p_Labels q ∧ Spec p = Spec q.

#[export] Instance same_resource_equiv : Equivalence same_resource.
Proof.
  split.
  - done.
  - intros p q (?&?&?&?&?&?). by repeat split.
  - intros p q r (?&?&?&?&?&?) (?&?&?&?&?&?). repeat split; congruence.
Qed.

Definition key_of (p : Presto) : NamespacedName := mkNamespacedName (p_Namespace p) (p_Name p).

(** No object of the list has the key. *)
Definition free {A} (om : A → ObjectMeta) (key : ObjectMeta) (l : list A) : Prop :=
  Forall (λ a, ¬ same_key (om a) key) l.

(** Creating an object whose name is free, or whose name the server generates,
    adds an object of a free name. *)
Definition creates {A} (om : A → ObjectMeta) (stored : A → A → Prop) (new : A) (l : list A)
    (Q : A → Prop) : Prop :=
  (om_Name (om new) = EmptyString ∨ free om (om new) l) →
  ∃ new', stored new new' ∧ free om (om new') l ∧ Q new'.

(** Replacing the object of the key of [new]. *)
Definition replace {A} (om : A → ObjectMeta) (key : ObjectMeta) (new : A) (l : list A) : list A :=
  map (λ a, if decide (same_key (om a) key) then new else a) l.

(** ** The interface *)

(** The server keeps a time, in nanoseconds since 1970, without its fraction of a
    second: the JSON form has none. *)
Definition whole_seconds (z : Z) : Z := (z / 10 ^ 9 * 10 ^ 9)%Z.

Definition kept_status (st : PrestoStatus) : PrestoStatus :=
  set_ModificationTime st (whole_seconds (ModificationTime st)).

(** [api_step σ r x σ']: in the store [σ] the request [r] may be answered with
    [x], leaving the store [σ']. *)
Definition api_step (σ : store) (r : req) : resp r → store → Prop :=
  match r return resp r → store → Prop with
  | GetPresto key => λ x σ', σ' = σ ∧ (key = key_of (s_presto σ) → x = inr (s_presto σ))
  | ListPrestos ns sel => λ x σ', σ' = σ ∧
      (ns = p_Namespace (s_presto σ) → sel = p_Labels (s_presto σ) →
       ∃ items, x = inr items ∧
         List.find (λ q, String.eqb (p_Name q) (p_Name (s_presto σ))) items = Some (s_presto σ))
  | UpdatePrestoStatus q => λ x σ',
      key_of q = key_of (s_presto σ) →
      ∃ p', x = inr p' ∧ σ' = set_presto σ p' ∧ same_resource (s_presto σ) p'
        ∧ Status p' = kept_status (Status q)
  | ListServices ns sel => λ x σ', σ' = σ ∧ x = inr (listed svc_ObjectMeta ns sel (s_services σ))
  | CreateService s => λ x σ',
      creates svc_ObjectMeta stored_service s (s_services σ)
        (λ s', x = None ∧ σ' = set_services σ (s_services σ ++ [s']))
  | ListConfigMaps ns sel => λ x σ', σ' = σ ∧
      x = inr (listed cm_ObjectMeta ns sel (s_configmaps σ))
  | CreateConfigMap cm => λ x σ',
      creates cm_ObjectMeta stored_configmap cm (s_configmaps σ)
        (λ cm', x = None ∧ σ' = set_configmaps σ (s_configmaps σ ++ [cm']))
  | ListReplicaSets ns sel => λ x σ', σ' = σ ∧
      x = inr (listed rs_ObjectMeta ns sel (s_replicasets σ))
  | CreateReplicaSet rs => λ x σ',
      creates rs_ObjectMeta stored_replicaset rs (s_replicasets σ)
        (λ rs', x = inr rs' ∧ σ' = set_replicasets σ (s_replicasets σ ++ [rs']))
  | UpdateReplicaSet rs => λ x σ',
      (∃ a, a ∈ s_replicasets σ ∧ same_key (rs_ObjectMeta a) (rs_ObjectMeta rs)) →
      ∃ rs', x = inr rs' ∧ stored_replicaset rs rs' ∧
        same_key (rs_ObjectMeta rs') (rs_ObjectMeta rs) ∧
        σ' = set_replicasets σ (replace rs_ObjectMeta (rs_ObjectMeta rs) rs' (s_replicasets σ))
  | ListHPAs ns sel => λ x σ', σ' = σ ∧ x = inr (listed hpa_ObjectMeta ns sel (s_hpas σ))
  | CreateHPA h => λ x σ',
      creates hpa_ObjectMeta stored_hpa h (s_hpas σ)
        (λ h', x = None ∧ σ' = set_hpas σ (s_hpas σ ++ [h']))
  | UpdateHPA h => λ x σ',
      (∃ a, a ∈ s_hpas σ ∧ same_key (hpa_ObjectMeta a) (hpa_ObjectMeta h)) →
      ∃ h', x = None ∧ stored_hpa h h' ∧
        σ' = set_hpas σ (replace hpa_ObjectMeta (hpa_ObjectMeta h) h' (s_hpas σ))
  | DeleteHPA h => λ x σ',
      (∃ a, a ∈ s_hpas σ ∧ same_key (hpa_ObjectMeta a) (hpa_ObjectMeta h)) →
      x = None ∧ σ' = set_hpas σ (filter (λ a, ¬ same_key (hpa_ObjectMeta a) (hpa_ObjectMeta h)) (s_hpas σ))
  | NewUUID => λ x σ', σ' = σ ∧ uuid_ok x
  | ListPods _ _ | ListPodMetrics _ _ _ | Now | Eventf _ _ _ _ | RegisteredLoad _
  | RegisteredStore _ _ | RegisteredDelete _ => λ _ σ', σ' = σ
  end.

(** An environment that keeps the interface, seen through [view]. *)
Class ApiServer {W} (h : env W) (view : W → store) : Prop :=
  api_server_step w r : api_step (view w) r (h w r).1 (view (h w r).2).

(** ** Running programs against the interface *)

Fixpoint swp {A} (σ : store) (m : prog A) (Q : store → trace → outcome A → Prop) : Prop :=
  match m with
  | Ret a => Q σ [] (Returned a)
  | Panic => Q σ [] Panicked
  | Vis r k => ∀ x σ', api_step σ r x σ' → swp σ' (k x) (λ σ'' t o, Q σ'' (ev r x :: t) o)
  end.

Lemma swp_mono {A} σ (m : prog A) (P Q : store → trace → outcome A → Prop) :
  (∀ σ' t o, P σ' t o → Q σ' t o) → swp σ m P → swp σ m Q.
Proof.
  revert σ P Q. induction m as [a| |r k IH]; intros σ P Q HPQ; simpl; [by apply HPQ..|].
  intros Hm x σ' Hx. eapply IH; [|by eapply Hm]. intros ???. apply HPQ.
Qed.

Lemma swp_bind {A B} σ (m : prog A) (f : A → prog B) (Q : store → trace → outcome B → Prop) :
  swp σ m (λ σ' t o, match o with
                     | Returned a => swp σ' (f a) (λ σ'' t' o', Q σ'' (t ++ t') o')
                     | Panicked => Q σ' t Panicked
                     end) →
  swp σ (prog_bind f m) Q.
Proof.
  revert σ Q. induction m as [a| |r k IH]; intros σ Q; simpl; [done..|].
  intros Hm x σ' Hx. by apply IH, Hm.
Qed.

Lemma swp_run {W A} (h : env W) view `{!ApiServer h view} (m : prog A)
    (Q : store → trace → outcome A → Prop) w :
  swp (view w) m Q → Q (view (run h m w).2) (run h m w).1.2 (run h m w).1.1.
Proof.
  revert Q w. induction m as [a| |r k IH]; intros Q w; simpl; [done..|].
  intros Hm. pose proof (api_server_step w r) as Hstep. destruct (h w r) as [x w1].
  specialize (IH x _ w1 (Hm x _ Hstep)). by destruct (run h (k x) w1) as [[o t] w2].
Qed.

(** ** Symbolic execution against the interface *)

Ltac swp_simpl :=
  cbv [mbind mret M_mbind M_mret M_bind M_ret prog_mbind prog_ret callM liftP liftO call
       recordEvent getPrestoObj putPrestoObj getLabels putLabels storeBack deref];
  cbn [prog_bind swp sh_presto sh_baseLabels ofOption orb].

(** Move the continuations of a program to the postcondition. *)
Ltac swp_focus :=
  repeat lazymatch goal with |- swp _ (prog_bind _ _) _ => apply swp_bind end.

(** ** Lemmas on lists of objects *)

Section objects.
Context {A : Type} (om : A → ObjectMeta).
Implicit Types l : list A.

Lemma listed_app ns sel l1 l2 :
  listed om ns sel (l1 ++ l2) = listed om ns sel l1 ++ listed om ns sel l2.
Proof. apply filter_app. Qed.

Lemma elem_of_listed ns sel l a :
  a ∈ listed om ns sel l ↔ om_Namespace (om a) = ns ∧ selects sel (om_Labels (om a)) ∧ a ∈ l.
Proof. unfold listed. rewrite list_elem_of_filter. naive_solver. Qed.

Lemma listed_one ns sel a :
  om_Namespace (om a) = ns → selects sel (om_Labels (om a)) → listed om ns sel [a] = [a].
Proof. intros. unfold listed. rewrite filter_cons_True; done. Qed.

Lemma listed_in_ns ns sel l a : a ∈ listed om ns sel l → om_Namespace (om a) = ns.
Proof. by intros (? & _)%elem_of_listed. Qed.

(** A finer selector lists fewer objects. *)
Lemma listed_finer ns sel sel' l a :
  sel ⊆ sel' → a ∈ listed om ns sel' l → a ∈ listed om ns sel l.
Proof.
  intros Hs (? & Hl & ?)%elem_of_listed. apply elem_of_listed. split_and!; [done| |done].
  unfold selects in *. by etransitivity.
Qed.

(** Replacing an object by one of the same namespace and labels commutes with
    listing. *)
Lemma listed_replace ns sel key new l :
  (∀ a, a ∈ l → same_key (om a) key →
     om_Namespace (om a) = om_Namespace (om new) ∧ om_Labels (om a) = om_Labels (om new)) →
  listed om ns sel (replace om key new l) = replace om key new (listed om ns sel l).
Proof.
  unfold listed, replace. induction l as [|a l IH]; intros Hl; [done|].
  cbn [map]. rewrite !filter_cons, IH by (intros; apply Hl; [by right|done]).
  destruct (decide (same_key (om a) key)) as [Hk|Hk].
  - destruct (Hl a ltac:(left) Hk) as [-> ->]. case_decide; [|done]. cbn [map].
    by rewrite (decide_True _ _ Hk).
  - case_decide; [|done]. cbn [map]. by rewrite (decide_False _ _ Hk).
Qed.
End objects.
