(* ===== verification/ServiceStages.v ===== *)
(** The stages of the services and of the config maps satisfy [stage_post], whatever the responses. *)

From S2P Require Import Prelude ApiTypes K8sTypes Names Config Catalog Pods Effects.
From S2P Require Import Status Services ConfigMaps ReplicaSets Hpa Reconcile Traces.

Lemma headless_stage E s :
  wp E (headlessServiceConfig s)
    (stage_post E s on_service (service_seen (sh_presto s) (getPodDiscoveryServiceLabel (p_Uuid (sh_presto s))))).
Proof.
  unfold headlessServiceConfig, createHeadLessPodDiscoverySvc. stage_run.
  all: stage_solve; try (by allowed_solve).
  eexists _, _. left.
Qed.

Lemma service_stage E s :
  wp E (('(err, changesMade, _) ← serviceConfig; mret (err, changesMade)) s)
    (stage_post E s on_service (service_seen (sh_presto s) (getExternalServiceLabel (p_Uuid (sh_presto s))))).
Proof.
  unfold serviceConfig, createOrGetService, getService. stage_run.
  all: stage_solve; try (by allowed_solve).
  all: eexists _, _; left.
Qed.

(** *** Objects built by the other components *)

Section builders.
Context `{GoMapRange, Apimachinery}.

Lemma buildConfigMap_meta p c n lbls cm :
  buildConfigMap p c n lbls = Some (inr cm) →
  cm_ObjectMeta cm = newObjectMeta n EmptyString (p_Namespace p) lbls [getOwnerReference p].
Proof.
  unfold buildConfigMap. intros Hb. apply bind_Some in Hb as (r & _ & Hb).
  destruct r; [done|]. by repeat case_match; simplify_eq.
Qed.

Lemma buildCatalogConfigMap_meta p n lbls cm :
  buildCatalogConfigMap p n lbls = inr cm →
  cm_ObjectMeta cm = newObjectMeta n EmptyString (p_Namespace p) lbls [getOwnerReference p].
Proof. unfold buildCatalogConfigMap. by intros [= <-]. Qed.

Lemma createReplicaSetForWorker_shape p lbls n rs :
  createReplicaSetForWorker p lbls n = Some (inr rs) →
  ∃ g spec, getWorkerReplicaSet (p_Uuid p) = Some g ∧
    getPrestoWorkerPod p = Some (inr spec) ∧ rs = newReplicaSet p g lbls n spec.
Proof.
  unfold createReplicaSetForWorker. intros Hb. apply bind_Some in Hb as (r & Hr & Hb).
  destruct r as [|spec]; [done|]. apply bind_Some in Hb as (g & Hg & Hb). simplify_eq.
  by eauto.
Qed.

Lemma createReplicaSetForCoordinator_shape p lbls rs :
  createReplicaSetForCoordinator p lbls = Some (inr rs) →
  ∃ g spec, getCoordinatorReplicaset (p_Uuid p) = Some g ∧
    getPrestoCoordinatorPodSpec p = Some (inr spec) ∧ rs = newReplicaSet p g lbls 1 spec.
Proof.
  unfold createReplicaSetForCoordinator. intros Hb. apply bind_Some in Hb as (r & Hr & Hb).
  destruct r as [|spec]; [done|]. apply bind_Some in Hb as (g & Hg & Hb). simplify_eq.
  by eauto.
Qed.

Lemma createHPASpec_owned p rs lbls v h :
  lbls !! "clusterUUID"%string = Some (p_Uuid p) →
  createHPASpec p rs lbls v = Some (inr h) →
  owned p (hpa_ObjectMeta h) ∧ getHPAName (p_Uuid p) = Some (om_Name (hpa_ObjectMeta h))
  ∧ om_ResourceVersion (hpa_ObjectMeta h) = v.
Proof.
  unfold createHPASpec. intros Hl Hb. repeat case_match; simplify_eq.
  apply bind_Some in Hb as (g & Hg & Hb). simplify_eq.
  split; [|done]. split; [done|]. split; [done|]. by eexists.
Qed.
End builders.

Section config_stages.
Context `{GoMapRange, Apimachinery}.

Lemma existsb_config (items : list ConfigMap) n :
  existsb (λ cm, String.eqb (om_Name (cm_ObjectMeta cm)) n) items = true →
  ∃ cm, cm ∈ items ∧ om_Name (cm_ObjectMeta cm) = n.
Proof.
  intros (cm & Hin & Heq)%existsb_exists.
  exists cm. split; [by apply list_elem_of_In|]. by apply String.eqb_eq.
Qed.

(** The stages of the config maps end with the same conditions. *)
Ltac config_solve :=
  stage_solve;
  first
    [ unfold labelled in *; cbn [allowed_change];
      first [ erewrite buildConfigMap_meta by eassumption
            | erewrite buildCatalogConfigMap_meta by eassumption ];
      by apply owned_new
    | match goal with H : existsb _ _ = true |- _ => apply existsb_config in H as (? & ? & ?) end;
      eexists _, _, _, _; split; [eassumption|]; split; [left|]; split; eassumption ].

Lemma coordinatorConfig_stage E s :
  wp E (coordinatorConfig s)
    (stage_post E s on_config_map (config_seen (sh_presto s) getCoordinatorConfigMapName)).
Proof.
  unfold coordinatorConfig, createCoordinatorConfig, createConfigMap. stage_run.
  all: config_solve.
Qed.

Lemma workerConfig_stage E s :
  wp E (workerConfig s)
    (stage_post E s on_config_map (config_seen (sh_presto s) getWorkerConfigMapName)).
Proof.
  unfold workerConfig, createWorkerConfig, createConfigMap. stage_run.
  all: config_solve.
Qed.

Lemma catalogConfig_stage E s :
  wp E (catalogConfig s)
    (stage_post E s on_config_map (config_seen (sh_presto s) getCatalogConfigMapName)).
Proof.
  unfold catalogConfig, createCatalogConfig, createConfigMap. stage_run.
  all: config_solve.
Qed.
End config_stages.

