(* ===== verification/PodStages.v ===== *)
(** The stages of the ReplicaSets and of the autoscaler satisfy [stage_post],
    whatever the responses. *)

From S2P Require Import Prelude ApiTypes K8sTypes Names Config Catalog Pods Effects.
From S2P Require Import Status Services ConfigMaps ReplicaSets Hpa Reconcile Traces.
From S2P Require Import ServiceStages.

Section replicaset_stages.
Context `{GoMapRange, Apimachinery}.

Lemma newReplicaSet_allowed p t g lbls n spec :
  lbls !! "clusterUUID"%string = Some (p_Uuid p) →
  allowed_change p t (CreateReplicaSet (newReplicaSet p g lbls n spec)).
Proof. intros. by repeat split; try apply owned_new. Qed.

Lemma coordinatorReplicaset_stage E s :
  wp E (coordinatorReplicaset s)
    (stage_post E s on_replicaset (replicaset_seen (sh_presto s)
                       (getCoordinatorPodLabel (p_Uuid (sh_presto s))))).
Proof.
  unfold coordinatorReplicaset, createUpdateReplicaSetForCoordinator, getReplicaSet. stage_run.
  all: stage_solve.
  all: first
    [ match goal with H : createReplicaSetForCoordinator _ _ = _ |- _ =>
        apply createReplicaSetForCoordinator_shape in H as (? & ? & _ & _ & ->) end;
      apply newReplicaSet_allowed; by autorewrite with labels
    | eexists _, _; by left ].
Qed.

(** The outcome of the worker stage in the form of the other stages. *)
Definition as_stage (o : outcome ((goerror + bool * ReplicaSet) * shared))
    : outcome (option goerror * bool * shared) :=
  match o with
  | Returned (inl e, s') => Returned (Some e, false, s')
  | Returned (inr (changed, _), s') => Returned (None, changed, s')
  | Panicked => Panicked
  end.

Lemma workerReplicaset_stage E s :
  wp E (workerReplicaset s) (λ t o,
    stage_post E s on_replicaset (replicaset_seen (sh_presto s)
                      (getWorkerPodLabel (p_Uuid (sh_presto s)))) t (as_stage o)).
Proof.
  unfold workerReplicaset, createUpdateReplicaSetForWorker, getReplicaSet. stage_run.
  all: cbn [as_stage orb]; stage_solve.
  all: first
    [ match goal with H : createReplicaSetForWorker _ _ _ = _ |- _ =>
        apply createReplicaSetForWorker_shape in H as (? & ? & _ & _ & ->) end;
      apply newReplicaSet_allowed; by autorewrite with labels
    | split; [done|]; eexists _, _; split; [eexists; by left|done]
    | eexists _, _; by left ].
Qed.

Lemma hpa_stage E s rs :
  wp E (hpaReplicaset rs s) (stage_post E s on_hpa (λ _, True)).
Proof.
  unfold hpaReplicaset, handleReplicaSet, getPrestoHPA. stage_run.
  all: stage_solve.
  all: try match goal with H : createHPASpec _ _ _ _ = Some _ |- _ =>
         destruct (createHPASpec_owned _ _ _ _ _ ltac:(eassumption) H) as (? & ? & ?) end.
  all: cbn [allowed_change]; split_and!; try done.
  all: try (eexists; split; [|eassumption]).
  all: eexists _, _; split; [eassumption|by left].
Qed.
End replicaset_stages.
