(* ===== verification/Machine.v ===== *)
(** The abstract specification of the operator: an abstract machine on stores.

    The machine has eight stages. A stage is settled when the store has its
    object; a step of the machine takes the first stage that is not settled and
    gives it its effect, and a store with all stages settled is left alone.
    Refinement.v proves that Reconcile implements the machine. *)

From S2P Require Import Prelude ApiTypes K8sTypes Names Config Catalog Pods Effects.
From S2P Require Import Status Services ConfigMaps ReplicaSets Hpa Reconcile Traces.
From S2P Require Import Store ServiceStages.

Local Open Scope string_scope.

(** ** The label map through a reconciliation *)

Definition labels1 (p : Presto) : gmap string string :=
  set_label (getPodDiscoveryServiceLabel (p_Uuid p)) (clusterLabels p).
Definition labels2 (p : Presto) : gmap string string :=
  set_label (getExternalServiceLabel (p_Uuid p)) (labels1 p).

(** The objects of a store apart from the resource itself. *)
Definition kids (σ : store) :=
  (s_services σ, s_configmaps σ, s_replicasets σ, s_hpas σ).

(** *** Listing in the namespace of the resource *)

Definition services_of p kv σ :=
  listed svc_ObjectMeta (p_Namespace p) (single_label kv) (s_services σ).
Definition config_maps_of p σ :=
  listed cm_ObjectMeta (p_Namespace p) (labels2 p) (s_configmaps σ).
Definition replicasets_of p kv σ :=
  listed rs_ObjectMeta (p_Namespace p) (single_label kv) (s_replicasets σ).
Definition hpas_of p σ := listed hpa_ObjectMeta (p_Namespace p) (labels2 p) (s_hpas σ).

Section machine.
Context `{GoMapRange, Apimachinery}.

(** ** Settled stages *)

Definition config_settled (p : Presto) (getName : string → option string) (σ : store) : Prop :=
  ∃ n cm, getName (p_Uuid p) = Some n ∧ cm ∈ config_maps_of p σ
    ∧ om_Name (cm_ObjectMeta cm) = n.

(** The worker ReplicaSet has the size asked for, when the operator manages it. *)
Definition workers_settled (p : Presto) (σ : store) : Prop :=
  ∃ rs l, replicasets_of p (getWorkerPodLabel (p_Uuid p)) σ = rs :: l
    ∧ (countManaged p = true → rs_Replicas rs = ws_Count (Worker (Spec p))).

Definition hpa_settled (p : Presto) (σ : store) : Prop :=
  match hpas_of p σ with
  | [] => checkAutoscalingEnabled p = false
  | h :: _ => checkAutoscalingEnabled p = true ∧ autoscaleSpecChanged h p = Some false
  end.

Definition settled (p : Presto) (i : nat) (σ : store) : Prop :=
  match i with
  | 0 => services_of p (getPodDiscoveryServiceLabel (p_Uuid p)) σ ≠ []
  | 1 => services_of p (getExternalServiceLabel (p_Uuid p)) σ ≠ []
  | 2 => config_settled p getCoordinatorConfigMapName σ
  | 3 => config_settled p getWorkerConfigMapName σ
  | 4 => config_settled p getCatalogConfigMapName σ
  | 5 => replicasets_of p (getCoordinatorPodLabel (p_Uuid p)) σ ≠ []
  | 6 => workers_settled p σ
  | 7 => hpa_settled p σ
  | _ => True
  end.

(** ** Effects of the stages *)

Definition adds_service (s : Service) (σ σ' : store) : Prop :=
  ∃ s', stored_service s s' ∧
    kids σ' = (s_services σ ++ [s'], s_configmaps σ, s_replicasets σ, s_hpas σ)%list.

Definition adds_configmap (cm : ConfigMap) (σ σ' : store) : Prop :=
  ∃ cm', stored_configmap cm cm' ∧
    kids σ' = (s_services σ, s_configmaps σ ++ [cm'], s_replicasets σ, s_hpas σ)%list.

Definition adds_replicaset (rs : ReplicaSet) (σ σ' : store) : Prop :=
  ∃ rs', stored_replicaset rs rs' ∧ free rs_ObjectMeta (rs_ObjectMeta rs') (s_replicasets σ) ∧
    kids σ' = (s_services σ, s_configmaps σ, s_replicasets σ ++ [rs'], s_hpas σ)%list.

(** The first worker ReplicaSet is given the count of the spec. *)
Definition scales_workers (p : Presto) (σ σ' : store) : Prop :=
  ∃ rs l rs', replicasets_of p (getWorkerPodLabel (p_Uuid p)) σ = rs :: l ∧
    countManaged p = true ∧
    stored_replicaset (set_Replicas rs (ws_Count (Worker (Spec p)))) rs' ∧
    same_key (rs_ObjectMeta rs') (rs_ObjectMeta rs) ∧
    kids σ' = (s_services σ, s_configmaps σ,
               replace rs_ObjectMeta (rs_ObjectMeta rs) rs' (s_replicasets σ), s_hpas σ).

(** The autoscaler is created, updated to the spec, or deleted. *)
Definition changes_hpa (p : Presto) (σ σ' : store) : Prop :=
  ∃ hs, kids σ' = (s_services σ, s_configmaps σ, s_replicasets σ, hs) ∧
  match hpas_of p σ with
  | [] => ∃ rs v h h', createHPASpec p rs (labels2 p) v = Some (inr h) ∧ stored_hpa h h'
            ∧ (∃ l, replicasets_of p (getWorkerPodLabel (p_Uuid p)) σ = rs :: l)
            ∧ hs = (s_hpas σ ++ [h'])%list
  | old :: _ =>
    if checkAutoscalingEnabled p then
      ∃ rs v h h', createHPASpec p rs (labels2 p) v = Some (inr h) ∧ stored_hpa h h'
        ∧ (∃ l, replicasets_of p (getWorkerPodLabel (p_Uuid p)) σ = rs :: l)
        ∧ hs = replace hpa_ObjectMeta (hpa_ObjectMeta h) h' (s_hpas σ)
    else hs = filter (λ a, ¬ same_key (hpa_ObjectMeta a) (hpa_ObjectMeta old)) (s_hpas σ)
  end.

Definition adds_config (p : Presto) (isCoordinator : bool) (σ σ' : store) : Prop :=
  ∃ n cm, (if isCoordinator then getCoordinatorConfigMapName (p_Uuid p)
           else getWorkerConfigMapName (p_Uuid p)) = Some n ∧
    buildConfigMap p isCoordinator n (labels2 p) = Some (inr cm) ∧ adds_configmap cm σ σ'.

Definition effect (p : Presto) (i : nat) (σ σ' : store) : Prop :=
  match i with
  | 0 => ∃ n, getPodDiscoveryServiceName (p_Uuid p) = Some n
           ∧ adds_service (headlessService p n (labels1 p)) σ σ'
  | 1 => ∃ n, getExternalServiceName (p_Uuid p) = Some n
           ∧ adds_service (externalService p n (labels2 p)) σ σ'
  | 2 => adds_config p true σ σ'
  | 3 => adds_config p false σ σ'
  | 4 => ∃ n cm, getCatalogConfigMapName (p_Uuid p) = Some n ∧
           buildCatalogConfigMap p n (labels2 p) = inr cm ∧ adds_configmap cm σ σ'
  | 5 => ∃ rs, createReplicaSetForCoordinator p
                 (getCoordinatorPodLabels (labels2 p) (p_Uuid p)) = Some (inr rs)
           ∧ adds_replicaset rs σ σ'
  | 6 => (∃ rs count, ws_Count (Worker (Spec p)) = Some count ∧
            createReplicaSetForWorker p (getWorkerPodLabels (labels2 p) (p_Uuid p)) count
              = Some (inr rs)
            ∧ replicasets_of p (getWorkerPodLabel (p_Uuid p)) σ = []
            ∧ adds_replicaset rs σ σ')
         ∨ scales_workers p σ σ'
  | 7 => changes_hpa p σ σ'
  | _ => False
  end.

(** ** The machine *)

Inductive op_step (p : Presto) : store → store → Prop :=
  | op_stage i σ σ' :
      (∀ j, (j < i)%nat → settled p j σ) → ¬ settled p i σ → effect p i σ σ' →
      op_step p σ σ'
  | op_idle σ σ' :
      (∀ j, (j < 8)%nat → settled p j σ) → kids σ' = kids σ → op_step p σ σ'.

(** ** What the machine relies on *)

(** The spec of the resource can be turned into objects. *)
Record spec_ok (p : Presto) : Prop := {
  ok_uuid : uuid_ok (p_Uuid p);
  ok_service : ss_Type (Service_ (Spec p)) ≠ ServiceTypeExternalName;
  ok_config c n lbls : ∃ cm, buildConfigMap p c n lbls = Some (inr cm);
  ok_coordinator : ∃ ps, getPrestoCoordinatorPodSpec p = Some (inr ps);
  ok_worker : ∃ ps, getPrestoWorkerPod p = Some (inr ps);
  ok_count : is_Some (ws_Count (Worker (Spec p)));
  ok_autoscaling : checkAutoscalingEnabled p = true →
    is_Some (as_MinReplicas (ws_Autoscaling (Worker (Spec p))))
    ∧ is_Some (as_MaxReplicas (ws_Autoscaling (Worker (Spec p))))
    ∧ is_Some (as_TargetCPUUtilizationPercentage (ws_Autoscaling (Worker (Spec p))))
}.

(** A name of the operator is only used by an object of the cluster. *)
Definition named_ours {A} (om : A → ObjectMeta) (p : Presto) (getName : string → option string)
    (sel : gmap string string) (l : list A) : Prop :=
  ∀ a n, a ∈ l → om_Namespace (om a) = p_Namespace p → getName (p_Uuid p) = Some n →
    om_Name (om a) = n → selects sel (om_Labels (om a)).

(** The invariant of the store: it has the resource, the operator's names are
    not taken by foreign objects, and the objects of the cluster have the
    fields the API server requires of them. *)
Record store_ok (p : Presto) (σ : store) : Prop := {
  ok_presto : same_resource p (s_presto σ) ∧ p_Uuid (s_presto σ) = p_Uuid p;
  ok_headless_name : named_ours svc_ObjectMeta p getPodDiscoveryServiceName
    (single_label (getPodDiscoveryServiceLabel (p_Uuid p))) (s_services σ);
  ok_external_name : named_ours svc_ObjectMeta p getExternalServiceName
    (single_label (getExternalServiceLabel (p_Uuid p))) (s_services σ);
  ok_ports s : s ∈ services_of p (getExternalServiceLabel (p_Uuid p)) σ →
    kss_Ports (svc_Spec s) ≠ [];
  ok_coordinator_config_name : named_ours cm_ObjectMeta p getCoordinatorConfigMapName
    (labels2 p) (s_configmaps σ);
  ok_worker_config_name : named_ours cm_ObjectMeta p getWorkerConfigMapName
    (labels2 p) (s_configmaps σ);
  ok_catalog_config_name : named_ours cm_ObjectMeta p getCatalogConfigMapName
    (labels2 p) (s_configmaps σ);
  ok_rs_keys a b : a ∈ s_replicasets σ → b ∈ s_replicasets σ →
    same_key (rs_ObjectMeta a) (rs_ObjectMeta b) → a = b;
  ok_replicas rs : rs ∈ replicasets_of p (getWorkerPodLabel (p_Uuid p)) σ →
    is_Some (rs_Replicas rs);
  ok_hpa_name : named_ours hpa_ObjectMeta p getHPAName (labels2 p) (s_hpas σ);
  ok_hpas h : h ∈ hpas_of p σ →
    getHPAName (p_Uuid p) = Some (om_Name (hpa_ObjectMeta h))
    ∧ is_Some (hpa_MinReplicas h) ∧ is_Some (hpa_TargetCPUUtilizationPercentage h)
}.
End machine.
