(* ===== verification/Refinement.v ===== *)
(** Reconcile implements the abstract machine of Machine.v. *)

From S2P Require Import Prelude ApiTypes K8sTypes Names Config Catalog Pods Effects.
From S2P Require Import Status Services ConfigMaps ReplicaSets Hpa Reconcile Traces.
From S2P Require Import Store ServiceStages Machine.

(** ** Status updates *)

(** The store apart from the status of the resource is kept. *)
Definition presto_kept (σ σ' : store) : Prop :=
  same_resource (s_presto σ) (s_presto σ') ∧ p_Uuid (s_presto σ') = p_Uuid (s_presto σ).

Definition keeps_store (σ σ' : store) : Prop := kids σ' = kids σ ∧ presto_kept σ σ'.

#[export] Instance presto_kept_preorder : PreOrder presto_kept.
Proof.
  split; [done|]. intros σ1 σ2 σ3 [H1 E1] [H2 E2]. split; [by etransitivity|congruence].
Qed.

#[export] Instance keeps_store_preorder : PreOrder keeps_store.
Proof.
  split; [done|]. intros σ1 σ2 σ3 [H1 E1] [H2 E2]. split; [congruence|by etransitivity].
Qed.

(** An action that does not assign the UUID and whose objects have the fields
    updateStatus dereferences. *)
Definition safe_action (a : ClusterUpdateAction) : Prop :=
  cu_clusterUUID a = None ∧
  (∀ svc, cu_service a = Some svc → kss_Ports (svc_Spec svc) ≠ []) ∧
  (∀ rs, cu_workerReplicaSet a = Some rs → is_Some (rs_Replicas rs)).

Lemma safe_applyAction a st :
  safe_action a → ∃ st' u, applyAction a st = Some (st', u).
Proof.
  intros (_ & Hsvc & Hrs). unfold applyAction, serviceFields, workerFields.
  destruct (cu_service a) as [svc|]; [destruct (kss_Ports (svc_Spec svc)) eqn:Hp|]; simpl.
  1: by apply Hsvc in Hp.
  all: destruct (cu_workerReplicaSet a) as [rs|]; [destruct (Hrs rs eq_refl) as [n ->]|]; simpl.
  all: by eexists _, _.
Qed.

Lemma set_status_resource p st : same_resource p (set_Status p st).
Proof. done. Qed.

Lemma updateStatus_store a s σ :
  safe_action a → same_resource (sh_presto s) (s_presto σ) →
  swp σ (updateStatus a s) (λ σ' t o,
    quiet t ∧ keeps_store σ σ' ∧ ∃ u, o = Returned (u, None, s)).
Proof.
  intros Ha (Htm & Hn & Hns & Huid & Hl & Hsp). unfold updateStatus, getPresto. swp_simpl.
  intros x σ1 [-> Hx]. destruct (Hx Hns Hl) as (items & -> & Hf). swp_simpl.
  rewrite Hn, Hf. simpl.
  destruct (safe_applyAction a (Status (s_presto σ)) Ha) as (st & u & Hap). rewrite Hap. swp_simpl.
  apply applyAction_inv in Hap as [Huuid _]. rewrite (proj1 Ha) in Huuid. simpl in Huuid.
  destruct u; swp_simpl.
  - intros now σ2 ->. swp_simpl. intros y σ3 Hy.
    destruct (Hy eq_refl) as (p' & -> & -> & Hsame & Hst). swp_simpl.
    split; [by eauto with go|]. split; [|by eexists]. split; [done|]. split; [done|].
    unfold p_Uuid. simpl. by rewrite Hst.
  - split; [by eauto with go|]. split; [done|]. by eexists.
Qed.

(** A status update inside a stage. *)
Ltac use_status :=
  swp_focus; eapply swp_mono; [|apply updateStatus_store];
  [let t := fresh "ts" in let Hq := fresh "Hq" in let Hk := fresh "Hk" in
   let u := fresh "u" in
   intros ? t ? (Hq & Hk & u & ->); swp_simpl
  |..].

Lemma single_label_subseteq kv lbls : lbls !! kv.1 = Some kv.2 → single_label kv ⊆ lbls.
Proof. intros. unfold single_label. by apply map_singleton_subseteq_l. Qed.

Lemma externalService_ports p n lbls {B} (f : ServicePort → B) :
  map f (kss_Ports (svc_Spec (externalService p n lbls))) ≠ [].
Proof. simpl. unfold getServicePort. by repeat case_match. Qed.

Section stages.
Context `{GoMapRange, Apimachinery}.

(** What a stage does: it passes when it is settled, and otherwise changes the
    store once, with the effect of the machine. *)
Definition stage_ok (p : Presto) (i : nat) (s' : shared) (σ : store) (σ' : store) (t : trace)
    (o : outcome (option goerror * bool * shared)) : Prop :=
  (settled p i σ ∧ keeps_store σ σ' ∧ quiet t ∧ o = Returned (None, false, s')) ∨
  (¬ settled p i σ ∧ effect p i σ σ' ∧ presto_kept σ σ' ∧ length (changes t) = 1%nat ∧
   ∃ s'', o = Returned (None, true, s'')).

Lemma keeps_kids σ σ' : keeps_store σ σ' → kids σ' = kids σ.
Proof. by intros [? _]. Qed.

Lemma named_free {A} (om : A → ObjectMeta) p getName sel l n key :
  named_ours om p getName sel l → listed om (p_Namespace p) sel l = [] →
  getName (p_Uuid p) = Some n → om_Name key = n → om_Namespace key = p_Namespace p →
  free om key l.
Proof.
  intros Hours Hl Hn Hkn Hkns. apply Forall_forall. intros a Ha [Hns Hname].
  assert (a ∈ listed om (p_Namespace p) sel l) as Hin.
  { apply elem_of_listed. split_and!; [congruence| |done]. apply (Hours a n); [done|congruence|done|congruence]. }
  rewrite Hl in Hin. by apply elem_of_nil in Hin.
Qed.

Lemma headless_refines p σ :
  spec_ok p → store_ok p σ →
  swp σ (headlessServiceConfig (mkShared p (clusterLabels p)))
    (stage_ok p 0 (mkShared p (labels1 p)) σ).
Proof.
  intros Hp Hσ. destruct (proj2 (short_name_is_Some "pod-discovery-" _) (ok_uuid p Hp)) as [n Hn].
  unfold headlessServiceConfig, createHeadLessPodDiscoverySvc. swp_simpl.
  fold (labels1 p). fold getPodDiscoveryServiceName in Hn. rewrite Hn. swp_simpl.
  intros x σ1 [-> ->]. fold (services_of p (getPodDiscoveryServiceLabel (p_Uuid p)) σ).
  destruct (services_of p _ σ) as [|svc l] eqn:Hl; swp_simpl.
  - intros y σ2 Hc.
    destruct Hc as (s' & Hs' & Hfree & -> & ->).
    { right. eapply named_free; [apply (ok_headless_name _ _ Hσ)|done|done|done|done]. }
    swp_simpl. rewrite ?Hn. swp_simpl. intros [] σ3 ->. swp_simpl. use_status.
    2: by split_and!.
    2: by apply (ok_presto _ _ Hσ).
    right. split; [simpl; rewrite Hl; intros Hne; by apply Hne|]. split.
    { exists n. split; [done|]. exists s'. split; [done|]. by rewrite (keeps_kids _ _ Hk). }
    split; [by apply Hk|]. split; [by trace_simpl|by eexists].
  - left. split; [by simpl; rewrite Hl|]. split; [done|]. split; [by eauto with go|done].
Qed.

Lemma service_refines p σ :
  spec_ok p → store_ok p σ →
  swp σ (('(err, changesMade, _) ← serviceConfig; mret (err, changesMade))
           (mkShared p (labels1 p)))
    (stage_ok p 1 (mkShared p (labels2 p)) σ).
Proof.
  intros Hp Hσ.
  destruct (proj2 (short_name_is_Some "external-presto-svc-" _) (ok_uuid p Hp)) as [n Hn].
  unfold serviceConfig, createOrGetService, getService. swp_simpl.
  fold (labels2 p). fold getExternalServiceName in Hn. rewrite Hn.
  destruct (String.eqb_spec (ss_Type (Service_ (Spec p))) ServiceTypeExternalName) as [He|_];
    [by apply (ok_service p Hp) in He|]. swp_simpl.
  intros x σ1 [-> ->]. fold (services_of p (getExternalServiceLabel (p_Uuid p)) σ).
  destruct (services_of p _ σ) as [|svc l] eqn:Hl; swp_simpl.
  - intros y σ2 Hc.
    destruct Hc as (s' & Hs' & Hfree & -> & ->).
    { right. eapply named_free; [apply (ok_external_name _ _ Hσ)|done|done|done|done]. }
    swp_simpl. intros z σ3 [-> ->]. simpl s_services.
    rewrite listed_app, (listed_one _ _ _ s').
    2: by destruct Hs' as [[<- _] _].
    2: by destruct Hs' as [(_ & <- & _) _].
    destruct (listed _ _ _ _ ++ [s']) as [|svc l'] eqn:Hl'; [by destruct (listed _ _ _ _)|].
    swp_simpl. intros [] σ4 ->. swp_simpl. use_status.
    2:{ split_and!; [done| |done]. intros ? [= <-].
        assert (svc ∈ listed svc_ObjectMeta (p_Namespace p) (labels2 p) (s_services σ) ++ [s'])
          as [Hin|Hin]%elem_of_app by (rewrite Hl'; left).
        - apply (listed_finer _ _ (single_label (getExternalServiceLabel (p_Uuid p)))) in Hin.
          + fold (services_of p (getExternalServiceLabel (p_Uuid p)) σ) in Hin.
            rewrite Hl in Hin. by apply elem_of_nil in Hin.
          + apply single_label_subseteq. apply lookup_insert_eq.
        - apply list_elem_of_singleton in Hin as ->. destruct Hs' as (_ & _ & Hports).
          intros Hnil. rewrite Hnil in Hports. by apply externalService_ports in Hports. }
    2: by apply (ok_presto _ _ Hσ).
    right. split; [simpl; rewrite Hl; intros Hne; by apply Hne|]. split.
    { exists n. split; [done|]. exists s'. split; [done|]. by rewrite (keeps_kids _ _ Hk). }
    split; [by apply Hk|]. split; [by trace_simpl|by eexists].
  - destruct (is_empty _); swp_simpl.
    + use_status.
      2:{ split_and!; [done| |done]. intros ? [= <-]. apply (ok_ports _ _ Hσ). rewrite Hl. left. }
      2: by apply (ok_presto _ _ Hσ).
      left. split; [by simpl; rewrite Hl|]. split; [done|]. split; [|done].
      trace_simpl. by split.
    + left. split; [by simpl; rewrite Hl|]. split; [done|]. split; [by eauto with go|done].
Qed.

Lemma config_listed p getName n σ :
  getName (p_Uuid p) = Some n →
  existsb (λ cm, String.eqb (om_Name (cm_ObjectMeta cm)) n) (config_maps_of p σ) = true
  ↔ config_settled p getName σ.
Proof.
  intros Hn. split.
  - intros (cm & Hin & Hname)%existsb_config. by exists n, cm.
  - intros (n' & cm & Hn' & Hin & Hname). rewrite Hn in Hn'. injection Hn' as <-.
    apply existsb_exists. exists cm. split; [by apply list_elem_of_In|]. by apply String.eqb_eq.
Qed.

Lemma createConfigMap_refines p getName n cm σ :
  getName (p_Uuid p) = Some n →
  named_ours cm_ObjectMeta p getName (labels2 p) (s_configmaps σ) →
  om_Name (cm_ObjectMeta cm) = n → om_Namespace (cm_ObjectMeta cm) = p_Namespace p →
  swp σ (createConfigMap n p cm (labels2 p)) (λ σ' t o,
    (config_settled p getName σ ∧ σ' = σ ∧ quiet t ∧ o = Returned (false, None)) ∨
    (¬ config_settled p getName σ ∧ adds_configmap cm σ σ' ∧ s_presto σ' = s_presto σ ∧
     length (changes t) = 1%nat ∧ o = Returned (true, None))).
Proof.
  intros Hn Hours Hname Hns. unfold createConfigMap. swp_simpl. intros x σ1 [-> ->].
  fold (config_maps_of p σ). pose proof (config_listed p getName n σ Hn) as Hset.
  destruct (existsb _ _); swp_simpl.
  - left. split; [by apply Hset|]. split; [done|]. split; [by eauto with go|done].
  - assert (¬ config_settled p getName σ) as Hnot by (intros ?%Hset; done).
    intros y σ2 Hc. destruct Hc as (cm' & Hcm' & _ & -> & ->).
    { right. apply Forall_forall. intros a Ha [Ens Ename]. apply Hnot. exists n, a.
      split; [done|]. split; [|congruence]. apply elem_of_listed. split_and!; [congruence| |done].
      apply (Hours a n); [done|congruence|done|congruence]. }
    right. split; [done|]. split; [by exists cm'|]. split; [done|]. by split; [trace_simpl|].
Qed.

(** A config map created by a stage, followed by the status update. *)
Lemma adds_then_keeps cm σ σ1 σ2 :
  adds_configmap cm σ σ1 → keeps_store σ1 σ2 → adds_configmap cm σ σ2.
Proof. intros (cm' & Hcm & Hk) [Hk' _]. exists cm'. by rewrite Hk'. Qed.

Lemma presto_kept_eq σ σ1 σ2 : s_presto σ1 = s_presto σ → keeps_store σ1 σ2 → presto_kept σ σ2.
Proof. intros Heq [_ [Hk1 Hk2]]. rewrite Heq in Hk1, Hk2. by split. Qed.

(** From the creation of the config map to the stage. *)
Ltac config_refines Hσ Hn :=
  intros σ1 t o [(Hset & -> & Hq & ->)|(Hset & He & Hkept & Hlen & ->)]; swp_simpl;
  [ left; split; [done|]; split; [done|]; split; [by rewrite ?app_nil_r|done]
  | rewrite ?Hn; swp_simpl; swp_focus;
    eapply swp_mono; [|apply updateStatus_store;
      [by split_and!|rewrite Hkept; by apply (ok_presto _ _ Hσ)]];
    intros σ2 ts o (Hq & Hk & u & ->); swp_simpl; intros [] σ3 ->; swp_simpl;
    right; split; [done|]; split;
    [ apply (adds_then_keeps _ _ _ _ He) in Hk; eexists _, _; by split_and!
    | split; [by eapply presto_kept_eq|]; split;
      [by trace_simpl; rewrite ?app_nil_r; change (changes []) with (@nil req); rewrite ?app_nil_r
      |by eexists] ] ].

Lemma coordinatorConfig_refines p σ :
  spec_ok p → store_ok p σ →
  swp σ (coordinatorConfig (mkShared p (labels2 p)))
    (stage_ok p 2 (mkShared p (labels2 p)) σ).
Proof.
  intros Hp Hσ.
  destruct (proj2 (short_name_is_Some "coordinatorconfig-" _) (ok_uuid p Hp)) as [n Hn].
  destruct (ok_config p Hp true n (labels2 p)) as [cm Hcm].
  unfold coordinatorConfig, createCoordinatorConfig. swp_simpl.
  fold getCoordinatorConfigMapName in Hn. rewrite Hn. swp_simpl. rewrite Hcm. swp_simpl.
  swp_focus. eapply swp_mono; [|eapply createConfigMap_refines;
    [exact Hn|apply (ok_coordinator_config_name _ _ Hσ)|
     by rewrite (buildConfigMap_meta _ _ _ _ _ Hcm)..]].
  config_refines Hσ Hn.
Qed.

Lemma workerConfig_refines p σ :
  spec_ok p → store_ok p σ →
  swp σ (workerConfig (mkShared p (labels2 p)))
    (stage_ok p 3 (mkShared p (labels2 p)) σ).
Proof.
  intros Hp Hσ.
  destruct (proj2 (short_name_is_Some "workerconfig-" _) (ok_uuid p Hp)) as [n Hn].
  destruct (ok_config p Hp false n (labels2 p)) as [cm Hcm].
  unfold workerConfig, createWorkerConfig. swp_simpl.
  fold getWorkerConfigMapName in Hn. rewrite Hn. swp_simpl. rewrite Hcm. swp_simpl.
  swp_focus. eapply swp_mono; [|eapply createConfigMap_refines;
    [exact Hn|apply (ok_worker_config_name _ _ Hσ)|
     by rewrite (buildConfigMap_meta _ _ _ _ _ Hcm)..]].
  config_refines Hσ Hn.
Qed.

Lemma catalogConfig_refines p σ :
  spec_ok p → store_ok p σ →
  swp σ (catalogConfig (mkShared p (labels2 p)))
    (stage_ok p 4 (mkShared p (labels2 p)) σ).
Proof.
  intros Hp Hσ.
  destruct (proj2 (short_name_is_Some "catalogconfig-" _) (ok_uuid p Hp)) as [n Hn].
  unfold catalogConfig, createCatalogConfig. swp_simpl.
  fold getCatalogConfigMapName in Hn. rewrite Hn. swp_simpl.
  destruct (buildCatalogConfigMap p n (labels2 p)) as [e|cm] eqn:Hcm; [done|]. swp_simpl.
  swp_focus. eapply swp_mono; [|eapply createConfigMap_refines;
    [exact Hn|apply (ok_catalog_config_name _ _ Hσ)|
     by rewrite (buildCatalogConfigMap_meta _ _ _ _ Hcm)..]].
  config_refines Hσ Hn.
Qed.

Context `{!ApimachineryLaws}.

Lemma createReplicaSetForCoordinator_ok p lbls :
  spec_ok p → ∃ rs, createReplicaSetForCoordinator p lbls = Some (inr rs)
    ∧ om_Name (rs_ObjectMeta rs) = EmptyString.
Proof.
  intros Hp. destruct (ok_coordinator p Hp) as [ps Hps].
  unfold createReplicaSetForCoordinator, getCoordinatorReplicaset. rewrite Hps. simpl.
  rewrite (short_name_ok _ _ (ok_uuid p Hp)). by eexists.
Qed.

Lemma createReplicaSetForWorker_ok p lbls n :
  spec_ok p → ∃ rs, createReplicaSetForWorker p lbls n = Some (inr rs)
    ∧ om_Name (rs_ObjectMeta rs) = EmptyString ∧ rs_Replicas rs = Some n.
Proof.
  intros Hp. destruct (ok_worker p Hp) as [ps Hps].
  unfold createReplicaSetForWorker, getWorkerReplicaSet. rewrite Hps. simpl.
  rewrite (short_name_ok _ _ (ok_uuid p Hp)). by eexists.
Qed.

Lemma coordinatorReplicaset_refines p σ :
  spec_ok p → store_ok p σ →
  swp σ (coordinatorReplicaset (mkShared p (labels2 p)))
    (stage_ok p 5 (mkShared p (labels2 p)) σ).
Proof.
  intros Hp Hσ.
  destruct (proj2 (short_name_is_Some "coordinatorreplicaset-" _) (ok_uuid p Hp)) as [n Hn].
  destruct (createReplicaSetForCoordinator_ok p
              (getCoordinatorPodLabels (labels2 p) (p_Uuid p)) Hp) as (rs & Hrs & Hempty).
  unfold coordinatorReplicaset, createUpdateReplicaSetForCoordinator, getReplicaSet. swp_simpl.
  intros x σ1 [-> ->]. fold (replicasets_of p (getCoordinatorPodLabel (p_Uuid p)) σ).
  destruct (replicasets_of p _ σ) as [|r l] eqn:Hl; swp_simpl.
  - rewrite NewNotFound_IsNotFound. swp_simpl. rewrite Hrs. swp_simpl.
    intros y σ2 Hc. destruct Hc as (rs' & Hrs' & Hfree & -> & ->); [by left|]. swp_simpl.
    fold getCoordinatorReplicaset in Hn. rewrite Hn. swp_simpl. use_status.
    2: by split_and!.
    2: by apply (ok_presto _ _ Hσ).
    intros [] σ3 ->. swp_simpl.
    right. split; [simpl; rewrite Hl; intros Hne; by apply Hne|]. split.
    { exists rs. split; [done|]. exists rs'. split; [done|]. split; [done|].
      by rewrite (keeps_kids _ _ Hk). }
    split; [by apply Hk|]. split; [by trace_simpl|by eexists].
  - left. split; [by simpl; rewrite Hl|]. split; [done|]. split; [by eauto with go|done].
Qed.

(** The worker stage returns the ReplicaSet it leaves in the store. *)
Definition worker_ok (p : Presto) (s' : shared) (σ σ' : store) (t : trace)
    (o : outcome ((goerror + bool * ReplicaSet) * shared)) : Prop :=
  (settled p 6 σ ∧ keeps_store σ σ' ∧ quiet t ∧
   ∃ rs l, replicasets_of p (getWorkerPodLabel (p_Uuid p)) σ = rs :: l ∧
     o = Returned (inr (false, rs), s')) ∨
  (¬ settled p 6 σ ∧ effect p 6 σ σ' ∧ presto_kept σ σ' ∧ length (changes t) = 1%nat ∧
   ∃ rs s'', o = Returned (inr (true, rs), s'')).

Lemma workers_not_settled p rs l σ :
  replicasets_of p (getWorkerPodLabel (p_Uuid p)) σ = rs :: l →
  countManaged p = true → rs_Replicas rs ≠ ws_Count (Worker (Spec p)) → ¬ workers_settled p σ.
Proof.
  intros Hl Hm Hne (rs' & l' & Hl' & Heq). rewrite Hl in Hl'. injection Hl' as <- <-.
  by apply Hne, Heq.
Qed.

Lemma workerReplicaset_creates p σ count :
  spec_ok p → store_ok p σ → ws_Count (Worker (Spec p)) = Some count →
  replicasets_of p (getWorkerPodLabel (p_Uuid p)) σ = [] →
  swp σ (workerReplicaset (mkShared p (labels2 p)))
    (worker_ok p (mkShared p (labels2 p)) σ).
Proof.
  intros Hp Hσ Hcount Hl.
  destruct (createReplicaSetForWorker_ok p (getWorkerPodLabels (labels2 p) (p_Uuid p)) count Hp)
    as (rs & Hrs & Hempty & Hrep).
  unfold workerReplicaset, createUpdateReplicaSetForWorker, getReplicaSet. swp_simpl.
  intros x σ1 [-> ->]. fold (replicasets_of p (getWorkerPodLabel (p_Uuid p)) σ). rewrite Hl.
  swp_simpl. rewrite NewNotFound_IsNotFound, Hcount. swp_simpl. rewrite Hrs. swp_simpl.
  intros y σ2 Hc. destruct Hc as (rs' & Hrs' & Hfree & -> & ->); [by left|]. swp_simpl. use_status.
  2:{ split_and!; [done..|]. intros ? [= <-]. destruct Hrs' as (_ & <- & _). by eexists. }
  2: by apply (ok_presto _ _ Hσ).
  intros [] σ3 ->. swp_simpl.
  right. split; [intros (? & ? & Hl' & _); congruence|]. split.
  { left. exists rs, count. split_and!; [done..|]. exists rs'. split; [done|]. split; [done|].
    by rewrite (keeps_kids _ _ Hk). }
  split; [by apply Hk|]. split; [by trace_simpl|by eexists _, _].
Qed.

Lemma workerReplicaset_keeps p σ rs l :
  spec_ok p → store_ok p σ →
  replicasets_of p (getWorkerPodLabel (p_Uuid p)) σ = rs :: l →
  swp σ (workerReplicaset (mkShared p (labels2 p)))
    (worker_ok p (mkShared p (labels2 p)) σ).
Proof.
  intros Hp Hσ Hl. destruct (ok_count p Hp) as [count Hcount].
  assert (rs ∈ replicasets_of p (getWorkerPodLabel (p_Uuid p)) σ) as Hin by (rewrite Hl; left).
  destruct (ok_replicas p σ Hσ rs Hin) as [n Hn].
  unfold workerReplicaset, createUpdateReplicaSetForWorker, getReplicaSet. swp_simpl.
  intros x σ1 [-> ->]. fold (replicasets_of p (getWorkerPodLabel (p_Uuid p)) σ). rewrite Hl.
  swp_simpl. destruct (countManaged p) eqn:Hm; swp_simpl.
  2:{ left. split; [exists rs, l; by rewrite Hm|]. split; [done|]. split; [by eauto with go|].
      by eexists _, _. }
  rewrite Hcount, Hn. swp_simpl. destruct (Z.eqb_spec count n) as [->|Hne]; swp_simpl.
  { left. split; [exists rs, l; by rewrite Hn, Hcount|]. split; [done|].
    split; [by eauto with go|]. by eexists _, _. }
  intros y σ2 Hc. destruct Hc as (rs' & -> & Hrs' & Hkey & ->).
  { exists rs. split; [by apply elem_of_listed in Hin as (_ & _ & ?)|done]. }
  swp_simpl. intros [] σ3 ->. swp_simpl. use_status.
  2:{ split_and!; [done..|]. intros ? [= <-]. destruct Hrs' as (_ & <- & _). by eexists. }
  2: by apply (ok_presto _ _ Hσ).
  right. split; [eapply workers_not_settled; [done|done|]; rewrite Hn, Hcount; congruence|]. split.
  { right. exists rs, l, rs'. rewrite Hcount. split_and!; [done..|].
    by rewrite (keeps_kids _ _ Hk). }
  split; [by apply Hk|]. split; [by trace_simpl|by eexists _, _].
Qed.

Lemma workerReplicaset_refines p σ :
  spec_ok p → store_ok p σ →
  swp σ (workerReplicaset (mkShared p (labels2 p)))
    (worker_ok p (mkShared p (labels2 p)) σ).
Proof.
  intros Hp Hσ. destruct (replicasets_of p (getWorkerPodLabel (p_Uuid p)) σ) as [|rs l] eqn:Hl.
  - destruct (ok_count p Hp) as [count Hcount]. by eapply workerReplicaset_creates.
  - by eapply workerReplicaset_keeps.
Qed.

Lemma createHPASpec_ok p rs lbls v :
  spec_ok p → checkAutoscalingEnabled p = true →
  ∃ h, createHPASpec p rs lbls v = Some (inr h).
Proof.
  intros Hp He. destruct (ok_autoscaling p Hp He) as ([mi Hmi] & [ma Hma] & [ta Hta]).
  unfold createHPASpec, getHPAName. rewrite Hmi, Hma, Hta, (short_name_ok _ _ (ok_uuid p Hp)).
  by eexists.
Qed.

(** The fields of the autoscaler object. *)
Lemma createHPASpec_fields p rs lbls v h :
  createHPASpec p rs lbls v = Some (inr h) →
  getHPAName (p_Uuid p) = Some (om_Name (hpa_ObjectMeta h))
  ∧ om_Namespace (hpa_ObjectMeta h) = p_Namespace p ∧ om_Labels (hpa_ObjectMeta h) = lbls
  ∧ is_Some (hpa_MinReplicas h) ∧ is_Some (hpa_TargetCPUUtilizationPercentage h)
  ∧ hpa_ScaleTargetRef_Name h = om_Name (rs_ObjectMeta rs)
  ∧ hpa_MinReplicas h = as_MinReplicas (ws_Autoscaling (Worker (Spec p)))
  ∧ Some (hpa_MaxReplicas h) = as_MaxReplicas (ws_Autoscaling (Worker (Spec p)))
  ∧ hpa_TargetCPUUtilizationPercentage h
    = as_TargetCPUUtilizationPercentage (ws_Autoscaling (Worker (Spec p))).
Proof.
  unfold createHPASpec. repeat case_match; try done. intros Hb.
  apply bind_Some in Hb as (n & Hn & Hb). simplify_eq. simpl. by split_and!.
Qed.

Lemma autoscaleSpecChanged_ok h p :
  spec_ok p → checkAutoscalingEnabled p = true →
  is_Some (hpa_MinReplicas h) → is_Some (hpa_TargetCPUUtilizationPercentage h) →
  ∃ b, autoscaleSpecChanged h p = Some b.
Proof.
  intros Hp He [hm Hhm] [ht Hht].
  destruct (ok_autoscaling p Hp He) as ([mi Hmi] & [ma Hma] & [ta Hta]).
  unfold autoscaleSpecChanged, or_else, deref_ne, deref. rewrite Hmi, Hma, Hta, Hhm, Hht. simpl.
  repeat case_match; by eexists.
Qed.

Lemma hpa_listed_key p σ h key :
  store_ok p σ → h ∈ hpas_of p σ → getHPAName (p_Uuid p) = Some (om_Name key) →
  om_Namespace key = p_Namespace p → h ∈ s_hpas σ ∧ same_key (hpa_ObjectMeta h) key.
Proof.
  intros Hσ Hin Hn Hns. destruct (ok_hpas p σ Hσ h Hin) as [Hname _].
  apply elem_of_listed in Hin as (Hh & _ & Hin). split; [done|]. split; [congruence|].
  rewrite Hname in Hn. by injection Hn.
Qed.

Lemma hpa_absent_refines p σ rs l :
  spec_ok p → store_ok p σ →
  replicasets_of p (getWorkerPodLabel (p_Uuid p)) σ = rs :: l → hpas_of p σ = [] →
  swp σ (hpaReplicaset rs (mkShared p (labels2 p)))
    (stage_ok p 7 (mkShared p (labels2 p)) σ).
Proof.
  intros Hp Hσ Hrs Hl. unfold hpaReplicaset, handleReplicaSet, getPrestoHPA. swp_simpl.
  intros x σ1 [-> ->]. fold (hpas_of p σ). rewrite Hl. swp_simpl.
  rewrite NewNotFound_IsNotFound. destruct (checkAutoscalingEnabled p) eqn:He; swp_simpl.
  2:{ left. split; [simpl; unfold hpa_settled; by rewrite Hl|]. split; [done|].
      split; [by eauto with go|done]. }
  destruct (createHPASpec_ok p rs (labels2 p) EmptyString Hp He) as [h Hh].
  destruct (createHPASpec_fields _ _ _ _ _ Hh) as (Hn & Hns & _). rewrite Hh. swp_simpl.
  intros y σ2 Hc. destruct Hc as (h' & Hh' & Hfree & -> & ->).
  { right. eapply named_free; [apply (ok_hpa_name _ _ Hσ)|done|exact Hn|done|done]. }
  cbn [failed IsAlreadyExists]. swp_simpl. rewrite Hn. swp_simpl. use_status.
  2: by split_and!.
  2: by apply (ok_presto _ _ Hσ).
  intros [] σ3 ->. swp_simpl. right.
  split; [simpl; unfold hpa_settled; rewrite Hl, He; done|]. split.
  { eexists. rewrite Hl, (keeps_kids _ _ Hk). split; [done|].
    exists rs, EmptyString, h, h'. split_and!; [done|done|by eexists|done]. }
  split; [by apply Hk|]. split; [by trace_simpl|by eexists].
Qed.

Lemma hpa_present_refines p σ rs l h hs :
  spec_ok p → store_ok p σ →
  replicasets_of p (getWorkerPodLabel (p_Uuid p)) σ = rs :: l → hpas_of p σ = h :: hs →
  swp σ (hpaReplicaset rs (mkShared p (labels2 p)))
    (stage_ok p 7 (mkShared p (labels2 p)) σ).
Proof.
  intros Hp Hσ Hrs Hl. assert (h ∈ hpas_of p σ) as Hin by (rewrite Hl; left).
  destruct (ok_hpas p σ Hσ h Hin) as (Hname & Hmin & Htgt).
  unfold hpaReplicaset, handleReplicaSet, getPrestoHPA. swp_simpl.
  intros x σ1 [-> ->]. fold (hpas_of p σ). rewrite Hl. swp_simpl.
  destruct (checkAutoscalingEnabled p) eqn:He; swp_simpl.
  - destruct (autoscaleSpecChanged_ok h p Hp He Hmin Htgt) as [[] Hb]; rewrite Hb; swp_simpl.
    2:{ left. split; [simpl; unfold hpa_settled; by rewrite Hl|]. split; [done|].
        split; [by eauto with go|done]. }
    destruct (createHPASpec_ok p rs (labels2 p) (om_ResourceVersion (hpa_ObjectMeta h)) Hp He)
      as [h1 Hh].
    destruct (createHPASpec_fields _ _ _ _ _ Hh) as (Hn & Hns & _). rewrite Hh. swp_simpl.
    intros y σ2 Hc. destruct Hc as (h' & -> & Hh' & ->).
    { exists h. by apply (hpa_listed_key p). }
    cbn [failed IsAlreadyExists]. swp_simpl. rewrite Hn. swp_simpl. intros [] σ3 ->. swp_simpl. right.
    split; [simpl; unfold hpa_settled; rewrite Hl, Hb; by intros [_ ?]|]. split.
    { eexists. rewrite Hl, He. split; [done|].
      eexists rs, _, h1, h'. split_and!; [done|done|by eexists|done]. }
    split; [done|]. split; [by trace_simpl|by eexists].
  - intros y σ2 Hc. destruct Hc as (-> & ->).
    { exists h. split; [|done]. by apply elem_of_listed in Hin as (_ & _ & ?). }
    swp_simpl. rewrite Hname. swp_simpl. intros [] σ3 ->. swp_simpl. use_status.
    2: by split_and!.
    2: by apply (ok_presto _ _ Hσ).
    right. split; [simpl; unfold hpa_settled; rewrite Hl, He; by intros [? _]|]. split.
    { eexists. rewrite Hl, He, (keeps_kids _ _ Hk). by split. }
    split; [by apply Hk|]. split; [by trace_simpl|by eexists].
Qed.

Lemma hpa_refines p σ rs l :
  spec_ok p → store_ok p σ →
  replicasets_of p (getWorkerPodLabel (p_Uuid p)) σ = rs :: l →
  swp σ (hpaReplicaset rs (mkShared p (labels2 p)))
    (stage_ok p 7 (mkShared p (labels2 p)) σ).
Proof.
  intros Hp Hσ Hrs. destruct (hpas_of p σ) as [|h hs] eqn:Hl.
  - by eapply hpa_absent_refines.
  - by eapply hpa_present_refines.
Qed.

(** The report changes nothing but the status. *)
Lemma reportState_store p σ rs :
  spec_ok p → store_ok p σ → is_Some (rs_Replicas rs) →
  swp σ (reportState rs (mkShared p (labels2 p))) (λ σ' t o,
    keeps_store σ σ' ∧ quiet t ∧ ∃ s', o = Returned (emptyResult, None, s')).
Proof.
  intros Hp Hσ Hrs.
  assert (∀ st, safe_action (actWorkers st rs)) as Hact
    by (intros st; split_and!; [done..|]; by intros ? [= <-]).
  assert (∀ a b, safe_action (actReady rs a b)) as Hready
    by (intros ??; split_and!; [done..|]; by intros ? [= <-]).
  unfold reportState, getCoordinatorPodPhase, getCPUUsage, getCoordinatorContainerName,
    getWorkerContainerPrefix.
  swp_simpl. rewrite !(short_name_ok _ _ (ok_uuid p Hp)).
  intros x σ1 ->. cbn [resp] in x. destruct x as [e|[|pod pods]]; swp_simpl.
  all: repeat match goal with |- context [String.eqb ?a ?b] => destruct (String.eqb a b) end;
    swp_simpl.
  all: repeat match goal with
       | |- ∀ _ _, api_step _ (ListPodMetrics _ _ _) _ _ → _ =>
         let x := fresh "x" in intros x ? ->; cbn [resp] in x; destruct x; swp_simpl
       | |- swp _ ?m _ => let x := scrutinee m in destruct x; swp_simpl
       end.
  all: use_status; [|auto|by apply (ok_presto _ _ Hσ)].
  all: split; [done|]; split; [rewrite ?app_nil_r; by eauto 8 with go|by eexists].
Qed.
End stages.

(** ** Reconcile *)

Section reconcile.
Context `{GoMapRange, Apimachinery, !ApimachineryLaws}.

Lemma settled_kids p i σ σ' : kids σ' = kids σ → settled p i σ → settled p i σ'.
Proof. destruct σ, σ'. unfold kids. simpl. by intros [= -> -> -> ->]. Qed.

Lemma effect_kids p i σ σ1 σ' : kids σ1 = kids σ → effect p i σ1 σ' → effect p i σ σ'.
Proof. destruct σ, σ1. unfold kids. simpl. by intros [= -> -> -> ->]. Qed.

Lemma store_ok_keeps p σ σ' : keeps_store σ σ' → store_ok p σ → store_ok p σ'.
Proof.
  intros [Hk [Hr Hu]] [[Hp Hpu]]. destruct σ, σ'. unfold kids in Hk. simpl in *.
  injection Hk as -> -> -> ->. split; try done. split; [by etransitivity|].
  etransitivity; [exact Hu|exact Hpu].
Qed.

Lemma op_step_keeps p σ σ1 σ' : keeps_store σ σ1 → op_step p σ1 σ' → op_step p σ σ'.
Proof.
  intros [Hk _] Hs. pose proof (eq_sym Hk) as Hk'.
  revert Hk Hk'. destruct Hs as [i σ1 σ' Hset Hnot He|σ1 σ' Hset Hid]; intros Hk Hk'.
  - apply (op_stage p i).
    + intros j Hj. by apply (settled_kids p j σ1), Hset.
    + intros Hs. by apply Hnot, (settled_kids p i σ).
    + by apply (effect_kids p i σ σ1).
  - apply op_idle; [|congruence]. intros j Hj. by apply (settled_kids p j σ1), Hset.
Qed.

(** One change when a stage is not settled, and none otherwise. *)
Definition one_change (p : Presto) (σ : store) (t : trace) : Prop :=
  (length (changes t) = 1%nat ∧ ∃ i, (i < 8)%nat ∧ ¬ settled p i σ) ∨
  (changes t = [] ∧ ∀ i, (i < 8)%nat → settled p i σ).

Lemma one_change_iff p q σ σ' t t' :
  changes t' = changes t → (∀ i, settled p i σ ↔ settled q i σ') →
  one_change p σ t → one_change q σ' t'.
Proof.
  intros Ht Hs. unfold one_change. rewrite Ht. setoid_rewrite Hs. done.
Qed.

(** What the stages from one on do. *)
Definition rest_ok (p : Presto) (σ σ' : store) (t : trace)
    (o : outcome (Result * option goerror * shared)) : Prop :=
  op_step p σ σ' ∧ presto_kept σ σ' ∧
  one_change p σ t ∧
  ∃ s, o = Returned (emptyResult, None, s).

Lemma rest_stop p i σ σ' t s :
  (∀ j, (j < i)%nat → settled p j σ) → ¬ settled p i σ → effect p i σ σ' → presto_kept σ σ' →
  length (changes t) = 1%nat → rest_ok p σ σ' t (Returned (emptyResult, None, s)).
Proof.
  intros Hset Hnot He Hk Hlen. split; [by apply (op_stage p i)|]. split; [done|].
  split; [|by eexists]. left. split; [done|]. exists i. split; [|done].
  destruct (decide (i < 8)%nat); [done|]. by do 8 (destruct i as [|i]; [lia|]).
Qed.

Lemma rest_continue p σ σ1 σ' t1 t2 o :
  keeps_store σ σ1 → quiet t1 → rest_ok p σ1 σ' t2 o → rest_ok p σ σ' (t1 ++ t2) o.
Proof.
  intros Hk [Hq _] (Hs & Hp & Hc & Ho). split; [by eapply op_step_keeps|].
  split; [destruct Hk; by etransitivity|]. split; [|done]. destruct Hk as [Hk _].
  apply (one_change_iff p p σ1 σ t2); [by rewrite changes_app, Hq| |done].
  intros i. split; by apply settled_kids.
Qed.

Lemma settled_next p i σ σ1 :
  keeps_store σ σ1 → (∀ j, (j < i)%nat → settled p j σ) → settled p i σ →
  ∀ j, (j < S i)%nat → settled p j σ1.
Proof.
  intros [Hk _] Hset Hi j Hj. apply (settled_kids p j σ); [done|].
  destruct (decide (j = i)) as [->|]; [done|]. apply Hset. lia.
Qed.

Lemma unlessChanged_refines p i m next s s' σ :
  (∀ j, (j < i)%nat → settled p j σ) → store_ok p σ →
  swp σ (m s) (stage_ok p i s' σ) →
  (∀ σ1, (∀ j, (j < S i)%nat → settled p j σ1) → store_ok p σ1 →
     swp σ1 (next s') (rest_ok p σ1)) →
  swp σ (unlessChanged m next s) (rest_ok p σ).
Proof.
  intros Hset Hσ Hm Hnext. unfold unlessChanged. swp_simpl. apply swp_bind.
  eapply swp_mono; [|exact Hm].
  intros σ1 t o [(Hi & Hk & Hq & ->)|(Hnot & He & Hk & Hlen & s'' & ->)]; simpl.
  - eapply swp_mono; [|apply Hnext].
    + intros σ2 t2 o Hr. by eapply rest_continue.
    + by eapply settled_next.
    + by eapply store_ok_keeps.
  - rewrite app_nil_r. by eapply rest_stop.
Qed.

Lemma last_stages_refine p σ rs l :
  spec_ok p → (∀ j, (j < 7)%nat → settled p j σ) → store_ok p σ →
  replicasets_of p (getWorkerPodLabel (p_Uuid p)) σ = rs :: l →
  swp σ (unlessChanged (hpaReplicaset rs) (reportState rs) (mkShared p (labels2 p)))
    (rest_ok p σ).
Proof.
  intros Hp Hset Hσ Hl.
  eapply unlessChanged_refines; [done|done|by eapply hpa_refines|]. intros σ1 Hset1 Hσ1.
  eapply swp_mono; [|apply reportState_store; [done|done|]].
  - intros σ2 t o (Hk & [Hq _] & s' & ->). split; [apply op_idle; [done|by apply Hk]|].
    split; [by apply Hk|]. split; [by right|by eexists].
  - apply (ok_replicas p σ Hσ). rewrite Hl. left.
Qed.

Lemma worker_refines p σ :
  spec_ok p → (∀ j, (j < 6)%nat → settled p j σ) → store_ok p σ →
  swp σ ((r ← workerReplicaset;
          match r with
          | inl err => mret (emptyResult, Some err)
          | inr (true, _) => mret (emptyResult, None)
          | inr (false, rs) => unlessChanged (hpaReplicaset rs) (reportState rs)
          end) (mkShared p (labels2 p))) (rest_ok p σ).
Proof.
  intros Hp Hset Hσ. swp_simpl. apply swp_bind.
  eapply swp_mono; [|by apply workerReplicaset_refines].
  intros σ1 t o [(Hi & Hk & Hq & rs & l & Hl & ->)|(Hnot & He & Hk & Hlen & rs & s'' & ->)].
  - eapply swp_mono; [|apply (last_stages_refine p σ1 rs l)].
    + intros σ2 t2 o Hr. by eapply rest_continue.
    + done.
    + by eapply settled_next.
    + by eapply store_ok_keeps.
    + rewrite <-Hl. unfold replicasets_of. destruct Hk as [Hk _]. unfold kids in Hk.
      by injection Hk as _ _ -> _.
  - simpl. rewrite app_nil_r. by eapply rest_stop.
Qed.

Lemma reconcileStages_refine p σ :
  spec_ok p → store_ok p σ →
  swp σ (reconcileStages (mkShared p (clusterLabels p))) (rest_ok p σ).
Proof.
  intros Hp Hσ. unfold reconcileStages.
  eapply (unlessChanged_refines p 0); [lia|done|by apply headless_refines|intros σ1 Hs1 Hσ1].
  eapply unlessChanged_refines; [done|done|by apply service_refines|intros σ2 Hs2 Hσ2].
  eapply unlessChanged_refines; [done|done|by apply coordinatorConfig_refines|intros σ3 Hs3 Hσ3].
  eapply unlessChanged_refines; [done|done|by apply workerConfig_refines|intros σ4 Hs4 Hσ4].
  eapply unlessChanged_refines; [done|done|by apply catalogConfig_refines|intros σ5 Hs5 Hσ5].
  eapply unlessChanged_refines; [done|done|by apply coordinatorReplicaset_refines|intros σ6 Hs6 Hσ6].
  by apply worker_refines.
Qed.

(** What Reconcile does on a resource that has its UUID. *)
Definition reconcile_ok (p : Presto) (σ σ' : store) (t : trace)
    (o : outcome (Result * option goerror)) : Prop :=
  op_step p σ σ' ∧ presto_kept σ σ' ∧
  one_change p σ t ∧
  o = Returned (emptyResult, None).

(** The part of a resource on which the machine depends. *)
Definition core (p : Presto) : Presto :=
  mkPresto (p_TypeMeta p)
    (mkObjectMeta (p_Name p) EmptyString (p_Namespace p) (p_UID p) EmptyString 0%Z (p_Labels p) [])
    (Spec p)
    (mkPrestoStatus (p_Uuid p) 0 0 EmptyString EmptyString EmptyString EmptyString EmptyString
       EmptyString EmptyString EmptyString EmptyString EmptyString EmptyString 0 EmptyString
       EmptyString).

Lemma core_eq p q : same_resource p q → p_Uuid q = p_Uuid p → core q = core p.
Proof. intros (E1 & E2 & E3 & E4 & E5 & E6) E7. unfold core. congruence. Qed.

Lemma spec_ok_core p : spec_ok p ↔ spec_ok (core p).
Proof. split; intros []; by split. Qed.

Lemma store_ok_core p σ : store_ok p σ ↔ store_ok (core p) σ.
Proof. split; intros []; by split. Qed.

Lemma op_step_core p σ σ' : op_step p σ σ' ↔ op_step (core p) σ σ'.
Proof.
  split; intros [i ?? Hset Hnot He|?? Hset Hk].
  1,3: apply (op_stage _ i); [exact Hset|exact Hnot|by do 8 (destruct i as [|i]; [exact He|])].
  all: by apply op_idle.
Qed.

(** The resource a reconciliation reads is as good as the one it was. *)
Lemma current_ok p σ :
  spec_ok p → store_ok p σ → spec_ok (s_presto σ) ∧ store_ok (s_presto σ) σ ∧
    (∀ σ', op_step (s_presto σ) σ σ' → op_step p σ σ') ∧
    (∀ i, settled (s_presto σ) i σ ↔ settled p i σ).
Proof.
  intros Hp Hσ. destruct (ok_presto p σ Hσ) as [Hs Hu]. pose proof (core_eq p _ Hs Hu) as Hc.
  split_and!.
  - apply (proj2 (spec_ok_core _)). rewrite Hc. by apply (proj1 (spec_ok_core p)).
  - apply (proj2 (store_ok_core _ _)). rewrite Hc. by apply (proj1 (store_ok_core p σ)).
  - intros σ' Hst. apply (proj2 (op_step_core _ _ _)). rewrite <-Hc.
    by apply (proj1 (op_step_core _ _ _)).
  - intros i. change (settled (core (s_presto σ)) i σ ↔ settled (core p) i σ). by rewrite Hc.
Qed.

Lemma Reconcile_current σ :
  let p := s_presto σ in
  spec_ok p → store_ok p σ → swp σ (Reconcile (key_of p)) (reconcile_ok p σ).
Proof.
  intros p Hp Hσ. unfold Reconcile. swp_simpl. intros x σ1 [-> Hx]. rewrite (Hx eq_refl).
  swp_simpl. fold p.
  assert (is_empty (p_Uuid p) = false) as Hu.
  { apply is_empty_false. intros Hu. pose proof (ok_uuid p Hp) as Hok. rewrite Hu in Hok.
    unfold uuid_ok in Hok. simpl in Hok. lia. }
  assert (swp σ (prog_bind (λ '(res, _), Ret res) (reconcileBody (mkShared p ∅)))
            (reconcile_ok p σ)) as Hbody.
  { unfold reconcileBody, reconcileLabelled. swp_simpl. rewrite Hu. swp_simpl. apply swp_bind.
    eapply swp_mono; [|by apply reconcileStages_refine].
    intros σ2 t o (Hs & Hk & Hc & s & ->). simpl. rewrite app_nil_r. by split_and!. }
  intros reg σ2 ->. destruct reg; swp_simpl; [|intros [] σ3 ->; swp_simpl].
  all: eapply swp_mono; [|exact Hbody]; intros σ4 t o (Hs & Hk & Hc & ->).
  all: split; [done|]; split; [done|]; split; [|done].
  all: revert Hc; by apply one_change_iff; [rewrite !changes_cons|].
Qed.

Lemma Reconcile_refines p σ :
  spec_ok p → store_ok p σ → swp σ (Reconcile (key_of p)) (reconcile_ok p σ).
Proof.
  intros Hp Hσ. destruct (current_ok p σ Hp Hσ) as (Hp' & Hσ' & Hst & Hset).
  assert (key_of p = key_of (s_presto σ)) as ->.
  { destruct (ok_presto p σ Hσ) as [(_ & Hn & Hns & _) _]. unfold key_of. congruence. }
  eapply swp_mono; [|by apply Reconcile_current].
  intros σ' t o (Hop & Hk & Hc & ->). split; [by apply Hst|]. split; [done|]. split; [|done].
  by apply (one_change_iff (s_presto σ) p σ σ t).
Qed.

(** [prestoCopy.Status.Uuid = u] *)
Definition set_Uuid (st : PrestoStatus) (u : string) : PrestoStatus :=
  mkPrestoStatus u (DesiredWorkers st) (CurrentWorkers st) (HeadlessService st) (st_Service st)
    (CoordinatorAddress st) (CatalogConfig st) (CoordinatorConfig st) (WorkerConfig st)
    (WorkerReplicaset st) (CoordinatorReplicaset st) (HpaName st) (st_ClusterState st)
    (ErrorReason st) (ModificationTime st) (CoordinatorCPU st) (WorkerCPU st).

(** The requests that write to the API server: the changes of the cluster and
    the updates of the status. *)
Definition api_write (r : req) : bool :=
  match r with UpdatePrestoStatus _ => true | _ => child_write r end.

(** A trace whose only write stores the UUID [u] and the time [now] in the status
    of [p]. *)
Definition only_assigns (p : Presto) (u : string) (now : Z) (t : trace) : Prop :=
  filter (λ r, api_write r = true) (requests t)
  = [UpdatePrestoStatus (set_Status p (set_ModificationTime (set_Uuid (Status p) u) now))].

Lemma only_assigns_read p u now r x t :
  api_write r = false → only_assigns p u now t → only_assigns p u now (ev r x :: t).
Proof.
  intros Hr Ht. unfold only_assigns, requests. simpl. rewrite filter_cons_False; [done|].
  simpl. by rewrite Hr.
Qed.

(** What the first reconciliation of [p] does: one write, after which the stored
    resource is [p] with the UUID and the time, to the second. *)
Definition assigns (σ σ' : store) (t : trace) : Prop :=
  let p := s_presto σ in
  kids σ' = kids σ ∧ same_resource p (s_presto σ')
  ∧ ∃ u now, uuid_ok u ∧ only_assigns p u now t
      ∧ Status (s_presto σ') = set_ModificationTime (set_Uuid (Status p) u) (whole_seconds now).

Lemma assigns_read σ σ' r x t :
  api_write r = false → assigns σ σ' t → assigns σ σ' (ev r x :: t).
Proof.
  intros Hr (Hk & Hs & u & now & Hu & Ht & Hst). split; [done|]. split; [done|].
  exists u, now. split; [done|]. split; [by apply only_assigns_read|done].
Qed.

Lemma body_assigns σ :
  p_Uuid (s_presto σ) = EmptyString →
  swp σ (prog_bind (λ '(res, _), Ret res) (reconcileBody (mkShared (s_presto σ) ∅)))
    (λ σ' t o, assigns σ σ' t ∧ o = Returned (emptyResult, None)).
Proof.
  intros Hu. unfold reconcileBody, updateStatus, getPresto. swp_simpl. rewrite Hu. swp_simpl.
  intros u σ2 [-> Huok]. swp_simpl. intros y σ3 [-> Hy].
  destruct (Hy eq_refl eq_refl) as (items & -> & Hf). swp_simpl. rewrite Hf.
  simpl. swp_simpl. intros now σ4 ->. swp_simpl. intros z σ5 Hz.
  destruct (Hz eq_refl) as (p' & -> & -> & Hsame & Hst). swp_simpl.
  split; [|done]. split; [done|]. split; [done|]. by exists u, now.
Qed.

(** Assigning the UUID: the first reconciliation of a resource. *)
Lemma Reconcile_assigns σ :
  p_Uuid (s_presto σ) = EmptyString →
  swp σ (Reconcile (key_of (s_presto σ)))
    (λ σ' t o, assigns σ σ' t ∧ o = Returned (emptyResult, None)).
Proof.
  intros Hu. unfold Reconcile. swp_simpl. intros x σ1 [-> Hx]. rewrite (Hx eq_refl). swp_simpl.
  intros reg σ2 ->. destruct reg; swp_simpl; [|intros [] σ3 ->; swp_simpl].
  all: eapply swp_mono; [|by apply body_assigns]; intros σ4 t o [Ha ->].
  all: split; [|done]; by repeat apply assigns_read.
Qed.
End reconcile.
