(* ===== verification/Invariant.v ===== *)
(** The abstract machine keeps its invariant and makes progress: the effect of a
    stage settles it and leaves the stages before it settled. *)

From S2P Require Import Prelude ApiTypes K8sTypes Names Config Catalog Pods Effects.
From S2P Require Import Status Services ConfigMaps ReplicaSets Hpa Reconcile Traces.
From S2P Require Import Store ServiceStages Machine Refinement.

Local Open Scope string_scope.

(** ** Labels *)

Section labels.
Context (p : Presto).

Lemma labels1_discovery : single_label (getPodDiscoveryServiceLabel (p_Uuid p)) ⊆ labels1 p.
Proof. apply single_label_subseteq, lookup_insert_eq. Qed.

Lemma labels2_discovery : single_label (getPodDiscoveryServiceLabel (p_Uuid p)) ⊆ labels2 p.
Proof.
  apply single_label_subseteq. unfold labels2, set_label. simpl.
  rewrite lookup_insert_ne by done. apply lookup_insert_eq.
Qed.

Lemma labels2_external : single_label (getExternalServiceLabel (p_Uuid p)) ⊆ labels2 p.
Proof. apply single_label_subseteq, lookup_insert_eq. Qed.

Lemma labels1_not_external : ¬ single_label (getExternalServiceLabel (p_Uuid p)) ⊆ labels1 p.
Proof.
  unfold single_label. rewrite map_singleton_subseteq_l. unfold labels1, set_label, clusterLabels.
  simpl. rewrite !lookup_insert_ne by done. by rewrite lookup_empty.
Qed.

Context `{GoMapRange}.

Lemma coordinator_labels_coordinator :
  single_label (getCoordinatorPodLabel (p_Uuid p))
  ⊆ getCoordinatorPodLabels (labels2 p) (p_Uuid p).
Proof. apply single_label_subseteq. rewrite getCoordinatorPodLabels_eq. apply lookup_insert_eq. Qed.

Lemma worker_labels_worker :
  single_label (getWorkerPodLabel (p_Uuid p)) ⊆ getWorkerPodLabels (labels2 p) (p_Uuid p).
Proof. apply single_label_subseteq. rewrite getWorkerPodLabels_eq. apply lookup_insert_eq. Qed.

Lemma coordinator_labels_not_worker :
  ¬ single_label (getWorkerPodLabel (p_Uuid p))
    ⊆ getCoordinatorPodLabels (labels2 p) (p_Uuid p).
Proof.
  unfold single_label. rewrite map_singleton_subseteq_l, getCoordinatorPodLabels_eq.
  unfold labels2, labels1, set_label, clusterLabels. simpl.
  rewrite !lookup_insert_ne by done. by rewrite lookup_empty.
Qed.

Lemma worker_labels_not_coordinator :
  ¬ single_label (getCoordinatorPodLabel (p_Uuid p))
    ⊆ getWorkerPodLabels (labels2 p) (p_Uuid p).
Proof.
  unfold single_label. rewrite map_singleton_subseteq_l, getWorkerPodLabels_eq.
  unfold labels2, labels1, set_label, clusterLabels. simpl.
  rewrite !lookup_insert_ne by done. by rewrite lookup_empty.
Qed.
End labels.

#[export] Hint Resolve labels1_discovery labels2_discovery labels2_external
  coordinator_labels_coordinator worker_labels_worker : go.

(** ** Lists *)

Lemma named_ours_app {A} (om : A → ObjectMeta) p getName sel l a :
  named_ours om p getName sel l →
  (getName (p_Uuid p) = Some (om_Name (om a)) → selects sel (om_Labels (om a))) →
  named_ours om p getName sel (l ++ [a])%list.
Proof.
  intros Hl Ha b n [Hb|Hb]%elem_of_app Hns Hn Hname; [by apply (Hl b n)|].
  apply list_elem_of_singleton in Hb as ->. apply Ha. congruence.
Qed.

Lemma listed_snoc {A} (om : A → ObjectMeta) ns sel l a :
  listed om ns sel (l ++ [a])%list
  = (listed om ns sel l ++ (if decide (om_Namespace (om a) = ns ∧ selects sel (om_Labels (om a)))
                            then [a] else []))%list.
Proof. by rewrite listed_app. Qed.

Lemma listed_snoc_nonempty {A} (om : A → ObjectMeta) ns sel l a :
  om_Namespace (om a) = ns → selects sel (om_Labels (om a)) → listed om ns sel (l ++ [a])%list ≠ [].
Proof.
  intros Hns Hs. rewrite listed_snoc, decide_True by done. by destruct (listed om ns sel l).
Qed.

Lemma elem_of_replace {A} (om : A → ObjectMeta) key new l a :
  a ∈ replace om key new l → a = new ∨ a ∈ l ∧ ¬ same_key (om a) key.
Proof.
  unfold replace. intros (b & -> & Hb)%list_elem_of_fmap. case_decide; [by left|by right].
Qed.

(** ** Objects made by the stages *)

Section effects.
Context `{GoMapRange, Apimachinery}.

Lemma buildConfigMap_stored p c n lbls cm cm' :
  buildConfigMap p c n lbls = Some (inr cm) → stored_configmap cm cm' → n ≠ EmptyString →
  om_Namespace (cm_ObjectMeta cm') = p_Namespace p ∧ om_Labels (cm_ObjectMeta cm') = lbls
  ∧ om_Name (cm_ObjectMeta cm') = n.
Proof.
  intros Hb [(Hns & Hl & _ & Hname) _] Hn. rewrite (buildConfigMap_meta _ _ _ _ _ Hb) in *.
  simpl in *. split_and!; [done|done|]. symmetry. by apply Hname.
Qed.

Lemma buildCatalogConfigMap_stored p n lbls cm cm' :
  buildCatalogConfigMap p n lbls = inr cm → stored_configmap cm cm' → n ≠ EmptyString →
  om_Namespace (cm_ObjectMeta cm') = p_Namespace p ∧ om_Labels (cm_ObjectMeta cm') = lbls
  ∧ om_Name (cm_ObjectMeta cm') = n.
Proof.
  intros Hb [(Hns & Hl & _ & Hname) _] Hn. rewrite (buildCatalogConfigMap_meta _ _ _ _ Hb) in *.
  simpl in *. split_and!; [done|done|]. symmetry. by apply Hname.
Qed.

Lemma newReplicaSet_stored p g lbls n spec rs :
  stored_replicaset (newReplicaSet p g lbls n spec) rs →
  om_Namespace (rs_ObjectMeta rs) = p_Namespace p ∧ om_Labels (rs_ObjectMeta rs) = lbls
  ∧ rs_Replicas rs = Some n.
Proof. by intros ((<- & <- & _) & <- & _). Qed.

Lemma createHPASpec_stored p rs lbls v h h' :
  createHPASpec p rs lbls v = Some (inr h) → stored_hpa h h' →
  getHPAName (p_Uuid p) = Some (om_Name (hpa_ObjectMeta h'))
  ∧ om_Namespace (hpa_ObjectMeta h') = p_Namespace p ∧ om_Labels (hpa_ObjectMeta h') = lbls
  ∧ is_Some (hpa_MinReplicas h') ∧ is_Some (hpa_TargetCPUUtilizationPercentage h')
  ∧ autoscaleSpecChanged h' p = Some false.
Proof.
  intros (Hn & Hns & Hl & Hmi & Hta & _ & Emi & Ema & Eta)%createHPASpec_fields
    ((Sns & Sl & _ & Sn) & _ & Smi & Sma & Sta).
  assert (om_Name (hpa_ObjectMeta h) = om_Name (hpa_ObjectMeta h')) as Hname.
  { apply Sn. intros He. rewrite He in Hn. apply short_name_length in Hn. simpl in Hn. lia. }
  rewrite <-Hname, <-Sns, <-Sl, <-Smi, <-Sta. split_and!; try done.
  unfold autoscaleSpecChanged. rewrite <-Smi, <-Sma, <-Sta, <-Emi, <-Ema, <-Eta.
  destruct Hmi as [mi ->], Hta as [ta ->]. unfold or_else, deref_ne, deref. simpl.
  by rewrite !Z.eqb_refl.
Qed.

Lemma short_name_nonempty pre u n : short_name pre u = Some n → n ≠ EmptyString.
Proof. intros Hn ->. apply short_name_length in Hn. simpl in Hn. lia. Qed.

(** ** Settling *)

(** Appending objects keeps stages settled. *)
Definition grows (σ σ' : store) : Prop :=
  (∃ l, s_services σ' = s_services σ ++ l)%list ∧ (∃ l, s_configmaps σ' = s_configmaps σ ++ l)%list ∧
  (∃ l, s_replicasets σ' = s_replicasets σ ++ l)%list.

Lemma grows_settled p i σ σ' : grows σ σ' → (i < 7)%nat → settled p i σ → settled p i σ'.
Proof.
  intros ([l1 E1] & [l2 E2] & [l3 E3]) Hi.
  assert (∀ {A} (om : A → ObjectMeta) ns sel l l', listed om ns sel l ≠ [] →
            listed om ns sel (l ++ l')%list ≠ []) as Happ.
  { intros A om ns sel l l'. rewrite listed_app. by destruct (listed om ns sel l). }
  destruct i as [|[|[|[|[|[|[|i]]]]]]]; [..|lia]; simpl;
    unfold services_of, config_settled, workers_settled, config_maps_of, replicasets_of;
    rewrite ?E1, ?E2, ?E3; try apply Happ.
  1,2,3: intros (n & cm & Hn & Hin & Hname); exists n, cm; split; [done|];
    rewrite listed_app; split; [apply elem_of_app; by left|done].
  intros (rs & l & Hl & Hc). rewrite listed_app, Hl. by eexists _, _.
Qed.

(** The store after an effect. *)
Ltac open_kids H :=
  unfold kids in H; injection H as ?Es ?Ec ?Er ?Eh.

Lemma service_settles p kv s σ σ' :
  adds_service s σ σ' → om_Namespace (svc_ObjectMeta s) = p_Namespace p →
  single_label kv ⊆ om_Labels (svc_ObjectMeta s) →
  services_of p kv σ' ≠ [] ∧ grows σ σ'.
Proof.
  intros (s' & ((Hns' & Hl' & _) & _) & Hk) Hns Hl. open_kids Hk. split.
  - unfold services_of. rewrite Es. apply listed_snoc_nonempty; [congruence|].
    unfold selects. by rewrite <-Hl'.
  - split_and!; [by eexists|exists []; by rewrite app_nil_r|exists []; by rewrite app_nil_r].
Qed.

Lemma config_settles p getName n cm σ σ' :
  adds_configmap cm σ σ' → getName (p_Uuid p) = Some n → n ≠ EmptyString →
  cm_ObjectMeta cm = newObjectMeta n EmptyString (p_Namespace p) (labels2 p) [getOwnerReference p] →
  config_settled p getName σ' ∧ grows σ σ'.
Proof.
  intros (cm' & [(Hns & Hl & _ & Hname) _] & Hk) Hn Hne Hm. rewrite Hm in *. simpl in *.
  open_kids Hk. split.
  - exists n, cm'. split; [done|]. split; [|symmetry; by apply Hname]. unfold config_maps_of.
    rewrite Ec. apply elem_of_listed. split_and!; [done|by rewrite <-Hl|].
    apply elem_of_app. right. left.
  - split_and!; [exists []; by rewrite app_nil_r|by eexists|exists []; by rewrite app_nil_r].
Qed.

Lemma replicaset_grows rs σ σ' : adds_replicaset rs σ σ' → grows σ σ'.
Proof.
  intros (rs' & _ & _ & Hk). open_kids Hk.
  split_and!; [exists []; by rewrite app_nil_r|exists []; by rewrite app_nil_r|by eexists].
Qed.

Lemma coordinator_settles p rs σ σ' :
  createReplicaSetForCoordinator p (getCoordinatorPodLabels (labels2 p) (p_Uuid p))
    = Some (inr rs) →
  adds_replicaset rs σ σ' → replicasets_of p (getCoordinatorPodLabel (p_Uuid p)) σ' ≠ [].
Proof.
  intros (g & spec & _ & _ & ->)%createReplicaSetForCoordinator_shape
    (rs' & (Hns & Hl & _)%newReplicaSet_stored & _ & Hk).
  open_kids Hk. unfold replicasets_of. rewrite Er. apply listed_snoc_nonempty; [done|].
  unfold selects. rewrite Hl. auto with go.
Qed.

Lemma worker_settles p rs count σ σ' :
  ws_Count (Worker (Spec p)) = Some count →
  createReplicaSetForWorker p (getWorkerPodLabels (labels2 p) (p_Uuid p)) count
    = Some (inr rs) →
  replicasets_of p (getWorkerPodLabel (p_Uuid p)) σ = [] →
  adds_replicaset rs σ σ' → workers_settled p σ'.
Proof.
  intros Hc (g & spec & _ & _ & ->)%createReplicaSetForWorker_shape Hnil
    (rs' & (Hns & Hl & Hr)%newReplicaSet_stored & _ & Hk).
  open_kids Hk. exists rs', []. split; [|by rewrite Hc].
  unfold replicasets_of in *. rewrite Er, listed_snoc, Hnil, decide_True; [done|].
  split; [done|]. unfold selects. rewrite Hl. auto with go.
Qed.

(** Replacing a worker ReplicaSet by its scaled version keeps the listings. *)
Lemma scaled_listed p σ σ' rs rs' kv :
  store_ok p σ → rs ∈ s_replicasets σ →
  stored_replicaset (set_Replicas rs (ws_Count (Worker (Spec p)))) rs' →
  kids σ' = (s_services σ, s_configmaps σ,
             replace rs_ObjectMeta (rs_ObjectMeta rs) rs' (s_replicasets σ), s_hpas σ) →
  replicasets_of p kv σ'
  = replace rs_ObjectMeta (rs_ObjectMeta rs) rs' (replicasets_of p kv σ).
Proof.
  intros Hσ Hrs ((Hns & Hl & _) & _) Hk. open_kids Hk. unfold replicasets_of. rewrite Er.
  apply listed_replace. intros a Ha Hkey.
  rewrite (ok_rs_keys p σ Hσ a rs Ha Hrs Hkey). simpl in *. by split.
Qed.

Lemma scale_settles p σ σ' :
  store_ok p σ → scales_workers p σ σ' →
  workers_settled p σ' ∧
  (replicasets_of p (getCoordinatorPodLabel (p_Uuid p)) σ ≠ [] →
   replicasets_of p (getCoordinatorPodLabel (p_Uuid p)) σ' ≠ []).
Proof.
  intros Hσ (rs & l & rs' & Hl & Hm & Hrs' & Hkey & Hk).
  assert (rs ∈ s_replicasets σ) as Hin.
  { assert (rs ∈ replicasets_of p (getWorkerPodLabel (p_Uuid p)) σ) as Hin by (rewrite Hl; left).
    by apply elem_of_listed in Hin as (_ & _ & ?). }
  pose proof (λ kv, scaled_listed p σ σ' rs rs' kv Hσ Hin Hrs' Hk) as Hlist. split.
  - unfold workers_settled. rewrite Hlist, Hl. unfold replace. simpl.
    rewrite decide_True by done. eexists _, _. split; [done|]. intros _.
    by destruct Hrs' as (_ & <- & _).
  - rewrite Hlist. unfold replace. by destruct (replicasets_of p (getCoordinatorPodLabel _) σ).
Qed.

(** After a change of the autoscaler its stage is settled. *)
Lemma hpa_settles p σ σ' :
  store_ok p σ → ¬ hpa_settled p σ → changes_hpa p σ σ' → hpa_settled p σ'.
Proof.
  intros Hσ Hnot (hs & Hk & He). open_kids Hk. unfold hpa_settled in *.
  destruct (hpas_of p σ) as [|old l] eqn:Hl.
  - apply not_false_is_true in Hnot. destruct He as (rs & v & h & h' & Hh & Hh' & _ & ->).
    destruct (createHPASpec_stored _ _ _ _ _ _ Hh Hh') as (_ & Hns & Hlb & _ & _ & Hch).
    unfold hpas_of in *. rewrite Eh, listed_snoc, Hl, decide_True; [by split|].
    split; [done|]. unfold selects. by rewrite Hlb.
  - assert (old ∈ hpas_of p σ) as Hold by (rewrite Hl; left).
    destruct (checkAutoscalingEnabled p) eqn:Hen.
    + destruct He as (rs & v & h & h' & Hh & Hh' & _ & ->).
      destruct (createHPASpec_stored _ _ _ _ _ _ Hh Hh') as (_ & Hns & Hlb & _ & _ & Hch).
      destruct (createHPASpec_fields _ _ _ _ _ Hh) as (Hn & Hns0 & _).
      assert (∀ b, b ∈ hpas_of p σ' → b = h') as Honly.
      { intros b (Hbns & Hbl & Hb)%elem_of_listed. rewrite Eh in Hb.
        apply elem_of_replace in Hb as [?|[Hb Hkey]]; [done|]. exfalso. apply Hkey.
        apply (hpa_listed_key p σ); [done| |done|done]. by apply elem_of_listed. }
      assert (h' ∈ hpas_of p σ') as Hin.
      { apply elem_of_listed. split_and!; [done|unfold selects; by rewrite Hlb|]. rewrite Eh.
        unfold replace. apply list_elem_of_fmap. exists old.
        destruct (hpa_listed_key p σ old (hpa_ObjectMeta h) Hσ Hold Hn Hns0) as [Ho Hkey].
        by rewrite decide_True. }
      destruct (hpas_of p σ') as [|b l']; [by apply elem_of_nil in Hin|].
      split; [done|]. by rewrite (Honly b ltac:(left)).
    + assert (∀ b, b ∉ hpas_of p σ') as Hnone.
      { intros b (Hbns & Hbl & Hb)%elem_of_listed. rewrite Eh, He in Hb.
        apply list_elem_of_filter in Hb as [Hkey Hb]. apply Hkey.
        apply (hpa_listed_key p σ); [done|by apply elem_of_listed| |].
        - by apply (ok_hpas p σ Hσ).
        - by apply elem_of_listed in Hold as (? & _). }
      destruct (hpas_of p σ') as [|b l']; [done|]. exfalso. apply (Hnone b). left.
Qed.

(** The effect of a stage settles it, and keeps the stages before it. *)
Lemma effect_settles p i σ σ' :
  store_ok p σ → (∀ j, (j < i)%nat → settled p j σ) → ¬ settled p i σ → effect p i σ σ' →
  ∀ j, (j <= i)%nat → settled p j σ'.
Proof.
  intros Hσ Hset Hnot He j Hj.
  assert (∀ P : Prop, (P ∧ grows σ σ') → (i < 7)%nat → (P → settled p i σ') → settled p j σ') as Hgrow.
  { intros P [HP Hg] Hi HPi. destruct (decide (j = i)) as [->|]; [by apply HPi|].
    apply (grows_settled p j σ); [done|lia|apply Hset; lia]. }
  destruct i as [|[|[|[|[|[|[|[|i]]]]]]]]; simpl in He; [..|done].
  - destruct He as (n & _ & He). eapply Hgrow; [|lia|exact id].
    eapply service_settles; [exact He|done|simpl; auto with go].
  - destruct He as (n & _ & He). eapply Hgrow; [|lia|exact id].
    eapply service_settles; [exact He|done|simpl; auto with go].
  - destruct He as (n & cm & Hn & Hb & He). eapply Hgrow; [|lia|exact id].
    eapply config_settles; [exact He|exact Hn|by eapply short_name_nonempty|].
    by eapply buildConfigMap_meta.
  - destruct He as (n & cm & Hn & Hb & He). eapply Hgrow; [|lia|exact id].
    eapply config_settles; [exact He|exact Hn|by eapply short_name_nonempty|].
    by eapply buildConfigMap_meta.
  - destruct He as (n & cm & Hn & Hb & He). eapply Hgrow; [|lia|exact id].
    eapply config_settles; [exact He|exact Hn|by eapply short_name_nonempty|].
    by eapply buildCatalogConfigMap_meta.
  - destruct He as (rs & Hrs & He). eapply Hgrow; [|lia|exact id].
    split; [by eapply coordinator_settles|by eapply replicaset_grows].
  - destruct He as [(rs & count & Hc & Hrs & Hnil & He)|He].
    + eapply Hgrow; [|lia|exact id]. split; [by eapply worker_settles|by eapply replicaset_grows].
    + destruct (scale_settles p σ σ' Hσ He) as [Hw Hco].
      destruct He as (rs & l & rs' & _ & _ & _ & _ & Hk).
      assert (s_services σ' = s_services σ ∧ s_configmaps σ' = s_configmaps σ) as [E1 E2]
        by (open_kids Hk; done).
      destruct (decide (j = 6)) as [->|]; [exact Hw|].
      destruct (decide (j = 5)) as [->|]; [apply Hco, (Hset 5); lia|].
      pose proof (Hset j ltac:(lia)) as Hj'.
      destruct j as [|[|[|[|[|j]]]]]; [..|lia]; simpl in *;
        unfold services_of, config_settled, config_maps_of in *; by rewrite ?E1, ?E2.
  - pose proof (hpa_settles p σ σ' Hσ Hnot He) as Hh.
    destruct (decide (j = 7)) as [->|]; [exact Hh|].
    destruct He as (hs & Hk & _). open_kids Hk.
    apply (grows_settled p j σ); [|lia|apply Hset; lia].
    split_and!; exists []; by rewrite app_nil_r.
Qed.

(** ** The invariant is kept *)

(** The resource after a step is the resource. *)
Lemma presto_ok_kept p σ σ' :
  presto_kept σ σ' → store_ok p σ → same_resource p (s_presto σ') ∧ p_Uuid (s_presto σ') = p_Uuid p.
Proof.
  intros [Hs Hu] Hσ. destruct (ok_presto p σ Hσ) as [Hs' Hu'].
  split; [by etransitivity|by rewrite Hu].
Qed.

(** An added service is named and labelled by its stage, and has ports when it
    is the external one. *)
Lemma add_service_ok p σ σ' s :
  presto_kept σ σ' → store_ok p σ → adds_service s σ σ' →
  om_Name (svc_ObjectMeta s) ≠ EmptyString →
  (getPodDiscoveryServiceName (p_Uuid p) = Some (om_Name (svc_ObjectMeta s)) →
   single_label (getPodDiscoveryServiceLabel (p_Uuid p)) ⊆ om_Labels (svc_ObjectMeta s)) →
  (getExternalServiceName (p_Uuid p) = Some (om_Name (svc_ObjectMeta s)) →
   single_label (getExternalServiceLabel (p_Uuid p)) ⊆ om_Labels (svc_ObjectMeta s)) →
  (single_label (getExternalServiceLabel (p_Uuid p)) ⊆ om_Labels (svc_ObjectMeta s) →
   kss_Ports (svc_Spec s) ≠ []) →
  store_ok p σ'.
Proof.
  intros Hkept Hσ (s' & ((Hns & Hl & _ & Hname) & _ & Hports) & Hk) Hne Hh He Hp.
  specialize (Hname Hne). open_kids Hk. destruct Hσ as [Hpr H1 H2 H3 H4 H5 H6 H7 H8 H9 H10].
  split; try (unfold config_maps_of, replicasets_of, hpas_of in *; rewrite ?Ec, ?Er, ?Eh; done).
  - by apply (presto_ok_kept p σ σ').
  - rewrite Es. apply named_ours_app; [done|]. rewrite <-Hname, <-Hl. exact Hh.
  - rewrite Es. apply named_ours_app; [done|]. rewrite <-Hname, <-Hl. exact He.
  - intros a. unfold services_of in *. rewrite Es, listed_snoc.
    intros [Ha|Ha]%elem_of_app; [by apply H3|]. case_decide as Hd; [|by apply elem_of_nil in Ha].
    apply list_elem_of_singleton in Ha as ->. destruct Hd as [_ Hd]. unfold selects in Hd.
    rewrite <-Hl in Hd. specialize (Hp Hd). intros Hnil. rewrite Hnil in Hports. simpl in Hports.
    apply Hp. by destruct (kss_Ports (svc_Spec s)).
Qed.

Lemma add_configmap_ok p σ σ' cm :
  presto_kept σ σ' → store_ok p σ → adds_configmap cm σ σ' →
  om_Labels (cm_ObjectMeta cm) = labels2 p → store_ok p σ'.
Proof.
  intros Hkept Hσ (cm' & ((Hns & Hl & _ & Hname) & _) & Hk) Hlb.
  open_kids Hk. destruct Hσ as [Hpr H1 H2 H3 H4 H5 H6 H7 H8 H9 H10].
  split; try (unfold services_of, replicasets_of, hpas_of in *; rewrite ?Es, ?Er, ?Eh; done).
  1: by apply (presto_ok_kept p σ σ').
  all: rewrite Ec; apply named_ours_app; [done|]; intros _; rewrite <-Hl, Hlb; done.
Qed.

Lemma add_replicaset_ok p σ σ' rs :
  presto_kept σ σ' → store_ok p σ → adds_replicaset rs σ σ' → is_Some (rs_Replicas rs) →
  store_ok p σ'.
Proof.
  intros Hkept Hσ (rs' & (_ & Hrep & _) & Hfree & Hk) Hsome.
  open_kids Hk. destruct Hσ as [Hpr H1 H2 H3 H4 H5 H6 H7 H8 H9 H10].
  unfold free in Hfree. rewrite Forall_forall in Hfree.
  split; try (unfold services_of, config_maps_of, hpas_of in *; rewrite ?Es, ?Ec, ?Eh; done).
  - by apply (presto_ok_kept p σ σ').
  - rewrite Er. intros a b [Ha|Ha]%elem_of_app [Hb|Hb]%elem_of_app Hkey.
    + by apply H7.
    + apply list_elem_of_singleton in Hb as ->. by destruct (Hfree a Ha).
    + apply list_elem_of_singleton in Ha as ->. destruct (Hfree b Hb). by destruct Hkey.
    + apply list_elem_of_singleton in Ha as ->. by apply list_elem_of_singleton in Hb as ->.
  - intros a. unfold replicasets_of in *. rewrite Er, listed_snoc.
    intros [Ha|Ha]%elem_of_app; [by apply H8|]. case_decide; [|by apply elem_of_nil in Ha].
    apply list_elem_of_singleton in Ha as ->. by rewrite <-Hrep.
Qed.

Lemma scale_ok p σ σ' :
  spec_ok p → presto_kept σ σ' → store_ok p σ → scales_workers p σ σ' → store_ok p σ'.
Proof.
  intros Hp Hkept Hσ (rs & l & rs' & Hl & Hm & Hrs' & Hkey & Hk).
  open_kids Hk. destruct Hσ as [Hpr H1 H2 H3 H4 H5 H6 H7 H8 H9 H10].
  split; try (unfold services_of, config_maps_of, hpas_of in *; rewrite ?Es, ?Ec, ?Eh; done).
  - by apply (presto_ok_kept p σ σ').
  - rewrite Er.
    intros a b [->|[Ha Hna]]%elem_of_replace [->|[Hb Hnb]]%elem_of_replace Hab; [done| | |by apply H7].
    + destruct Hnb, Hab, Hkey. split; congruence.
    + destruct Hna, Hab, Hkey. split; congruence.
  - intros a. unfold replicasets_of in *. rewrite Er. intros (Hns & Hs & Ha)%elem_of_listed.
    apply elem_of_replace in Ha as [->|[Ha _]].
    + destruct Hrs' as (_ & <- & _). by apply (ok_count p Hp).
    + apply H8. by apply elem_of_listed.
Qed.

Lemma hpa_ok p σ σ' : presto_kept σ σ' → store_ok p σ → changes_hpa p σ σ' → store_ok p σ'.
Proof.
  intros Hkept Hσ (hs & Hk & He). open_kids Hk.
  assert (∀ h', h' ∈ hs → h' ∈ s_hpas σ ∨ ∃ rs v h, createHPASpec p rs (labels2 p) v = Some (inr h)
            ∧ stored_hpa h h') as Hhs.
  { intros h' Hin. destruct (hpas_of p σ) as [|old l];
      [|destruct (checkAutoscalingEnabled p)].
    - destruct He as (rs & v & h & h1 & Hh & Hh' & _ & ->).
      apply elem_of_app in Hin as [Hin|Hin]; [by left|]. apply list_elem_of_singleton in Hin as ->.
      right. by exists rs, v, h.
    - destruct He as (rs & v & h & h1 & Hh & Hh' & _ & ->).
      apply elem_of_replace in Hin as [->|[Hin _]]; [right; by exists rs, v, h|by left].
    - rewrite He in Hin. apply list_elem_of_filter in Hin as [_ Hin]. by left. }
  destruct Hσ as [Hpr H1 H2 H3 H4 H5 H6 H7 H8 H9 H10].
  split; try (unfold services_of, config_maps_of, replicasets_of in *; rewrite ?Es, ?Ec, ?Er; done).
  - by apply (presto_ok_kept p σ σ').
  - rewrite Eh. intros a n [Ha|(rs & v & h & Hh & Hh')]%Hhs Hns Hn Hname; [by apply (H9 a n)|].
    destruct (createHPASpec_stored _ _ _ _ _ _ Hh Hh') as (_ & _ & -> & _). done.
  - intros a (Hns & Hs & Ha)%elem_of_listed. rewrite Eh in Ha.
    apply Hhs in Ha as [Ha|(rs & v & h & Hh & Hh')]; [apply H10; by apply elem_of_listed|].
    destruct (createHPASpec_stored _ _ _ _ _ _ Hh Hh') as (? & _ & _ & ? & ? & _). done.
Qed.

Lemma effect_store_ok p i σ σ' :
  spec_ok p → presto_kept σ σ' → store_ok p σ → effect p i σ σ' → store_ok p σ'.
Proof.
  intros Hp Hkept Hσ He. destruct i as [|[|[|[|[|[|[|[|i]]]]]]]]; simpl in He; [..|done].
  - destruct He as (n & Hn & He). eapply add_service_ok; [done|done|exact He|..]; simpl.
    + by eapply short_name_nonempty.
    + auto with go.
    + intros Hn'. by destruct (short_name_inj _ _ _ _ _ Hn Hn').
    + by intros ?%labels1_not_external.
  - destruct He as (n & Hn & He). eapply add_service_ok; [done|done|exact He|..]; simpl.
    + by eapply short_name_nonempty.
    + auto with go.
    + auto with go.
    + intros _ Hnil. by apply (externalService_ports p n (labels2 p) id); simpl; rewrite Hnil.
  - destruct He as (n & cm & Hn & Hb & He). eapply add_configmap_ok; [done|done|exact He|].
    by rewrite (buildConfigMap_meta _ _ _ _ _ Hb).
  - destruct He as (n & cm & Hn & Hb & He). eapply add_configmap_ok; [done|done|exact He|].
    by rewrite (buildConfigMap_meta _ _ _ _ _ Hb).
  - destruct He as (n & cm & Hn & Hb & He). eapply add_configmap_ok; [done|done|exact He|].
    by rewrite (buildCatalogConfigMap_meta _ _ _ _ Hb).
  - destruct He as (rs & Hrs & He). eapply add_replicaset_ok; [done|done|exact He|].
    apply createReplicaSetForCoordinator_shape in Hrs as (g & spec & _ & _ & ->). by eexists.
  - destruct He as [(rs & count & Hc & Hrs & _ & He)|He]; [|by eapply scale_ok].
    eapply add_replicaset_ok; [done|done|exact He|].
    apply createReplicaSetForWorker_shape in Hrs as (g & spec & _ & _ & ->). by eexists.
  - by eapply hpa_ok.
Qed.

(** ** Steps of the machine *)

Lemma op_step_store_ok p σ σ' :
  spec_ok p → presto_kept σ σ' → store_ok p σ → op_step p σ σ' → store_ok p σ'.
Proof.
  intros Hp Hkept Hσ Hstep. revert Hkept Hσ.
  destruct Hstep as [i σ σ' Hset Hnot He|σ σ' Hset Hk]; intros Hkept Hσ.
  - by eapply effect_store_ok.
  - by apply (store_ok_keeps p σ σ').
Qed.

(** One step settles one more stage. *)
Lemma op_step_progress p k σ σ' :
  store_ok p σ → (∀ j, (j < k)%nat → settled p j σ) → op_step p σ σ' →
  ∀ j, (j < S k)%nat → (j < 8)%nat → settled p j σ'.
Proof.
  intros Hσ Hk Hstep. revert Hσ Hk.
  destruct Hstep as [i σ σ' Hset Hnot He|σ σ' Hset Hkids]; intros Hσ Hk j Hj Hj8.
  - assert (k <= i)%nat as Hki.
    { destruct (decide (k <= i)%nat) as [|Hlt]; [done|]. destruct Hnot. apply Hk. lia. }
    apply (effect_settles p i σ σ'); [done..|lia].
  - apply (settled_kids p j σ); [done|]. by apply Hset.
Qed.

(** A settled store is left alone. *)
Lemma op_step_idle p σ σ' :
  (∀ j, (j < 8)%nat → settled p j σ) → op_step p σ σ' → kids σ' = kids σ.
Proof.
  intros Hall Hstep. revert Hall.
  destruct Hstep as [i σ σ' Hset Hnot He|σ σ' Hset Hkids]; intros Hall; [|done].
  destruct Hnot. destruct (decide (i < 8)%nat); [by apply Hall|].
  by do 8 (destruct i as [|i]; [lia|]).
Qed.
End effects.
