(* ===== verification/Convergence.v ===== *)
(** Repeated reconciliation against an API server that keeps the interface of
    Store.v: each call is a step of the abstract machine, eight calls settle the
    cluster, and a settled cluster is left alone. *)

From S2P Require Import Prelude ApiTypes K8sTypes Names Config Catalog Pods Effects.
From S2P Require Import Status Services ConfigMaps ReplicaSets Hpa Reconcile.
From S2P Require Import Examples Traces Store ServiceStages Machine Refinement.
From S2P Require Import Invariant.

Local Open Scope string_scope.

Section convergence.
Context `{GoMapRange, Apimachinery, !ApimachineryLaws}.
Context {W : Type} (h : env W) (view : W → store) `{!ApiServer h view}.

(** The environment after a number of reconciliations of the resource. *)
Fixpoint reconcile_n (key : NamespacedName) (n : nat) (w : W) : W :=
  match n with
  | O => w
  | S n' => (run h (Reconcile key) (reconcile_n key n' w)).2
  end.

Lemma reconcile_step p w :
  spec_ok p → store_ok p (view w) →
  reconcile_ok p (view w) (view (run h (Reconcile (key_of p)) w).2)
    (run h (Reconcile (key_of p)) w).1.2 (run h (Reconcile (key_of p)) w).1.1.
Proof. intros. apply (swp_run h view). by apply Reconcile_refines. Qed.

Lemma reconcile_n_ok p n w :
  spec_ok p → store_ok p (view w) → store_ok p (view (reconcile_n (key_of p) n w)).
Proof.
  intros Hp Hw. induction n as [|n IH]; [done|]. simpl.
  destruct (reconcile_step p _ Hp IH) as (Hstep & Hkept & _). by eapply op_step_store_ok.
Qed.

Lemma reconcile_n_settled p n w :
  spec_ok p → store_ok p (view w) →
  ∀ j, (j < n)%nat → (j < 8)%nat → settled p j (view (reconcile_n (key_of p) n w)).
Proof.
  intros Hp Hw. induction n as [|n IH]; intros j Hj Hj8; [lia|]. simpl.
  pose proof (reconcile_n_ok p n w Hp Hw) as Hn.
  destruct (reconcile_step p _ Hp Hn) as (Hstep & _).
  apply (op_step_progress p (n `min` 8) (view (reconcile_n (key_of p) n w))); [done| |done|lia|done].
  intros i Hi. apply IH; lia.
Qed.

(** Once settled, the objects of the cluster stay as they are. *)
Lemma reconcile_n_stable p n w :
  spec_ok p → store_ok p (view w) → (∀ j, (j < 8)%nat → settled p j (view w)) →
  kids (view (reconcile_n (key_of p) n w)) = kids (view w).
Proof.
  intros Hp Hw Hset. induction n as [|n IH]; [done|]. simpl.
  destruct (reconcile_step p _ Hp (reconcile_n_ok p n w Hp Hw)) as (Hstep & _).
  rewrite <-IH. eapply op_step_idle; [|done]. intros j Hj.
  apply (settled_kids p j (view w)); [done|by apply Hset].
Qed.

Lemma reconcile_n_add key n m w :
  reconcile_n key (n + m) w = reconcile_n key n (reconcile_n key m w).
Proof. induction n as [|n IH]; [done|]. simpl. by rewrite IH. Qed.

(** C3: refinement. Against an API server that keeps the interface, with a spec
    that can be turned into objects and a store that satisfies the invariant,
    a call of Reconcile returns without an error and without asking to be
    queued again, its effect on the store is one step of the abstract machine
    (the first stage that is not settled gets its object, or nothing changes),
    and the store satisfies the invariant again. *)
Theorem reconcile_refines_machine p w :
  spec_ok p → store_ok p (view w) →
  (run h (Reconcile (key_of p)) w).1.1 = Returned (emptyResult, None) ∧
  op_step p (view w) (view (run h (Reconcile (key_of p)) w).2) ∧
  store_ok p (view (run h (Reconcile (key_of p)) w).2).
Proof.
  intros Hp Hw. destruct (reconcile_step p w Hp Hw) as (Hstep & Hkept & _ & Ho).
  split_and!; [done|done|]. by eapply op_step_store_ok.
Qed.

(** C1: convergence. From any store that satisfies the invariant, eight
    reconciliations settle every stage; from then on a reconciliation asks for
    no change and the objects stay as they are. *)
Theorem reconcile_converges p n w :
  spec_ok p → store_ok p (view w) → (8 <= n)%nat →
  (∀ i, (i < 8)%nat → settled p i (view (reconcile_n (key_of p) n w))) ∧
  changes (run h (Reconcile (key_of p)) (reconcile_n (key_of p) n w)).1.2 = [] ∧
  kids (view (reconcile_n (key_of p) n w)) = kids (view (reconcile_n (key_of p) 8 w)).
Proof.
  intros Hp Hw Hn. pose proof (reconcile_n_ok p n w Hp Hw) as Hok.
  assert (∀ i, (i < 8)%nat → settled p i (view (reconcile_n (key_of p) n w))) as Hset
    by (intros i Hi; apply reconcile_n_settled; [done|done|lia|done]).
  split; [done|]. split.
  - pose proof (reconcile_step p _ Hp Hok) as (Hstep & _ & Hc & _).
    destruct Hc as [(_ & i & Hi & Hnot)|[Hc _]]; [|done]. by destruct Hnot; apply Hset.
  - replace n with ((n - 8) + 8)%nat by lia. rewrite reconcile_n_add.
    apply reconcile_n_stable; [done|by apply reconcile_n_ok|].
    intros i Hi. apply reconcile_n_settled; [done|done|lia|done].
Qed.
End convergence.
