(* ===== verification/Construction.v ===== *)
(** The cluster that reconciliation builds from nothing, object by object. *)

From S2P Require Import Prelude ApiTypes K8sTypes Names Config Catalog Pods Effects.
From S2P Require Import Status Services ConfigMaps ReplicaSets Hpa Reconcile Traces.
From S2P Require Import Store ServiceStages Machine Refinement Invariant Convergence.

Local Open Scope string_scope.

(** ** The objects of a cluster *)

Section objects.
Context `{GoMapRange, Apimachinery}.

(** The objects the operator creates for a resource: two services, three
    config maps and two ReplicaSets. *)
Record cluster_objects (p : Presto) (svcs : list Service) (cms : list ConfigMap)
    (rss : list ReplicaSet) : Prop := {
  co_services : ∃ n1 n2,
    getPodDiscoveryServiceName (p_Uuid p) = Some n1 ∧ getExternalServiceName (p_Uuid p) = Some n2
    ∧ svcs = [headlessService p n1 (labels1 p); externalService p n2 (labels2 p)];
  co_configmaps : ∃ n1 n2 n3 c1 c2 c3,
    getCoordinatorConfigMapName (p_Uuid p) = Some n1 ∧ getWorkerConfigMapName (p_Uuid p) = Some n2
    ∧ getCatalogConfigMapName (p_Uuid p) = Some n3
    ∧ buildConfigMap p true n1 (labels2 p) = Some (inr c1)
    ∧ buildConfigMap p false n2 (labels2 p) = Some (inr c2)
    ∧ buildCatalogConfigMap p n3 (labels2 p) = inr c3
    ∧ cms = [c1; c2; c3];
  co_replicasets : ∃ count r1 r2,
    ws_Count (Worker (Spec p)) = Some count
    ∧ createReplicaSetForCoordinator p (getCoordinatorPodLabels (labels2 p) (p_Uuid p))
      = Some (inr r1)
    ∧ createReplicaSetForWorker p (getWorkerPodLabels (labels2 p) (p_Uuid p)) count
      = Some (inr r2)
    ∧ rss = [r1; r2]
}.

Lemma cluster_objects_exist p : spec_ok p → ∃ svcs cms rss, cluster_objects p svcs cms rss.
Proof.
  intros Hp.
  assert (∀ pre, is_Some (short_name pre (p_Uuid p))) as Hn
    by (intros; apply short_name_is_Some, Hp).
  destruct (Hn "pod-discovery-") as [n1 H1], (Hn "external-presto-svc-") as [n2 H2].
  destruct (Hn "coordinatorconfig-") as [m1 M1], (Hn "workerconfig-") as [m2 M2],
    (Hn "catalogconfig-") as [m3 M3].
  destruct (ok_config p Hp true m1 (labels2 p)) as [c1 C1],
    (ok_config p Hp false m2 (labels2 p)) as [c2 C2].
  destruct (buildCatalogConfigMap p m3 (labels2 p)) as [|c3] eqn:C3; [done|].
  destruct (ok_count p Hp) as [count Hc].
  destruct (createReplicaSetForCoordinator_ok p
    (getCoordinatorPodLabels (labels2 p) (p_Uuid p)) Hp) as (r1 & R1 & _).
  destruct (createReplicaSetForWorker_ok p
    (getWorkerPodLabels (labels2 p) (p_Uuid p)) count Hp) as (r2 & R2 & _).
  eexists _, _, _. split.
  - by exists n1, n2.
  - by exists m1, m2, m3, c1, c2, c3.
  - by exists count, r1, r2.
Qed.

(** The store after the first [k] stages. *)
Definition built (svcs : list Service) (cms : list ConfigMap) (rss : list ReplicaSet)
    (k : nat) (σ : store) : Prop :=
  Forall2 stored_service (take k svcs) (s_services σ)
  ∧ Forall2 stored_configmap (take (k - 2) cms) (s_configmaps σ)
  ∧ Forall2 stored_replicaset (take (k - 5) rss) (s_replicasets σ)
  ∧ ((k <= 7)%nat → s_hpas σ = []).

Context (p : Presto) (svcs : list Service) (cms : list ConfigMap) (rss : list ReplicaSet).
Context (Hobj : cluster_objects p svcs cms rss).

Lemma listed_stored {A} (om : A → ObjectMeta) ns sel l :
  Forall (λ a, ¬ selects sel (om_Labels (om a))) l → listed om ns sel l = [].
Proof.
  induction 1 as [|a l Ha _ IH]; [done|]. unfold listed in *. rewrite filter_cons_False; [done|].
  by intros [_ ?].
Qed.

Lemma config_absent getName σ :
  (∀ n, getName (p_Uuid p) = Some n →
     Forall (λ cm, om_Name (cm_ObjectMeta cm) ≠ n) (s_configmaps σ)) →
  ¬ config_settled p getName σ.
Proof.
  intros Hall (n & cm & Hn & (_ & _ & Hin)%elem_of_listed & Hname).
  pose proof (proj1 (Forall_forall _ _) (Hall n Hn) cm Hin). done.
Qed.

Lemma stored_config_name p' n lbls cm cm' :
  cm_ObjectMeta cm = newObjectMeta n EmptyString (p_Namespace p') lbls [getOwnerReference p'] →
  n ≠ EmptyString → stored_configmap cm cm' → om_Name (cm_ObjectMeta cm') = n.
Proof. intros Hm Hn [(_ & _ & _ & Hname) _]. rewrite Hm in Hname. symmetry. by apply Hname. Qed.

Lemma short_name_ne pre1 pre2 u n1 n2 :
  pre1 ≠ pre2 → short_name pre1 u = Some n1 → short_name pre2 u = Some n2 → n1 ≠ n2.
Proof. intros Hne H1 H2 ->. by destruct (short_name_inj _ _ _ _ _ H1 H2). Qed.

(** With the coordinator's ReplicaSet alone there is none of the workers. *)
Lemma no_workers r1 s1 σ :
  createReplicaSetForCoordinator p (getCoordinatorPodLabels (labels2 p) (p_Uuid p))
    = Some (inr r1) →
  stored_replicaset r1 s1 → s_replicasets σ = [s1] →
  replicasets_of p (getWorkerPodLabel (p_Uuid p)) σ = [].
Proof.
  intros (g & spec & _ & _ & ->)%createReplicaSetForCoordinator_shape
    (_ & Hl & _)%newReplicaSet_stored Er. unfold replicasets_of. rewrite Er.
  apply listed_stored, Forall_singleton. rewrite Hl. apply coordinator_labels_not_worker.
Qed.

(** The next stage is not settled yet. *)
Lemma built_not_settled k σ :
  (k < 7)%nat → built svcs cms rss k σ → ¬ settled p k σ.
Proof.
  destruct Hobj as [(n1 & n2 & _ & _ & ->)
    (m1 & m2 & m3 & c1 & c2 & c3 & M1 & M2 & M3 & C1 & C2 & C3 & ->)
    (count & r1 & r2 & _ & R1 & R2 & ->)].
  intros Hk (Hs & Hc & Hr & _).
  destruct k as [|[|[|[|[|[|[|k]]]]]]]; [..|lia]; simpl in Hs, Hc, Hr |- *.
  - apply Forall2_nil_inv_l in Hs. unfold services_of. rewrite Hs. intros Hne. by apply Hne.
  - apply Forall2_cons_inv_l in Hs as (s1 & l & ((_ & Hl & _) & _) & Hnil & Es).
    apply Forall2_nil_inv_l in Hnil as ->.
    unfold services_of. rewrite Es, listed_stored; [intros Hne; by apply Hne|].
    apply Forall_singleton. rewrite <-Hl. apply labels1_not_external.
  - apply Forall2_nil_inv_l in Hc. apply config_absent. intros n _. by rewrite Hc.
  - apply Forall2_cons_inv_l in Hc as (d1 & l & D1 & Hnil & Ec).
    apply Forall2_nil_inv_l in Hnil as ->. apply config_absent. intros n Hn. rewrite Ec.
    apply Forall_singleton.
    rewrite (stored_config_name p m1 (labels2 p) c1 d1); [|by eapply buildConfigMap_meta
      |by eapply short_name_nonempty|done]. by apply (λ He, short_name_ne _ _ _ _ _ He M1 Hn).
  - apply Forall2_cons_inv_l in Hc as (d1 & l & D1 & Hc & Ec).
    apply Forall2_cons_inv_l in Hc as (d2 & l2 & D2 & Hnil & ->).
    apply Forall2_nil_inv_l in Hnil as ->. apply config_absent. intros n Hn. rewrite Ec.
    apply Forall_cons; split; [|apply Forall_singleton].
    + rewrite (stored_config_name p m1 (labels2 p) c1 d1); [|by eapply buildConfigMap_meta
        |by eapply short_name_nonempty|done]. by apply (λ He, short_name_ne _ _ _ _ _ He M1 Hn).
    + rewrite (stored_config_name p m2 (labels2 p) c2 d2); [|by eapply buildConfigMap_meta
        |by eapply short_name_nonempty|done]. by apply (λ He, short_name_ne _ _ _ _ _ He M2 Hn).
  - apply Forall2_nil_inv_l in Hr. unfold replicasets_of. rewrite Hr. intros Hne. by apply Hne.
  - apply Forall2_cons_inv_l in Hr as (s1 & l & Hs1 & Hnil & Er).
    apply Forall2_nil_inv_l in Hnil as ->.
    intros (rs & l' & Hlist & _). by rewrite (no_workers r1 s1 σ) in Hlist.
Qed.

Lemma Forall2_snoc {A B} (R : A → B → Prop) l k a b :
  Forall2 R l k → R a b → Forall2 R (l ++ [a])%list (k ++ [b])%list.
Proof. intros. apply Forall2_app; [done|by constructor]. Qed.

Lemma adds_service_parts s σ σ' :
  adds_service s σ σ' →
  ∃ s', stored_service s s' ∧ s_services σ' = (s_services σ ++ [s'])%list
    ∧ s_configmaps σ' = s_configmaps σ ∧ s_replicasets σ' = s_replicasets σ
    ∧ s_hpas σ' = s_hpas σ.
Proof.
  intros (s' & Hs' & Hkids). exists s'. unfold kids in Hkids. by injection Hkids as -> -> -> ->.
Qed.

Lemma adds_configmap_parts cm σ σ' :
  adds_configmap cm σ σ' →
  ∃ cm', stored_configmap cm cm' ∧ s_services σ' = s_services σ
    ∧ s_configmaps σ' = (s_configmaps σ ++ [cm'])%list ∧ s_replicasets σ' = s_replicasets σ
    ∧ s_hpas σ' = s_hpas σ.
Proof.
  intros (s' & Hs' & Hkids). exists s'. unfold kids in Hkids. by injection Hkids as -> -> -> ->.
Qed.

Lemma adds_replicaset_parts rs σ σ' :
  adds_replicaset rs σ σ' →
  ∃ rs', stored_replicaset rs rs' ∧ s_services σ' = s_services σ
    ∧ s_configmaps σ' = s_configmaps σ ∧ s_replicasets σ' = (s_replicasets σ ++ [rs'])%list
    ∧ s_hpas σ' = s_hpas σ.
Proof.
  intros (s' & Hs' & _ & Hkids). exists s'. unfold kids in Hkids.
  by injection Hkids as -> -> -> ->.
Qed.

Lemma built_grows k σ σ' :
  (k < 7)%nat → built svcs cms rss k σ → effect p k σ σ' → built svcs cms rss (S k) σ'.
Proof.
  destruct Hobj as [(n1 & n2 & N1 & N2 & ->)
    (m1 & m2 & m3 & c1 & c2 & c3 & M1 & M2 & M3 & C1 & C2 & C3 & ->)
    (count & r1 & r2 & Hcount & R1 & R2 & ->)].
  intros Hk (Hs & Hc & Hr & Hh) He. specialize (Hh ltac:(lia)).
  destruct k as [|[|[|[|[|[|[|k]]]]]]]; [..|lia]; simpl in Hs, Hc, Hr, He; unfold built; simpl.
  - destruct He as (n & Hn & (s' & Hs' & -> & -> & -> & Ehpa)%adds_service_parts).
    rewrite N1 in Hn. injection Hn as <-. split_and!; [|done|done|by rewrite Ehpa].
    apply Forall2_nil_inv_l in Hs as ->. by constructor.
  - destruct He as (n & Hn & (s' & Hs' & -> & -> & -> & Ehpa)%adds_service_parts).
    rewrite N2 in Hn. injection Hn as <-. split_and!; [|done|done|by rewrite Ehpa].
    by apply (Forall2_snoc _ [_]).
  - destruct He as (n & cm & Hn & Hb & (c' & Hc' & -> & -> & -> & Ehpa)%adds_configmap_parts).
    rewrite M1 in Hn. injection Hn as <-. rewrite C1 in Hb. injection Hb as <-.
    split_and!; [done| |done|by rewrite Ehpa]. apply Forall2_nil_inv_l in Hc as ->. by constructor.
  - destruct He as (n & cm & Hn & Hb & (c' & Hc' & -> & -> & -> & Ehpa)%adds_configmap_parts).
    rewrite M2 in Hn. injection Hn as <-. rewrite C2 in Hb. injection Hb as <-.
    split_and!; [done| |done|by rewrite Ehpa]. by apply (Forall2_snoc _ [_]).
  - destruct He as (n & cm & Hn & Hb & (c' & Hc' & -> & -> & -> & Ehpa)%adds_configmap_parts).
    rewrite M3 in Hn. injection Hn as <-. rewrite C3 in Hb. injection Hb as <-.
    split_and!; [done| |done|by rewrite Ehpa]. by apply (Forall2_snoc _ [_; _]).
  - destruct He as (rs & Hrs & (r' & Hr' & -> & -> & -> & Ehpa)%adds_replicaset_parts).
    rewrite R1 in Hrs. injection Hrs as <-. split_and!; [done|done| |by rewrite Ehpa].
    apply Forall2_nil_inv_l in Hr as ->. by constructor.
  - destruct He as [(rs & count' & Hc' & Hrs & _ & (r' & Hr' & -> & -> & -> & Ehpa)%adds_replicaset_parts)|He].
    + rewrite Hcount in Hc'. injection Hc' as <-. rewrite R2 in Hrs. injection Hrs as <-.
      split_and!; [done|done| |by rewrite Ehpa]. by apply (Forall2_snoc _ [_]).
    + destruct He as (rs & l & _ & Hl & _). apply Forall2_cons_inv_l in Hr as (s1 & l' & Hs1 & Hnil & Er).
      apply Forall2_nil_inv_l in Hnil as ->.
      by rewrite (no_workers r1 s1 σ) in Hl.
Qed.

(** One step of the machine builds the next object. *)
Lemma built_step k σ σ' :
  (k < 7)%nat → built svcs cms rss k σ → (∀ j, (j < k)%nat → settled p j σ) →
  op_step p σ σ' → built svcs cms rss (S k) σ'.
Proof.
  intros Hk Hb Hset Hstep. pose proof (built_not_settled k σ Hk Hb) as Hnot.
  revert Hb Hset Hnot.
  destruct Hstep as [i σ σ' Hi Hni He|σ σ' Hall _]; intros Hb Hset Hnot.
  - destruct (decide (i = k)) as [->|Hne]; [by eapply built_grows|].
    destruct (decide (i < k)%nat); [by destruct Hni; apply Hset|].
    destruct Hnot. apply Hi. lia.
  - destruct Hnot. apply Hall. lia.
Qed.

(** The autoscaler of a finished cluster. *)
Definition hpa_built (σ : store) : Prop :=
  if checkAutoscalingEnabled p then
    ∃ rs v a a', last (s_replicasets σ) = Some rs ∧ createHPASpec p rs (labels2 p) v = Some (inr a)
      ∧ stored_hpa a a' ∧ s_hpas σ = [a']
  else s_hpas σ = [].

Lemma built_last σ σ' :
  built svcs cms rss 7 σ → (∀ j, (j < 7)%nat → settled p j σ) →
  op_step p σ σ' → built svcs cms rss 8 σ' ∧ hpa_built σ'.
Proof.
  intros Hb Hset Hstep.
  destruct Hobj as [(n1 & n2 & N1 & N2 & ->)
    (m1 & m2 & m3 & c1 & c2 & c3 & M1 & M2 & M3 & C1 & C2 & C3 & ->)
    (count & r1 & r2 & Hcount & R1 & R2 & ->)].
  destruct Hb as (Hs & Hc & Hr & Hh). specialize (Hh ltac:(lia)).
  assert (hpas_of p σ = []) as Hnil by (unfold hpas_of; by rewrite Hh).
  revert Hs Hc Hr Hh Hset Hnil.
  destruct Hstep as [i σ σ' Hi Hni He|σ σ' Hall Hk]; intros Hs Hc Hr Hh Hset Hnil.
  - destruct (decide (i < 7)%nat); [by destruct Hni; apply Hset|].
    destruct (decide (i = 7)) as [->|]; [|by do 8 (destruct i as [|i]; [lia|])].
    destruct He as (hs & Hk & He). rewrite Hnil in He.
    destruct He as (rs & v & a & a' & Ha & Ha' & (l & Hl) & Ehs).
    unfold kids in Hk. injection Hk as E1 E2 E3 E4.
    unfold built, hpa_built. rewrite E1, E2, E3, E4, Ehs, Hh.
    split; [split_and!; done || lia|].
    simpl in Hni. unfold hpa_settled in Hni. rewrite Hnil in Hni. apply not_false_is_true in Hni.
    rewrite Hni. exists rs, v, a, a'. split_and!; try done.
    apply Forall2_cons_inv_l in Hr as (s1 & l1 & Hs1 & Hr & Er).
    apply Forall2_cons_inv_l in Hr as (s2 & l2 & Hs2 & Hn & ->).
    apply Forall2_nil_inv_l in Hn as ->. rewrite Er. simpl.
    pose proof (no_workers r1 s1 (set_replicasets σ [s1]) R1 Hs1 eq_refl) as Hw.
    unfold replicasets_of in Hl, Hw. simpl in Hw. rewrite Er in Hl.
    change [s1; s2] with ([s1] ++ [s2])%list in Hl. rewrite listed_app, Hw in Hl. simpl in Hl.
    assert (rs ∈ [s2]) as Hin.
    { assert (rs ∈ listed rs_ObjectMeta (p_Namespace p)
                (single_label (getWorkerPodLabel (p_Uuid p))) [s2]) as Hin by (rewrite Hl; left).
      by apply elem_of_listed in Hin as (_ & _ & Hin). }
    by apply list_elem_of_singleton in Hin as ->.
  - unfold kids in Hk. injection Hk as E1 E2 E3 E4.
    unfold built, hpa_built. rewrite E1, E2, E3, E4, Hh. split; [split_and!; done || lia|].
    pose proof (Hall 7 ltac:(lia)) as H7. simpl in H7. unfold hpa_settled in H7.
    rewrite Hnil in H7. by rewrite H7.
Qed.
End objects.

(** ** From an empty store *)

Section construction.
Context `{GoMapRange, Apimachinery, !ApimachineryLaws}.
Context {W : Type} (h : env W) (view : W → store) `{!ApiServer h view}.

Definition no_kids (σ : store) : Prop := kids σ = ([], [], [], []).

Lemma no_kids_ok p σ :
  same_resource p (s_presto σ) → p_Uuid (s_presto σ) = p_Uuid p → no_kids σ → store_ok p σ.
Proof.
  intros Hs Hu Hk. unfold no_kids, kids in Hk. injection Hk as E1 E2 E3 E4.
  split; rewrite ?E1, ?E2, ?E3, ?E4; try done.
  all: unfold named_ours, services_of, replicasets_of, hpas_of; rewrite ?E1, ?E3, ?E4.
  all: try (intros a n Ha; by apply elem_of_nil in Ha).
  all: intros a Ha; by apply elem_of_nil in Ha.
Qed.

Lemma reconcile_n_built p svcs cms rss w k :
  spec_ok p → store_ok p (view w) → no_kids (view w) → cluster_objects p svcs cms rss →
  (k <= 7)%nat → built svcs cms rss k (view (reconcile_n h (key_of p) k w)).
Proof.
  intros Hp Hw Hk Hobj. induction k as [|k IH]; intros Hk7.
  - unfold no_kids, kids in Hk. injection Hk as E1 E2 E3 E4. simpl.
    unfold built. rewrite E1, E2, E3, E4. simpl. split_and!; constructor || done.
  - simpl. pose proof (reconcile_n_ok h view p k w Hp Hw) as Hok.
    destruct (reconcile_step h view p _ Hp Hok) as (Hstep & _).
    eapply built_step; [done|lia|apply IH; lia| |exact Hstep].
    intros j Hj. apply reconcile_n_settled; [done|done|done|done|lia].
Qed.

Lemma cluster_built p svcs cms rss w :
  spec_ok p → store_ok p (view w) → no_kids (view w) → cluster_objects p svcs cms rss →
  let σ := view (reconcile_n h (key_of p) 8 w) in
  Forall2 stored_service svcs (s_services σ) ∧ Forall2 stored_configmap cms (s_configmaps σ)
  ∧ Forall2 stored_replicaset rss (s_replicasets σ) ∧ hpa_built p σ.
Proof.
  intros Hp Hw Hk Hobj. pose proof (reconcile_n_built p _ _ _ w 7 Hp Hw Hk Hobj ltac:(lia)) as Hb.
  pose proof (reconcile_n_ok h view p 7 w Hp Hw) as Hok.
  destruct (reconcile_step h view p _ Hp Hok) as (Hstep & _).
  assert (∀ j, (j < 7)%nat → settled p j (view (reconcile_n h (key_of p) 7 w))) as Hset
    by (intros j Hj; apply reconcile_n_settled; [done|done|done|done|lia]).
  destruct (built_last p _ _ _ Hobj _ _ Hb Hset Hstep) as ((Hs & Hc & Hr & _) & Hh).
  destruct Hobj as [(n1 & n2 & N1 & N2 & ->)
    (m1 & m2 & m3 & c1 & c2 & c3 & M1 & M2 & M3 & C1 & C2 & C3 & ->)
    (count & r1 & r2 & Hcount & R1 & R2 & ->)].
  simpl in *. split_and!; done.
Qed.

(** The resource with a cluster UUID. *)
Definition with_uuid (p : Presto) (u : string) : Presto :=
  set_Status p (mkPrestoStatus u 0 0 EmptyString EmptyString EmptyString EmptyString EmptyString
    EmptyString EmptyString EmptyString EmptyString EmptyString EmptyString 0 EmptyString
    EmptyString).

Lemma assigned_step w :
  p_Uuid (s_presto (view w)) = EmptyString →
  let '(o, t, w') := run h (Reconcile (key_of (s_presto (view w)))) w in
  assigns (view w) (view w') t ∧ o = Returned (emptyResult, None).
Proof.
  intros Hu. pose proof (swp_run h view _ _ w (Reconcile_assigns (view w) Hu)) as Hr.
  by destruct (run h _ w) as [[o t] w'].
Qed.

(** C33: the first reconciliation of a resource makes one write: it sends the
    resource it has read with a UUID, from which all names can be taken, and the
    modification time in the status, and every other field as it was. On a
    server of the interface the stored status is then the old one with these
    two fields, the time to the second, the rest of the resource and the objects are kept, and the
    result is empty, so the resource is not queued again by it. *)
Theorem uuid_assigned w :
  p_Uuid (s_presto (view w)) = EmptyString →
  let p := s_presto (view w) in
  let '(o, t, w') := run h (Reconcile (key_of p)) w in
  ∃ u now, uuid_ok u
    ∧ let st := set_ModificationTime (set_Uuid (Status p) u) now in
      filter (λ r, api_write r = true) (requests t) = [UpdatePrestoStatus (set_Status p st)]
      ∧ Status (s_presto (view w')) = kept_status st ∧ same_resource p (s_presto (view w'))
      ∧ kids (view w') = kids (view w) ∧ o = Returned (mkResult false 0, None).
Proof.
  intros Hu p. pose proof (assigned_step w Hu) as Hr. fold p in Hr.
  destruct (run h (Reconcile (key_of p)) w) as [[o t] w'].
  destruct Hr as [(Hk & Hs & u & now & Hok & Ht & Hst) ->]. by exists u, now.
Qed.

(** C2: construction. From a new resource and no objects, nine reconciliations
    (one for the UUID, eight for the stages) leave exactly the objects of the
    cluster: the headless and the external service, the config maps of the
    coordinator, the workers and the catalogs, the ReplicaSets of the
    coordinator and the workers, and an autoscaler of the worker ReplicaSet
    when autoscaling is enabled, each as the operator builds it from the spec,
    up to the fields the API server assigns. *)
Theorem cluster_constructed w :
  let p := s_presto (view w) in
  p_Uuid p = EmptyString → no_kids (view w) →
  (∀ u, uuid_ok u → spec_ok (with_uuid p u)) →
  ∃ q svcs cms rss, same_resource p q ∧ cluster_objects q svcs cms rss ∧
    let σ := view (reconcile_n h (key_of p) 9 w) in
    Forall2 stored_service svcs (s_services σ) ∧ Forall2 stored_configmap cms (s_configmaps σ)
    ∧ Forall2 stored_replicaset rss (s_replicasets σ) ∧ hpa_built q σ.
Proof.
  intros p Hu Hk Hspec. pose proof (assigned_step w Hu) as Hr. fold p in Hr.
  set (w1 := (run h (Reconcile (key_of p)) w).2). set (q := s_presto (view w1)).
  assert (kids (view w1) = kids (view w) ∧ same_resource p q ∧ uuid_ok (p_Uuid q))
    as (Hk1 & Hs1 & Hok).
  { unfold q, w1. destruct (run h (Reconcile (key_of p)) w) as [[o t] w'].
    destruct Hr as [(Hk' & Hs & u & now & Hok & _ & Hst) _]. split; [done|]. split; [done|].
    simpl. unfold p_Uuid. by rewrite Hst. }
  assert (spec_ok q) as Hq.
  { apply (proj2 (spec_ok_core q)).
    rewrite (core_eq (with_uuid p (p_Uuid q)) q) by done.
    apply (proj1 (spec_ok_core _)), Hspec, Hok. }
  assert (no_kids (view w1)) as Hk1' by (etransitivity; [exact Hk1|exact Hk]).
  assert (store_ok q (view w1)) as Hw1 by by apply no_kids_ok.
  destruct (cluster_objects_exist q Hq) as (svcs & cms & rss & Hobj).
  exists q, svcs, cms, rss. split; [done|]. split; [done|].
  change 9%nat with (8 + 1)%nat. rewrite reconcile_n_add.
  assert (key_of p = key_of q) as Hkey.
  { destruct Hs1 as (_ & Hn & Hns & _). unfold key_of. congruence. }
  change (reconcile_n h (key_of p) 1 w) with w1. rewrite Hkey.
  by apply cluster_built.
Qed.
End construction.
