(* ===== verification/MemoryServer.v ===== *)
(** An API server in memory that keeps the interface of Store.v, and a resource
    whose spec can be turned into objects: the theorems of Convergence.v and
    Construction.v apply to a concrete run. *)

From S2P Require Import Prelude ApiTypes K8sTypes Names Config PropertiesFile.
From S2P Require Import Catalog Pods Effects Status Services ConfigMaps ReplicaSets.
From S2P Require Import Hpa Reconcile Examples ConfigFacts PodFacts Traces Store.
From S2P Require Import Machine Refinement Convergence Construction.

Local Open Scope string_scope.

(** ** Generated names *)

(** A string longer than all strings of a list. *)
Fixpoint xs (n : nat) : string :=
  match n with O => EmptyString | S n' => String (Ascii.ascii_of_nat 120) (xs n') end.

Definition longest (l : list string) : nat := foldr (λ s n, Nat.max (String.length s) n) 0%nat l.

Definition fresh_name (prefix : string) (l : list string) : string := prefix ⊕ xs (S (longest l)).

Lemma length_xs n : String.length (xs n) = n.
Proof. induction n as [|n IH]; simpl; [done|by rewrite IH]. Qed.

Lemma longest_spec l s : s ∈ l → (String.length s <= longest l)%nat.
Proof. induction 1 as [s l|s t l _ IH]; simpl; lia. Qed.

Lemma fresh_name_spec prefix l : fresh_name prefix l ∉ l.
Proof.
  intros Hin%longest_spec. unfold fresh_name in Hin. rewrite length_append, length_xs in Hin. lia.
Qed.

(** The metadata the server stores for a new object. *)
Definition store_meta (om : ObjectMeta) (names : list string) : ObjectMeta :=
  mkObjectMeta
    (if is_empty (om_Name om) then fresh_name (om_GenerateName om) names else om_Name om)
    (om_GenerateName om) (om_Namespace om) "uid" "1" 1%Z (om_Labels om) (om_OwnerReferences om).

Lemma store_meta_stored om names : stored_meta om (store_meta om names).
Proof.
  split_and!; try done. simpl. intros Hn%is_empty_false. by rewrite Hn.
Qed.

Lemma store_meta_free {A} (om : A → ObjectMeta) m l :
  om_Name m = EmptyString ∨ free om m l → free om (store_meta m (map (om_Name ∘ om) l)) l.
Proof.
  intros Hm. unfold store_meta. simpl. destruct (is_empty (om_Name m)) eqn:He.
  - apply Forall_forall. intros a Ha [_ Hname]. simpl in Hname.
    apply (fresh_name_spec (om_GenerateName m) (map (om_Name ∘ om) l)). rewrite <-Hname.
    apply list_elem_of_fmap. by exists a.
  - apply is_empty_false in He. destruct Hm as [?|Hm]; [done|].
    eapply Forall_impl; [exact Hm|]. intros a Ha [Hns Hn]. by apply Ha.
Qed.

(** ** The server *)

Definition set_svc_meta (s : Service) (m : ObjectMeta) : Service := mkService m (svc_Spec s).
Definition set_cm_meta (c : ConfigMap) (m : ObjectMeta) : ConfigMap := mkConfigMap m (cm_Data c).
Definition set_rs_meta (r : ReplicaSet) (m : ObjectMeta) : ReplicaSet :=
  mkReplicaSet (rs_TypeMeta r) m (rs_Replicas r) (rs_MatchLabels r) (rs_Template r)
    (rs_AvailableReplicas r).
Definition set_hpa_meta (a : HorizontalPodAutoscaler) (m : ObjectMeta) : HorizontalPodAutoscaler :=
  mkHPA m (hpa_ScaleTargetRef_APIVersion a) (hpa_ScaleTargetRef_Kind a) (hpa_ScaleTargetRef_Name a)
    (hpa_MinReplicas a) (hpa_MaxReplicas a) (hpa_TargetCPUUtilizationPercentage a).

Definition created {A} (om : A → ObjectMeta) (set : A → ObjectMeta → A) (a : A) (l : list A) : A :=
  set a (store_meta (om a) (map (om_Name ∘ om) l)).

Definition memoryServer : env store := λ σ r,
  match r return resp r * store with
  | GetPresto key => (inr (s_presto σ), σ)
  | ListPrestos _ _ => (inr [s_presto σ], σ)
  | UpdatePrestoStatus q =>
    let p' := set_Status (s_presto σ) (kept_status (Status q)) in (inr p', set_presto σ p')
  | ListServices ns sel => (inr (listed svc_ObjectMeta ns sel (s_services σ)), σ)
  | CreateService s =>
    (None, set_services σ (s_services σ ++ [created svc_ObjectMeta set_svc_meta s (s_services σ)])%list)
  | ListConfigMaps ns sel => (inr (listed cm_ObjectMeta ns sel (s_configmaps σ)), σ)
  | CreateConfigMap c =>
    (None, set_configmaps σ
             (s_configmaps σ ++ [created cm_ObjectMeta set_cm_meta c (s_configmaps σ)])%list)
  | ListReplicaSets ns sel => (inr (listed rs_ObjectMeta ns sel (s_replicasets σ)), σ)
  | CreateReplicaSet rs =>
    let rs' := created rs_ObjectMeta set_rs_meta rs (s_replicasets σ) in
    (inr rs', set_replicasets σ (s_replicasets σ ++ [rs'])%list)
  | UpdateReplicaSet rs =>
    (inr rs, set_replicasets σ (replace rs_ObjectMeta (rs_ObjectMeta rs) rs (s_replicasets σ)))
  | ListHPAs ns sel => (inr (listed hpa_ObjectMeta ns sel (s_hpas σ)), σ)
  | CreateHPA a =>
    (None, set_hpas σ (s_hpas σ ++ [created hpa_ObjectMeta set_hpa_meta a (s_hpas σ)])%list)
  | UpdateHPA a => (None, set_hpas σ (replace hpa_ObjectMeta (hpa_ObjectMeta a) a (s_hpas σ)))
  | DeleteHPA a =>
    (None, set_hpas σ (filter (λ b, ¬ same_key (hpa_ObjectMeta b) (hpa_ObjectMeta a)) (s_hpas σ)))
  | ListPods _ _ => (inr [], σ)
  | ListPodMetrics _ _ _ => (inr [], σ)
  | Now => (0%Z, σ)
  | NewUUID => (exampleUuid, σ)
  | Eventf _ _ _ _ => (tt, σ)
  | RegisteredLoad _ => (None, σ)
  | RegisteredStore _ _ => (tt, σ)
  | RegisteredDelete _ => (tt, σ)
  end.

#[export] Instance memoryServer_ok : ApiServer memoryServer id.
Proof.
  intros σ r. destruct r; simpl; try done.
  - split; [done|]. intros -> ->. eexists. split; [done|]. simpl. by rewrite String.eqb_refl.
  - intros Hk. eexists. split; [done|]. split; [done|]. by split.
  - intros Hf. exists (created svc_ObjectMeta set_svc_meta s (s_services σ)).
    split; [split; [apply store_meta_stored|done]|]. split; [by apply store_meta_free|done].
  - intros Hf. exists (created cm_ObjectMeta set_cm_meta cm (s_configmaps σ)).
    split; [split; [apply store_meta_stored|done]|]. split; [by apply store_meta_free|done].
  - intros Hf. exists (created rs_ObjectMeta set_rs_meta rs (s_replicasets σ)).
    split; [split; [apply store_meta_stored|done]|]. split; [by apply store_meta_free|done].
  - intros _. exists rs. done.
  - intros Hf. exists (created hpa_ObjectMeta set_hpa_meta h (s_hpas σ)).
    split; [split; [apply store_meta_stored|done]|]. split; [by apply store_meta_free|done].
  - intros _. by eexists.
  - split; [done|]. apply Nat.leb_le. reflexivity.
Qed.

(** ** Valid specs *)

Section valid.
Context `{GoMapRange, Apimachinery}.

Definition quantity (s : string) : Prop := (ParseQuantity s).2 = None.

(** What a user has to write for the operator to be able to build the objects. *)
Record valid_spec (p : Presto) : Prop := {
  v_type : ss_Type (Service_ (Spec p)) ≠ ServiceTypeExternalName;
  v_https : ¬ https_incomplete p;
  v_coordinator_props host sys : getSystemProps p host = inr sys →
    sys ##ₘ cs_AdditionalProps (Coordinator (Spec p));
  v_worker_props host : workerSystemProps p host ##ₘ ws_AdditionalProps (Worker (Spec p));
  v_quantities : Forall quantity [cs_MemoryLimit (Coordinator (Spec p));
    ws_MemoryLimit (Worker (Spec p)); cpuLimitOf p true; cpuLimitOf p false;
    cpuRequestOf p true; cpuRequestOf p false];
  v_count : is_Some (ws_Count (Worker (Spec p)));
  v_autoscaling : checkAutoscalingEnabled p = true →
    is_Some (as_MinReplicas (ws_Autoscaling (Worker (Spec p))))
    ∧ is_Some (as_MaxReplicas (ws_Autoscaling (Worker (Spec p))))
    ∧ is_Some (as_TargetCPUUtilizationPercentage (ws_Autoscaling (Worker (Spec p))))
}.

Lemma quantity_Some s : quantity s → ∃ q, ParseQuantity s = (q, None).
Proof. unfold quantity. destruct (ParseQuantity s) as [q e]. simpl. intros ->. by eexists. Qed.

Lemma valid_config p host isCoordinator :
  valid_spec p → getCoordinatorInternalName (p_Uuid p) = Some host →
  ∃ f, (if isCoordinator : bool then coordinatorConfigPropsMap p else workerConfigPropsMap p)
       = Some (inr f).
Proof.
  intros Hv Hh. unfold coordinatorConfigPropsMap, workerConfigPropsMap. rewrite Hh. simpl.
  destruct isCoordinator.
  - destruct (getSystemProps p host) as [e|sys] eqn:Hs.
    { destruct (v_https p Hv). apply (getSystemProps_error p host). by eexists. }
    pose proof (write_config_ok 2 3 sys (cs_AdditionalProps (Coordinator (Spec p)))) as Hw.
    destruct (write_additional _ _ _) as [e|f]; [|by eexists].
    destruct Hw as [_ Hw]. by destruct Hw; eapply v_coordinator_props.
  - pose proof (write_config_ok 4 5 (workerSystemProps p host) (ws_AdditionalProps (Worker (Spec p)))) as Hw.
    destruct (write_additional _ _ _) as [e|f]; [|by eexists].
    destruct Hw as [_ Hw]. by destruct Hw; apply v_worker_props.
Qed.

Lemma valid_pod p isCoordinator :
  valid_spec p → uuid_ok (p_Uuid p) → ∃ ps, rolePod p isCoordinator = Some (inr ps).
Proof.
  intros Hv Hu. pose proof (v_quantities p Hv) as Hq. rewrite !Forall_cons in Hq.
  destruct Hq as (_ & Hm & Hc1 & Hc2 & Hr1 & Hr2 & _).
  apply quantity_Some in Hm as [m Hm], Hc1 as [c1 Hc1], Hc2 as [c2 Hc2], Hr1 as [r1 Hr1],
    Hr2 as [r2 Hr2].
  unfold rolePod, getPrestoCoordinatorPodSpec, getPrestoWorkerPod, parseField.
  unfold cpuLimitOf, cpuRequestOf in *.
  destruct isCoordinator.
  - rewrite Hc1, Hm. destruct (is_empty _); rewrite ?Hc1, ?Hr1;
      rewrite createPrestoPodSpec_eq by done; by eexists.
  - rewrite Hc2, Hm. destruct (is_empty (ws_CpuRequest _)); rewrite ?Hc2, ?Hr2;
      rewrite createPrestoPodSpec_eq by done; by eexists.
Qed.

Lemma valid_spec_ok p : valid_spec p → uuid_ok (p_Uuid p) → spec_ok p.
Proof.
  intros Hv Hu.
  assert (∃ host, getCoordinatorInternalName (p_Uuid p) = Some host) as [host Hh].
  { unfold getCoordinatorInternalName, getCoordinatorContainerName, getPodDiscoveryServiceName.
    rewrite !(short_name_ok _ _ Hu). by eexists. }
  pose proof (v_quantities p Hv) as Hq. rewrite !Forall_cons in Hq.
  destruct Hq as (Hcm & Hwm & _). apply quantity_Some in Hcm as [cm Hcm], Hwm as [wm Hwm].
  split; [done|by apply v_type| |by apply (valid_pod p true)|by apply (valid_pod p false)|
    by apply v_count|by apply v_autoscaling].
  intros c n lbls. destruct (valid_config p host c Hv Hh) as [f Hf].
  unfold buildConfigMap. rewrite Hf. simpl.
  destruct c; unfold coordinatorJVMConfigMap, workerJVMConfigMap; rewrite ?Hcm, ?Hwm; by eexists.
Qed.
End valid.

(** ** Concrete runs *)

#[local] Existing Instance sorted_range.
#[local] Existing Instance exampleApi.
#[local] Existing Instance exampleApi_laws.

(** Two stores without objects: with the resource before and after it has its
    UUID. *)
Definition startStore : store := mkStore (freshPresto autoscalingOn) [] [] [] [].
Definition namedStore : store := mkStore (examplePresto autoscalingOn) [] [] [] [].

Lemma example_valid p :
  Spec p = exampleSpec autoscalingOn → valid_spec p.
Proof.
  intros Hs. split; unfold cpuRequestOf, cpuLimitOf, https_incomplete, checkAutoscalingEnabled;
    rewrite ?Hs.
  - discriminate.
  - by intros [? _].
  - intros. apply map_disjoint_empty_r.
  - intros host. apply map_disjoint_singleton_r. unfold workerSystemProps.
    by destruct (getHTTPPort p).
  - repeat (apply Forall_cons; split; [reflexivity|]). by apply Forall_nil.
  - by eexists.
  - intros _. split_and!; by eexists.
Qed.

Lemma namedStore_spec_ok : spec_ok (s_presto namedStore).
Proof. apply valid_spec_ok; [by apply example_valid|apply Nat.leb_le; reflexivity]. Qed.

Lemma namedStore_ok : store_ok (s_presto namedStore) namedStore.
Proof. by apply no_kids_ok. Qed.

Lemma reconcile_refines_machine_witness :
  (run memoryServer (Reconcile (key_of (s_presto namedStore))) namedStore).1.1
  = Returned (emptyResult, None).
Proof.
  exact (proj1 (reconcile_refines_machine memoryServer id (s_presto namedStore) namedStore
                  namedStore_spec_ok namedStore_ok)).
Defined.

Lemma reconcile_converges_witness :
  changes (run memoryServer (Reconcile (key_of (s_presto namedStore)))
    (reconcile_n memoryServer (key_of (s_presto namedStore)) 8 namedStore)).1.2 = [].
Proof.
  exact (proj1 (proj2 (reconcile_converges memoryServer id (s_presto namedStore) 8 namedStore
                         namedStore_spec_ok namedStore_ok (le_n 8)))).
Defined.

Lemma uuid_assigned_witness : ∃ r u now,
  r = run memoryServer (Reconcile (key_of (s_presto startStore))) startStore
  ∧ r.1.1 = Returned (mkResult false 0, None)
  ∧ Status (s_presto r.2)
    = kept_status (set_ModificationTime (set_Uuid (Status (s_presto startStore)) u) now).
Proof.
  pose proof (uuid_assigned memoryServer id startStore eq_refl) as Hr.
  change (id startStore) with startStore in Hr. cbv zeta in Hr.
  destruct (run memoryServer (Reconcile (key_of (s_presto startStore))) startStore) as [[o t] w'].
  destruct Hr as (u & now & _ & _ & Hst & _ & _ & Ho).
  exists (o, t, w'), u, now. split; [reflexivity|]. split; [exact Ho|exact Hst].
Defined.

Lemma startStore_valid u : uuid_ok u → spec_ok (with_uuid (s_presto startStore) u).
Proof. intros Hu. apply valid_spec_ok; [by apply example_valid|exact Hu]. Qed.

Lemma cluster_constructed_witness : ∃ q svcs cms rss,
  cluster_objects q svcs cms rss
  ∧ Forall2 stored_replicaset rss
      (s_replicasets
         (id (reconcile_n memoryServer (key_of (s_presto (id startStore))) 9 startStore))).
Proof.
  destruct (cluster_constructed memoryServer id startStore eq_refl eq_refl startStore_valid)
    as (q & svcs & cms & rss & _ & Hobj & _ & _ & Hr & _).
  exists q, svcs, cms, rss. split; [exact Hobj|exact Hr].
Defined.
