(* ===== verification/SelectorFacts.v ===== *)
(** Labels and selectors: which pods the services and ReplicaSets of a cluster
    select, and what the operator takes a service for. *)

From S2P Require Import Prelude ApiTypes K8sTypes Names Config Catalog Pods Effects.
From S2P Require Import Status Services ConfigMaps ReplicaSets Hpa Reconcile.
From S2P Require Import Examples Traces Store ServiceStages Machine Refinement.
From S2P Require Import Invariant Convergence Construction MemoryServer.

Local Open Scope string_scope.

(** The labels of the pods of a ReplicaSet, and the pods a service selects. *)
Definition podLabels (rs : ReplicaSet) : gmap string string := om_Labels (pt_ObjectMeta (rs_Template rs)).
Definition svcSelector (s : Service) : gmap string string := kss_Selector (svc_Spec s).

(** ** Lemmas *)

Section selectors.
Context `{GoMapRange, Apimachinery}.

(** The selectors and pod labels of the objects of a cluster. *)
Lemma cluster_selectors p svcs cms rss :
  cluster_objects p svcs cms rss →
  map svcSelector svcs = [labels1 p; single_label (getCoordinatorPodLabel (p_Uuid p))]
  ∧ map podLabels rss = [getCoordinatorPodLabels (labels2 p) (p_Uuid p);
                         getWorkerPodLabels (labels2 p) (p_Uuid p)]
  ∧ map rs_MatchLabels rss = map podLabels rss.
Proof.
  intros [(n1 & n2 & _ & _ & ->) _ (count & r1 & r2 & _ & R1 & R2 & ->)].
  apply createReplicaSetForCoordinator_shape in R1 as (g1 & s1 & _ & _ & ->).
  apply createReplicaSetForWorker_shape in R2 as (g2 & s2 & _ & _ & ->). done.
Qed.

Lemma labels1_lookup p k v :
  labels1 p !! k = Some v ↔
  (k = "pod-discovery" ∧ v = p_Uuid p) ∨ (k = "clusterUUID" ∧ v = p_Uuid p)
  ∨ (k = "clusterName" ∧ v = p_Name p).
Proof.
  unfold labels1, set_label, clusterLabels. simpl.
  rewrite !lookup_insert_Some, lookup_empty. naive_solver.
Qed.

Lemma labels1_labels2 p : labels1 p ⊆ labels2 p.
Proof.
  apply map_subseteq_spec. intros k v Hk. unfold labels2, set_label. simpl.
  rewrite lookup_insert_ne; [done|]. intros <-. apply labels1_lookup in Hk. naive_solver.
Qed.

Lemma labels2_role p k : k = "coordinator" ∨ k = "worker" → labels2 p !! k = None.
Proof.
  unfold labels2, labels1, set_label, clusterLabels. simpl.
  intros [-> | ->]; by rewrite !lookup_insert_ne.
Qed.

Lemma labels2_coordinator p : labels2 p ⊆ getCoordinatorPodLabels (labels2 p) (p_Uuid p).
Proof.
  rewrite getCoordinatorPodLabels_eq. apply insert_subseteq.
  apply (labels2_role p "coordinator"). by left.
Qed.

Lemma labels2_worker p : labels2 p ⊆ getWorkerPodLabels (labels2 p) (p_Uuid p).
Proof.
  rewrite getWorkerPodLabels_eq. apply insert_subseteq.
  apply (labels2_role p "worker"). by right.
Qed.

(** The labels of a cluster do not match those of a cluster of another UUID. *)
Lemma uuid_label p : labels2 p !! "clusterUUID" = Some (p_Uuid p).
Proof. unfold labels2, labels1, set_label, clusterLabels. simpl. by simplify_map_eq. Qed.

Lemma not_selects sel lbls k v w :
  sel !! k = Some v → lbls !! k = Some w → v ≠ w → ¬ selects sel lbls.
Proof.
  intros Hs Hl Hne Hsub. unfold selects in Hsub. rewrite map_subseteq_spec in Hsub.
  apply Hsub in Hs. congruence.
Qed.

(** C8: the selectors of a cluster. The headless service selects the pods of
    the coordinator and of the workers, so that all of them have a host name;
    the external service selects the pods of the coordinator and not those of
    the workers; each of the two ReplicaSets selects its own pods and not the
    other's. *)
Theorem services_select_pods p headless external cms coordinator worker :
  cluster_objects p [headless; external] cms [coordinator; worker] →
  selects (svcSelector headless) (podLabels coordinator)
  ∧ selects (svcSelector headless) (podLabels worker)
  ∧ selects (svcSelector external) (podLabels coordinator)
  ∧ ¬ selects (svcSelector external) (podLabels worker)
  ∧ selects (rs_MatchLabels coordinator) (podLabels coordinator)
  ∧ selects (rs_MatchLabels worker) (podLabels worker)
  ∧ ¬ selects (rs_MatchLabels coordinator) (podLabels worker)
  ∧ ¬ selects (rs_MatchLabels worker) (podLabels coordinator).
Proof.
  intros (Hs & Hp & Hm)%cluster_selectors. simpl in *.
  injection Hs as -> ->. injection Hp as Hc Hw. injection Hm as -> ->. rewrite Hc, Hw.
  unfold selects. split_and!.
  - etransitivity; [apply labels1_labels2|apply labels2_coordinator].
  - etransitivity; [apply labels1_labels2|apply labels2_worker].
  - apply coordinator_labels_coordinator.
  - apply worker_labels_not_coordinator.
  - done.
  - done.
  - intros Hsub. apply (worker_labels_not_coordinator p). etransitivity; [|exact Hsub].
    apply coordinator_labels_coordinator.
  - intros Hsub. apply (coordinator_labels_not_worker p). etransitivity; [|exact Hsub].
    apply worker_labels_worker.
Qed.

(** C9: clusters with different UUIDs are isolated, even in one namespace and
    with one name: no service and no ReplicaSet of the one selects a pod of
    the other. *)
Theorem clusters_isolated p q svcs cms rss svcs' cms' rss' :
  cluster_objects p svcs cms rss → cluster_objects q svcs' cms' rss' → p_Uuid p ≠ p_Uuid q →
  ∀ rs, rs ∈ rss' →
    Forall (λ s, ¬ selects (svcSelector s) (podLabels rs)) svcs
    ∧ Forall (λ r, ¬ selects (rs_MatchLabels r) (podLabels rs)) rss.
Proof.
  intros (Hs & Hp & Hm)%cluster_selectors (_ & Hq & _)%cluster_selectors Hne rs Hrs.
  assert (podLabels rs ∈ map podLabels rss') as Hl by (apply list_elem_of_fmap; by exists rs).
  rewrite Hq in Hl.
  assert (podLabels rs !! "clusterUUID" = Some (p_Uuid q)
          ∧ ∀ v, podLabels rs !! "coordinator" = Some v → v = p_Uuid q) as [Huuid Hco].
  { pose proof (uuid_label q) as Hu.
    pose proof (labels2_role q "coordinator" ltac:(by left)) as Hn.
    rewrite !elem_of_cons, getCoordinatorPodLabels_eq, getWorkerPodLabels_eq in Hl.
    destruct Hl as [->|[->|Hl]]; [| |by apply elem_of_nil in Hl].
    all: rewrite ?lookup_insert_ne by done; split; [done|]; intros v Hv.
    - rewrite lookup_insert_eq in Hv. congruence.
    - simpl in Hn. congruence. }
  assert (∀ lbls, lbls !! "clusterUUID" = Some (p_Uuid p) → ¬ selects lbls (podLabels rs)) as Hno
    by (intros lbls Hlb; by eapply not_selects).
  split.
  - apply (proj1 (List.Forall_map svcSelector (λ l, ¬ selects l (podLabels rs)) svcs)). rewrite Hs.
    repeat (apply Forall_cons; split); [| |by apply Forall_nil].
    + apply Hno. apply labels1_lookup. auto.
    + unfold selects, single_label. rewrite map_singleton_subseteq_l. simpl.
      intros Hv%Hco. by apply Hne.
  - apply (proj1 (List.Forall_map rs_MatchLabels (λ l, ¬ selects l (podLabels rs)) rss)).
    rewrite Hm, Hp.
    repeat (apply Forall_cons; split); [apply Hno|apply Hno|by apply Forall_nil].
    + rewrite getCoordinatorPodLabels_eq, lookup_insert_ne by done. apply uuid_label.
    + rewrite getWorkerPodLabels_eq, lookup_insert_ne by done. apply uuid_label.
Qed.
End selectors.

(** ** A deleted headless service *)

Section recreation.
Context `{GoMapRange, Apimachinery, !ApimachineryLaws}.
Context {W : Type} (h : env W) (view : W → store) `{!ApiServer h view}.

(** The store has the external service of the cluster. *)
Definition has_external (p : Presto) (σ : store) : Prop :=
  ∃ n s, stored_service (externalService p n (labels2 p)) s ∧ s ∈ s_services σ.

Lemma has_external_settled p σ : has_external p σ → settled p 0 σ ∧ settled p 1 σ.
Proof.
  intros (n & s & ((Hns & Hl & _) & _) & Hin). simpl in *.
  assert (∀ kv, single_label kv ⊆ labels2 p → services_of p kv σ ≠ []) as Hlist.
  { intros kv Hkv Hnil. assert (s ∈ services_of p kv σ) as Hs.
    - apply elem_of_listed. split_and!; [done| |done]. unfold selects. by rewrite <-Hl.
    - rewrite Hnil in Hs. by apply elem_of_nil in Hs. }
  split; apply Hlist; auto with go.
Qed.

Lemma op_step_services p σ σ' :
  settled p 0 σ → settled p 1 σ → op_step p σ σ' → s_services σ' = s_services σ.
Proof.
  intros S0 S1 Hstep. revert S0 S1.
  destruct Hstep as [i σ σ' Hset Hnot He|σ σ' Hset Hk]; intros S0 S1.
  2:{ unfold kids in Hk. by injection Hk. }
  destruct i as [|[|[|[|[|[|[|[|i]]]]]]]]; simpl in He; try done.
  - by destruct He as (n & cm & _ & _ & c' & _ & [= ->]).
  - by destruct He as (n & cm & _ & _ & c' & _ & [= ->]).
  - by destruct He as (n & cm & _ & _ & c' & _ & [= ->]).
  - by destruct He as (rs & _ & r' & _ & _ & [= ->]).
  - destruct He as [(rs & c & _ & _ & _ & r' & _ & _ & [= ->])|He]; [done|].
    by destruct He as (rs & l & r' & _ & _ & _ & _ & [= ->]).
  - by destruct He as (hs & [= ->] & _).
Qed.

(** C37: while the external service is there, the operator never creates a
    service: the external service carries the label by which the headless
    service is looked up, because both functions add their label to the one
    label map, so a headless service that was deleted is taken to be there and
    is not created again by any number of reconciliations. *)
Theorem headless_not_recreated p w n :
  spec_ok p → store_ok p (view w) → has_external p (view w) →
  s_services (view (reconcile_n h (key_of p) n w)) = s_services (view w).
Proof.
  intros Hp Hw He. induction n as [|n IH]; [done|]. simpl.
  destruct (reconcile_step h view p _ Hp (reconcile_n_ok h view p n w Hp Hw)) as (Hstep & _).
  rewrite <-IH. destruct (has_external_settled p (view (reconcile_n h (key_of p) n w))) as [S0 S1].
  - destruct He as (m & s & Hs & Hin). exists m, s. by rewrite IH.
  - by eapply op_step_services.
Qed.
End recreation.

(** ** Witnesses *)

#[local] Existing Instance sorted_range.
#[local] Existing Instance exampleApi.
#[local] Existing Instance exampleApi_laws.

Lemma services_select_pods_witness : ∃ headless external cms coordinator worker,
  cluster_objects (s_presto namedStore) [headless; external] cms [coordinator; worker]
  ∧ ¬ selects (svcSelector external) (podLabels worker).
Proof.
  destruct (cluster_objects_exist _ namedStore_spec_ok) as (svcs & cms & rss & Hobj).
  pose proof (co_services _ _ _ _ Hobj) as (n1 & n2 & _ & _ & Es).
  pose proof (co_replicasets _ _ _ _ Hobj) as (count & r1 & r2 & _ & _ & _ & Er).
  subst svcs rss. eexists _, _, cms, r1, r2. split; [exact Hobj|].
  exact (proj1 (proj2 (proj2 (proj2 (services_select_pods _ _ _ _ _ _ Hobj))))).
Defined.

(** The resource with another UUID. *)
Definition otherPresto : Presto :=
  with_uuid (s_presto namedStore) "11111111-d399-4e66-8417-b5caa96988ec".

Lemma otherPresto_ok : spec_ok otherPresto.
Proof. apply valid_spec_ok; [by apply example_valid|apply Nat.leb_le; reflexivity]. Qed.

Lemma clusters_isolated_witness : ∃ svcs cms rss rs,
  cluster_objects (s_presto namedStore) svcs cms rss
  ∧ Forall (λ s, ¬ selects (svcSelector s) (podLabels rs)) svcs.
Proof.
  destruct (cluster_objects_exist _ namedStore_spec_ok) as (svcs & cms & rss & Hobj).
  destruct (cluster_objects_exist _ otherPresto_ok) as (svcs' & cms' & rss' & Hobj').
  pose proof (co_replicasets _ _ _ _ Hobj') as (count & r1 & r2 & _ & _ & _ & Er).
  subst rss'. exists svcs, cms, rss, r1. split; [exact Hobj|].
  refine (proj1 (clusters_isolated _ _ _ _ _ _ _ _ Hobj Hobj' _ r1 _)); [discriminate|left].
Defined.

(** The external service alone. *)
Definition externalOnly : Service :=
  externalService (s_presto namedStore) "external-presto-svc-03f118d2" (labels2 (s_presto namedStore)).

Definition afterDeletion : store := set_services namedStore [externalOnly].

Lemma afterDeletion_ok : store_ok (s_presto namedStore) afterDeletion.
Proof.
  assert (adds_service externalOnly namedStore afterDeletion) as Hadd.
  { exists externalOnly. split; [|done]. by split_and!. }
  eapply (add_service_ok _ namedStore); [done|apply namedStore_ok|exact Hadd|done|..].
  - intros Hn. by vm_compute in Hn.
  - intros _. apply labels2_external.
  - done.
Qed.

Lemma headless_not_recreated_witness :
  s_services (id (reconcile_n memoryServer (key_of (s_presto namedStore)) 20 afterDeletion))
  = s_services (id afterDeletion).
Proof.
  apply (headless_not_recreated memoryServer id (s_presto namedStore) afterDeletion 20).
  - apply namedStore_spec_ok.
  - apply afterDeletion_ok.
  - exists "external-presto-svc-03f118d2", externalOnly. split; [by split_and!|left].
Defined.
