(* ===== verification/Safety.v ===== *)
(** What Reconcile does in every environment.

    The theorems of this file quantify over the responses of the API server and
    of the other services the controller talks to: a response may be stale, an
    error, or any object. *)

From S2P Require Import Prelude ApiTypes K8sTypes Names Config Catalog Pods Effects.
From S2P Require Import Status Services ConfigMaps ReplicaSets Hpa Reconcile.
From S2P Require Import Examples Traces ServiceStages PodStages.

(** ** The order of the stages *)

(** What stage [i] has seen when it changes nothing. *)
Definition seen (p : Presto) (i : nat) (t : trace) : Prop :=
  match i with
  | 0 => service_seen p (getPodDiscoveryServiceLabel (p_Uuid p)) t
  | 1 => service_seen p (getExternalServiceLabel (p_Uuid p)) t
  | 2 => config_seen p getCoordinatorConfigMapName t
  | 3 => config_seen p getWorkerConfigMapName t
  | 4 => config_seen p getCatalogConfigMapName t
  | 5 => replicaset_seen p (getCoordinatorPodLabel (p_Uuid p)) t
  | 6 => replicaset_seen p (getWorkerPodLabel (p_Uuid p)) t
  | _ => True
  end.

(** The stages that have passed before a change of this kind is made. *)
Definition rank (r : req) : nat :=
  if on_config_map r then 2 else if on_replicaset r then 5 else if on_hpa r then 7 else 0.

(** Every change comes after the stages from [k] on that precede its kind. *)
Definition ordered_from (k : nat) (p : Presto) (t : trace) : Prop :=
  ∀ r i, r ∈ changes t → (k <= i < rank r)%nat → seen p i t.

Lemma seen_app_r p i t1 t2 : seen p i t2 → seen p i (t1 ++ t2).
Proof.
  destruct i as [|[|[|[|[|[|[|i]]]]]]]; simpl; try done.
  1,2: intros (s & l & H); exists s, l; apply elem_of_app; by right.
  1,2,3: intros (sel & items & n & cm & ? & H & ?); exists sel, items, n, cm;
    split; [done|]; split; [apply elem_of_app; by right|done].
  1,2: intros (s & l & H); exists s, l; apply elem_of_app; by right.
Qed.

Lemma seen_app_l p i t1 t2 : seen p i t1 → seen p i (t1 ++ t2).
Proof.
  destruct i as [|[|[|[|[|[|[|i]]]]]]]; simpl; try done.
  1,2: intros (s & l & H); exists s, l; apply elem_of_app; by left.
  1,2,3: intros (sel & items & n & cm & ? & H & ?); exists sel, items, n, cm;
    split; [done|]; split; [apply elem_of_app; by left|done].
  1,2: intros (s & l & H); exists s, l; apply elem_of_app; by left.
Qed.

Lemma seen_same p q i t : same_cluster p q → seen p i t → seen q i t.
Proof.
  intros (_ & Hns & _ & Hu & _).
  destruct i as [|[|[|[|[|[|[|i]]]]]]]; simpl; try done;
    unfold service_seen, config_seen, replicaset_seen; by rewrite <-?Hns, <-?Hu.
Qed.

Lemma allowed_same p q t r : same_cluster p q → allowed_change p t r → allowed_change q t r.
Proof.
  intros (Hn & Hns & Hid & Hu & Hspec).
  destruct r; simpl; try done;
    unfold owned, countManaged, checkAutoscalingEnabled, listed_workers, listed_hpa;
    by rewrite <-?Hn, <-?Hns, <-?Hid, <-?Hu, <-?Hspec.
Qed.

Lemma allowed_app_r p t1 t2 r : allowed_change p t2 r → allowed_change p (t1 ++ t2) r.
Proof.
  assert (∀ e, e ∈ t2 → e ∈ t1 ++ t2) as Hin by (intros; apply elem_of_app; by right).
  destruct r; simpl; try done; unfold listed_workers, listed_hpa; naive_solver.
Qed.

(** ** Reconcile *)

(** What the stages of Reconcile from the [k]-th on do. *)
Definition final_post (E : contract) (k : nat) (s : shared)
    (t : trace) (o : outcome (Result * option goerror * shared)) : Prop :=
  (length (changes t) <= 1)%nat ∧
  (statusContract E → labelled s →
     Forall (allowed_change (sh_presto s) t) (changes t)) ∧
  (statusContract E → ordered_from k (sh_presto s) t) ∧
  match o with
  | Panicked => True
  | Returned (res, err, _) =>
    res = emptyResult ∧ (∀ e, e ∈ change_errors t → err = Some e)
  end.

Lemma Forall_allowed p q t1 t2 l :
  same_cluster p q → Forall (allowed_change p t2) l → Forall (allowed_change q (t1 ++ t2)) l.
Proof.
  intros Hpq Hl. eapply Forall_impl; [exact Hl|]. intros r Hr.
  by apply allowed_app_r, (allowed_same p).
Qed.

Lemma ordered_stop k s K t :
  (∀ r, K r = true → (rank r <= k)%nat) → Forall (λ r, K r = true) (changes t) →
  ordered_from k (sh_presto s) t.
Proof.
  intros HK Hc r i Hin Hi. rewrite Forall_forall in Hc. specialize (HK r (Hc r Hin)). lia.
Qed.

(** A stage that passes, followed by the rest. *)
Lemma final_continue E k s s' t1 t2 o :
  (statusContract E → same_cluster (sh_presto s) (sh_presto s')) →
  sh_baseLabels s' !! "clusterUUID"%string = sh_baseLabels s !! "clusterUUID"%string →
  changes t1 = [] → change_errors t1 = [] → seen (sh_presto s) k t1 →
  final_post E (S k) s' t2 o → final_post E k s (t1 ++ t2) o.
Proof.
  intros Hsame Hlbl Hc He Hseen (Hlen & Hall & Hord & Hres). unfold final_post.
  rewrite changes_app, change_errors_app, Hc, He. simpl.
  split; [done|]. split; [|split; [|by destruct o as [[[??]?]|]]].
  - intros HE Hl. specialize (Hsame HE).
    eapply Forall_allowed; [symmetry; exact Hsame|]. apply Hall; [done|].
    unfold labelled in *. rewrite Hlbl, Hl. destruct Hsame as (_&_&_&->&_). done.
  - intros HE r i Hin Hi. rewrite changes_app, Hc in Hin. simpl in Hin.
    destruct (decide (i = k)) as [->|Hne]; [by apply seen_app_l|].
    apply seen_app_r. eapply seen_same; [symmetry; by apply Hsame|].
    apply (Hord HE r); [done|lia].
Qed.

Lemma stage_quiet_errors E s K Ev t err s' :
  stage_post E s K Ev t (Returned (err, false, s')) → err = None → change_errors t = [].
Proof.
  intros (_ & _ & _ & _ & _ & He & _) ->. destruct (change_errors t) as [|e l]; [done|].
  specialize (He e ltac:(left)). done.
Qed.

Lemma unlessChanged_final E k s K m next :
  (∀ r, K r = true → (rank r <= k)%nat) →
  wp E (m s) (stage_post E s K (seen (sh_presto s) k)) →
  (∀ s', wp E (next s') (final_post E (S k) s')) →
  wp E (unlessChanged m next s) (final_post E k s).
Proof.
  intros HK Hm Hnext. unfold unlessChanged. prog_simpl.
  apply wp_bind. eapply wp_mono; [|exact Hm].
  intros t [[[err changed] s']|] Hst; simpl.
  - destruct err as [e|]; [|destruct changed].
    3:{ pose proof (stage_quiet_errors _ _ _ _ _ _ _ Hst eq_refl) as Herr.
        destruct Hst as (_ & _ & _ & Hs & Hl & _ & _ & Hp).
        destruct (Hp eq_refl eq_refl) as [Hc Hev].
        eapply wp_mono; [|apply Hnext]. intros t2 o Ht2. by eapply final_continue. }
    all: destruct Hst as (Hlen & Hk & Hall & Hs & Hl & He & _ & _); simpl.
    all: rewrite app_nil_r; split; [done|]; split; [intros; by apply Hall|]; split.
    all: try (intros; by eapply ordered_stop); try done.
  - destruct Hst as (Hlen & Hk & Hall & _). split; [done|]. split; [intros; by apply Hall|].
    split; [|done]. intros; by eapply ordered_stop.
Qed.

(** The kinds of the changes of a stage do not come after it. *)
Ltac rank_solve :=
  let r := fresh in let Hr := fresh in
  intros r Hr; destruct r; try discriminate Hr; unfold rank; simpl; lia.

Section reconcile.
Context `{GoMapRange, Apimachinery}.

Lemma reportState_quiet E rs s :
  wp E (reportState rs s) (λ t o, quiet t ∧
    match o with
    | Returned (res, err, _) => res = emptyResult ∧ err = None
    | Panicked => True
    end).
Proof.
  unfold reportState, getCoordinatorPodPhase, getCPUUsage. stage_run.
  all: try (destruct (ParseQuantity _)); prog_simpl; repeat (prog_step || use_updateStatus).
  all: rewrite ?app_nil_r; split; [|done]; eauto 8 with go.
Qed.
Lemma reportState_final E rs s k : wp E (reportState rs s) (final_post E k s).
Proof.
  eapply wp_mono; [|apply reportState_quiet].
  intros t o [[Hc He] Ho]. unfold final_post, ordered_from. rewrite Hc, He. simpl.
  split; [lia|]. split; [by constructor|]. split.
  - intros _ r i Hin. by apply elem_of_nil in Hin.
  - destruct o as [[[res err] s']|]; [|done]. destruct Ho as [-> ->].
    split; [done|]. intros e Hin. by apply elem_of_nil in Hin.
Qed.

Lemma hpa_final E rs s : wp E (unlessChanged (hpaReplicaset rs) (reportState rs) s) (final_post E 7 s).
Proof.
  apply unlessChanged_final with on_hpa; [rank_solve|apply hpa_stage|].
  intros. apply reportState_final.
Qed.

Lemma worker_final E s :
  wp E ((r ← workerReplicaset;
         match r with
         | inl err => mret (emptyResult, Some err)
         | inr (true, _) => mret (emptyResult, None)
         | inr (false, rs) => unlessChanged (hpaReplicaset rs) (reportState rs)
         end) s) (final_post E 6 s).
Proof.
  prog_simpl. apply wp_bind. eapply wp_mono; [|apply workerReplicaset_stage].
  assert (∀ r, on_replicaset r = true → (rank r <= 6)%nat) as HK
    by rank_solve.
  intros t [[[e|[[] rs]] s']|] Hst; cbn [as_stage] in Hst; prog_simpl.
  3:{ pose proof (stage_quiet_errors _ _ _ _ _ _ _ Hst eq_refl) as Herr.
      destruct Hst as (_ & _ & _ & Hs & Hl & _ & _ & Hp).
      destruct (Hp eq_refl eq_refl) as [Hc Hev].
      eapply wp_mono; [|apply hpa_final]. intros t2 o Ht2. by eapply final_continue. }
  1,2: destruct Hst as (Hlen & Hk & Hall & Hs & Hl & He & _ & _); rewrite app_nil_r.
  3: destruct Hst as (Hlen & Hk & Hall & _).
  all: split; [done|]; split; [intros; by apply Hall|]; split; [|done].
  all: intros; by eapply ordered_stop.
Qed.

Lemma reconcileStages_final E s : wp E (reconcileStages s) (final_post E 0 s).
Proof.
  unfold reconcileStages.
  apply unlessChanged_final with on_service; [rank_solve|apply headless_stage|intros s1].
  apply unlessChanged_final with on_service; [rank_solve|apply service_stage|intros s2].
  apply unlessChanged_final with on_config_map;
    [rank_solve|apply coordinatorConfig_stage|intros s3].
  apply unlessChanged_final with on_config_map; [rank_solve|apply workerConfig_stage|intros s4].
  apply unlessChanged_final with on_config_map;
    [rank_solve|apply catalogConfig_stage|intros s5].
  apply unlessChanged_final with on_replicaset;
    [rank_solve|apply coordinatorReplicaset_stage|intros s6].
  apply worker_final.
Qed.

(** The resource a reconciliation has read. *)
Definition fetched (t : trace) : option Presto :=
  match t with
  | existT (GetPresto _) (inr p) :: _ => Some p
  | _ => None
  end.

(** What Reconcile does. *)
Definition reconcile_post (E : contract) (t : trace)
    (o : outcome (Result * option goerror)) : Prop :=
  (length (changes t) <= 1)%nat ∧
  (statusContract E →
     match fetched t with
     | Some p => Forall (allowed_change p t) (changes t) ∧ ordered_from 0 p t
     | None => changes t = []
     end) ∧
  match o with
  | Panicked => True
  | Returned (res, err) => res = emptyResult ∧ (∀ e, e ∈ change_errors t → err = Some e)
  end.

Definition drop_shared {A} (o : outcome (A * shared)) : outcome A :=
  match o with Returned (a, _) => Returned a | Panicked => Panicked end.

Lemma quiet_prefix E req p x t1 t2 o :
  quiet t1 → final_post E 0 (mkShared p (clusterLabels p)) t2 o →
  x = inr p → reconcile_post E (ev (GetPresto req) x :: t1 ++ t2) (drop_shared o).
Proof.
  intros [Hc He] (Hlen & Hall & Hord & Ho) ->. unfold reconcile_post.
  rewrite changes_cons, changes_app, change_errors_cons, change_errors_app. simpl.
  rewrite Hc, He. simpl. split; [done|]. split; [|by destruct o as [[[??]?]|]].
  intros HE. split.
  - apply (Forall_allowed p p (ev (GetPresto req) (inr p) :: t1)); [done|].
    apply (Hall HE). unfold labelled. simpl. unfold clusterLabels. simpl.
    by rewrite lookup_insert_eq.
  - intros r i Hin Hi. rewrite changes_cons, changes_app, Hc in Hin. simpl in Hin.
    apply (seen_app_r _ _ (ev (GetPresto req) (inr p) :: t1)). by apply (Hord HE r).
Qed.

Lemma quiet_reconcile E req p t o :
  quiet t → (∀ res err, o = Returned (res, err) → res = emptyResult) →
  reconcile_post E (ev (GetPresto req) (inr p) :: t) o.
Proof.
  intros [Hc He] Ho. unfold reconcile_post, ordered_from.
  rewrite changes_cons, change_errors_cons. simpl. rewrite Hc, He. simpl.
  split; [lia|]. split.
  - intros _. split; [constructor|]. intros r i Hin. by apply elem_of_nil in Hin.
  - destruct o as [[res err]|]; [|done]. split; [by eapply Ho|].
    intros e Hin. by apply elem_of_nil in Hin.
Qed.

Lemma labelled_final E p l :
  wp E (reconcileLabelled (mkShared p l)) (final_post E 0 (mkShared p (clusterLabels p))).
Proof. unfold reconcileLabelled. prog_simpl. apply reconcileStages_final. Qed.

(** The body of Reconcile on the resource [p] it has read: it is either quiet,
    or it runs the stages. *)
Lemma reconcileBody_spec E p :
  wp E (reconcileBody (mkShared p ∅)) (λ t o,
    (quiet t ∧ ∀ res err s, o = Returned (res, err, s) → res = emptyResult) ∨
    final_post E 0 (mkShared p (clusterLabels p)) t o).
Proof.
  unfold reconcileBody. prog_simpl. destruct (is_empty (p_Uuid p)); prog_simpl.
  - intros u _. wp_focus. eapply wp_mono; [|apply updateStatus_spec].
    intros t [[[u' err] s']|] [Hq Hs]; prog_simpl.
    + destruct err as [e|]; prog_simpl.
      * left. rewrite app_nil_r. split; [by eauto with go|]. by intros ??? [= <- <- <-].
      * destruct Hs as (_ & _ & Hu). rewrite (Hu eq_refl). simpl. left.
        rewrite app_nil_r. split; [by eauto with go|]. by intros ??? [= <- <- <-].
    + left. split; [by eauto with go|done].
  - eapply wp_mono; [|apply labelled_final]. by right.
Qed.

Lemma after_get E request p t1 :
  quiet t1 →
  wp E (prog_bind (λ '(res, _), Ret res) (reconcileBody (mkShared p ∅)))
    (λ t o, reconcile_post E (ev (GetPresto request) (inr p) :: t1 ++ t) o).
Proof.
  intros Hq1. apply wp_bind. eapply wp_mono; [|apply reconcileBody_spec].
  intros t [[[res err] s']|] [[Hq Hr]|Hf]; cbn [wp]; rewrite ?app_nil_r.
  - apply quiet_reconcile; [by apply quiet_app|]. intros ?? [= <- <-]. by eapply Hr.
  - by apply (quiet_prefix _ _ _ _ _ _ _ Hq1 Hf).
  - by apply quiet_reconcile; [by apply quiet_app|].
  - by apply (quiet_prefix _ _ _ _ _ _ _ Hq1 Hf).
Qed.

Lemma Reconcile_spec E request : wp E (Reconcile request) (reconcile_post E).
Proof.
  unfold Reconcile. prog_simpl. intros x _. destruct x as [err|p]; prog_simpl.
  - destruct (IsNotFound (Some err)); prog_simpl.
    all: repeat prog_step; unfold reconcile_post; simpl.
    all: split; [lia|]; split; [done|]; split; [done|]; intros e Hin; by apply elem_of_nil in Hin.
  - intros reg _. destruct reg; prog_simpl; [|intros [] _].
    + apply (after_get _ _ _ [_]). by eauto with go.
    + apply (after_get _ _ _ [_; _]). by eauto with go.
Qed.

Lemma Reconcile_run {W} (h : env W) request w :
  reconcile_post anyResponse (run h (Reconcile request) w).1.2 (run h (Reconcile request) w).1.1.
Proof. eapply wp_run; [apply keeps_any|apply Reconcile_spec]. Qed.
End reconcile.

(** ** Theorems *)

Section theorems.
Context `{GoMapRange, Apimachinery}.
Context {W : Type} (h : env W).

(** C4: In every environment one call of Reconcile asks for at most one change
    of the cluster (creating, updating or deleting a Service, ConfigMap,
    ReplicaSet or HorizontalPodAutoscaler), whatever the API server answers. *)
Theorem reconcile_one_change (request : NamespacedName) (w : W) :
  (length (changes (run h (Reconcile request) w).1.2) <= 1)%nat.
Proof. apply Reconcile_run. Qed.

(** C21: When the change that a reconciliation asks for is answered with an
    error, Reconcile returns that very error, so that the controller queues
    the request again (AlreadyExists on an autoscaler is not an error). *)
Theorem reconcile_reports_errors (request : NamespacedName) (w : W)
    (res : Result) (err : option goerror) (e : goerror) :
  (run h (Reconcile request) w).1.1 = Returned (res, err) →
  e ∈ change_errors (run h (Reconcile request) w).1.2 →
  err = Some e.
Proof.
  intros Ho He. destruct (Reconcile_run h request w) as (_ & _ & Hr).
  rewrite Ho in Hr. by apply Hr.
Qed.

(** What the API server does with a status update: it answers with the
    resource it has stored, of the same name, namespace, UID, spec and cluster
    UUID as the one sent. *)
Definition storesStatus : Prop :=
  ∀ w p p', (h w (UpdatePrestoStatus p)).1 = inr p' → same_cluster p p'.

Definition responsesOf : contract := λ r x, ∃ w, x = (h w r).1.

Lemma keeps_responses : keeps h responsesOf.
Proof. intros w r. by exists w. Qed.

Lemma Reconcile_run_stores request w :
  storesStatus →
  match fetched (run h (Reconcile request) w).1.2 with
  | Some p => Forall (allowed_change p (run h (Reconcile request) w).1.2)
                (changes (run h (Reconcile request) w).1.2) ∧
              ordered_from 0 p (run h (Reconcile request) w).1.2
  | None => changes (run h (Reconcile request) w).1.2 = []
  end.
Proof.
  intros Hs.
  destruct (wp_run responsesOf h (Reconcile request) _ w keeps_responses
              (Reconcile_spec _ request)) as (_ & Hp & _).
  apply Hp. intros p p' [w' Hw']. by apply (Hs w').
Qed.

(** What a list request promises: the objects it is answered with are in the
    namespace and have the labels that were asked for. *)
Definition listsSelect : Prop :=
  (∀ w ns sel items, (h w (ListReplicaSets ns sel)).1 = inr items →
     ∀ rs, rs ∈ items → om_Namespace (rs_ObjectMeta rs) = ns
       ∧ selects sel (om_Labels (rs_ObjectMeta rs)))
  ∧ (∀ w ns sel items, (h w (ListHPAs ns sel)).1 = inr items →
       ∀ a, a ∈ items → om_Namespace (hpa_ObjectMeta a) = ns
         ∧ selects sel (om_Labels (hpa_ObjectMeta a))).

(** An existing object that a change is about: in the namespace of [p], with a
    label that holds its UUID. *)
Definition in_cluster (p : Presto) (r : req) : Prop :=
  match r with
  | UpdateReplicaSet rs =>
    om_Namespace (rs_ObjectMeta rs) = p_Namespace p
    ∧ selects (single_label (getWorkerPodLabel (p_Uuid p))) (om_Labels (rs_ObjectMeta rs))
  | DeleteHPA a =>
    om_Namespace (hpa_ObjectMeta a) = p_Namespace p
    ∧ om_Labels (hpa_ObjectMeta a) !! "clusterUUID"%string = Some (p_Uuid p)
  | _ => True
  end.

Lemma trace_responses {A} (m : prog A) w :
  Forall (λ e : event, responsesOf (projT1 e) (projT2 e)) (run h m w).1.2.
Proof.
  revert w. induction m as [a| |r k IH]; intros w; simpl; [by constructor..|].
  destruct (h w r) as [x w1] eqn:Hx. specialize (IH x w1).
  destruct (run h (k x) w1) as [[o t] w2]. constructor; [|done]. exists w. simpl. by rewrite Hx.
Qed.

Lemma trace_response {A} (m : prog A) w r x :
  ev r x ∈ (run h m w).1.2 → ∃ w', (h w' r).1 = x.
Proof.
  intros Hin. destruct (proj1 (Forall_forall _ _) (trace_responses m w) _ Hin) as [w' Hw'].
  by exists w'.
Qed.

Lemma allowed_in_cluster {A} (m : prog A) w p r :
  listsSelect → allowed_change p (run h m w).1.2 r → in_cluster p r.
Proof.
  intros [Hrs Hhpa]. destruct r; simpl; try done.
  - intros (_ & rs0 & count & [rest [w' Hw]%trace_response] & _ & ->).
    exact (Hrs _ _ _ _ Hw rs0 ltac:(left)).
  - intros (_ & sel & rest & Hsel & [w' Hw]%trace_response).
    destruct (Hhpa _ _ _ _ Hw _ ltac:(left)) as [Hns Hlbl]. split; [done|].
    by eapply lookup_weaken.
Qed.

(** C5: Every change that a reconciliation asks for belongs to the cluster of
    the resource [p] it has read. An object it creates is in the namespace of
    [p], carries the cluster UUID as a label and has [p] as its only owner and
    controller (a ReplicaSet selects the labels of its own pod template). A
    ReplicaSet it updates was listed, in this reconciliation, in the namespace
    of [p] under the label of its workers, and only the replicas are set, to
    the spec's count and with autoscaling off. An autoscaler it creates or
    updates has the name of the cluster's, and is only so with autoscaling on;
    one it deletes was listed in the namespace of [p] with its UUID, and is
    only so with autoscaling off. Where lists keep to the namespace and the
    labels asked for, the objects updated and deleted have them. *)
Theorem reconcile_changes_owned (request : NamespacedName) (w : W) (p : Presto) :
  storesStatus → listsSelect →
  fetched (run h (Reconcile request) w).1.2 = Some p →
  let t := (run h (Reconcile request) w).1.2 in
  Forall (λ r, allowed_change p t r ∧ in_cluster p r) (changes t).
Proof.
  intros Hs Hl Hf t. pose proof (Reconcile_run_stores request w Hs) as Hr.
  rewrite Hf in Hr. apply (Forall_impl _ _ _ (proj1 Hr)). intros r Ha. split; [done|].
  by apply (allowed_in_cluster (Reconcile request) w).
Qed.


(** C32: a resource that cannot be read. When it is gone, Reconcile unregisters
    it and returns without an error; on any other error it returns that error;
    in both cases it does nothing else. *)
Theorem unreadable_resource (request : NamespacedName) (w : W) (e : goerror) :
  (h w (GetPresto request)).1 = inl e →
  let '(o, t, _) := run h (Reconcile request) w in
  if IsNotFound (Some e)
  then o = Returned (emptyResult, None) ∧ requests t = [GetPresto request; RegisteredDelete request]
  else o = Returned (emptyResult, Some e) ∧ requests t = [GetPresto request].
Proof.
  intros He. unfold Reconcile. cbv [mbind mret prog_mbind prog_ret call]. cbn [prog_bind run].
  destruct (h w (GetPresto request)) as [x w1]. cbn [fst] in He. subst x. cbn [prog_bind].
  destruct (IsNotFound (Some e)); cbn [prog_bind run]; [|done].
  by destruct (h w1 (RegisteredDelete request)) as [[] w2].
Qed.
End theorems.

(** ** Witnesses *)

#[local] Existing Instance sorted_range.
#[local] Existing Instance exampleApi.


Lemma reconcile_reports_errors_witness :
  match (run (emptyCluster (examplePresto autoscalingOff) (Some exampleError))
           (Reconcile exampleKey) tt).1.1 with
  | Returned (_, err) => err = Some exampleError
  | Panicked => False
  end.
Proof.
  apply (reconcile_reports_errors
           (emptyCluster (examplePresto autoscalingOff) (Some exampleError))
           exampleKey tt emptyResult (Some exampleError) exampleError).
  - vm_compute. reflexivity.
  - vm_compute. left.
Defined.

(** A cluster whose workers are to be scaled: one ReplicaSet, for which the lists
    ask by the labels of the coordinator and of the workers, has none. *)
Definition scaledMeta : ObjectMeta :=
  newObjectMeta "workers" EmptyString "default"
    (list_to_map [getCoordinatorPodLabel exampleUuid; getWorkerPodLabel exampleUuid]) [].

Definition scaledWorkers : ReplicaSet :=
  mkReplicaSet noTypeMeta scaledMeta (Some 0%Z) ∅
    (mkPodTemplateSpec (newObjectMeta EmptyString EmptyString "default" ∅ [])
       (mkPodSpec None [] EmptyString EmptyString [])) 0%Z.

Definition scalingCluster : env unit := λ _ r,
  (match r as r return resp r with
   | ListReplicaSets ns sel =>
     inr (if decide (ns = om_Namespace scaledMeta ∧ selects sel (om_Labels scaledMeta))
          then [scaledWorkers] else [])
   | r' => (fixedCluster (examplePresto autoscalingOff) [someService] exampleConfigMaps
              [] [] [] None tt r').1
   end, tt).

Lemma scalingCluster_lists : listsSelect scalingCluster.
Proof.
  split.
  - intros w ns sel items [= <-] rs. case_decide as Hd; [|by intros ?%elem_of_nil].
    intros ->%list_elem_of_singleton. by destruct Hd as [-> Hd].
  - intros w ns sel items [= <-] a Ha. by apply elem_of_nil in Ha.
Qed.

Lemma reconcile_changes_owned_witness :
  let t := (run scalingCluster (Reconcile exampleKey) tt).1.2 in
  changes t = [UpdateReplicaSet (set_Replicas scaledWorkers (Some 1%Z))]
  ∧ Forall (λ r, allowed_change (examplePresto autoscalingOff) t r
                 ∧ in_cluster (examplePresto autoscalingOff) r) (changes t).
Proof.
  split; [vm_compute; reflexivity|].
  apply (reconcile_changes_owned scalingCluster exampleKey tt (examplePresto autoscalingOff)).
  - by intros w q q' [= <-].
  - apply scalingCluster_lists.
  - reflexivity.
Defined.


(** A cluster without the resource. *)
Definition goneCluster : env unit := λ _ r,
  (match r as r return resp r with
   | GetPresto _ => inl (StatusError StatusReasonNotFound "prestos not found")
   | r' => (emptyCluster (examplePresto autoscalingOff) None tt r').1
   end, tt).

Lemma unreadable_resource_witness :
  requests (run goneCluster (Reconcile exampleKey) tt).1.2
  = [GetPresto exampleKey; RegisteredDelete exampleKey].
Proof.
  pose proof (unreadable_resource goneCluster exampleKey tt
                (StatusError StatusReasonNotFound "prestos not found") eq_refl) as Hr.
  destruct (run goneCluster (Reconcile exampleKey) tt) as [[o t] w']. exact (proj2 Hr).
Defined.
