(* ===== verification/PanicFree.v ===== *)
(** Reconcile does not panic.

    Go panics on a nil pointer, on an index out of range and on a slice beyond
    the end of a string. The theorem of this file gives conditions on the
    resource and on the responses of the API server under which none of these
    happens, whatever else the responses are, errors included. *)

From S2P Require Import Prelude ApiTypes K8sTypes Names Config Catalog Pods Effects.
From S2P Require Import Status Services ConfigMaps ReplicaSets Hpa Reconcile.
From S2P Require Import Examples PodFacts Traces ServiceStages Store Machine.
From S2P Require Import Refinement Safety.

Local Open Scope string_scope.

(** ** Conditions *)

(** The resource: its UUID is not assigned yet or has the eight bytes of the
    names, the worker count is there, and so are the bounds of the autoscaler
    when it is enabled. *)
Record no_nil (p : Presto) : Prop := {
  nn_count : is_Some (ws_Count (Worker (Spec p)));
  nn_autoscaling : checkAutoscalingEnabled p = true →
    is_Some (as_MinReplicas (ws_Autoscaling (Worker (Spec p))))
    ∧ is_Some (as_MaxReplicas (ws_Autoscaling (Worker (Spec p))))
    ∧ is_Some (as_TargetCPUUtilizationPercentage (ws_Autoscaling (Worker (Spec p))))
}.

(** The responses: a service listed under the external label has a port, a
    ReplicaSet has its replicas and an autoscaler its bounds set, and a status
    update answers with the resource it has stored. *)
Record wellformed (E : contract) : Prop := {
  wf_services ns sel l s u : E (ListServices ns sel) (inr l) → s ∈ l →
    single_label (getExternalServiceLabel u) ⊆ sel → kss_Ports (svc_Spec s) ≠ [];
  wf_list_rs ns sel l rs : E (ListReplicaSets ns sel) (inr l) → rs ∈ l → is_Some (rs_Replicas rs);
  wf_create_rs a rs : E (CreateReplicaSet a) (inr rs) → is_Some (rs_Replicas rs);
  wf_update_rs a rs : E (UpdateReplicaSet a) (inr rs) → is_Some (rs_Replicas rs);
  wf_hpas ns sel l a : E (ListHPAs ns sel) (inr l) → a ∈ l →
    is_Some (hpa_MinReplicas a) ∧ is_Some (hpa_TargetCPUUtilizationPercentage a);
  wf_status : statusContract E
}.

(** ** A program logic for the absence of panics *)

Section safe.
Context (E : contract).

(** [safe m R]: [m] returns, with a result that satisfies [R]. *)
Definition safe {A} (m : prog A) (R : A → Prop) : Prop :=
  wp E m (λ _ o, ∃ a, o = Returned a ∧ R a).

Lemma safe_ret {A} (a : A) (R : A → Prop) : R a → safe (Ret a) R.
Proof. intros. by exists a. Qed.

Lemma safe_vis {A} r (k : resp r → prog A) R :
  (∀ x, E r x → safe (k x) R) → safe (Vis r k) R.
Proof. intros Hk x Hx. eapply wp_mono; [|by apply Hk]. done. Qed.

Lemma safe_bind {A B} (m : prog A) (f : A → prog B) (P : A → Prop) R :
  safe m P → (∀ a, P a → safe (f a) R) → safe (prog_bind f m) R.
Proof.
  intros Hm Hf. apply wp_bind. eapply wp_mono; [|exact Hm].
  intros t o (a & -> & Ha). eapply wp_mono; [|by apply Hf]. done.
Qed.

Lemma safe_mono {A} (m : prog A) (P R : A → Prop) :
  (∀ a, P a → R a) → safe m P → safe m R.
Proof. intros HPR Hm. eapply wp_mono; [|exact Hm]. intros t o (a & -> & ?). eauto. Qed.

Lemma safe_ofOption {A} (x : option A) (R : A → Prop) a : x = Some a → R a → safe (ofOption x) R.
Proof. intros -> ?. by exists a. Qed.

(** [safeM p m R]: from every state whose resource is the cluster [p], [m]
    returns to such a state. *)
Definition safeM (p : Presto) {A} (m : M A) (R : A → Prop) : Prop :=
  ∀ s, same_cluster p (sh_presto s) →
    safe (m s) (λ '(a, s'), R a ∧ same_cluster p (sh_presto s')).

Lemma safeM_ret p {A} (a : A) (R : A → Prop) : R a → safeM p (mret a) R.
Proof. intros Ha s Hs. by apply safe_ret. Qed.

Lemma safeM_bind p {A B} (m : M A) (f : A → M B) (P : A → Prop) R :
  safeM p m P → (∀ a, P a → safeM p (f a) R) → safeM p (m ≫= f) R.
Proof.
  intros Hm Hf s Hs. eapply safe_bind; [by apply Hm|]. intros [a s'] [Ha Hs']. by apply Hf.
Qed.

Lemma safeM_mono p {A} (m : M A) (P R : A → Prop) :
  (∀ a, P a → R a) → safeM p m P → safeM p m R.
Proof. intros HPR Hm s Hs. eapply safe_mono; [|by apply Hm]. intros [a s'] [? ?]. eauto. Qed.

Lemma safeM_lift p {A} (m : prog A) (R : A → Prop) : safe m R → safeM p (liftP m) R.
Proof. intros Hm s Hs. eapply safe_bind; [exact Hm|]. intros a Ha. by apply safe_ret. Qed.

Lemma safeM_call p r : safeM p (callM r) (E r).
Proof. apply safeM_lift, safe_vis. intros x Hx. by apply safe_ret. Qed.

Lemma safeM_option p {A} (x : option A) (R : A → Prop) a :
  x = Some a → R a → safeM p (liftO x) R.
Proof. intros. apply safeM_lift. by eapply safe_ofOption. Qed.

Lemma safeM_get p : safeM p getPrestoObj (same_cluster p).
Proof. intros s Hs. by apply safe_ret. Qed.

Lemma safeM_put p q : same_cluster p q → safeM p (putPrestoObj q) (λ _, True).
Proof. intros Hq s Hs. by apply safe_ret. Qed.

Lemma safeM_labels p : safeM p getLabels (λ _, True).
Proof. intros s Hs. by apply safe_ret. Qed.

Lemma safeM_put_labels p l : safeM p (putLabels l) (λ _, True).
Proof. intros s Hs. by apply safe_ret. Qed.

Lemma safeM_event p a b c : safeM p (recordEvent a b c) (λ _, True).
Proof.
  eapply safeM_bind; [apply safeM_get|]. intros q _. eapply safeM_mono; [|apply (safeM_call p (Eventf q a b c))]. done.
Qed.
End safe.

(** Follow the structure of a program. *)
Ltac safe_step :=
  lazymatch goal with
  | |- safeM _ _ (mret _) _ => apply safeM_ret
  | |- safeM _ _ (getPrestoObj ≫= _) _ => eapply safeM_bind; [apply safeM_get|intros ? ?; cbn beta in *]
  | |- safeM _ _ (getLabels ≫= _) _ => eapply safeM_bind; [apply safeM_labels|intros ? _]
  | |- safeM _ _ (putLabels _ ≫= _) _ => eapply safeM_bind; [apply safeM_put_labels|intros ? _]
  | |- safeM _ _ (recordEvent _ _ _) _ => eapply safeM_mono; [|apply safeM_event]
  | |- safeM _ _ (recordEvent _ _ _ ≫= _) _ => eapply safeM_bind; [apply safeM_event|intros ? _]
  | |- safeM _ _ (callM _ ≫= _) _ => eapply safeM_bind; [apply safeM_call|intros ? ?; cbn beta in *]
  | |- safeM _ _ (match ?x with _ => _ end) _ => destruct x eqn:?
  end.

(** A status update only panics when the action cannot be applied. *)
Lemma updateStatus_no_panic E a s :
  (∀ st, ∃ st' u, applyAction a st = Some (st', u)) →
  wp E (updateStatus a s) (λ _ o, o ≠ Panicked).
Proof.
  intros Ha. unfold updateStatus, getPresto. prog_simpl. intros r _. cbn [resp] in r.
  destruct r as [err|items]; prog_simpl; [done|].
  destruct (List.find _ items) as [q|]; simpl.
  1: destruct (Ha (Status q)) as (st & u & ->).
  2: destruct (Ha (Status (sh_presto s))) as (st & u & ->).
  all: prog_simpl; destruct u; prog_simpl; [|done]; intros now _; prog_simpl; intros y Hy;
    cbn [resp] in y; by destruct y; prog_simpl.
Qed.

(** ** The stages *)

Section stages.
Context `{GoMapRange, Apimachinery}.
Context (E : contract) (HE : wellformed E).
Context (p : Presto) (Hp : no_nil p) (Hu : uuid_ok (p_Uuid p)).

(** A name of the cluster, taken from the resource as it is read. *)
Lemma safe_name q prefix :
  same_cluster p q → short_name prefix (p_Uuid q) = Some (prefix ⊕ short p).
Proof. intros (_ & _ & _ & <- & _). by apply short_name_ok. Qed.

Lemma safeM_name {A} q prefix (f : string → M A) R :
  same_cluster p q → (∀ n, safeM E p (f n) R) →
  safeM E p (liftO (short_name prefix (p_Uuid q)) ≫= f) R.
Proof.
  intros Hq Hf. eapply safeM_bind; [|intros n _; apply Hf].
  by eapply (safeM_option _ _ _ (λ _, True)); [apply safe_name|].
Qed.

Lemma updateStatus_safe a : safe_action a → safeM E p (updateStatus a) (λ _, True).
Proof.
  intros Ha s Hs.
  pose proof (updateStatus_no_panic E a s (λ st, safe_applyAction a st Ha)) as Hno.
  eapply wp_mono; [|apply wp_and; [exact Hno|apply updateStatus_spec]].
  intros t [[[u err] s']|] [Hr [_ Hst]]; [|done]. destruct Hst as (_ & Hst & _).
  eexists. split; [done|]. split; [done|]. etransitivity; [exact Hs|].
  apply Hst; [apply HE|apply Ha].
Qed.

Lemma updateStatus_safe_bind {A} a (f : bool * option goerror → M A) R :
  safe_action a → (∀ x, safeM E p (f x) R) → safeM E p (updateStatus a ≫= f) R.
Proof. intros Ha Hf. eapply safeM_bind; [by apply updateStatus_safe|]. intros x _. apply Hf. Qed.

Lemma safe_action_plain a :
  cu_clusterUUID a = None → cu_service a = None → cu_workerReplicaSet a = None → safe_action a.
Proof. intros H1 H2 H3. split_and!; [done|by rewrite H2|by rewrite H3]. Qed.

Lemma safe_action_workers st rs : is_Some (rs_Replicas rs) → safe_action (actWorkers st rs).
Proof. intros Hr. split_and!; [done|done|]. by intros ? [= <-]. Qed.

Lemma safe_action_ready rs a b : is_Some (rs_Replicas rs) → safe_action (actReady rs a b).
Proof. intros Hr. split_and!; [done|done|]. by intros ? [= <-]. Qed.

Hint Resolve safe_action_plain safe_action_workers safe_action_ready : go.

(** The name and status steps on top of [safe_step]. *)
Ltac stage_step :=
  lazymatch goal with
  | |- safeM _ _ (updateStatus _ ≫= _) _ =>
      apply updateStatus_safe_bind; [auto with go|intros ?]
  | |- safeM _ _ (updateStatus _) _ => eapply safeM_mono; [|apply updateStatus_safe; auto with go]
  | |- safeM _ _ (liftO _ ≫= _) _ => apply safeM_name; [assumption|intros ?]
  | |- safeM _ _ (match _ with _ => _ end ≫= _) _ =>
      eapply (safeM_bind _ _ _ _ (λ _, True)); [|intros ? _]
  | |- _ => safe_step
  end.

Lemma headless_safe : safeM E p headlessServiceConfig (λ _, True).
Proof.
  unfold headlessServiceConfig. stage_step.
  eapply (safeM_bind _ _ _ _ (λ _, True)).
  - unfold createHeadLessPodDiscoverySvc. repeat stage_step; done.
  - intros [err created] _. repeat stage_step; done.
Qed.

Lemma getService_safe q lbls :
  single_label (getExternalServiceLabel (p_Uuid q)) ⊆ lbls →
  safe E (getService q lbls) (λ r, ∀ s, r = inr (Some s) → kss_Ports (svc_Spec s) ≠ []).
Proof.
  intros Hl. apply safe_vis. intros x Hx. cbn [resp] in x.
  destruct x as [e|[|s0 l]]; apply safe_ret; try done. intros s [= <-].
  by eapply (wf_services E HE); [exact Hx|left|].
Qed.

Lemma service_safe :
  safeM E p ('(err, changesMade, _) ← serviceConfig; mret (err, changesMade)) (λ _, True).
Proof.
  eapply (safeM_bind _ _ _ _ (λ _, True)); [|intros [[??]?] _; by apply safeM_ret].
  unfold serviceConfig. stage_step. rename a into q.
  eapply (safeM_bind _ _ _ _ (λ '(_, svc, _), ∀ s, svc = Some s → kss_Ports (svc_Spec s) ≠ [])).
  - unfold createOrGetService. do 2 stage_step. stage_step; [by apply safeM_ret|]. stage_step.
    eapply safeM_bind; [apply safeM_lift, (getService_safe q); reflexivity|].
    intros r Hr. repeat stage_step; try done.
    1: by intros s1 [= <-]; apply Hr.
    eapply safeM_bind; [apply safeM_lift, (getService_safe q)|].
    + apply single_label_subseteq, lookup_insert_eq.
    + intros r2 Hr2. repeat stage_step; try done. by intros s1 ->; apply Hr2.
  - intros [[err svc] created] Hsvc. repeat stage_step; try done.
    all: split_and!; done.
Qed.

(** *** The builders return *)

Lemma buildConfigMap_safe q c n lbls :
  same_cluster p q → is_Some (buildConfigMap q c n lbls).
Proof.
  intros Hq. unfold buildConfigMap, coordinatorConfigPropsMap, workerConfigPropsMap,
    getCoordinatorInternalName, getCoordinatorContainerName, getPodDiscoveryServiceName.
  rewrite !(safe_name q _ Hq). simpl.
  destruct c; simpl; repeat case_match; simpl; repeat case_match; by eexists.
Qed.

Lemma createPrestoPodSpec_safe q c limits requests :
  same_cluster p q → is_Some (createPrestoPodSpec q c limits requests).
Proof.
  intros (_ & _ & _ & Huu & _). rewrite createPrestoPodSpec_eq; [by eexists|]. by rewrite <-Huu.
Qed.

Lemma worker_rs_safe q lbls n :
  same_cluster p q → is_Some (createReplicaSetForWorker q lbls n).
Proof.
  intros Hq. unfold createReplicaSetForWorker, getPrestoWorkerPod, getWorkerReplicaSet.
  rewrite (safe_name q _ Hq).
  repeat case_match; simpl; try by eexists.
  all: match goal with |- context [createPrestoPodSpec ?a ?c ?l ?r] =>
         destruct (createPrestoPodSpec_safe a c l r Hq) as [? ->]; by eexists end.
Qed.

Lemma coordinator_rs_safe q lbls :
  same_cluster p q → is_Some (createReplicaSetForCoordinator q lbls).
Proof.
  intros Hq. unfold createReplicaSetForCoordinator, getPrestoCoordinatorPodSpec,
    getCoordinatorReplicaset. rewrite (safe_name q _ Hq).
  repeat case_match; simpl; try by eexists.
  all: match goal with |- context [createPrestoPodSpec ?a ?c ?l ?r] =>
         destruct (createPrestoPodSpec_safe a c l r Hq) as [? ->]; by eexists end.
Qed.

Lemma hpa_spec_safe q rs lbls v : same_cluster p q → is_Some (createHPASpec q rs lbls v).
Proof.
  intros Hq. unfold createHPASpec, getHPAName. rewrite (safe_name q _ Hq).
  repeat case_match; by eexists.
Qed.

Lemma autoscale_safe q a :
  same_cluster p q → checkAutoscalingEnabled q = true → is_Some (hpa_MinReplicas a) →
  is_Some (hpa_TargetCPUUtilizationPercentage a) → is_Some (autoscaleSpecChanged a q).
Proof.
  intros (_ & _ & _ & _ & Hs) He [hm Hhm] [ht Hht]. unfold checkAutoscalingEnabled in He.
  rewrite <-Hs in He. destruct (nn_autoscaling p Hp He) as ([mi Hmi] & [ma Hma] & [ta Hta]).
  unfold autoscaleSpecChanged, or_else, deref_ne, deref. rewrite <-Hs, Hmi, Hma, Hta, Hhm, Hht.
  simpl. repeat case_match; by eexists.
Qed.

(** *** The stages of the config maps *)

Lemma createConfigMap_safe n q cm lbls : safe E (createConfigMap n q cm lbls) (λ _, True).
Proof.
  apply safe_vis. intros x _. cbn [resp] in x. destruct x as [e|items]; [by apply safe_ret|].
  case_match; [by apply safe_ret|]. apply safe_vis. intros y _. cbn [resp] in y.
  destruct y; by apply safe_ret.
Qed.

Lemma safe_some {A B} (x : option A) (f : A → prog B) R :
  is_Some x → (∀ a, safe E (f a) R) → safe E (ofOption x ≫= f) R.
Proof. intros [a ->] Hf. apply Hf. Qed.

Lemma built_config_safe q n lbls (x : option (goerror + ConfigMap)) :
  is_Some x →
  safe E (b ← ofOption x;
          match b with
          | inl err => mret (false, Some err)
          | inr configMap => createConfigMap n q configMap lbls
          end) (λ _, True).
Proof.
  intros Hx. apply safe_some; [done|]. intros [err|cm]; [by apply safe_ret|].
  apply createConfigMap_safe.
Qed.

Lemma config_safe (create : Presto → gmap string string → prog (bool * option goerror)) {A}
    (f : bool * option goerror → M A) q lbls R :
  safe E (create q lbls) (λ _, True) → (∀ x, safeM E p (f x) R) →
  safeM E p (liftP (create q lbls) ≫= f) R.
Proof. intros Hc Hf. eapply safeM_bind; [by apply safeM_lift|]. intros x _. apply Hf. Qed.

Lemma coordinatorConfig_safe : safeM E p coordinatorConfig (λ _, True).
Proof.
  unfold coordinatorConfig. do 2 stage_step. apply config_safe.
  - unfold createCoordinatorConfig, getCoordinatorConfigMapName.
    apply safe_some; [rewrite safe_name by done; by eexists|]. intros n.
    by apply built_config_safe, buildConfigMap_safe.
  - intros [created err]. repeat stage_step; done.
Qed.

Lemma workerConfig_safe : safeM E p workerConfig (λ _, True).
Proof.
  unfold workerConfig. do 2 stage_step. apply config_safe.
  - unfold createWorkerConfig, getWorkerConfigMapName.
    apply safe_some; [rewrite safe_name by done; by eexists|]. intros n.
    by apply built_config_safe, buildConfigMap_safe.
  - intros [created err]. repeat stage_step; done.
Qed.

Lemma catalogConfig_safe : safeM E p catalogConfig (λ _, True).
Proof.
  unfold catalogConfig. do 2 stage_step. apply config_safe.
  - unfold createCatalogConfig, getCatalogConfigMapName.
    apply safe_some; [rewrite safe_name by done; by eexists|]. intros n.
    case_match; [by apply safe_ret|]. apply createConfigMap_safe.
  - intros [created err]. repeat stage_step; done.
Qed.

(** *** The stages of the pods *)

Lemma getReplicaSet_safe q getLabel :
  safe E (getReplicaSet q getLabel) (λ r, ∀ rs, r = inr rs → is_Some (rs_Replicas rs)).
Proof.
  apply safe_vis. intros x Hx. cbn [resp] in x. destruct x as [e|[|rs l]].
  - case_match; by apply safe_ret.
  - by apply safe_ret.
  - apply safe_ret. intros rs' [= <-]. eapply (wf_list_rs E HE); [exact Hx|left].
Qed.

Lemma createUpdateWorker_safe q lbls :
  same_cluster p q →
  safe E (createUpdateReplicaSetForWorker q lbls)
    (λ r, ∀ rs c u, r = inr (rs, c, u) → is_Some (rs_Replicas rs)).
Proof.
  intros Hq. pose proof (nn_count p Hp) as Hc.
  rewrite (proj2 (proj2 (proj2 (proj2 Hq)))) in Hc.
  eapply safe_bind; [apply getReplicaSet_safe|]. intros [e|rs] Hrs; cbn beta iota.
  - destruct (IsNotFound (Some e)); [|by apply safe_ret]. apply safe_some; [done|]. intros count.
    apply safe_some; [by apply worker_rs_safe|]. intros [e'|rs]; [by apply safe_ret|].
    apply safe_vis. intros x Hx. cbn [resp] in x. destruct x as [|rs']; apply safe_ret; [done|].
    intros ??? [= <- _ _]. by eapply (wf_create_rs E HE).
  - destruct (Hrs rs eq_refl) as [n Hn].
    case_match; [|apply safe_ret; intros ??? [= <- _ _]; by eexists].
    case_match; [|apply safe_ret; intros ??? [= <- _ _]; by eexists].
    apply safe_some; [by eexists|]. intros replicas.
    case_match; [apply safe_ret; intros ??? [= <- _ _]; by eexists|].
    apply safe_vis. intros x Hx. cbn [resp] in x. destruct x as [|rs']; apply safe_ret; [done|].
    intros ??? [= <- _ _]. by eapply (wf_update_rs E HE).
Qed.

Lemma coordinatorReplicaset_safe : safeM E p coordinatorReplicaset (λ _, True).
Proof.
  unfold coordinatorReplicaset. do 2 stage_step.
  eapply (safeM_bind _ _ _ _ (λ _, True)).
  - apply safeM_lift. eapply safe_bind; [apply getReplicaSet_safe|]. intros [e|rs] _; cbn beta iota.
    + destruct (IsNotFound (Some e)); [|by apply safe_ret].
      apply safe_some; [by apply coordinator_rs_safe|]. intros [e'|rs]; [by apply safe_ret|].
      apply safe_vis. intros x Hx. cbn [resp] in x. destruct x; by apply safe_ret.
    + by apply safe_ret.
  - intros [e|[rs created]] _; repeat stage_step; done.
Qed.

Lemma workerReplicaset_safe :
  safeM E p workerReplicaset (λ r, ∀ c rs, r = inr (c, rs) → is_Some (rs_Replicas rs)).
Proof.
  unfold workerReplicaset. do 2 stage_step.
  eapply safeM_bind; [apply safeM_lift, createUpdateWorker_safe; done|].
  intros [e|[[rs created] updated]] Hr; [repeat stage_step; done|].
  specialize (Hr rs created updated eq_refl). repeat stage_step; try done.
  by intros ?? [= _ <-].
Qed.

Lemma handleReplicaSet_safe q rs lbls :
  same_cluster p q → safe E (handleReplicaSet q rs lbls) (λ _, True).
Proof.
  intros Hq. unfold handleReplicaSet.
  eapply (safe_bind _ _ _ (λ r, ∀ a, r = inr a →
    is_Some (hpa_MinReplicas a) ∧ is_Some (hpa_TargetCPUUtilizationPercentage a))).
  { apply safe_vis. intros x Hx. cbn [resp] in x. destruct x as [e|[|a l]].
    - case_match; by apply safe_ret.
    - by apply safe_ret.
    - apply safe_ret. intros a' [= <-]. eapply (wf_hpas E HE); [exact Hx|left]. }
  intros [e|a] Ha; cbn beta iota.
  - destruct (IsNotFound (Some e)); [|by apply safe_ret].
    destruct (checkAutoscalingEnabled q); [|by apply safe_ret].
    apply safe_some; [by apply hpa_spec_safe|]. intros [e'|a]; [by apply safe_ret|].
    apply safe_vis. intros x _. case_match; by apply safe_ret.
  - destruct (Ha a eq_refl) as [Hmin Htgt]. destruct (checkAutoscalingEnabled q) eqn:He.
    + apply safe_some; [by apply autoscale_safe|]. intros changed.
      case_match; [|by apply safe_ret].
      apply safe_some; [by apply hpa_spec_safe|]. intros [e'|a']; [by apply safe_ret|].
      apply safe_vis. intros x _. case_match; by apply safe_ret.
    + apply safe_vis. intros x _. cbn [resp] in x. destruct x; by apply safe_ret.
Qed.

Lemma hpaReplicaset_safe rs : safeM E p (hpaReplicaset rs) (λ _, True).
Proof.
  unfold hpaReplicaset. do 2 stage_step.
  eapply safeM_bind; [apply safeM_lift, handleReplicaSet_safe; done|].
  intros r _. repeat stage_step; done.
Qed.

Lemma getCPUUsage_safe q c : same_cluster p q → safe E (getCPUUsage q c) (λ _, True).
Proof.
  intros Hq. unfold getCPUUsage, getCoordinatorContainerName, getWorkerContainerPrefix.
  apply safe_some; [destruct c; rewrite (safe_name q _ Hq); by eexists|]. intros n.
  apply safe_vis. intros x _. cbn [resp] in x. destruct x; [by apply safe_ret|].
  case_match. by apply safe_ret.
Qed.

Lemma reportState_safe rs : is_Some (rs_Replicas rs) → safeM E p (reportState rs) (λ _, True).
Proof.
  intros Hrs. unfold reportState. do 2 stage_step.
  eapply (safeM_bind _ _ _ _ (λ _, True)).
  { apply safeM_lift, safe_vis. intros x _. cbn [resp] in x.
    destruct x as [|[|]]; by apply safe_ret. }
  intros [_ phase] _. stage_step; [|by apply safeM_ret].
  repeat stage_step; try done.
  eapply safeM_bind; [apply safeM_lift, getCPUUsage_safe; done|]. intros w _.
  eapply safeM_bind; [apply safeM_lift, getCPUUsage_safe; done|]. intros c _.
  stage_step. done.
Qed.

(** *** The stages in sequence *)

Lemma unlessChanged_safe m next :
  safeM E p m (λ _, True) → safeM E p next (λ _, True) →
  safeM E p (unlessChanged m next) (λ _, True).
Proof.
  intros Hm Hn. unfold unlessChanged. eapply safeM_bind; [exact Hm|]. intros [err changed] _.
  repeat case_match; (done || by apply safeM_ret).
Qed.

Lemma reconcileStages_safe : safeM E p reconcileStages (λ _, True).
Proof.
  unfold reconcileStages.
  apply unlessChanged_safe; [apply headless_safe|].
  apply unlessChanged_safe; [apply service_safe|].
  apply unlessChanged_safe; [apply coordinatorConfig_safe|].
  apply unlessChanged_safe; [apply workerConfig_safe|].
  apply unlessChanged_safe; [apply catalogConfig_safe|].
  apply unlessChanged_safe; [apply coordinatorReplicaset_safe|].
  eapply safeM_bind; [apply workerReplicaset_safe|].
  intros [e|[[] rs]] Hr; [by apply safeM_ret..|].
  apply unlessChanged_safe; [apply hpaReplicaset_safe|apply reportState_safe; by eapply Hr].
Qed.

Lemma reconcileLabelled_safe s :
  same_cluster p (sh_presto s) → safe E (reconcileLabelled s) (λ _, True).
Proof.
  intros Hs. eapply safe_mono; [|apply (safeM_bind E p _ _ (same_cluster p) (λ _, True)); [| |exact Hs]].
  - done.
  - apply safeM_get.
  - intros q _. eapply safeM_bind; [apply safeM_put_labels|]. intros _ _. apply reconcileStages_safe.
Qed.
End stages.

(** ** Reconcile *)

Section reconcile.
Context `{GoMapRange, Apimachinery}.

Lemma assign_safe E s :
  is_empty (p_Uuid (sh_presto s)) = true → safe E (reconcileBody s) (λ _, True).
Proof.
  intros He. unfold reconcileBody, safe. prog_simpl. rewrite He. prog_simpl. intros u _.
  prog_simpl. wp_focus.
  eapply wp_mono; [|apply wp_and; [apply (updateStatus_no_panic E (actUUID u))|apply updateStatus_spec]].
  - intros t [[[upd err] s']|] [Hr [_ Hst]]; [|done]. prog_simpl.
    destruct err as [e|]; prog_simpl; [by eexists|].
    destruct Hst as (_ & _ & Hst). rewrite (Hst eq_refl). prog_simpl. by eexists.
  - intros st. by eexists _, _.
Qed.

Lemma Reconcile_safe E request :
  wellformed E →
  (∀ p, E (GetPresto request) (inr p) →
     no_nil p ∧ (p_Uuid p = EmptyString ∨ uuid_ok (p_Uuid p))) →
  safe E (Reconcile request) (λ _, True).
Proof.
  intros HE Hget. unfold Reconcile. apply safe_vis. intros x Hx. cbn [resp] in x.
  destruct x as [e|p]; cbn beta iota.
  - destruct (IsNotFound (Some e)); [|by apply safe_ret]. apply safe_vis. intros [] _.
    by apply safe_ret.
  - destruct (Hget p Hx) as [Hp Hu].
    assert (safe E (reconcileBody (mkShared p ∅)) (λ _, True)) as Hbody.
    { destruct (is_empty (p_Uuid p)) eqn:He; [by apply assign_safe|].
      destruct Hu as [Hu|Hu]; [by rewrite Hu in He|]. unfold reconcileBody, safe. prog_simpl.
      rewrite He. by apply (reconcileLabelled_safe E HE p). }
    apply safe_vis. intros reg _. cbn [resp] in reg. destruct reg; cbn beta iota.
    all: eapply (safe_bind _ _ _ (λ _, True));
      [apply safe_ret || (apply safe_vis; intros; apply safe_ret); done|intros _ _].
    all: eapply safe_bind; [exact Hbody|]; intros [res s] _; by apply safe_ret.
Qed.

(** C7: Reconcile does not panic. It returns whatever the environment answers,
    errors and stale objects included, when the resources it reads have the
    pointers it dereferences set and a UUID that is empty or has the eight
    bytes of the names, and the API server answers with objects that have
    their required fields (ports, replicas, bounds of the autoscaler). *)
Theorem reconcile_no_panic {W} (h : env W) (request : NamespacedName) (w : W) :
  wellformed (responsesOf h) →
  (∀ w p, (h w (GetPresto request)).1 = inr p →
     no_nil p ∧ (p_Uuid p = EmptyString ∨ uuid_ok (p_Uuid p))) →
  ∃ res err, (run h (Reconcile request) w).1.1 = Returned (res, err).
Proof.
  intros HE Hget.
  destruct (wp_run (responsesOf h) h (Reconcile request) _ w (keeps_responses h)
    (Reconcile_safe (responsesOf h) request HE ltac:(intros p [w' Hw']; by eapply Hget)))
    as ([res err] & Ho & _). by exists res, err.
Qed.

(** C38: an enabled autoscaler whose bounds were removed from the spec makes
    Reconcile's autoscaler stage panic when the object is there: the
    comparison dereferences the nil pointers before createHPASpec, which
    checks them, is reached. When the object is not there yet, the same spec
    is reported as an error. *)
Theorem removed_bounds_panic p rs lbls a {W} (h : env W) w :
  checkAutoscalingEnabled p = true →
  as_MaxReplicas (ws_Autoscaling (Worker (Spec p))) = None →
  is_Some (as_MinReplicas (ws_Autoscaling (Worker (Spec p)))) →
  (h w (ListHPAs (p_Namespace p) lbls)).1 = inr [a] →
  (run h (handleReplicaSet p rs lbls) w).1.1 = Panicked
  ∧ createHPASpec p rs lbls EmptyString = Some (inl (OperatorError "MaxReplicas cannot be null")).
Proof.
  intros He Hmax [mi Hmi] Hl. split.
  - unfold handleReplicaSet, getPrestoHPA. cbv [mbind mret prog_mbind prog_ret call].
    cbn [prog_bind run]. destruct (h w _) as [x w1]. simpl in Hl. subst x. cbn [prog_bind].
    rewrite He. unfold autoscaleSpecChanged. rewrite Hmax. reflexivity.
  - unfold createHPASpec. by rewrite Hmi, Hmax.
Qed.
End reconcile.

(** ** Witnesses *)

#[local] Existing Instance sorted_range.
#[local] Existing Instance exampleApi.

(** A server with one service that answers every change with an error. *)
Definition refusingCluster : env unit :=
  fixedCluster (examplePresto autoscalingOff) [someService] [] [] [] [] (Some exampleError).

Lemma refusingCluster_wellformed : wellformed (responsesOf refusingCluster).
Proof.
  split.
  - intros ns sel l s u [[] [= ->]] ->%list_elem_of_singleton _. done.
  - intros ns sel l rs [[] [= ->]] Hin. by apply elem_of_nil in Hin.
  - by intros a rs [[] [=]].
  - by intros a rs [[] [=]].
  - intros ns sel l a [[] [= ->]] Hin. by apply elem_of_nil in Hin.
  - intros p p' [[] [= ->]]. done.
Qed.

Lemma refusingCluster_resource w p :
  (refusingCluster w (GetPresto exampleKey)).1 = inr p →
  no_nil p ∧ (p_Uuid p = EmptyString ∨ uuid_ok (p_Uuid p)).
Proof.
  intros [= <-]. split; [|right; apply Nat.leb_le; reflexivity].
  split; [by eexists|]. by vm_compute.
Qed.

Lemma reconcile_no_panic_witness : ∃ res err,
  (run refusingCluster (Reconcile exampleKey) tt).1.1 = Returned (res, err).
Proof.
  exact (reconcile_no_panic refusingCluster exampleKey tt refusingCluster_wellformed
           refusingCluster_resource).
Defined.

(** Autoscaling without a maximum, and an autoscaler made before it was removed. *)
Definition noMaximum : AutoscalingSpec :=
  mkAutoscalingSpec (Some true) (Some 2%Z) None (Some 20%Z).

Definition oldAutoscaler : HorizontalPodAutoscaler :=
  mkHPA (newObjectMeta "hpa-03f118d2" EmptyString "default" ∅ []) "apps/v1" "ReplicaSet"
    "workerreplicaset-03f118d2" (Some 2%Z) 3%Z (Some 20%Z).

Definition someReplicaSet : ReplicaSet :=
  newReplicaSet (examplePresto noMaximum) "workerreplicaset-03f118d2" ∅ 1%Z
    (mkPodSpec None [] EmptyString EmptyString []).

Lemma removed_bounds_panic_witness :
  (run (fixedCluster (examplePresto noMaximum) [] [] [] [oldAutoscaler] [] None)
     (handleReplicaSet (examplePresto noMaximum) someReplicaSet ∅) tt).1.1 = Panicked.
Proof.
  apply (removed_bounds_panic (examplePresto noMaximum) someReplicaSet ∅ oldAutoscaler);
    [reflexivity|reflexivity|by eexists|reflexivity].
Defined.
