(* ===== verification/Controller.v ===== *)
(** The controller around Reconcile: the registry of resources that Reconcile
    keeps for the periodic goroutine (newReconciler in
    pkg/controller/presto/presto_controller.go), and the watches (add). *)

From S2P Require Import Prelude ApiTypes K8sTypes Names Config Catalog Pods Effects.
From S2P Require Import Status Services ConfigMaps ReplicaSets Hpa Reconcile.
From S2P Require Import Examples Traces Store.

Local Open Scope string_scope.

(** ** The requests a program can make *)

Fixpoint prog_all {A} (P : req → Prop) (m : prog A) : Prop :=
  match m with
  | Ret _ | Panic => True
  | Vis r k => P r ∧ ∀ x, prog_all P (k x)
  end.

Definition all_M {A} (P : req → Prop) (m : M A) : Prop := ∀ s, prog_all P (m s).

Lemma prog_all_bind {A B} P (m : prog A) (f : A → prog B) :
  prog_all P m → (∀ a, prog_all P (f a)) → prog_all P (prog_bind f m).
Proof.
  intros Hm Hf. induction m as [a| |r k IH]; simpl in *; [apply Hf|done|].
  destruct Hm as [Hr Hk]. split; [done|]. intros x. by apply IH.
Qed.

Lemma all_M_bind {A B} P (m : M A) (f : A → M B) :
  all_M P m → (∀ a, all_M P (f a)) → all_M P (m ≫= f).
Proof. intros Hm Hf s. apply prog_all_bind; [apply Hm|]. intros [a s']. apply Hf. Qed.

Lemma all_M_lift {A} P (m : prog A) : prog_all P m → all_M P (liftP m).
Proof. intros Hm s. by apply prog_all_bind. Qed.

Lemma all_M_option {A} P (x : option A) : all_M P (liftO x).
Proof. apply all_M_lift. by destruct x. Qed.

(** The requests to the registry. *)
Definition on_registry (r : req) : bool :=
  match r with RegisteredLoad _ | RegisteredStore _ _ | RegisteredDelete _ => true | _ => false end.

Definition unregistered (r : req) : Prop := on_registry r = false.

(** Follow the structure of a program. *)
Ltac all_step :=
  lazymatch goal with
  | |- all_M _ (mret _) => intros ?; exact I
  | |- all_M _ (_ ≫= _) => apply all_M_bind; [|intros ?]
  | |- all_M _ (match ?x with _ => _ end) => destruct x
  | |- all_M _ (callM _) => apply all_M_lift; split; [reflexivity|intros ?; exact I]
  | |- all_M _ (liftO _) => apply all_M_option
  | |- all_M _ (liftP _) => apply all_M_lift
  | |- all_M _ (recordEvent _ _ _) => unfold recordEvent
  | |- all_M _ (storeBack ?x _) => intros ?; destruct x; exact I
  | |- all_M _ getPrestoObj => intros ?; exact I
  | |- all_M _ (putPrestoObj _) => intros ?; exact I
  | |- all_M _ getLabels => intros ?; exact I
  | |- all_M _ (putLabels _) => intros ?; exact I
  | |- prog_all _ (mret _) => exact I
  | |- prog_all _ (_ ≫= _) => apply prog_all_bind; [|intros ?]
  | |- prog_all _ (match ?x with _ => _ end) => destruct x
  | |- prog_all _ (call _) => split; [reflexivity|intros ?; exact I]
  | |- prog_all _ (ofOption ?x) => destruct x; exact I
  end.

Section registry_requests.
Context `{GoMapRange, Apimachinery}.

Lemma updateStatus_registry a : all_M unregistered (updateStatus a).
Proof. unfold updateStatus, getPresto. repeat all_step. Qed.

Ltac all_steps :=
  repeat (first [all_step | lazymatch goal with |- all_M _ (updateStatus _) =>
                              apply updateStatus_registry end]).

Lemma headless_registry : all_M unregistered headlessServiceConfig.
Proof. unfold headlessServiceConfig, createHeadLessPodDiscoverySvc. all_steps. Qed.

Lemma service_registry : all_M unregistered serviceConfig.
Proof. unfold serviceConfig, createOrGetService, getService. all_steps. Qed.

Lemma coordinatorConfig_registry : all_M unregistered coordinatorConfig.
Proof. unfold coordinatorConfig, createCoordinatorConfig, createConfigMap. all_steps. Qed.

Lemma workerConfig_registry : all_M unregistered workerConfig.
Proof. unfold workerConfig, createWorkerConfig, createConfigMap. all_steps. Qed.

Lemma catalogConfig_registry : all_M unregistered catalogConfig.
Proof. unfold catalogConfig, createCatalogConfig, createConfigMap. all_steps. Qed.

Lemma coordinatorReplicaset_registry : all_M unregistered coordinatorReplicaset.
Proof.
  unfold coordinatorReplicaset, createUpdateReplicaSetForCoordinator, getReplicaSet. all_steps.
Qed.

Lemma workerReplicaset_registry : all_M unregistered workerReplicaset.
Proof. unfold workerReplicaset, createUpdateReplicaSetForWorker, getReplicaSet. all_steps. Qed.

Lemma hpa_registry rs : all_M unregistered (hpaReplicaset rs).
Proof. unfold hpaReplicaset, handleReplicaSet, getPrestoHPA. all_steps. Qed.

Lemma reportState_registry rs : all_M unregistered (reportState rs).
Proof. unfold reportState, getCoordinatorPodPhase, getCPUUsage. all_steps. Qed.

Lemma reconcileBody_registry : all_M unregistered reconcileBody.
Proof.
  unfold reconcileBody, reconcileLabelled, reconcileStages, unlessChanged.
  repeat lazymatch goal with
  | |- all_M _ headlessServiceConfig => apply headless_registry
  | |- all_M _ serviceConfig => apply service_registry
  | |- all_M _ coordinatorConfig => apply coordinatorConfig_registry
  | |- all_M _ workerConfig => apply workerConfig_registry
  | |- all_M _ catalogConfig => apply catalogConfig_registry
  | |- all_M _ coordinatorReplicaset => apply coordinatorReplicaset_registry
  | |- all_M _ workerReplicaset => apply workerReplicaset_registry
  | |- all_M _ (hpaReplicaset _) => apply hpa_registry
  | |- all_M _ (reportState _) => apply reportState_registry
  | |- all_M _ (updateStatus _) => apply updateStatus_registry
  | |- _ => all_step
  end.
Qed.
End registry_requests.

(** ** The registry

    [registeredPrestos] is a sync.Map: a map with atomic operations. *)

Definition registry := gmap NamespacedName Presto.

(** The registry after a request, and what it answers. *)
Definition reg_after (r : req) (reg : registry) : registry :=
  match r with
  | RegisteredStore key p => <[key := p]> reg
  | RegisteredDelete key => delete key reg
  | _ => reg
  end.

Definition reg_answers (reg : registry) (r : req) : resp r → Prop :=
  match r return resp r → Prop with
  | RegisteredLoad key => λ x, x = reg !! key
  | _ => λ _, True
  end.

Class Registry {W} (h : env W) (reg : W → registry) : Prop :=
  registry_step w r :
    reg (h w r).2 = reg_after r (reg w) ∧ reg_answers (reg w) r (h w r).1.

(** The registry after a reconciliation whose read of the resource was answered
    with [x]. *)
Definition registered_after (request : NamespacedName) (x : goerror + Presto) (reg : registry)
    : registry :=
  match x with
  | inl e => if IsNotFound (Some e) then delete request reg else reg
  | inr p => match reg !! request with Some _ => reg | None => <[request := p]> reg end
  end.

(** The resources registered are registered under their own keys. *)
Definition keyed (reg : registry) : Prop := map_Forall (λ key p, key_of p = key) reg.

Section registry.
Context `{GoMapRange, Apimachinery}.
Context {W : Type} (h : env W) (reg : W → registry) `{!Registry h reg}.

Lemma unregistered_run {A} (m : prog A) w :
  prog_all unregistered m → reg (run h m w).2 = reg w.
Proof.
  revert w. induction m as [a| |r k IH]; intros w; simpl; [done..|]. intros [Hr Hk].
  destruct (registry_step w r) as [Hreg _]. destruct (h w r) as [x w1].
  specialize (IH x w1 (Hk x)). destruct (run h (k x) w1) as [[o t] w2]. simpl in *.
  rewrite IH, Hreg. by destruct r.
Qed.

Lemma run_Vis {A} r (k : resp r → prog A) w :
  (run h (Vis r k) w).2 = (run h (k (h w r).1) (h w r).2).2.
Proof. simpl. destruct (h w r) as [x w1]. simpl. by destruct (run h (k x) w1) as [[??]?]. Qed.

Lemma body_registry p :
  prog_all unregistered ('(res, _) ← reconcileBody (mkShared p ∅); mret res).
Proof. apply prog_all_bind; [apply reconcileBody_registry|]. by intros [??]. Qed.

(** C31: the registry of the periodic goroutine follows the resources: a
    reconciliation that reads a resource registers it once, one that finds it
    deleted unregisters it, and one that fails to read it changes nothing. *)
Theorem registry_follows request w :
  reg (run h (Reconcile request) w).2
  = registered_after request (h w (GetPresto request)).1 (reg w).
Proof.
  unfold Reconcile. cbv [mbind mret prog_mbind prog_ret call]. cbn [prog_bind]. rewrite run_Vis.
  destruct (registry_step w (GetPresto request)) as [Hget _].
  destruct (h w (GetPresto request)) as [x w1]. cbn [fst snd reg_after] in Hget |- *.
  rewrite <-Hget. clear Hget w. destruct x as [e|p]; cbn [prog_bind registered_after].
  - destruct (IsNotFound (Some e)); cbn [prog_bind]; [|done]. rewrite run_Vis.
    cbn [run fst snd]. by destruct (registry_step w1 (RegisteredDelete request)) as [-> _].
  - rewrite run_Vis. destruct (registry_step w1 (RegisteredLoad request)) as [Hl Hx].
    cbn [reg_after reg_answers] in Hl, Hx. rewrite <-Hx, <-Hl.
    destruct (h w1 (RegisteredLoad request)) as [y w2]. simpl. destruct y as [q|]; cbn [prog_bind].
    + apply unregistered_run, body_registry.
    + rewrite run_Vis. destruct (registry_step w2 (RegisteredStore request p)) as [Hs _].
      cbn [reg_after] in Hs. rewrite <-Hs. apply unregistered_run, body_registry.
Qed.
End registry.

(** ** The watches *)

(** The arguments of c.Watch: a source of events, how an event becomes a
    request, and the predicate on events, if any. *)
Inductive watchSource := SourceChannel | SourceKind (kind : string).
Inductive watchHandler := EnqueueRequestForObject | EnqueueRequestForOwner (ownerKind : string).

Record watch := mkWatch {
  wa_source : watchSource;
  wa_handler : watchHandler;
  wa_generationChanged : bool
}.

(** The watches of add, in its order. *)
Definition watches : list watch :=
  [mkWatch SourceChannel EnqueueRequestForObject false;
   mkWatch (SourceKind "Presto") EnqueueRequestForObject true;
   mkWatch (SourceKind "Service") (EnqueueRequestForOwner "Presto") false;
   mkWatch (SourceKind "ConfigMap") (EnqueueRequestForOwner "Presto") false;
   mkWatch (SourceKind "ReplicaSet") (EnqueueRequestForOwner "Presto") false].

(** The calls of c.Watch up to the first error. *)
Fixpoint start_watches (Watch : watch → option goerror) (l : list watch)
    : list watch * option goerror :=
  match l with
  | [] => ([], None)
  | w :: rest =>
    match Watch w with
    | Some err => ([w], Some err)
    | None => let '(started, err) := start_watches Watch rest in (w :: started, err)
    end
  end.

(** [New] and [Watch] are the functions of controller-runtime. *)
Definition add (New : option goerror) (Watch : watch → option goerror)
    : list watch * option goerror :=
  match New with
  | Some err => ([], Some err)
  | None => start_watches Watch watches
  end.

(** The kind of the object a change is about. *)
Definition kind_of (r : req) : string :=
  match r with
  | CreateService _ => "Service"
  | CreateConfigMap _ => "ConfigMap"
  | CreateReplicaSet _ | UpdateReplicaSet _ => "ReplicaSet"
  | CreateHPA _ | UpdateHPA _ | DeleteHPA _ => "HorizontalPodAutoscaler"
  | _ => EmptyString
  end.

Lemma start_watches_spec Watch l :
  (start_watches Watch l).1 `prefix_of` l ∧
  ((start_watches Watch l).2 = None ↔ Forall (λ w, Watch w = None) l) ∧
  ((start_watches Watch l).2 = None → (start_watches Watch l).1 = l).
Proof.
  induction l as [|w l (IH1 & IH2 & IH3)]; simpl; [done|].
  destruct (Watch w) as [e|] eqn:Hw; simpl.
  - split; [by apply prefix_cons, prefix_nil|]. rewrite Forall_cons. naive_solver.
  - destruct (start_watches Watch l) as [started err]. simpl in *.
    split; [by apply prefix_cons|]. rewrite Forall_cons. split; [naive_solver|].
    intros He. by rewrite IH3.
Qed.

(** C39: when the controller is added without an error, it could be made and all
    five watches were started, and every kind of object that Reconcile changes
    is watched through its owner, except for autoscalers, which are not. *)
Theorem controller_added New Watch :
  (add New Watch).2 = None →
  New = None ∧ (add New Watch).1 = watches ∧ (∀ w, w ∈ watches → Watch w = None) ∧
  ∀ r, child_write r = true →
    (mkWatch (SourceKind (kind_of r)) (EnqueueRequestForOwner "Presto") false ∈ (add New Watch).1
     ↔ on_hpa r = false).
Proof.
  unfold add. destruct New as [e|]; [done|]. destruct (start_watches_spec Watch watches) as (_ & Hs & Hl).
  intros He. split; [done|]. split; [by apply Hl|]. split.
  - by apply Forall_forall, Hs.
  - rewrite (Hl He). intros r Hr. unfold watches. destruct r; try discriminate Hr; simpl.
    all: split; [by intros; set_solver|]; intros Hh; try discriminate Hh; set_solver.
Qed.

(** ** Witnesses *)

#[local] Existing Instance sorted_range.
#[local] Existing Instance exampleApi.

(** A cluster of one resource, with a registry. *)
Definition registryCluster (p : Presto) : env registry := λ reg r,
  match r as r return resp r * registry with
  | GetPresto key =>
    (if decide (key = key_of p) then inr p else inl (NewNotFound "prestos" (nn_Name key)), reg)
  | RegisteredLoad key => (reg !! key, reg)
  | RegisteredStore key q => (tt, <[key := q]> reg)
  | RegisteredDelete key => (tt, delete key reg)
  | r' => ((emptyCluster p None tt r').1, reg)
  end.

#[export] Instance registryCluster_ok p : Registry (registryCluster p) id.
Proof. intros reg r. by destruct r. Qed.

Lemma registry_follows_witness :
  id (run (registryCluster (examplePresto autoscalingOff)) (Reconcile exampleKey) ∅).2
  = {[exampleKey := examplePresto autoscalingOff]}.
Proof.
  rewrite (registry_follows (registryCluster (examplePresto autoscalingOff)) id exampleKey ∅).
  reflexivity.
Defined.

Lemma controller_added_witness : (add None (λ _, None)).1 = watches.
Proof. exact (proj1 (proj2 (controller_added None (λ _, None) eq_refl))). Defined.
