(* ===== verification/Periodic.v ===== *)
(** The periodic goroutine beside the worker: the goroutine that newReconciler
    starts in pkg/controller/presto/presto_controller.go, the worker that calls
    Reconcile, and the sync.Map and the channel between them, as a step relation
    on their interleavings. *)

From S2P Require Import Prelude ApiTypes K8sTypes Names Config Catalog Pods Effects.
From S2P Require Import Status Services ConfigMaps ReplicaSets Hpa Reconcile.
From S2P Require Import Examples Traces Store Controller.

(** ** State *)

(** A call of sync.Map's Range in progress. Range visits no key twice; a key that
    is in the map throughout the call is visited, and a key is visited with a
    value it had at some point during the call. *)
Record round := mkRound {
  rd_visited : gset NamespacedName;
  rd_values : list (NamespacedName * Presto);
  rd_kept : gset NamespacedName
}.

Definition start_round (reg : registry) : round := mkRound ∅ (map_to_list reg) (dom reg).

Definition visit (key : NamespacedName) (rd : round) : round :=
  mkRound ({[key]} ∪ rd_visited rd) (rd_values rd) (rd_kept rd).

(** What a concurrent operation on the map means for the call. *)
Definition notice (r : req) (rd : round) : round :=
  match r with
  | RegisteredStore key p => mkRound (rd_visited rd) ((key, p) :: rd_values rd) (rd_kept rd)
  | RegisteredDelete key => mkRound (rd_visited rd) (rd_values rd) (rd_kept rd ∖ {[key]})
  | _ => rd
  end.

(** Where the goroutine is: in the select, in Range, or in the callback of Range,
    sending an event on the channel. *)
Inductive goroutine :=
  | Waiting
  | Ranging (rd : round)
  | Sending (v : Presto) (rd : round).

Definition notice_go (r : req) (g : goroutine) : goroutine :=
  match g with
  | Waiting => Waiting
  | Ranging rd => Ranging (notice r rd)
  | Sending v rd => Sending v (notice r rd)
  end.

(** The other end of the channel, source.Channel of controller-runtime: whether
    its watch was started, so that it receives, and the events it has received
    and not yet handed to the handler of the watch. *)
Record receiver := mkReceiver {
  rc_started : bool;
  rc_buffer : list Presto
}.

(** The registry, whether a tick is waiting in the ticker's channel, the
    goroutine, the receiver, the work queue, and the reconciliation in progress,
    if any: the controller has one worker. *)
Record sys := mkSys {
  sy_reg : registry;
  sy_tick : bool;
  sy_go : goroutine;
  sy_recv : receiver;
  sy_queue : gset NamespacedName;
  sy_worker : option (prog (Result * option goerror))
}.

Definition initial : sys := mkSys ∅ false Waiting (mkReceiver false []) ∅ None.

Definition with_tick (s : sys) (b : bool) : sys :=
  mkSys (sy_reg s) b (sy_go s) (sy_recv s) (sy_queue s) (sy_worker s).
Definition with_go (s : sys) (g : goroutine) : sys :=
  mkSys (sy_reg s) (sy_tick s) g (sy_recv s) (sy_queue s) (sy_worker s).
Definition with_recv (s : sys) (c : receiver) : sys :=
  mkSys (sy_reg s) (sy_tick s) (sy_go s) c (sy_queue s) (sy_worker s).
Definition with_queue (s : sys) (q : gset NamespacedName) : sys :=
  mkSys (sy_reg s) (sy_tick s) (sy_go s) (sy_recv s) q (sy_worker s).
Definition with_worker (s : sys) (w : option (prog (Result * option goerror))) : sys :=
  mkSys (sy_reg s) (sy_tick s) (sy_go s) (sy_recv s) (sy_queue s) w.

(** Starting a watch: the one on the channel makes the receiver receive. *)
Definition start_watch (w : watch) (c : receiver) : receiver :=
  match wa_source w with
  | SourceChannel => mkReceiver true (rc_buffer c)
  | SourceKind _ => c
  end.

(** ** Steps *)

Inductive label :=
  | Tick
  | StartRange
  | Visit (key : NamespacedName)
  | Send (v : Presto)
  | EndRange
  | WatchStarted (w : watch)
  | Deliver (v : Presto)
  | Enqueue (key : NamespacedName)
  | Take (key : NamespacedName)
  | Answer (r : req) (x : resp r)
  | Done.

Section steps.
Context `{GoMapRange, Apimachinery}.

(** What is known of the responses of the API server, and the size of the buffer
    of the receiver. *)
Context (E : contract) (size_of_buffer : nat).

(** A worker whose reconciliation panicked takes no further step. *)
Inductive step : sys → label → sys → Prop :=
  (** The ticker's channel holds one tick; further ones are dropped. *)
  | step_tick s : step s Tick (with_tick s true)
  | step_start s :
      sy_go s = Waiting → sy_tick s = true →
      step s StartRange (with_go (with_tick s false) (Ranging (start_round (sy_reg s))))
  | step_visit s rd key v :
      sy_go s = Ranging rd → key ∉ rd_visited rd → (key, v) ∈ rd_values rd →
      step s (Visit key) (with_go s (Sending v (visit key rd)))
  (** The channel has no buffer of its own: a send waits until the receiver takes
      the event, which it does once its watch is started, while it has room. *)
  | step_send s v rd :
      sy_go s = Sending v rd → rc_started (sy_recv s) = true →
      length (rc_buffer (sy_recv s)) < size_of_buffer →
      step s (Send v)
        (with_recv (with_go s (Ranging rd)) (mkReceiver true (rc_buffer (sy_recv s) ++ [v])))
  | step_end s rd :
      sy_go s = Ranging rd → rd_kept rd ⊆ rd_visited rd →
      step s EndRange (with_go s Waiting)
  (** The controller starts the watches of add, in any order. *)
  | step_watch s w :
      w ∈ watches →
      step s (WatchStarted w) (with_recv s (start_watch w (sy_recv s)))
  (** The handler of the watch queues the resource that an event names. *)
  | step_deliver s v rest :
      rc_buffer (sy_recv s) = v :: rest →
      step s (Deliver v)
        (with_queue (with_recv s (mkReceiver (rc_started (sy_recv s)) rest))
           ({[key_of v]} ∪ sy_queue s))
  (** The other watches. *)
  | step_enqueue s key : step s (Enqueue key) (with_queue s ({[key]} ∪ sy_queue s))
  | step_take s key :
      sy_worker s = None → key ∈ sy_queue s →
      step s (Take key)
        (with_worker (with_queue s (sy_queue s ∖ {[key]})) (Some (Reconcile key)))
  | step_answer s r k x :
      sy_worker s = Some (Vis r k) → E r x → reg_answers (sy_reg s) r x →
      step s (Answer r x)
        (mkSys (reg_after r (sy_reg s)) (sy_tick s) (notice_go r (sy_go s)) (sy_recv s)
           (sy_queue s) (Some (k x)))
  | step_done s a : sy_worker s = Some (Ret a) → step s Done (with_worker s None).

Inductive exec : sys → list label → sys → Prop :=
  | exec_nil s : exec s [] s
  | exec_cons s l s' ls s'' : step s l s' → exec s' ls s'' → exec s (l :: ls) s''.

(** The steps of the goroutine within a round. *)
Definition on_goroutine (l : label) : bool :=
  match l with Visit _ | Send _ | EndRange => true | _ => false end.

(** The resources the events of an execution name. *)
Definition sent (ls : list label) : list NamespacedName :=
  omap (λ l, match l with Send v => Some (key_of v) | _ => None end) ls.

(** The resources queued by the handler of the channel. *)
Definition delivered (ls : list label) : list NamespacedName :=
  omap (λ l, match l with Deliver v => Some (key_of v) | _ => None end) ls.

(** A resource is registered. *)
Definition registers (l : label) : bool :=
  match l with Answer (RegisteredStore _ _) _ => true | _ => false end.

Definition count (f : label → bool) (ls : list label) : nat :=
  length (filter (λ l, f l = true) ls).

(** The channel keeps the order of its events. *)
Lemma step_fifo s l s' :
  step s l s' →
  (key_of <$> rc_buffer (sy_recv s)) ++ sent [l]
  = delivered [l] ++ (key_of <$> rc_buffer (sy_recv s')).
Proof.
  destruct 1 as [| | |s v rd Hgo Hst Hlen| |s w Hw|s v rest Hb| | | |]; simpl;
    rewrite ?app_nil_r; try done.
  - by rewrite fmap_app.
  - unfold start_watch. by destruct (wa_source w).
  - by rewrite Hb.
Qed.

Lemma exec_fifo s ls s' :
  exec s ls s' →
  (key_of <$> rc_buffer (sy_recv s)) ++ sent ls
  = delivered ls ++ (key_of <$> rc_buffer (sy_recv s')).
Proof.
  induction 1 as [s|s l s1 ls s2 Hs Hex IH]; [by rewrite app_nil_r|].
  change (sent (l :: ls)) with (sent ([l] ++ ls)).
  change (delivered (l :: ls)) with (delivered ([l] ++ ls)). unfold sent, delivered.
  rewrite !omap_app, app_assoc. fold (sent [l]) (delivered [l]) (sent ls) (delivered ls).
  by rewrite (step_fifo _ _ _ Hs), <-app_assoc, IH, app_assoc.
Qed.

(** ** The resources are registered under their keys

    when a resource is read under its key. *)

Fixpoint stores_keyed {A} (m : prog A) : Prop :=
  match m with
  | Ret _ | Panic => True
  | Vis r k =>
    match r with RegisteredStore key p => key_of p = key | _ => True end
    ∧ ∀ x, E r x → stores_keyed (k x)
  end.

Lemma unregistered_keyed {A} (m : prog A) : prog_all unregistered m → stores_keyed m.
Proof.
  induction m as [a| |r k IH]; [done..|]. intros [Hr Hk]. split; [by destruct r|].
  intros x _. by apply IH, Hk.
Qed.

Definition keyed_values (g : goroutine) : Prop :=
  match g with
  | Waiting => True
  | Ranging rd => ∀ key v, (key, v) ∈ rd_values rd → key_of v = key
  | Sending v rd => key_of v ∈ rd_visited rd ∧ ∀ key v, (key, v) ∈ rd_values rd → key_of v = key
  end.

Definition keyed_sys (s : sys) : Prop :=
  keyed (sy_reg s) ∧ keyed_values (sy_go s)
  ∧ match sy_worker s with Some m => stores_keyed m | None => True end.

Section rounds.
Context (HE : ∀ key p, E (GetPresto key) (inr p) → key_of p = key).

Lemma Reconcile_keyed key : stores_keyed (Reconcile key).
Proof.
  unfold Reconcile. cbv [mbind mret prog_mbind prog_ret call]. cbn [prog_bind stores_keyed].
  split; [done|]. intros [e|p] Hx; cbn [prog_bind stores_keyed].
  - destruct (IsNotFound _); cbn [prog_bind stores_keyed]; [|done]. by split.
  - split; [done|]. intros [q|] _; cbn [prog_bind stores_keyed].
    + apply unregistered_keyed, body_registry.
    + split; [by apply HE|]. intros _ _. apply unregistered_keyed, body_registry.
Qed.

Lemma step_keyed s l s' : step s l s' → keyed_sys s → keyed_sys s'.
Proof.
  intros Hs (Hr & Hg & Hw). destruct Hs as
    [s|s Hgo Ht|s rd key v Hgo Hk Hv|s v rd Hgo Hst Hlen|s rd Hgo Hk|s w Hwa|s v rest Hb|s key
    |s key Hn Hq|s r k x Hm Hx Ha|s a Hm];
    unfold keyed_sys; simpl in *; try done.
  - split; [done|]. split; [|done]. intros key v Hv%elem_of_map_to_list. by apply Hr.
  - rewrite Hgo in Hg. split; [done|]. split; [|done]. split; [|done].
    rewrite (Hg key v) by done. set_solver.
  - rewrite Hgo in Hg. by destruct Hg.
  - split; [done|]. split; [done|]. apply Reconcile_keyed.
  - rewrite Hm in Hw. destruct Hw as [Hst Hk]. split; [|split; [|by apply Hk]].
    + destruct r; try done; simpl; [by apply map_Forall_insert_2|by apply map_Forall_delete].
    + destruct r; try (by destruct (sy_go s)); simpl.
      all: destruct (sy_go s); simpl in *; try done; [|destruct Hg as [? Hg]; split; [done|]].
      all: intros key' v' [[= -> ->]|Hv]%elem_of_cons; [done|by apply Hg].
Qed.

Lemma exec_keyed s ls s' : exec s ls s' → keyed_sys s → keyed_sys s'.
Proof. induction 1; [done|]. intros Hk. eauto using step_keyed. Qed.

Lemma initial_keyed : keyed_sys initial.
Proof. done. Qed.

(** ** A round *)

Definition round_of (g : goroutine) : option round :=
  match g with Waiting => None | Ranging rd | Sending _ rd => Some rd end.

(** The key of the event being sent. *)
Definition pending (g : goroutine) : list NamespacedName :=
  match g with Sending v _ => [key_of v] | _ => [] end.

(** A key that was registered when the round started, or since. *)
Definition known (reg : registry) (ls : list label) (key : NamespacedName) : Prop :=
  key ∈ dom reg ∨ ∃ p, Answer (RegisteredStore key p) tt ∈ ls.

(** The events of a round that started with the registry [reg], after the steps
    [ls]. *)
Definition round_inv (reg : registry) (ls : list label) (s : sys) : Prop :=
  keyed_sys s ∧ ∃ rd, round_of (sy_go s) = Some rd
  ∧ (∀ key, key ∈ rd_visited rd ↔ key ∈ (sent ls ++ pending (sy_go s)))
  ∧ NoDup (sent ls ++ pending (sy_go s))
  ∧ (∀ key, key ∈ dom reg → Answer (RegisteredDelete key) tt ∉ ls → key ∈ rd_kept rd)
  ∧ (∀ key v, (key, v) ∈ rd_values rd → known reg ls key)
  ∧ (∀ key, key ∈ rd_visited rd → known reg ls key).

Lemma known_mono reg ls l key : known reg ls key → known reg (ls ++ [l]) key.
Proof. intros [?|[p Hp]]; [by left|right]. exists p. set_solver. Qed.

Lemma sent_snoc ls l :
  sent (ls ++ [l]) = sent ls ++ match l with Send v => [key_of v] | _ => [] end.
Proof. unfold sent. rewrite omap_app. by destruct l. Qed.

Lemma deleted_snoc key ls l :
  Answer (RegisteredDelete key) tt ∉ ls ++ [l] → Answer (RegisteredDelete key) tt ∉ ls.
Proof. set_solver. Qed.

(** Steps that neither send nor touch the round. *)
Lemma round_inv_same reg ls l s s' :
  round_inv reg ls s → keyed_sys s' → sy_go s' = sy_go s →
  match l with Send _ => False | _ => True end →
  round_inv reg (ls ++ [l]) s'.
Proof.
  intros (_ & rd & Hrd & Hv & Hn & Hk & Hval & Hkn) Hk' Hgo Hl. split; [done|].
  exists rd. rewrite Hgo, sent_snoc. replace (match l with Send v => _ | _ => _ end) with (@nil NamespacedName)
    by (by destruct l). rewrite app_nil_r.
  split_and!; eauto using known_mono, deleted_snoc.
Qed.

Lemma round_inv_answer reg ls s r x s' :
  round_inv reg ls s → keyed_sys s' → sy_go s' = notice_go r (sy_go s) →
  round_inv reg (ls ++ [Answer r x]) s'.
Proof.
  intros (_ & rd & Hrd & Hv & Hn & Hk & Hval & Hkn) Hk' Hgo. split; [done|].
  exists (notice r rd). rewrite Hgo, sent_snoc, app_nil_r.
  assert (pending (notice_go r (sy_go s)) = pending (sy_go s)) as -> by (by destruct (sy_go s)).
  assert (rd_visited (notice r rd) = rd_visited rd) as -> by (by destruct r).
  split_and!; eauto using known_mono.
  - destruct (sy_go s); by simplify_eq/=.
  - intros key Hd Hni. pose proof (Hk key Hd (deleted_snoc _ _ _ Hni)).
    destruct r; try done. simpl. apply elem_of_difference. split; [done|].
    intros ->%elem_of_singleton. apply Hni. destruct x. set_solver.
  - intros key v Hin. destruct r; try (by eapply known_mono, Hval). simpl in Hin.
    apply elem_of_cons in Hin as [[= -> ->]|Hin]; [|by eapply known_mono, Hval].
    right. exists p. destruct x. set_solver.
Qed.

Lemma round_inv_step reg ls s l s' :
  round_inv reg ls s → step s l s' → l ≠ EndRange → round_inv reg (ls ++ [l]) s'.
Proof.
  intros Hinv Hs Hl. pose proof (step_keyed _ _ _ Hs (proj1 Hinv)) as Hk'.
  destruct Hs as
    [s|s Hgo Ht|s rd key v Hgo Hk Hv|s v rd Hgo Hst Hlen|s rd Hgo Hk|s w Hwa|s v rest Hb|s key
    |s key Hn Hq|s r k x Hm Hx Ha|s a Hm];
    try (by eapply round_inv_same).
  - destruct Hinv as (_ & rd & Hrd & _). by rewrite Hgo in Hrd.
  - destruct Hinv as ((_ & Hg & _) & rd' & Hrd & Hvis & Hn & Hkept & Hval & Hkn).
    rewrite Hgo in *. simplify_eq/=. split; [done|]. exists (visit key rd').
    rewrite app_nil_r in *. rewrite sent_snoc, app_nil_r. simpl. rewrite (Hg key v) by done.
    split_and!; eauto using known_mono, deleted_snoc.
    + intros key'. rewrite elem_of_union, elem_of_singleton, Hvis, elem_of_app, list_elem_of_singleton.
      tauto.
    + apply NoDup_app. split; [done|]. split; [|apply NoDup_singleton].
      intros k' Hk1 ->%list_elem_of_singleton. by apply Hk, Hvis.
    + intros key' [->%elem_of_singleton|Hin]%elem_of_union; [|by apply known_mono, Hkn].
      by eapply known_mono, Hval.
  - destruct Hinv as (_ & rd' & Hrd & Hvis & Hn & Hkept & Hval & Hkn).
    rewrite Hgo in *. simplify_eq/=. split; [done|]. exists rd'.
    rewrite sent_snoc. simpl. rewrite app_nil_r.
    split_and!; eauto using known_mono, deleted_snoc.
  - by eapply round_inv_answer.
Qed.

Lemma round_inv_exec reg ls s ls' s' :
  round_inv reg ls s → exec s ls' s' → EndRange ∉ ls' → round_inv reg (ls ++ ls') s'.
Proof.
  intros Hinv Hex. revert ls Hinv. induction Hex as [s|s l s1 ls' s2 Hs Hex IH]; intros ls Hinv Hni.
  - by rewrite app_nil_r.
  - rewrite cons_middle, app_assoc. apply IH; [|set_solver].
    eapply round_inv_step; [done|done|set_solver].
Qed.

Lemma start_round_inv s s' :
  keyed_sys s → step s StartRange s' → round_inv (sy_reg s) [] s'.
Proof.
  intros Hk Hs. pose proof (step_keyed _ _ _ Hs Hk) as Hk'. inversion Hs; subst. split; [done|].
  exists (start_round (sy_reg s)). split; [done|]. simpl.
  split_and!; try set_solver; [apply NoDup_nil_2|].
  intros key v Hin%elem_of_map_to_list. left. by apply elem_of_dom.
Qed.

(** C12: a periodic round. In every interleaving of the goroutine, the worker and
    the watches, from the start of the operator: the events of one round name
    different resources; each was registered when the round started or during
    it; and every resource that was registered when the round started, and that
    no reconciliation found deleted since, gets its event before the round ends.
    The receiver queues the resources of the events it was sent in their order,
    none left out or added: with those it had received before, they are the ones
    it has queued since, followed by the ones it still holds. *)
Theorem periodic_round ls0 s s0 ls s1 s2 :
  exec initial ls0 s → step s StartRange s0 → exec s0 ls s1 → EndRange ∉ ls →
  step s1 EndRange s2 →
  NoDup (sent ls)
  ∧ (∀ key, key ∈ sent ls → known (sy_reg s) ls key)
  ∧ (∀ key, key ∈ dom (sy_reg s) → Answer (RegisteredDelete key) tt ∉ ls → key ∈ sent ls)
  ∧ (key_of <$> rc_buffer (sy_recv s0)) ++ sent ls
    = delivered ls ++ (key_of <$> rc_buffer (sy_recv s1)).
Proof.
  intros Hinit Hst Hex Hni Hend.
  assert (round_inv (sy_reg s) ([] ++ ls) s1) as (_ & rd & Hrd & Hv & Hn & Hk & _ & Hkn).
  { eapply round_inv_exec; [|done|done]. eapply start_round_inv; [|done].
    eapply exec_keyed; [done|apply initial_keyed]. }
  simpl in *. inversion Hend as [| | | |s' rd' Hgo Hsub| | | | | |]; subst. rewrite Hgo in *.
  simplify_eq/=. rewrite app_nil_r in *. split_and!; [done| | |].
  - intros key Hin. by apply Hkn, Hv.
  - intros key Hd Hdel. by apply Hv, Hsub, Hk.
  - by apply exec_fifo.
Qed.
End rounds.

(** ** Rounds end *)

(** The keys Range may still visit. *)
Definition unvisited (rd : round) : gset NamespacedName :=
  list_to_set (rd_values rd).*1 ∖ rd_visited rd.

(** The steps a round may still take, when the registry is left alone. *)
Definition steps_left (g : goroutine) : nat :=
  match g with
  | Waiting => 0
  | Ranging rd => 2 * size (unvisited rd) + 1
  | Sending _ rd => 2 * size (unvisited rd) + 2
  end.

Lemma unvisited_visit key v rd :
  (key, v) ∈ rd_values rd → key ∉ rd_visited rd →
  size (unvisited rd) = S (size (unvisited (visit key rd))).
Proof.
  intros Hv Hk. unfold unvisited. simpl.
  set (X := list_to_set (rd_values rd).*1 : gset NamespacedName).
  assert (X ∖ rd_visited rd = {[key]} ∪ X ∖ ({[key]} ∪ rd_visited rd)) as ->.
  { assert (key ∈ X) by (apply elem_of_list_to_set, list_elem_of_fmap; by exists (key, v)).
    apply set_eq. intros k. destruct (decide (k = key)); set_solver. }
  rewrite size_union by set_solver. by rewrite size_singleton.
Qed.

(** A registration adds a key to visit, another step of the system none. *)
Lemma notice_left r g :
  steps_left (notice_go r g)
  ≤ steps_left g + match r with RegisteredStore _ _ => 2 | _ => 0 end.
Proof.
  assert (∀ rd, size (unvisited (notice r rd))
          ≤ size (unvisited rd) + match r with RegisteredStore _ _ => 1 | _ => 0 end) as Hn.
  { intros rd. destruct r; simpl; rewrite ?Nat.add_0_r; try done.
    trans (size ({[key]} ∪ unvisited rd));
      [apply subseteq_size; unfold unvisited; simpl; set_solver|].
    rewrite size_union_alt, size_singleton.
    pose proof (subseteq_size (unvisited rd ∖ {[key]}) (unvisited rd) ltac:(set_solver)). lia. }
  destruct g as [|rd|v rd]; simpl; [lia|..]; specialize (Hn rd); destruct r; simpl in *; lia.
Qed.

Lemma step_left s l s' :
  step s l s' → l ≠ StartRange →
  (if on_goroutine l then 1 else 0) + steps_left (sy_go s')
  ≤ steps_left (sy_go s) + if registers l then 2 else 0.
Proof.
  intros Hs Hl. destruct Hs as
    [s|s Hgo Ht|s rd key v Hgo Hk Hv|s v rd Hgo Hst Hlen|s rd Hgo Hk|s w Hwa|s v rest Hb|s key
    |s key Hn Hq|s r k x Hm Hx Ha|s a Hm]; simpl; try lia; try done.
  - rewrite Hgo. simpl. rewrite (unvisited_visit key v rd) by done. lia.
  - rewrite Hgo. simpl. lia.
  - rewrite Hgo. simpl. lia.
  - pose proof (notice_left r (sy_go s)). destruct r; simpl in *; lia.
Qed.

Lemma count_cons f l ls : count f (l :: ls) = (if f l then 1 else 0) + count f ls.
Proof.
  unfold count. rewrite filter_cons. destruct (f l) eqn:Hf.
  - by rewrite decide_True.
  - by rewrite decide_False.
Qed.

Lemma exec_left s ls s' :
  exec s ls s' → StartRange ∉ ls →
  count on_goroutine ls ≤ steps_left (sy_go s) + 2 * count registers ls.
Proof.
  induction 1 as [s|s l s1 ls s2 Hs Hex IH]; [unfold count; simpl; lia|].
  intros [Hl Hls]%not_elem_of_cons. specialize (IH Hls). rewrite !count_cons.
  pose proof (step_left _ _ _ Hs (not_eq_sym Hl)). destruct (registers l); lia.
Qed.

(** The keys that must be visited have values. *)
Definition covered (s : sys) : Prop :=
  ∀ rd, round_of (sy_go s) = Some rd → rd_kept rd ⊆ list_to_set (rd_values rd).*1.

Lemma step_covered s l s' : step s l s' → covered s → covered s'.
Proof.
  intros Hs Hc rd'. destruct Hs as
    [s|s Hgo Ht|s rd key v Hgo Hk Hv|s v rd Hgo Hst Hlen|s rd Hgo Hk|s w Hwa|s v rest Hb|s key
    |s key Hn Hq|s r k x Hm Hx Ha|s a Hm];
    simpl; try done; try (by apply Hc).
  - intros [= <-]. simpl. intros key Hd. apply elem_of_dom in Hd as [v Hv].
    apply elem_of_list_to_set, list_elem_of_fmap. exists (key, v).
    split; [done|]. by apply elem_of_map_to_list.
  - intros [= <-]. apply (Hc rd). by rewrite Hgo.
  - intros [= <-]. apply (Hc rd). by rewrite Hgo.
  - intros Hr. assert (∃ rd, round_of (sy_go s) = Some rd ∧ rd' = notice r rd) as (rd & Hrd & ->).
    { destruct (sy_go s); by simplify_eq/=; eauto. }
    specialize (Hc rd Hrd). destruct r; simpl; set_solver.
Qed.

Lemma exec_covered s ls s' : exec s ls s' → covered s → covered s'.
Proof. induction 1; [done|]. intros Hc. eauto using step_covered. Qed.

(** *** A round can end *)

(** The steps that end a round: those of the goroutine, and of the receiver of
    its events. *)
Definition periodic (l : label) : bool :=
  match l with
  | Deliver _ => true
  | WatchStarted w => match wa_source w with SourceChannel => true | _ => false end
  | _ => on_goroutine l
  end.

Context (Hsize : 0 < size_of_buffer).

Lemma exec_app s ls s' ls' s'' : exec s ls s' → exec s' ls' s'' → exec s (ls ++ ls') s''.
Proof. induction 1; [done|]. intros. simpl. by econstructor; [|apply IHexec]. Qed.

(** The receiver can hand over what it holds. *)
Lemma receiver_drains buf s :
  rc_buffer (sy_recv s) = buf →
  ∃ ls s', exec s ls s' ∧ Forall (λ l, periodic l = true) ls
    ∧ sy_go s' = sy_go s ∧ rc_started (sy_recv s') = rc_started (sy_recv s)
    ∧ rc_buffer (sy_recv s') = [].
Proof.
  revert s. induction buf as [|v rest IH]; intros s Hb.
  { exists [], s. split; [apply exec_nil|]. by split; [constructor|]. }
  set (s1 := with_queue (with_recv s (mkReceiver (rc_started (sy_recv s)) rest))
               ({[key_of v]} ∪ sy_queue s)).
  destruct (IH s1 eq_refl) as (ls & s' & Hex & Hls & Hgo & Hst & Hnil).
  exists (Deliver v :: ls), s'. split; [by eapply exec_cons; [apply step_deliver|]|].
  split; [by constructor|done].
Qed.

(** Once it is started, it can take an event. *)
Lemma receiver_ready s :
  ∃ ls s', exec s ls s' ∧ Forall (λ l, periodic l = true) ls ∧ sy_go s' = sy_go s
    ∧ rc_started (sy_recv s') = true ∧ length (rc_buffer (sy_recv s')) < size_of_buffer.
Proof.
  set (w := mkWatch SourceChannel EnqueueRequestForObject false).
  set (s1 := with_recv s (start_watch w (sy_recv s))).
  destruct (receiver_drains _ s1 eq_refl) as (ls & s' & Hex & Hls & Hgo & Hst & Hnil).
  exists (WatchStarted w :: ls), s'. split; [|split; [by constructor|]].
  - eapply exec_cons; [|exact Hex]. apply step_watch. unfold watches, w. set_solver.
  - split; [done|]. split; [done|]. by rewrite Hnil.
Qed.

(** Within a round the goroutine can get on. *)
Lemma goroutine_enabled s :
  covered s → sy_go s ≠ Waiting →
  ∃ ls s', exec s ls s' ∧ Forall (λ l, periodic l = true) ls
    ∧ S (steps_left (sy_go s')) ≤ steps_left (sy_go s).
Proof.
  intros Hc Hw. destruct (sy_go s) as [|rd|v rd] eqn:Hgo; [done| |].
  - destruct (decide (rd_kept rd ⊆ rd_visited rd)) as [Hs|Hs].
    { exists [EndRange], (with_go s Waiting).
      split; [by eapply exec_cons, exec_nil; apply (step_end s rd)|].
      split; [by repeat constructor|simpl; lia]. }
    assert (∃ key, key ∈ rd_kept rd ∧ key ∉ rd_visited rd) as (key & Hk & Hv).
    { destruct (set_choose_or_empty (rd_kept rd ∖ rd_visited rd)) as [[key Hk]|He];
        [exists key; set_solver|]. destruct Hs. set_unfold. intros k Hk.
      destruct (decide (k ∈ rd_visited rd)); naive_solver. }
    assert (key ∈ (rd_values rd).*1) as ([? v] & -> & Hin)%list_elem_of_fmap.
    { apply (elem_of_list_to_set (C := gset NamespacedName)), (Hc rd); [by rewrite Hgo|done]. }
    eexists [Visit _], _. split; [by eapply exec_cons, exec_nil; apply (step_visit s rd _ v)|].
    split; [by repeat constructor|]. simpl. rewrite (unvisited_visit _ v rd) by done. simpl. lia.
  - destruct (receiver_ready s) as (ls & s1 & Hex & Hls & Hgo1 & Hst & Hlen).
    eexists (ls ++ [Send v]), _. split; [|split].
    + eapply exec_app; [exact Hex|]. eapply exec_cons, exec_nil. apply (step_send s1 v rd); [|done..].
      by rewrite Hgo1.
    + apply Forall_app. split; [done|by repeat constructor].
    + simpl. lia.
Qed.

Lemma round_finishes n s :
  steps_left (sy_go s) ≤ n → covered s →
  ∃ ls s', exec s ls s' ∧ Forall (λ l, periodic l = true) ls ∧ sy_go s' = Waiting.
Proof.
  revert s. induction n as [|n IH]; intros s Hn Hc.
  all: destruct (sy_go s) eqn:Hgo; [by exists [], s; eauto using exec_nil|..]; try (simpl in Hn; lia).
  all: destruct (goroutine_enabled s Hc) as (ls1 & s1 & Hex1 & Hls1 & Hd); [by rewrite Hgo|].
  all: rewrite Hgo in Hd; destruct (IH s1) as (ls & s2 & Hex & Hls & Hw);
    [lia|by eapply exec_covered|].
  all: exists (ls1 ++ ls), s2; split; [by eapply exec_app|]; split; [by apply Forall_app|done].
Qed.

(** C17: rounds end. In every interleaving, from every state the operator can
    reach, the goroutine takes at most two steps for each value it can still
    visit, two for each resource that is registered meanwhile, and two more,
    until it starts another round: a round is never endless. And it is never
    stuck: it can go on to the end of its round without the worker, by its own
    steps and those of the receiver of the channel, which the controller
    watches. *)
Theorem periodic_round_ends ls0 s :
  exec initial ls0 s →
  (∀ ls s', exec s ls s' → StartRange ∉ ls →
     count on_goroutine ls ≤ steps_left (sy_go s) + 2 * count registers ls)
  ∧ ∃ ls s', exec s ls s' ∧ Forall (λ l, periodic l = true) ls ∧ sy_go s' = Waiting.
Proof.
  intros Hinit. split; [by intros; eapply exec_left|].
  eapply (round_finishes (steps_left (sy_go s))); [done|].
  eapply exec_covered; [done|]. by intros rd.
Qed.
End steps.

(** ** Witnesses

    One resource is registered, and a round starts and ends while its
    reconciliation is in progress. *)

#[local] Existing Instance sorted_range.
#[local] Existing Instance exampleApi.

Definition readsKeys : contract := λ r,
  match r return resp r → Prop with
  | GetPresto key => λ x, match x with inr p => key_of p = key | inl _ => True end
  | _ => λ _, True
  end.

(** The size controller-runtime uses when none is set. *)
Definition defaultBuffer : nat := 1024.

Definition channelWatch : watch := mkWatch SourceChannel EnqueueRequestForObject false.

Definition registering : list label :=
  [Enqueue exampleKey; Take exampleKey;
   Answer (GetPresto exampleKey) (inr (examplePresto autoscalingOff));
   Answer (RegisteredLoad exampleKey) None;
   Answer (RegisteredStore exampleKey (examplePresto autoscalingOff)) tt; Tick;
   WatchStarted channelWatch].

Lemma registering_runs : ∃ s,
  exec readsKeys defaultBuffer initial registering s ∧ sy_go s = Waiting ∧ sy_tick s = true
  ∧ sy_reg s = {[exampleKey := examplePresto autoscalingOff]}
  ∧ sy_recv s = mkReceiver true [].
Proof.
  eexists. split; [|split_and!].
  - eapply exec_cons; [apply step_enqueue|].
    eapply exec_cons; [apply step_take; [done|set_solver]|].
    eapply exec_cons; [eapply step_answer; [reflexivity|done|done]|].
    eapply exec_cons; [eapply step_answer; [reflexivity|done|done]|].
    eapply exec_cons; [eapply step_answer; [reflexivity|done|done]|].
    eapply exec_cons; [apply step_tick|].
    eapply exec_cons; [apply step_watch; left|]. apply exec_nil.
  - done.
  - done.
  - done.
  - done.
Qed.

(** The states of the round. *)
Definition registeredPresto : Presto := examplePresto autoscalingOff.
Definition oneRegistered : registry := {[exampleKey := registeredPresto]}.
Definition visitedOne : round := visit exampleKey (start_round oneRegistered).

Definition atRange (s : sys) : sys :=
  with_go (with_tick s false) (Ranging (start_round oneRegistered)).
Definition atSend (s : sys) : sys := with_go (atRange s) (Sending registeredPresto visitedOne).
Definition afterSend (s : sys) : sys :=
  with_recv (with_go (atSend s) (Ranging visitedOne)) (mkReceiver true [registeredPresto]).

Lemma one_round s :
  sy_recv s = mkReceiver true [] →
  exec readsKeys defaultBuffer (atRange s) [Visit exampleKey; Send registeredPresto] (afterSend s).
Proof.
  intros Hr. apply exec_cons with (atSend s).
  { apply step_visit; [done|set_solver|]. vm_compute. left. }
  apply exec_cons with (afterSend s); [|apply exec_nil].
  assert (afterSend s = with_recv (with_go (atSend s) (Ranging visitedOne))
            (mkReceiver true (rc_buffer (sy_recv (atSend s)) ++ [registeredPresto]))) as ->
    by (unfold afterSend; simpl; by rewrite Hr).
  apply step_send; simpl; rewrite ?Hr; [done|done|]. simpl. unfold defaultBuffer. lia.
Qed.

Lemma one_round_ends s :
  step readsKeys defaultBuffer (afterSend s) EndRange (with_go (afterSend s) Waiting).
Proof.
  apply (step_end readsKeys defaultBuffer _ visitedOne); [done|].
  by apply (bool_decide_unpack _).
Qed.

Lemma readsKeys_get key p : readsKeys (GetPresto key) (inr p) → key_of p = key.
Proof. done. Qed.

Lemma periodic_round_witness : ∃ s,
  exec readsKeys defaultBuffer initial registering s
  ∧ sent [Visit exampleKey; Send registeredPresto] = [exampleKey]
  ∧ exampleKey ∈ sent [Visit exampleKey; Send registeredPresto].
Proof.
  destruct registering_runs as (s & Hex & Hgo & Ht & Hreg & Hrecv). exists s.
  split; [exact Hex|]. split; [reflexivity|].
  pose proof (step_start readsKeys defaultBuffer s Hgo Ht) as Hst. rewrite Hreg in Hst.
  destruct (periodic_round readsKeys defaultBuffer readsKeys_get registering s (atRange s)
              [Visit exampleKey; Send registeredPresto] (afterSend s)
              (with_go (afterSend s) Waiting) Hex Hst (one_round s Hrecv)) as (_ & _ & Hall & _).
  - by intros [[=]|[[=]|[]%not_elem_of_nil]%elem_of_cons]%elem_of_cons.
  - apply one_round_ends.
  - apply Hall; [rewrite Hreg; apply elem_of_dom; by eexists|].
    by intros [[=]|[[=]|[]%not_elem_of_nil]%elem_of_cons]%elem_of_cons.
Defined.

Lemma defaultBuffer_pos : 0 < defaultBuffer.
Proof. unfold defaultBuffer. lia. Qed.

(** The goroutine is about to send an event. *)
Lemma periodic_round_ends_witness : ∃ s ls s',
  exec readsKeys defaultBuffer initial registering s
  ∧ exec readsKeys defaultBuffer (atSend s) ls s' ∧ sy_go s' = Waiting.
Proof.
  destruct registering_runs as (s & Hex & Hgo & Ht & Hreg & Hrecv). exists s.
  assert (exec readsKeys defaultBuffer initial (registering ++ [StartRange; Visit exampleKey])
            (atSend s)) as Hsend.
  { eapply exec_app; [exact Hex|]. eapply exec_cons.
    - apply (step_start readsKeys defaultBuffer s Hgo Ht).
    - eapply exec_cons, exec_nil. rewrite Hreg. apply step_visit; [done|set_solver|].
      vm_compute. left. }
  destruct (periodic_round_ends readsKeys defaultBuffer defaultBuffer_pos _ (atSend s) Hsend)
    as (_ & ls & s' & Hls & _ & Hw).
  by exists ls, s'.
Defined.
