(* ===== verification/Termination.v ===== *)
(** Termination: a bound on the requests of one reconciliation, whatever the
    responses. The loops of the operator are over lists it holds; the requests
    are made outside of them. *)

From S2P Require Import Prelude ApiTypes K8sTypes Names Config Catalog Pods Effects.
From S2P Require Import Status Services ConfigMaps ReplicaSets Hpa Reconcile Traces.
From S2P Require Import Examples StatusFacts.

(** A computation that makes at most [n] requests, and at most [k] when it
    returns a result from which the reconciliation continues. *)
Definition spends {A} (n k : nat) (continues : A → bool) (m : M A) : Prop :=
  ∀ s, wp anyResponse (m s) (λ t o,
    (length t ≤ n)%nat
    ∧ match o with
      | Returned (a, _) => continues a = true → (length t ≤ k)%nat
      | Panicked => True
      end).

Lemma spends_bind {A B} n k n' k' (f : A → M B) continues (m : M A) (next : A → bool) :
  spends n k next m →
  (∀ a, next a = true → spends n' k' continues (f a)) →
  (∀ a, next a = false → ∃ b, f a = mret b ∧ continues b = false) →
  spends (n `max` (k + n')) (k + k') continues (m ≫= f).
Proof.
  intros Hm Hf Hr s. apply wp_bind. eapply wp_mono; [|apply Hm].
  intros t [[a s']|] [Hn Hk]; [|split; [lia|done]].
  destruct (next a) eqn:Ha.
  - eapply wp_mono; [|by apply Hf]. intros t' [[b s'']|] [Hn' Hk']; rewrite length_app.
    + split; [specialize (Hk eq_refl); lia|]. intros Hc.
      specialize (Hk eq_refl). specialize (Hk' Hc). lia.
    + specialize (Hk eq_refl). split; [lia|done].
  - destruct (Hr a Ha) as (b & -> & Hb). simpl. rewrite app_nil_r. split; [lia|congruence].
Qed.

Lemma spends_mono {A} n k n' k' continues (m : M A) :
  (n ≤ n')%nat → (k ≤ k')%nat → spends n k continues m → spends n' k' continues m.
Proof.
  intros Hn Hk Hm s. eapply wp_mono; [|apply Hm]. intros t [[a s']|] [Hl Hc]; split; try lia.
  intros Ha. specialize (Hc Ha). lia.
Qed.

Lemma updateStatus_spends a s :
  wp anyResponse (updateStatus a s) (λ t o,
    (length t ≤ 3)%nat
    ∧ match o with
      | Returned (u, err, _) => err = None → u = action_updates a
      | Panicked => True
      end).
Proof.
  unfold updateStatus, getPresto. prog_simpl. repeat prog_step.
  all: split; [simpl; lia|try done].
  all: match goal with H : applyAction _ _ = Some _ |- _ => by apply applyAction_inv in H as [_ ->] end.
Qed.

(** A status update inside a stage. *)
Ltac spend_update :=
  lazymatch goal with
  | |- wp _ ?m _ =>
    lazymatch innermost m with
    | updateStatus ?a ?s =>
      wp_focus; eapply wp_mono; [|apply (updateStatus_spends a s)];
      let t := fresh "ts" in let Hq := fresh "Hq" in let Hs := fresh "Hs" in
      intros t [[[? ?] ?]|] [Hq Hs]; prog_simpl
    end
  end.

(** Count the requests of a stage. *)
Ltac spend :=
  intros ?; prog_simpl; repeat (prog_step || spend_update);
  repeat rewrite ?length_cons, ?length_app, ?app_nil_r; simpl length; simpl;
  split; first [done | intros; first [done | lia] | lia].

(** The result of a stage that neither failed nor changed the cluster. *)
Definition unchanged (r : option goerror * bool) : bool :=
  match r with (None, false) => true | _ => false end.

Lemma headless_spends : spends 6 1 unchanged headlessServiceConfig.
Proof. unfold headlessServiceConfig, createHeadLessPodDiscoverySvc. spend. Qed.

Lemma service_spends :
  spends 7 4 unchanged ('(err, changesMade, _) ← serviceConfig; mret (err, changesMade)).
Proof. unfold serviceConfig, createOrGetService, getService. spend. Qed.

Section stages.
Context `{GoMapRange, Apimachinery}.

Lemma coordinatorConfig_spends : spends 6 1 unchanged coordinatorConfig.
Proof. unfold coordinatorConfig, createCoordinatorConfig, createConfigMap. spend. Qed.

Lemma workerConfig_spends : spends 6 1 unchanged workerConfig.
Proof. unfold workerConfig, createWorkerConfig, createConfigMap. spend. Qed.

Lemma catalogConfig_spends : spends 6 1 unchanged catalogConfig.
Proof. unfold catalogConfig, createCatalogConfig, createConfigMap. spend. Qed.

Lemma coordinatorReplicaset_spends : spends 6 1 unchanged coordinatorReplicaset.
Proof.
  unfold coordinatorReplicaset, createUpdateReplicaSetForCoordinator, getReplicaSet. spend.
Qed.

(** The workers were left as they are. *)
Definition workers_unchanged (r : goerror + bool * ReplicaSet) : bool :=
  match r with inr (false, _) => true | _ => false end.

Lemma workerReplicaset_spends : spends 6 1 workers_unchanged workerReplicaset.
Proof. unfold workerReplicaset, createUpdateReplicaSetForWorker, getReplicaSet. spend. Qed.

Lemma hpa_spends rs : spends 6 1 unchanged (hpaReplicaset rs).
Proof. unfold hpaReplicaset, handleReplicaSet, getPrestoHPA. spend. Qed.

(** The end of the reconciliation. *)
Definition nothing_follows (r : Result * option goerror) : bool := false.

Lemma reportState_spends rs : spends 6 0 nothing_follows (reportState rs).
Proof. unfold reportState, getCoordinatorPodPhase, getCPUUsage. spend. Qed.

Lemma spends_last n k m : spends n k nothing_follows m → spends n 0 nothing_follows m.
Proof. intros Hm s. eapply wp_mono; [|apply Hm]. intros t [[r s']|] [Hl _]; by split. Qed.

Lemma unlessChanged_spends n k n' stage next :
  spends n k unchanged stage → spends n' 0 nothing_follows next →
  spends (n `max` (k + n')) 0 nothing_follows (unlessChanged stage next).
Proof.
  intros Hs Hn. eapply spends_last, (spends_bind n k n' 0 _ _ _ unchanged Hs).
  - by intros [[e|] []] Hr.
  - intros [[e|] []] Hr; try done; by eexists.
Qed.

Lemma workers_spends :
  spends 8 0 nothing_follows (
    r ← workerReplicaset;
    match r with
    | inl err => mret (emptyResult, Some err)
    | inr (true, _) => mret (emptyResult, None)
    | inr (false, workerReplicaSet) =>
      unlessChanged (hpaReplicaset workerReplicaSet) (reportState workerReplicaSet)
    end).
Proof.
  eapply spends_last, (spends_bind 6 1 7 0 _ _ _ workers_unchanged workerReplicaset_spends).
  - intros [e|[[] rs]] Hr; try done.
    apply (unlessChanged_spends 6 1 6); [apply hpa_spends|apply reportState_spends].
  - intros [e|[[] rs]] Hr; try done; by eexists.
Qed.

Lemma reconcileStages_spends : spends 17 0 nothing_follows reconcileStages.
Proof.
  apply (unlessChanged_spends 6 1 16); [apply headless_spends|].
  apply (unlessChanged_spends 7 4 12); [apply service_spends|].
  apply (unlessChanged_spends 6 1 11); [apply coordinatorConfig_spends|].
  apply (unlessChanged_spends 6 1 10); [apply workerConfig_spends|].
  apply (unlessChanged_spends 6 1 9); [apply catalogConfig_spends|].
  apply (unlessChanged_spends 6 1 8); [apply coordinatorReplicaset_spends|].
  apply workers_spends.
Qed.

Lemma reconcileBody_spends : spends 17 0 nothing_follows reconcileBody.
Proof.
  intros s. unfold reconcileBody. prog_simpl. destruct (is_empty _).
  - prog_simpl. intros u _. spend_update; [|simpl; split; [lia|done]].
    repeat prog_step; try (split; [rewrite ?length_cons, ?length_app; simpl; lia|done]).
    by specialize (Hs eq_refl).
  - apply reconcileStages_spends.
Qed.

Lemma Reconcile_spends request :
  wp anyResponse (Reconcile request) (λ t _, (length t ≤ 20)%nat).
Proof.
  unfold Reconcile. prog_simpl. intros [e|p] _.
  - destruct (IsNotFound _); prog_simpl; [intros ? _|]; simpl; lia.
  - prog_simpl. intros [q|] _; prog_simpl; [|intros ? _]; wp_focus; (eapply wp_mono; [|apply reconcileBody_spends]).
    all: intros t [[r s']|] [Hl _]; simpl; rewrite ?length_app; simpl; lia.
Qed.

(** C16: a reconciliation ends after at most twenty requests, whatever the API
    server, the metrics server and the registry answer. (The bound is attained:
    [twenty_requests].) *)
Theorem reconcile_terminates {W} (h : env W) request w :
  (length (requests (run h (Reconcile request) w).1.2) ≤ 20)%nat.
Proof.
  unfold requests. rewrite length_fmap.
  apply (wp_run anyResponse h (Reconcile request) (λ t _, (length t ≤ 20)%nat) w);
    [apply keeps_any|apply Reconcile_spends].
Qed.
End stages.

(** ** The bound is attained

    The cluster is complete and its coordinator runs, and the status lacks the
    address of the service. *)

Definition completeCluster : env unit :=
  fixedCluster (examplePresto autoscalingOff) [someService] exampleConfigMaps [oneWorker] []
    [mkPod (newObjectMeta "coordinator" EmptyString "default" ∅ []) "Running"] None.

Example twenty_requests :
  length (requests (run completeCluster
    (Reconcile (H := sorted_range) (H0 := exampleApi) exampleKey) tt).1.2) = 20.
Proof. vm_compute. reflexivity. Qed.
