(* ===== verification/Startup.v ===== *)
(** Start-up: main (cmd/manager/main.go), the registration of the types with the
    scheme (pkg/apis) and of the controller with the manager
    (pkg/controller/controller.go, add_presto.go, Add and newReconciler of
    pkg/controller/presto/presto_controller.go). *)

From S2P Require Import Prelude ApiTypes K8sTypes Effects Controller.

Local Open Scope string_scope.

(** ** What the process does

    The calls into controller-runtime, the metrics client and the scheme builder,
    and the go statement of newReconciler, with the period of its ticker. *)

Inductive action :=
  | GetConfig (nth : nat)
  | NewManager
  | NewMetricsClient
  | AddKnownTypes (group version : string) (kinds : list string)
  | GoPeriodic (period : Z)
  | NewController
  | StartWatch (w : watch)
  | SetupWebhook
  | StartManager.

(** A process logs its actions, and goes on or exits with a code. *)
Definition Proc (A : Type) : Type := list action → list action * (A + Z).

#[export] Instance Proc_ret : MRet Proc := λ A a log, (log, inl a).
#[export] Instance Proc_bind : MBind Proc := λ A B f m log,
  match m log with
  | (log', inl a) => f a log'
  | (log', inr code) => (log', inr code)
  end.

Definition Exit {A} (code : Z) : Proc A := λ log, (log, inr code).

(** ** The scheme *)

Module Scheme.

(** scheme.Builder of controller-runtime: the types of one group and version. *)
Record Builder := mkBuilder {
  b_Group : string;
  b_Version : string;
  b_objects : list string
}.

Definition Register (b : Builder) (objects : list string) : Builder :=
  mkBuilder (b_Group b) (b_Version b) (b_objects b ++ objects)%list.

(** SchemeBuilder, after the init function of presto_types.go. *)
Definition SchemeBuilder : Builder :=
  Register (mkBuilder "falarica.io" "v1alpha1" []) ["Presto"; "PrestoList"].

End Scheme.

(** ** The manager *)

Section startup.

(** How the calls are answered, and when the goroutine of newReconciler gets to
    run: during the go statement (0), during the k-th action that follows it, or not
    before main is done. *)
Context (answer : action → option goerror) (runs_after : option nat).

(** time.Duration(interval) * time.Second, in 64 bits. *)
Definition tickerPeriod (StatusUpdateInterval : Z) : Z := wrap64 (StatusUpdateInterval * 10 ^ 9).

(** time.NewTicker panics when its period is not positive. *)
Definition NewTicker (d : Z) : option Z := if (d <=? 0)%Z then None else Some d.

(** The period of the goroutine that was started, and the actions since. *)
Fixpoint started (log : list action) : option (Z * nat) :=
  match log with
  | [] => None
  | GoPeriodic d :: rest => Some (d, length rest)
  | _ :: rest => started rest
  end.

(** The goroutine has run and panicked, which ends the process with code 2. *)
Definition crashed (log : list action) : bool :=
  match started log, runs_after with
  | Some (d, since), Some k =>
    (k <=? since)%nat && match NewTicker d with None => true | Some _ => false end
  | _, _ => false
  end.

(** A go statement does not fail. *)
Definition result_of (a : action) : option goerror :=
  match a with GoPeriodic _ => None | _ => answer a end.

(** An action returns its answer, unless the goroutine panics meanwhile. *)
Definition perform (a : action) : Proc (option goerror) := λ log,
  let log' := (log ++ [a])%list in
  (log', if crashed log' then inr 2%Z else inl (result_of a)).

(** Call functions one after the other, up to the first error. *)
Fixpoint call_all (fs : list (Proc (option goerror))) : Proc (option goerror) :=
  match fs with
  | [] => mret None
  | f :: rest =>
    err ← f;
    match err with Some e => mret (Some e) | None => call_all rest end
  end.

Definition Builder_AddToScheme (b : Scheme.Builder) : Proc (option goerror) :=
  perform (AddKnownTypes (Scheme.b_Group b) (Scheme.b_Version b) (Scheme.b_objects b)).

(** AddToSchemes, after the init function of addtoscheme_falarica_v1alpha1.go. *)
Definition AddToSchemes : list (Proc (option goerror)) :=
  [] ++ [Builder_AddToScheme Scheme.SchemeBuilder].

Definition AddToScheme : Proc (option goerror) := call_all AddToSchemes.

(** newReconciler starts the goroutine of the periodic events. *)
Definition newReconciler (StatusUpdateInterval : Z) : Proc (option goerror) :=
  perform (GoPeriodic (tickerPeriod StatusUpdateInterval)).

(** add, with its calls in the log; Controller.add says which they are. *)
Definition addController : Proc (option goerror) :=
  err ← perform NewController;
  match err with
  | Some e => mret (Some e)
  | None => call_all (map (λ w, perform (StartWatch w)) watches)
  end.

Definition Add (StatusUpdateInterval : Z) : Proc (option goerror) :=
  newReconciler StatusUpdateInterval ≫= λ _, addController.

(** AddToManagerFuncs, after the init function of add_presto.go. *)
Definition AddToManagerFuncs : list (Z → Proc (option goerror)) := [] ++ [Add].

Definition AddToManager (cmdLineParams : Z) : Proc (option goerror) :=
  call_all (map (λ f, f cmdLineParams) AddToManagerFuncs).

(** SetupWebhookWithManager, whose call in main is commented out. *)
Definition SetupWebhookWithManager : Proc (option goerror) := perform SetupWebhook.

(** An error is logged and ends the process. *)
Definition orExit (m : Proc (option goerror)) : Proc () :=
  err ← m;
  match err with Some _ => Exit 1%Z | None => mret tt end.

(** [flags]: flag.Parse exits with a code, or gives the value of
    status-update-interval, if it was set. *)
Definition mainBody (flags : Z + option Z) : Proc () :=
  match flags with
  | inl code => Exit code
  | inr set =>
    let StatusUpdateInterval := default 10%Z set in
    orExit (perform (GetConfig 1));;
    orExit (perform NewManager);;
    orExit (perform (GetConfig 2));;
    orExit (perform NewMetricsClient);;
    orExit AddToScheme;;
    orExit (AddToManager StatusUpdateInterval);;
    orExit (perform StartManager)
  end.

(** The actions of a process and its exit code, 0 when main returns. *)
Definition exits (m : Proc ()) (log : list action) : list action * Z :=
  match m log with
  | (log, inl _) => (log, 0%Z)
  | (log, inr code) => (log, code)
  end.

Definition main (flags : Z + option Z) : list action * Z := exits (mainBody flags) [].

(** ** Theorems *)

(** A start-up without errors. *)
Definition fullStart (interval : Z) : list action :=
  [GetConfig 1; NewManager; GetConfig 2; NewMetricsClient;
   AddKnownTypes "falarica.io" "v1alpha1" ["Presto"; "PrestoList"];
   GoPeriodic (tickerPeriod interval); NewController]
  ++ map StartWatch watches ++ [StartManager].

Local Close Scope string_scope.

(** Reference: after the actions [log], those of [l] up to the first that fails
    or to the panic of the goroutine. *)
Fixpoint upto_failure (log l : list action) : list action * Z :=
  match l with
  | [] => (log, 0%Z)
  | a :: rest =>
    if crashed (log ++ [a])%list then (log ++ [a], 2%Z)%list
    else match result_of a with
         | Some _ => (log ++ [a], 1%Z)%list
         | None => upto_failure (log ++ [a])%list rest
         end
  end.

(** The calls [m] are the actions [l], up to the first that fails. *)
Definition takes (m : Proc (option goerror)) (l : list action) : Prop :=
  ∀ next tail log,
    (∀ log', exits next log' = upto_failure log' tail) →
    exits (orExit m ≫= λ _, next) log = upto_failure log (l ++ tail).

Ltac proc_unfold :=
  unfold exits, orExit, mbind, mret, Proc_bind, Proc_ret, perform, Exit in *.

Lemma takes_call_all l : takes (call_all (map perform l)) l.
Proof.
  intros next tail log Hnext. revert log. induction l as [|a l IH]; intros log; [apply Hnext|].
  cbn [map call_all upto_failure app]. proc_unfold. destruct (crashed _); [done|].
  destruct (result_of a); [done|]. apply IH.
Qed.

Lemma takes_perform a : takes (perform a) [a].
Proof.
  intros next tail log Hnext. cbn [upto_failure app]. proc_unfold. destruct (crashed _); [done|].
  destruct (result_of a); [done|]. apply Hnext.
Qed.

Lemma takes_Add i :
  takes (AddToManager i)
    (GoPeriodic (tickerPeriod i) :: NewController :: map StartWatch watches).
Proof.
  intros next tail log Hnext. unfold AddToManager, AddToManagerFuncs, Add, addController, newReconciler.
  cbn [map app call_all upto_failure]. proc_unfold. destruct (crashed _); [done|].
  cbn [result_of]. destruct (crashed _); [done|].
  destruct (answer NewController); [done|].
  pose proof (takes_call_all (map StartWatch watches) next tail
                ((log ++ [GoPeriodic (tickerPeriod i)]) ++ [NewController])%list Hnext) as Hw.
  rewrite map_map in Hw. rewrite <-Hw. proc_unfold.
  destruct (call_all _ _) as [log' [[e|]|code]]; done.
Qed.

(** main performs the actions of a start-up in order, up to the first failure. *)
Lemma main_upto set : main (inr set) = upto_failure [] (fullStart (default 10%Z set)).
Proof.
  unfold main, mainBody, fullStart.
  apply (takes_perform (GetConfig 1)). intros log1.
  apply (takes_perform NewManager). intros log2.
  apply (takes_perform (GetConfig 2)). intros log3.
  apply (takes_perform NewMetricsClient). intros log4.
  apply (takes_call_all [AddKnownTypes _ _ _]). intros log5.
  apply (takes_Add (default 10%Z set)). intros log6.
  cbn [upto_failure]. proc_unfold. destruct (crashed _); [done|].
  by destruct (result_of StartManager).
Qed.

(** How a sequence of actions can end. *)
Definition outcome (l log : list action) (code : Z) : Prop :=
  (code = 0%Z ∧ log = l ∧ Forall (λ a, result_of a = None) log ∧ crashed log = false)
  ∨ (code = 1%Z ∧ ∃ a, last log = Some a ∧ is_Some (result_of a))
  ∨ (code = 2%Z ∧ crashed log = true).

Lemma upto_failure_spec l log :
  Forall (λ a, result_of a = None) log → crashed log = false →
  let '(log', code) := upto_failure log l in
  log' `prefix_of` log ++ l ∧ Forall (λ a, result_of a = None) (removelast log')
  ∧ outcome (log ++ l) log' code.
Proof.
  revert log. induction l as [|a l IH]; intros log Hok Hrun; simpl.
  { rewrite app_nil_r. split; [done|]. split; [|by left].
    apply Forall_forall. intros x Hx. rewrite Forall_forall in Hok. apply Hok.
    destruct log as [|y log] using rev_ind; [done|]. rewrite removelast_last in Hx.
    set_solver. }
  assert (Hpre : log ++ [a] `prefix_of` log ++ a :: l).
  { exists l. by rewrite <-app_assoc. }
  destruct (crashed (log ++ [a])) eqn:Hcrash; [|destruct (result_of a) eqn:Ha].
  - rewrite removelast_last. split; [done|]. split; [done|]. by do 2 right.
  - rewrite removelast_last. split; [done|]. split; [done|]. right. left.
    split; [done|]. exists a. by rewrite last_snoc.
  - pose proof (IH (log ++ [a])%list) as IH'. rewrite <-app_assoc in IH'. simpl in IH'.
    apply IH'; [|done]. apply Forall_app. auto.
Qed.

(** Only the goroutine panics, and only with a period that NewTicker refuses. *)
Lemma crashed_started log :
  crashed log = true ↔
  ∃ d since k, started log = Some (d, since) ∧ runs_after = Some k ∧ k ≤ since ∧ NewTicker d = None.
Proof.
  unfold crashed. split.
  - destruct (started log) as [[d since]|], runs_after as [k|]; try done.
    intros [Hk Hd]%andb_true_iff. apply Nat.leb_le in Hk. destruct (NewTicker d) eqn:?; [done|].
    by exists d, since, k.
  - intros (d & since & k & -> & -> & Hk & ->). by rewrite andb_true_r, Nat.leb_le.
Qed.

Lemma started_in log d since : started log = Some (d, since) → GoPeriodic d ∈ log.
Proof.
  induction log as [|a log IH]; [done|].
  destruct a; simpl; intros Hs; try (right; by apply IH). simplify_eq. by left.
Qed.

Lemma period_of_start i d : GoPeriodic d ∈ fullStart i → d = tickerPeriod i.
Proof. unfold fullStart. intros Hd. set_unfold in Hd. naive_solver. Qed.

(** The period is positive for the intervals that fit 64 bits in nanoseconds. *)
Lemma ticker_period i :
  (1 ≤ i ≤ 9223372036)%Z → NewTicker (tickerPeriod i) = Some (i * 10 ^ 9)%Z.
Proof.
  intros Hi. unfold NewTicker, tickerPeriod.
  rewrite wrap64_id by (unfold in_int64; lia). by rewrite (proj2 (Z.leb_gt _ _)) by lia.
Qed.

(** C15: the process performs the actions of the start-up in their order, each
    only after the ones before it succeeded, and never sets up the webhook. It
    exits with 0 exactly after the complete start-up, with 1 after an action that
    failed, and with 2 when the goroutine started by newReconciler panicked; that
    takes a period NewTicker refuses, so it cannot happen with an interval of 1 to
    9223372036 seconds. With a refused period the process does not exit with 0
    once the goroutine gets to run before main is done. *)
Theorem main_starts flags :
  match flags with
  | inl code => main flags = ([], code)
  | inr set =>
    let i := default 10%Z set in
    let '(log, code) := main flags in
    log `prefix_of` fullStart i
    ∧ (SetupWebhook ∉ log)
    ∧ Forall (λ a, result_of a = None) (removelast log)
    ∧ ((code = 0%Z ∧ log = fullStart i ∧ Forall (λ a, result_of a = None) log)
       ∨ (code = 1%Z ∧ ∃ a, last log = Some a ∧ is_Some (result_of a))
       ∨ (code = 2%Z ∧ GoPeriodic (tickerPeriod i) ∈ log ∧ NewTicker (tickerPeriod i) = None))
    ∧ ((1 ≤ i ≤ 9223372036)%Z → code ≠ 2%Z)
    ∧ (NewTicker (tickerPeriod i) = None → ∀ k, runs_after = Some k →
       k ≤ S (length watches) + 1 → code ≠ 0%Z)
  end.
Proof.
  destruct flags as [code|set]; [done|]. rewrite main_upto. set (i := default 10%Z set). cbv zeta.
  pose proof (upto_failure_spec (fullStart i) []) as Hspec.
  destruct (upto_failure [] (fullStart i)) as [log code].
  destruct Hspec as (Hpre & Hok & Hout); [done..|]. simpl in Hpre, Hout.
  assert (Hpanic : crashed log = true →
            GoPeriodic (tickerPeriod i) ∈ log ∧ NewTicker (tickerPeriod i) = None).
  { intros (d & since & k & Hs%started_in & _ & _ & Hd)%crashed_started.
    assert (d = tickerPeriod i) as -> by (apply period_of_start; by eapply elem_of_prefix). done. }
  split; [done|]. split.
  { intros Hin. apply (elem_of_prefix _ _ _ Hin) in Hpre. unfold fullStart in Hpre.
    set_unfold in Hpre. naive_solver. }
  split; [done|]. split; [|split].
  - destruct Hout as [(? & ? & ? & ?)|[?|[? ?]]]; [by left|by right; left|]. right. right. auto.
  - intros Hi ->. destruct Hout as [[? _]|[[? _]|[_ Hc]]]; [done..|].
    destruct (Hpanic Hc) as [_ Hnone]. by rewrite ticker_period in Hnone.
  - intros Hnone k Hk Hle ->. destruct Hout as [(_ & -> & _ & Hc)|[[? _]|[? _]]]; [|done..].
    apply not_true_iff_false in Hc. apply Hc, crashed_started.
    eexists _, _, k. split; [reflexivity|]. done.
Qed.
End startup.

(** The default interval starts the operator; an interval of zero ends it while
    the manager runs. *)
Example main_default : main (λ _, None) (Some 0) (inr None) = (fullStart 10, 0%Z).
Proof. vm_compute. reflexivity. Qed.

Example main_zero : main (λ _, None) (Some 7) (inr (Some 0%Z)) = (fullStart 0, 2%Z).
Proof. vm_compute. reflexivity. Qed.
