(* ===== verification/GoHeap.v ===== *)
(** The memory of Go programs, for the code that is about pointers: addresses,
    slices, the structs of pkg/apis/falarica/v1alpha1/presto_types.go with their
    pointers, and computations on a heap.

    A struct is given once, over a representation [r]: in the representation
    [HeapR] a pointer or a map is an address and a slice is a slice header; in
    [TreeR] they are replaced by what they point to, which gives the value of
    the struct as a tree. Unlike the records of ApiTypes.v, both keep nil apart
    from an empty map or slice. *)

From S2P Require Import Prelude ApiTypes.

(** ** Addresses, slices, representations *)

Definition loc := positive.

(** A slice header: the backing array, and the part of it that is the slice. *)
Record slice := mkSlice {
  sl_array : loc;
  sl_offset : nat;
  sl_len : nat
}.

Inductive repr := HeapR | TreeR.

(** A pointer to an [A] (a map is one too), nil being [None]. *)
Definition ptr (r : repr) (A : Type) : Type :=
  match r with HeapR => option loc | TreeR => option A end.

(** A slice of [A]s. *)
Definition slc (r : repr) (A : Type) : Type :=
  match r with HeapR => option slice | TreeR => option (list A) end.

(** The structs of the Kubernetes API that are embedded in the resource, and
    what they keep on the heap. *)
Class ForeignTypes := {
  FObjectMeta : repr → Type;
  FListMeta : repr → Type;
  FVolumeSource : repr → Type;
  FSessionAffinityConfig : repr → Type;
  FTime : repr → Type;
  FCell : Type
}.

(** ** The structs *)

Section structs.
Context `{ForeignTypes}.

Record GAutoscalingSpec (r : repr) := mkGAutoscalingSpec {
  gas_Enabled : ptr r bool;
  gas_MinReplicas : ptr r Z;
  gas_MaxReplicas : ptr r Z;
  gas_TargetCPUUtilizationPercentage : ptr r Z
}.

Record GCatalogSpec (r : repr) := mkGCatalogSpec {
  gcat_Name : string;
  gcat_Content : ptr r (gmap string string)
}.

Record GCatalogList (r : repr) := mkGCatalogList {
  gcl_CatalogSecrets : slc r CatalogSecret;
  gcl_CatalogSpec : slc r (GCatalogSpec r)
}.

Record GCoordinatorSpec (r : repr) := mkGCoordinatorSpec {
  gcs_MemoryLimit : string;
  gcs_AdditionalJVMConfig : string;
  gcs_AdditionalProps : ptr r (gmap string string);
  gcs_CpuLimit : string;
  gcs_CpuRequest : string;
  gcs_HttpsEnabled : bool;
  gcs_HttpsKeyPairSecretName : string;
  gcs_HttpsKeyPairSecretKey : string;
  gcs_HttpsKeyPairPassword : string
}.

Record GWorkerSpec (r : repr) := mkGWorkerSpec {
  gws_MemoryLimit : string;
  gws_AdditionalJVMConfig : string;
  gws_AdditionalProps : ptr r (gmap string string);
  gws_CpuLimit : string;
  gws_CpuRequest : string;
  gws_TerminationGracePeriodSeconds : ptr r Z;
  gws_Count : ptr r Z;
  gws_Autoscaling : GAutoscalingSpec r
}.

Record GServiceSpec (r : repr) := mkGServiceSpec {
  gss_NodePort : ptr r Z;
  gss_Port : ptr r Z;
  gss_ClusterIP : string;
  gss_Type : string;
  gss_ExternalIPs : slc r string;
  gss_SessionAffinity : string;
  gss_LoadBalancerIP : string;
  gss_LoadBalancerSourceRanges : slc r string;
  gss_ExternalName : string;
  gss_ExternalTrafficPolicy : string;
  gss_HealthCheckNodePort : Z;
  gss_PublishNotReadyAddresses : bool;
  gss_SessionAffinityConfig : ptr r (FSessionAffinityConfig r);
  gss_IPFamily : ptr r string
}.

(** The empty struct HMSSpec. *)
Record GHMSSpec := mkGHMSSpec {}.

Record GPrestoVolumeSpec (r : repr) := mkGPrestoVolumeSpec {
  gpv_Name : string;
  gpv_VolumeSource : FVolumeSource r;
  gpv_ReadOnly : bool;
  gpv_MountPath : string;
  gpv_SubPath : string;
  gpv_MountPropagation : ptr r string;
  gpv_SubPathExpr : string
}.

Record GPrestoSpec (r : repr) := mkGPrestoSpec {
  gp_Coordinator : GCoordinatorSpec r;
  gp_Worker : GWorkerSpec r;
  gp_Catalogs : GCatalogList r;
  gp_Service : GServiceSpec r;
  gp_InternalHiveMetaStore : GHMSSpec;
  gp_ImageDetails : ImageSpec;
  gp_AdditionalPrestoPropFiles : ptr r (gmap string string);
  gp_Volumes : slc r (GPrestoVolumeSpec r)
}.

Record GPrestoStatus (r : repr) := mkGPrestoStatus {
  gst_Uuid : string;
  gst_DesiredWorkers : Z;
  gst_CurrentWorkers : Z;
  gst_HeadlessService : string;
  gst_Service : string;
  gst_CoordinatorAddress : string;
  gst_CatalogConfig : string;
  gst_CoordinatorConfig : string;
  gst_WorkerConfig : string;
  gst_WorkerReplicaset : string;
  gst_CoordinatorReplicaset : string;
  gst_HpaName : string;
  gst_ClusterState : ClusterState;
  gst_ErrorReason : string;
  gst_ModificationTime : FTime r;
  gst_CoordinatorCPU : string;
  gst_WorkerCPU : string
}.

Record GPresto (r : repr) := mkGPresto {
  g_TypeMeta : TypeMeta;
  g_ObjectMeta : FObjectMeta r;
  g_Spec : GPrestoSpec r;
  g_Status : GPrestoStatus r
}.

Record GPrestoList (r : repr) := mkGPrestoList {
  gpl_TypeMeta : TypeMeta;
  gpl_ListMeta : FListMeta r;
  gpl_Items : slc r (GPresto r)
}.

(** ** The heap *)

(** What an address can hold: the targets of the pointers, the maps, the
    backing arrays of the slices, and the structs made by DeepCopy. *)
Inductive cell :=
  | CBool (b : bool)
  | CInt (n : Z)
  | CString (s : string)
  | CStringMap (m : gmap string string)
  | CStrings (l : list string)
  | CCatalogSecrets (l : list CatalogSecret)
  | CCatalogSpecs (l : list (GCatalogSpec HeapR))
  | CVolumes (l : list (GPrestoVolumeSpec HeapR))
  | CPrestos (l : list (GPresto HeapR))
  | CSessionAffinityConfig (s : FSessionAffinityConfig HeapR)
  | CAutoscalingSpec (x : GAutoscalingSpec HeapR)
  | CCatalogList (x : GCatalogList HeapR)
  | CCatalogSecret (x : CatalogSecret)
  | CCatalogSpec (x : GCatalogSpec HeapR)
  | CCoordinatorSpec (x : GCoordinatorSpec HeapR)
  | CHMSSpec (x : GHMSSpec)
  | CImageSpec (x : ImageSpec)
  | CPresto (x : GPresto HeapR)
  | CPrestoList (x : GPrestoList HeapR)
  | CPrestoSpec (x : GPrestoSpec HeapR)
  | CPrestoStatus (x : GPrestoStatus HeapR)
  | CPrestoVolumeSpec (x : GPrestoVolumeSpec HeapR)
  | CServiceSpec (x : GServiceSpec HeapR)
  | CWorkerSpec (x : GWorkerSpec HeapR)
  | CForeign (c : FCell).

(** The types of Go values that a cell can hold. *)
Class Stored (A : Type) := {
  to_cell : A → cell;
  of_cell : cell → option A;
  of_to_cell a : of_cell (to_cell a) = Some a
}.
End structs.

Arguments cell {_}.
Arguments Stored {_} A.

Abbreviation heap := (gmap loc cell).

Arguments mkGAutoscalingSpec {_}.
Arguments gas_Enabled {_}.
Arguments gas_MinReplicas {_}.
Arguments gas_MaxReplicas {_}.
Arguments gas_TargetCPUUtilizationPercentage {_}.
Arguments mkGCatalogSpec {_}.
Arguments gcat_Name {_}.
Arguments gcat_Content {_}.
Arguments mkGCatalogList {_}.
Arguments gcl_CatalogSecrets {_}.
Arguments gcl_CatalogSpec {_}.
Arguments mkGCoordinatorSpec {_}.
Arguments gcs_MemoryLimit {_}.
Arguments gcs_AdditionalJVMConfig {_}.
Arguments gcs_AdditionalProps {_}.
Arguments gcs_CpuLimit {_}.
Arguments gcs_CpuRequest {_}.
Arguments gcs_HttpsEnabled {_}.
Arguments gcs_HttpsKeyPairSecretName {_}.
Arguments gcs_HttpsKeyPairSecretKey {_}.
Arguments gcs_HttpsKeyPairPassword {_}.
Arguments mkGWorkerSpec {_}.
Arguments gws_MemoryLimit {_}.
Arguments gws_AdditionalJVMConfig {_}.
Arguments gws_AdditionalProps {_}.
Arguments gws_CpuLimit {_}.
Arguments gws_CpuRequest {_}.
Arguments gws_TerminationGracePeriodSeconds {_}.
Arguments gws_Count {_}.
Arguments gws_Autoscaling {_}.
Arguments mkGServiceSpec {_ _}.
Arguments gss_NodePort {_ _}.
Arguments gss_Port {_ _}.
Arguments gss_ClusterIP {_ _}.
Arguments gss_Type {_ _}.
Arguments gss_ExternalIPs {_ _}.
Arguments gss_SessionAffinity {_ _}.
Arguments gss_LoadBalancerIP {_ _}.
Arguments gss_LoadBalancerSourceRanges {_ _}.
Arguments gss_ExternalName {_ _}.
Arguments gss_ExternalTrafficPolicy {_ _}.
Arguments gss_HealthCheckNodePort {_ _}.
Arguments gss_PublishNotReadyAddresses {_ _}.
Arguments gss_SessionAffinityConfig {_ _}.
Arguments gss_IPFamily {_ _}.
Arguments mkGPrestoVolumeSpec {_ _}.
Arguments gpv_Name {_ _}.
Arguments gpv_VolumeSource {_ _}.
Arguments gpv_ReadOnly {_ _}.
Arguments gpv_MountPath {_ _}.
Arguments gpv_SubPath {_ _}.
Arguments gpv_MountPropagation {_ _}.
Arguments gpv_SubPathExpr {_ _}.
Arguments mkGPrestoSpec {_ _}.
Arguments gp_Coordinator {_ _}.
Arguments gp_Worker {_ _}.
Arguments gp_Catalogs {_ _}.
Arguments gp_Service {_ _}.
Arguments gp_InternalHiveMetaStore {_ _}.
Arguments gp_ImageDetails {_ _}.
Arguments gp_AdditionalPrestoPropFiles {_ _}.
Arguments gp_Volumes {_ _}.
Arguments mkGPrestoStatus {_ _}.
Arguments gst_Uuid {_ _}.
Arguments gst_DesiredWorkers {_ _}.
Arguments gst_CurrentWorkers {_ _}.
Arguments gst_HeadlessService {_ _}.
Arguments gst_Service {_ _}.
Arguments gst_CoordinatorAddress {_ _}.
Arguments gst_CatalogConfig {_ _}.
Arguments gst_CoordinatorConfig {_ _}.
Arguments gst_WorkerConfig {_ _}.
Arguments gst_WorkerReplicaset {_ _}.
Arguments gst_CoordinatorReplicaset {_ _}.
Arguments gst_HpaName {_ _}.
Arguments gst_ClusterState {_ _}.
Arguments gst_ErrorReason {_ _}.
Arguments gst_ModificationTime {_ _}.
Arguments gst_CoordinatorCPU {_ _}.
Arguments gst_WorkerCPU {_ _}.
Arguments mkGPresto {_ _}.
Arguments g_TypeMeta {_ _}.
Arguments g_ObjectMeta {_ _}.
Arguments g_Spec {_ _}.
Arguments g_Status {_ _}.
Arguments mkGPrestoList {_ _}.
Arguments gpl_TypeMeta {_ _}.
Arguments gpl_ListMeta {_ _}.
Arguments gpl_Items {_ _}.

(** ** Computations on the heap

    [None] is a computation that goes through a dangling pointer, or finds a
    value of another type than the pointer's; Go rules both out. *)

Definition HM `{ForeignTypes} (A : Type) : Type := heap → option (A * heap).

#[export] Instance HM_ret `{ForeignTypes} : MRet HM := λ A x h, Some (x, h).
#[export] Instance HM_bind `{ForeignTypes} : MBind HM := λ A B f m h,
  match m h with Some (x, h') => f x h' | None => None end.
#[export] Instance HM_fmap `{ForeignTypes} : FMap HM := λ A B f m, x ← m; mret (f x).

Section memory.
Context `{ForeignTypes}.

(** [new(T)] and the assignment of [a] to the new variable; the backing array
    made by [make] is allocated in the same way. *)
Definition new {A} `{!Stored A} (a : A) : HM loc := λ h,
  let l := fresh (dom h) in Some (l, <[l := to_cell a]> h).

(** [*l] *)
Definition load {A} `{!Stored A} (l : loc) : HM A := λ h,
  c ← h !! l; a ← of_cell c; Some (a, h).

(** The elements of a slice. *)
Definition slice_elems {A} `{!Stored (list A)} (h : heap) (s : slice) : option (list A) :=
  c ← h !! sl_array s; l ← of_cell c;
  if (sl_offset s + sl_len s <=? length l)%nat
  then Some (take (sl_len s) (drop (sl_offset s) l)) else None.

Definition load_slice {A} `{!Stored (list A)} (s : slice) : HM (list A) := λ h,
  l ← slice_elems h s; Some (l, h).

(** A new array with the elements [l], and the slice that is all of it. *)
Definition new_slice {A} `{!Stored (list A)} (l : list A) : HM slice :=
  a ← new l; mret (mkSlice a 0 (length l)).

#[local] Ltac stored f g := unshelve refine {| to_cell := f; of_cell := g |}; done.

#[export] Instance stored_bool : Stored bool.
Proof. stored CBool (λ c, match c with CBool x => Some x | _ => None end). Defined.
#[export] Instance stored_int : Stored Z.
Proof. stored CInt (λ c, match c with CInt x => Some x | _ => None end). Defined.
#[export] Instance stored_string : Stored string.
Proof. stored CString (λ c, match c with CString x => Some x | _ => None end). Defined.
#[export] Instance stored_map : Stored (gmap string string).
Proof. stored CStringMap (λ c, match c with CStringMap x => Some x | _ => None end). Defined.
#[export] Instance stored_strings : Stored (list string).
Proof. stored CStrings (λ c, match c with CStrings x => Some x | _ => None end). Defined.
#[export] Instance stored_secrets : Stored (list CatalogSecret).
Proof. stored CCatalogSecrets (λ c, match c with CCatalogSecrets x => Some x | _ => None end). Defined.
#[export] Instance stored_catalogs : Stored (list (GCatalogSpec HeapR)).
Proof. stored CCatalogSpecs (λ c, match c with CCatalogSpecs x => Some x | _ => None end). Defined.
#[export] Instance stored_volumes : Stored (list (GPrestoVolumeSpec HeapR)).
Proof. stored CVolumes (λ c, match c with CVolumes x => Some x | _ => None end). Defined.
#[export] Instance stored_prestos : Stored (list (GPresto HeapR)).
Proof. stored CPrestos (λ c, match c with CPrestos x => Some x | _ => None end). Defined.
#[export] Instance stored_affinity : Stored (FSessionAffinityConfig HeapR).
Proof.
  stored CSessionAffinityConfig
    (λ c, match c with CSessionAffinityConfig x => Some x | _ => None end).
Defined.
#[export] Instance stored_AutoscalingSpec : Stored (GAutoscalingSpec HeapR).
Proof. stored CAutoscalingSpec (λ c, match c with CAutoscalingSpec x => Some x | _ => None end). Defined.
#[export] Instance stored_CatalogList : Stored (GCatalogList HeapR).
Proof. stored CCatalogList (λ c, match c with CCatalogList x => Some x | _ => None end). Defined.
#[export] Instance stored_CatalogSecret : Stored CatalogSecret.
Proof. stored CCatalogSecret (λ c, match c with CCatalogSecret x => Some x | _ => None end). Defined.
#[export] Instance stored_CatalogSpec : Stored (GCatalogSpec HeapR).
Proof. stored CCatalogSpec (λ c, match c with CCatalogSpec x => Some x | _ => None end). Defined.
#[export] Instance stored_CoordinatorSpec : Stored (GCoordinatorSpec HeapR).
Proof. stored CCoordinatorSpec (λ c, match c with CCoordinatorSpec x => Some x | _ => None end). Defined.
#[export] Instance stored_HMSSpec : Stored GHMSSpec.
Proof. stored CHMSSpec (λ c, match c with CHMSSpec x => Some x | _ => None end). Defined.
#[export] Instance stored_ImageSpec : Stored ImageSpec.
Proof. stored CImageSpec (λ c, match c with CImageSpec x => Some x | _ => None end). Defined.
#[export] Instance stored_Presto : Stored (GPresto HeapR).
Proof. stored CPresto (λ c, match c with CPresto x => Some x | _ => None end). Defined.
#[export] Instance stored_PrestoList : Stored (GPrestoList HeapR).
Proof. stored CPrestoList (λ c, match c with CPrestoList x => Some x | _ => None end). Defined.
#[export] Instance stored_PrestoSpec : Stored (GPrestoSpec HeapR).
Proof. stored CPrestoSpec (λ c, match c with CPrestoSpec x => Some x | _ => None end). Defined.
#[export] Instance stored_PrestoStatus : Stored (GPrestoStatus HeapR).
Proof. stored CPrestoStatus (λ c, match c with CPrestoStatus x => Some x | _ => None end). Defined.
#[export] Instance stored_PrestoVolumeSpec : Stored (GPrestoVolumeSpec HeapR).
Proof. stored CPrestoVolumeSpec (λ c, match c with CPrestoVolumeSpec x => Some x | _ => None end). Defined.
#[export] Instance stored_ServiceSpec : Stored (GServiceSpec HeapR).
Proof. stored CServiceSpec (λ c, match c with CServiceSpec x => Some x | _ => None end). Defined.
#[export] Instance stored_WorkerSpec : Stored (GWorkerSpec HeapR).
Proof. stored CWorkerSpec (λ c, match c with CWorkerSpec x => Some x | _ => None end). Defined.
#[export] Instance stored_foreign : Stored FCell.
Proof. stored CForeign (λ c, match c with CForeign x => Some x | _ => None end). Defined.
End memory.
