(* ===== verification/DeepCopy.v ===== *)
(** The deep copies of the resource:
    pkg/apis/falarica/v1alpha1/zz_generated.deepcopy.go.

    [T_DeepCopyInto in_] is the method DeepCopyInto of [*T]: it reads through
    the pointers of the struct [in_] and returns the struct that is written to
    [*out], every field of which it assigns. The methods of the structs of the
    Kubernetes API are parameters. *)

From S2P Require Import Prelude ApiTypes GoHeap.

(** The methods DeepCopyInto of metav1.ObjectMeta, metav1.ListMeta,
    metav1.Time, corev1.VolumeSource and corev1.SessionAffinityConfig. *)
Class ForeignCopies `{ForeignTypes} := {
  ObjectMeta_DeepCopyInto : FObjectMeta HeapR → HM (FObjectMeta HeapR);
  ListMeta_DeepCopyInto : FListMeta HeapR → HM (FListMeta HeapR);
  VolumeSource_DeepCopyInto : FVolumeSource HeapR → HM (FVolumeSource HeapR);
  SessionAffinityConfig_DeepCopyInto :
    FSessionAffinityConfig HeapR → HM (FSessionAffinityConfig HeapR);
  Time_DeepCopyInto : FTime HeapR → HM (FTime HeapR)
}.

(** ** The forms of copying a field *)

Section fields.
Context `{ForeignTypes}.

(** [if in != nil { *out = new(A); **out = **in }] *)
Definition copy_ptr (A : Type) `{!Stored A} (in_ : option loc) : HM (option loc) :=
  match in_ with
  | None => mret None
  | Some l => a ← load (A := A) l; l' ← new a; mret (Some l')
  end.

(** A map, when it is not nil: [*out] is a new map, to which a range over [*in]
    adds every key with its value. *)
Definition copy_map `{GoMapRange} (site : nat) (in_ : option loc) : HM (option loc) :=
  match in_ with
  | None => mret None
  | Some l =>
    m ← load (A := gmap string string) l;
    l' ← new (map_copy site m ∅);
    mret (Some l')
  end.

(** A slice of values without pointers, when it is not nil: [*out] is made with
    the length of [*in], and copy copies the elements. *)
Definition copy_slice (A : Type) `{!Stored (list A)} (in_ : option slice) : HM (option slice) :=
  match in_ with
  | None => mret None
  | Some s => l ← load_slice (A := A) s; s' ← new_slice l; mret (Some s')
  end.

(** The loop that calls DeepCopyInto from each element of the slice [*in] to
    the one of [*out] with the same index. *)
Fixpoint copy_each {A} (DeepCopyInto : A → HM A) (l : list A) : HM (list A) :=
  match l with
  | [] => mret []
  | x :: l' => y ← DeepCopyInto x; k ← copy_each DeepCopyInto l'; mret (y :: k)
  end.

(** A slice of structs, when it is not nil: [*out] is a slice of the same
    length, whose elements the loop copies. *)
Definition copy_structs {A} `{!Stored (list A)} (DeepCopyInto : A → HM A)
    (in_ : option slice) : HM (option slice) :=
  match in_ with
  | None => mret None
  | Some s =>
    l ← load_slice (A := A) s;
    k ← copy_each DeepCopyInto l;
    s' ← new_slice k;
    mret (Some s')
  end.

(** [if in == nil { return nil }; out := new(A); in.DeepCopyInto(out)] *)
Definition copy_struct_ptr {A} `{!Stored A} (DeepCopyInto : A → HM A)
    (in_ : option loc) : HM (option loc) :=
  match in_ with
  | None => mret None
  | Some l => x ← load (A := A) l; y ← DeepCopyInto x; out ← new y; mret (Some out)
  end.
End fields.

(** ** The methods *)

Section methods.
Context `{ForeignCopies, GoMapRange}.

Definition AutoscalingSpec_DeepCopyInto (in_ : GAutoscalingSpec HeapR)
    : HM (GAutoscalingSpec HeapR) :=
  Enabled ← copy_ptr bool (gas_Enabled in_);
  MinReplicas ← copy_ptr Z (gas_MinReplicas in_);
  MaxReplicas ← copy_ptr Z (gas_MaxReplicas in_);
  Target ← copy_ptr Z (gas_TargetCPUUtilizationPercentage in_);
  mret (mkGAutoscalingSpec (r := HeapR) Enabled MinReplicas MaxReplicas Target).

Definition AutoscalingSpec_DeepCopy : option loc → HM (option loc) :=
  copy_struct_ptr AutoscalingSpec_DeepCopyInto.

Definition CatalogSecret_DeepCopyInto (in_ : CatalogSecret) : HM CatalogSecret := mret in_.

Definition CatalogSecret_DeepCopy : option loc → HM (option loc) :=
  copy_struct_ptr CatalogSecret_DeepCopyInto.

Definition CatalogSpec_DeepCopyInto (in_ : GCatalogSpec HeapR) : HM (GCatalogSpec HeapR) :=
  Content ← copy_map 0 (gcat_Content in_);
  mret (mkGCatalogSpec (r := HeapR) (gcat_Name in_) Content).

Definition CatalogSpec_DeepCopy : option loc → HM (option loc) :=
  copy_struct_ptr CatalogSpec_DeepCopyInto.

Definition CatalogList_DeepCopyInto (in_ : GCatalogList HeapR) : HM (GCatalogList HeapR) :=
  CatalogSecrets ← copy_slice CatalogSecret (gcl_CatalogSecrets in_);
  CatalogSpecs ← copy_structs CatalogSpec_DeepCopyInto (gcl_CatalogSpec in_);
  mret (mkGCatalogList (r := HeapR) CatalogSecrets CatalogSpecs).

Definition CatalogList_DeepCopy : option loc → HM (option loc) :=
  copy_struct_ptr CatalogList_DeepCopyInto.

Definition CoordinatorSpec_DeepCopyInto (in_ : GCoordinatorSpec HeapR)
    : HM (GCoordinatorSpec HeapR) :=
  AdditionalProps ← copy_map 1 (gcs_AdditionalProps in_);
  mret (mkGCoordinatorSpec (r := HeapR) (gcs_MemoryLimit in_) (gcs_AdditionalJVMConfig in_)
    AdditionalProps (gcs_CpuLimit in_) (gcs_CpuRequest in_) (gcs_HttpsEnabled in_)
    (gcs_HttpsKeyPairSecretName in_) (gcs_HttpsKeyPairSecretKey in_)
    (gcs_HttpsKeyPairPassword in_)).

Definition CoordinatorSpec_DeepCopy : option loc → HM (option loc) :=
  copy_struct_ptr CoordinatorSpec_DeepCopyInto.

Definition HMSSpec_DeepCopyInto (in_ : GHMSSpec) : HM GHMSSpec := mret in_.

Definition HMSSpec_DeepCopy : option loc → HM (option loc) :=
  copy_struct_ptr HMSSpec_DeepCopyInto.

Definition ImageSpec_DeepCopyInto (in_ : ImageSpec) : HM ImageSpec := mret in_.

Definition ImageSpec_DeepCopy : option loc → HM (option loc) :=
  copy_struct_ptr ImageSpec_DeepCopyInto.

Definition PrestoStatus_DeepCopyInto (in_ : GPrestoStatus HeapR) : HM (GPrestoStatus HeapR) :=
  ModificationTime ← Time_DeepCopyInto (gst_ModificationTime in_);
  mret (mkGPrestoStatus (r := HeapR) (gst_Uuid in_) (gst_DesiredWorkers in_)
    (gst_CurrentWorkers in_) (gst_HeadlessService in_) (gst_Service in_)
    (gst_CoordinatorAddress in_) (gst_CatalogConfig in_) (gst_CoordinatorConfig in_)
    (gst_WorkerConfig in_) (gst_WorkerReplicaset in_) (gst_CoordinatorReplicaset in_)
    (gst_HpaName in_) (gst_ClusterState in_) (gst_ErrorReason in_) ModificationTime
    (gst_CoordinatorCPU in_) (gst_WorkerCPU in_)).

Definition PrestoStatus_DeepCopy : option loc → HM (option loc) :=
  copy_struct_ptr PrestoStatus_DeepCopyInto.

Definition PrestoVolumeSpec_DeepCopyInto (in_ : GPrestoVolumeSpec HeapR)
    : HM (GPrestoVolumeSpec HeapR) :=
  VolumeSource ← VolumeSource_DeepCopyInto (gpv_VolumeSource in_);
  MountPropagation ← copy_ptr string (gpv_MountPropagation in_);
  mret (mkGPrestoVolumeSpec (r := HeapR) (gpv_Name in_) VolumeSource (gpv_ReadOnly in_)
    (gpv_MountPath in_) (gpv_SubPath in_) MountPropagation (gpv_SubPathExpr in_)).

Definition PrestoVolumeSpec_DeepCopy : option loc → HM (option loc) :=
  copy_struct_ptr PrestoVolumeSpec_DeepCopyInto.

Definition ServiceSpec_DeepCopyInto (in_ : GServiceSpec HeapR) : HM (GServiceSpec HeapR) :=
  NodePort ← copy_ptr Z (gss_NodePort in_);
  Port ← copy_ptr Z (gss_Port in_);
  ExternalIPs ← copy_slice string (gss_ExternalIPs in_);
  LoadBalancerSourceRanges ← copy_slice string (gss_LoadBalancerSourceRanges in_);
  SessionAffinityConfig ←
    copy_struct_ptr SessionAffinityConfig_DeepCopyInto (gss_SessionAffinityConfig in_);
  IPFamily ← copy_ptr string (gss_IPFamily in_);
  mret (mkGServiceSpec (r := HeapR) NodePort Port (gss_ClusterIP in_) (gss_Type in_)
    ExternalIPs (gss_SessionAffinity in_) (gss_LoadBalancerIP in_) LoadBalancerSourceRanges
    (gss_ExternalName in_) (gss_ExternalTrafficPolicy in_) (gss_HealthCheckNodePort in_)
    (gss_PublishNotReadyAddresses in_) SessionAffinityConfig IPFamily).

Definition ServiceSpec_DeepCopy : option loc → HM (option loc) :=
  copy_struct_ptr ServiceSpec_DeepCopyInto.

Definition WorkerSpec_DeepCopyInto (in_ : GWorkerSpec HeapR) : HM (GWorkerSpec HeapR) :=
  AdditionalProps ← copy_map 2 (gws_AdditionalProps in_);
  TerminationGracePeriodSeconds ← copy_ptr Z (gws_TerminationGracePeriodSeconds in_);
  Count ← copy_ptr Z (gws_Count in_);
  Autoscaling ← AutoscalingSpec_DeepCopyInto (gws_Autoscaling in_);
  mret (mkGWorkerSpec (r := HeapR) (gws_MemoryLimit in_) (gws_AdditionalJVMConfig in_)
    AdditionalProps (gws_CpuLimit in_) (gws_CpuRequest in_) TerminationGracePeriodSeconds
    Count Autoscaling).

Definition WorkerSpec_DeepCopy : option loc → HM (option loc) :=
  copy_struct_ptr WorkerSpec_DeepCopyInto.

Definition PrestoSpec_DeepCopyInto (in_ : GPrestoSpec HeapR) : HM (GPrestoSpec HeapR) :=
  Coordinator ← CoordinatorSpec_DeepCopyInto (gp_Coordinator in_);
  Worker ← WorkerSpec_DeepCopyInto (gp_Worker in_);
  Catalogs ← CatalogList_DeepCopyInto (gp_Catalogs in_);
  Service ← ServiceSpec_DeepCopyInto (gp_Service in_);
  AdditionalPrestoPropFiles ← copy_map 3 (gp_AdditionalPrestoPropFiles in_);
  Volumes ← copy_structs PrestoVolumeSpec_DeepCopyInto (gp_Volumes in_);
  mret (mkGPrestoSpec (r := HeapR) Coordinator Worker Catalogs Service
    (gp_InternalHiveMetaStore in_) (gp_ImageDetails in_) AdditionalPrestoPropFiles Volumes).

Definition PrestoSpec_DeepCopy : option loc → HM (option loc) :=
  copy_struct_ptr PrestoSpec_DeepCopyInto.

Definition Presto_DeepCopyInto (in_ : GPresto HeapR) : HM (GPresto HeapR) :=
  ObjectMeta ← ObjectMeta_DeepCopyInto (g_ObjectMeta in_);
  Spec ← PrestoSpec_DeepCopyInto (g_Spec in_);
  Status ← PrestoStatus_DeepCopyInto (g_Status in_);
  mret (mkGPresto (r := HeapR) (g_TypeMeta in_) ObjectMeta Spec Status).

Definition Presto_DeepCopy : option loc → HM (option loc) :=
  copy_struct_ptr Presto_DeepCopyInto.

Definition PrestoList_DeepCopyInto (in_ : GPrestoList HeapR) : HM (GPrestoList HeapR) :=
  ListMeta ← ListMeta_DeepCopyInto (gpl_ListMeta in_);
  Items ← copy_structs Presto_DeepCopyInto (gpl_Items in_);
  mret (mkGPrestoList (r := HeapR) (gpl_TypeMeta in_) ListMeta Items).

Definition PrestoList_DeepCopy : option loc → HM (option loc) :=
  copy_struct_ptr PrestoList_DeepCopyInto.

(** runtime.Object: an interface value, nil being [None]. *)
Inductive Object := ObjPresto (l : loc) | ObjPrestoList (l : loc).

Definition Presto_DeepCopyObject (in_ : option loc) : HM (option Object) :=
  c ← Presto_DeepCopy in_;
  match c with Some l => mret (Some (ObjPresto l)) | None => mret None end.

Definition PrestoList_DeepCopyObject (in_ : option loc) : HM (option Object) :=
  c ← PrestoList_DeepCopy in_;
  match c with Some l => mret (Some (ObjPrestoList l)) | None => mret None end.
End methods.
