(* ===== verification/Views.v ===== *)
(** Reading Go values from the heap, and what it means to copy one.

    A [view] of a type [H] of Go values as trees [T] says how a value is read
    from the heap and which addresses are read for it. The views of structs are
    put together from those of their fields. A function copies a view
    ([Copies]) when it leaves the heap as it was and returns a value with the
    same tree, all of it in newly allocated memory without sharing. *)

From S2P Require Import Prelude ApiTypes GoHeap DeepCopy.

Section views.
Context `{ForeignTypes}.

Record view (V T : Type) := mkView {
  vread : heap → V → option T;
  vlocs : heap → V → list loc
}.
End views.

Arguments view {_}.
Arguments mkView {_ V T}.
Arguments vread {_ V T}.
Arguments vlocs {_ V T}.

(** Reading depends on the memory that is read only. *)
Class ViewOk `{ForeignTypes} {V T} (w : view V T) : Prop :=
  view_mono h h' x v :
    vread w h x = Some v → h ⊆ h' → vread w h' x = Some v ∧ vlocs w h' x = vlocs w h x.

(** [y] has the tree [v], and its memory is [h]: no more, no less, and every
    address is reached in one way. *)
Definition owns `{ForeignTypes} {V T} (w : view V T) (y : V) (v : T) (h : heap) : Prop :=
  vread w h y = Some v ∧ NoDup (vlocs w h y) ∧ list_to_set (vlocs w h y) = dom h.

(** The copy of [x], whose tree is [v], from the heap [h]. *)
Definition copied `{ForeignTypes} {V T} (w : view V T) (copy : V → HM V) (h : heap) (x : V) (v : T)
    : Prop :=
  ∃ y hn, copy x h = Some (y, hn ∪ h) ∧ hn ##ₘ h ∧ owns w y v hn.

Class Copies `{ForeignTypes} {V T} (w : view V T) (copy : V → HM V) : Prop :=
  copies h x v : vread w h x = Some v → copied w copy h x v.

(** What a copy is good for. In the heap [h'] after it, the original [x] and the
    copy [y] have the tree [v]. No write to the memory that was allocated after
    [h], the memory of the copy included, changes the original; no write to the
    memory of [h] changes the copy. The addresses of the copy are new, and it
    shares nothing within itself. *)
Definition separate `{ForeignTypes} {V T} (w : view V T) (h : heap) (x : V) (v : T) (y : V) (h' : heap)
    : Prop :=
  vread w h' y = Some v ∧ vread w h' x = Some v
  ∧ (∀ g : heap, (∀ l, l ∈ dom h → g !! l = h' !! l) → vread w g x = Some v)
  ∧ (∀ g : heap, (∀ l, l ∉ dom h → g !! l = h' !! l) → vread w g y = Some v)
  ∧ NoDup (vlocs w h' y) ∧ (∀ l, l ∈ vlocs w h' y → l ∉ dom h).

(** ** Views *)

Section combinators.
Context `{ForeignTypes}.

Definition v_plain {A : Type} : view A A := mkView (λ _ a, Some a) (λ _ _, []).

Definition v_pair {V1 T1 V2 T2} (w1 : view V1 T1) (w2 : view V2 T2) : view (V1 * V2) (T1 * T2) :=
  mkView (λ h x, a ← vread w1 h x.1; b ← vread w2 h x.2; Some (a, b))
         (λ h x, vlocs w1 h x.1 ++ vlocs w2 h x.2).

(** What an address holds. *)
Definition lookup_cell (A : Type) `{!Stored A} (h : heap) (l : loc) : option A :=
  c ← h !! l; of_cell c.

Definition v_ptr (A : Type) `{!Stored A} : view (option loc) (option A) :=
  mkView (λ h p, match p with None => Some None | Some l => Some <$> lookup_cell A h l end)
         (λ _ p, option_list p).

Definition v_slice (A : Type) `{!Stored (list A)} : view (option slice) (option (list A)) :=
  mkView (λ h s, match s with None => Some None | Some s => Some <$> slice_elems h s end)
         (λ _ s, match s with None => [] | Some s => [sl_array s] end).

Definition v_list {V T} (w : view V T) : view (list V) (list T) :=
  mkView (λ h l, mapM (vread w h) l) (λ h l, concat (map (vlocs w h) l)).

Definition v_structs {V T} `{!Stored (list V)} (w : view V T)
    : view (option slice) (option (list T)) :=
  mkView (λ h s, match s with
                 | None => Some None
                 | Some s => l ← slice_elems h s; Some <$> vread (v_list w) h l
                 end)
         (λ h s, match s with
                 | None => []
                 | Some s => sl_array s :: default [] (vlocs (v_list w) h <$> slice_elems h s)
                 end).

Definition v_struct_ptr {V T} `{!Stored V} (w : view V T) : view (option loc) (option T) :=
  mkView (λ h p, match p with
                 | None => Some None
                 | Some l => x ← lookup_cell V h l; Some <$> vread w h x
                 end)
         (λ h p, match p with
                 | None => []
                 | Some l => l :: default [] (vlocs w h <$> lookup_cell V h l)
                 end).

(** The view of a struct with the fields [fields], which [build] and
    [build_tree] put together again. *)
Definition v_struct {V V' T T'} (fields : V → V') (build_tree : T' → T) (w : view V' T') : view V T :=
  mkView (λ h x, build_tree <$> vread w h (fields x)) (λ h x, vlocs w h (fields x)).

Definition c_plain {A} (a : A) : HM A := mret a.

Definition c_pair {A B} (c1 : A → HM A) (c2 : B → HM B) (x : A * B) : HM (A * B) :=
  a ← c1 x.1; b ← c2 x.2; mret (a, b).
End combinators.

Declare Scope view_scope.
Delimit Scope view_scope with view.

(** The fields of a struct, in order: their views and their copies. *)
Infix "⊗" := v_pair (at level 40, left associativity) : view_scope.
Infix "⊛" := c_pair (at level 40, left associativity) : view_scope.

(** ** Reading is monotone *)

Section monotone.
Context `{ForeignTypes}.

#[export] Instance v_plain_ok A : ViewOk (v_plain (A := A)).
Proof. by intros h h' x v Hr _. Qed.

#[export] Instance v_pair_ok {V1 T1 V2 T2} (w1 : view V1 T1) (w2 : view V2 T2) :
  ViewOk w1 → ViewOk w2 → ViewOk (v_pair w1 w2).
Proof.
  intros H1 H2 h h' x v Hr Hs. simpl in *. inv_option.
  destruct (H1 h h' x.1 x0) as [-> ->]; [done..|]. simpl.
  destruct (H2 h h' x.2 x1) as [-> ->]; [done..|]. simpl. by rewrite Hr.
Qed.

Lemma lookup_cell_mono A `{!Stored A} h h' l a :
  lookup_cell A h l = Some a → h ⊆ h' → lookup_cell A h' l = Some a.
Proof.
  unfold lookup_cell. intros (c & Hc & Ha)%bind_Some Hs.
  by rewrite (lookup_weaken _ _ _ _ Hc Hs).
Qed.

Lemma slice_elems_mono A `{!Stored (list A)} h h' s l :
  slice_elems (A := A) h s = Some l → h ⊆ h' → slice_elems (A := A) h' s = Some l.
Proof.
  unfold slice_elems. intros (c & Hc & Ha)%bind_Some Hs.
  by rewrite (lookup_weaken _ _ _ _ Hc Hs).
Qed.

#[export] Instance v_ptr_ok A `{!Stored A} : ViewOk (v_ptr A).
Proof.
  intros h h' [l|] v; simpl; [|done]. intros (a & Ha & ->)%fmap_Some Hs.
  by rewrite (lookup_cell_mono _ _ _ _ _ Ha Hs).
Qed.

#[export] Instance v_slice_ok A `{!Stored (list A)} : ViewOk (v_slice A).
Proof.
  intros h h' [s|] v; simpl; [|done]. intros (a & Ha & ->)%fmap_Some Hs.
  by rewrite (slice_elems_mono _ _ _ _ _ Ha Hs).
Qed.

#[export] Instance v_list_ok {V T} (w : view V T) : ViewOk w → ViewOk (v_list w).
Proof.
  intros Hw h h' l v Hr Hs. simpl in *. revert v Hr.
  induction l as [|x l IH]; intros v Hr; [done|]. simpl in *. inv_option.
  destruct (Hw h h' x x0) as [-> ->]; [done..|]. simpl.
  destruct (IH x1) as [-> ->]; [done|]. simpl. by rewrite Hr.
Qed.

#[export] Instance v_structs_ok {V T} `{!Stored (list V)} (w : view V T) :
  ViewOk w → ViewOk (v_structs w).
Proof.
  intros Hw h h' [s|] v; [|done]. cbn [vread vlocs v_structs].
  intros (l & Hl & (t & Ht & ->)%fmap_Some)%bind_Some Hs.
  rewrite (slice_elems_mono _ _ _ _ _ Hl Hs), Hl. cbn [default fmap option_fmap option_map mbind option_bind].
  destruct (v_list_ok w Hw h h' l t) as [Hr Hlocs]; [done..|].
  simpl in Hr, Hlocs. simpl. by rewrite Hr, Hlocs.
Qed.

#[export] Instance v_struct_ptr_ok {V T} `{!Stored V} (w : view V T) :
  ViewOk w → ViewOk (v_struct_ptr w).
Proof.
  intros Hw h h' [l|] v; [|done]. simpl.
  intros (x & Hx & (t & Ht & ->)%fmap_Some)%bind_Some Hs.
  rewrite (lookup_cell_mono _ _ _ _ _ Hx Hs), Hx. simpl.
  by destruct (Hw h h' x t) as [-> ->].
Qed.

#[export] Instance v_struct_ok {V V' T T'} (fields : V → V') (build : T' → T) (w : view V' T') :
  ViewOk w → ViewOk (v_struct fields build w).
Proof.
  intros Hw h h' x v. simpl. intros (t & Ht & ->)%fmap_Some Hs.
  by destruct (Hw h h' (fields x) t) as [-> ->].
Qed.
End monotone.

(** ** Copying *)

Section copying.
Context `{ForeignTypes}.

Lemma owns_pair {V1 T1 V2 T2} (w1 : view V1 T1) (w2 : view V2 T2) `{!ViewOk w1, !ViewOk w2}
    y1 v1 h1 y2 v2 h2 :
  owns w1 y1 v1 h1 → owns w2 y2 v2 h2 → h2 ##ₘ h1 →
  owns (v_pair w1 w2) (y1, y2) (v1, v2) (h2 ∪ h1).
Proof.
  intros (Hr1 & Hn1 & Hd1) (Hr2 & Hn2 & Hd2) Hdisj. unfold owns. simpl.
  destruct (view_mono h1 (h2 ∪ h1) y1 v1 Hr1) as [-> ->]; [by apply map_union_subseteq_r|].
  destruct (view_mono h2 (h2 ∪ h1) y2 v2 Hr2) as [-> ->]; [by apply map_union_subseteq_l|].
  split; [done|]. split.
  - apply NoDup_app. split; [done|]. split; [|done]. intros l Hl1 Hl2.
    apply map_disjoint_dom in Hdisj. rewrite <-Hd1, <-Hd2 in Hdisj. set_solver.
  - rewrite list_to_set_app_L, Hd1, Hd2, dom_union_L. set_solver.
Qed.

(** Allocation. *)
Lemma new_spec A `{!Stored A} (a : A) h :
  ∃ l, new a h = Some (l, {[l := to_cell a]} ∪ h) ∧ h !! l = None.
Proof.
  exists (fresh (dom h)). unfold new. rewrite insert_union_singleton_l. split; [done|].
  apply not_elem_of_dom, is_fresh.
Qed.

Lemma new_disjoint A `{!Stored A} (a : A) h l :
  h !! l = None → ({[l := to_cell a]} : heap) ##ₘ h.
Proof. intros. by apply map_disjoint_singleton_l. Qed.

Lemma lookup_cell_new A `{!Stored A} (a : A) (h : heap) l :
  lookup_cell A ({[l := to_cell a]} ∪ h) l = Some a.
Proof.
  unfold lookup_cell.
  rewrite (lookup_union_Some_l _ _ _ _ (lookup_singleton_eq l (to_cell a))).
  apply of_to_cell.
Qed.

Lemma slice_elems_new A `{!Stored (list A)} (k : list A) (h : heap) l :
  slice_elems ({[l := to_cell k]} ∪ h) (mkSlice l 0 (length k)) = Some k.
Proof.
  unfold slice_elems. simpl.
  rewrite (lookup_union_Some_l _ _ _ _ (lookup_singleton_eq l (to_cell k))). simpl.
  rewrite of_to_cell. simpl. rewrite Nat.leb_refl, drop_0. by rewrite take_ge.
Qed.

(** A new cell in front of the memory of what it points to. *)
Lemma owns_cell (l : loc) (c : cell) (h : heap) (ls : list loc) :
  h !! l = None → NoDup ls → list_to_set ls =@{gset loc} dom h →
  NoDup (l :: ls) ∧ list_to_set (l :: ls) =@{gset loc} dom ({[l := c]} ∪ h).
Proof.
  intros Hl Hn Hd. split.
  - constructor; [|done]. intros Hin. apply not_elem_of_dom in Hl. rewrite <-Hd in Hl.
    by rewrite elem_of_list_to_set in Hl.
  - rewrite dom_union_L, dom_singleton_L. simpl. by rewrite Hd.
Qed.

(** Running a computation on the heap step by step. *)
Lemma heap_bind {A B} (m : HM A) (f : A → HM B) h x h' :
  m h = Some (x, h') → (m ≫= f) h = f x h'.
Proof. intros E. unfold mbind, HM_bind. by rewrite E. Qed.

Lemma run_load A `{!Stored A} h l a : lookup_cell A h l = Some a → load l h = Some (a, h).
Proof. unfold lookup_cell, load. intros (c & -> & E)%bind_Some. simpl. by rewrite E. Qed.

Lemma run_load_slice A `{!Stored (list A)} h s l :
  slice_elems h s = Some l → load_slice (A := A) s h = Some (l, h).
Proof. unfold load_slice. by intros ->. Qed.

Lemma run_new_slice A `{!Stored (list A)} (k : list A) h l h' :
  new k h = Some (l, h') → new_slice k h = Some (mkSlice l 0 (length k), h').
Proof. intros E. unfold new_slice. by rewrite (heap_bind _ _ _ _ _ E). Qed.

#[export] Instance c_plain_copies A : Copies (v_plain (A := A)) c_plain.
Proof.
  intros h x v [= <-]. exists x, ∅. rewrite (left_id_L ∅ (∪)).
  split; [done|]. split; [apply map_disjoint_empty_l|].
  split; [done|]. split; [constructor|]. by rewrite dom_empty_L.
Qed.

Lemma pair_copied {V1 T1 V2 T2} (w1 : view V1 T1) (w2 : view V2 T2) `{!ViewOk w1, !ViewOk w2}
    c1 c2 h x1 x2 v1 v2 :
  copied w1 c1 h x1 v1 → (∀ hn, hn ##ₘ h → copied w2 c2 (hn ∪ h) x2 v2) →
  copied (v_pair w1 w2) (c_pair c1 c2) h (x1, x2) (v1, v2).
Proof.
  intros (y1 & h1 & E1 & D1 & O1) Hc2.
  destruct (Hc2 h1 D1) as (y2 & h2 & E2 & D2 & O2).
  apply map_disjoint_union_r in D2 as [D21 D2].
  exists (y1, y2), (h2 ∪ h1). unfold c_pair. cbn [fst snd].
  rewrite (heap_bind _ _ _ _ _ E1), (heap_bind _ _ _ _ _ E2).
  split; [by rewrite <-(assoc_L (∪))|]. split; [by apply map_disjoint_union_l|].
  by apply owns_pair.
Qed.

#[export] Instance c_pair_copies {V1 T1 V2 T2} (w1 : view V1 T1) (w2 : view V2 T2) c1 c2 :
  ViewOk w1 → ViewOk w2 → Copies w1 c1 → Copies w2 c2 → Copies (v_pair w1 w2) (c_pair c1 c2).
Proof.
  intros Ho1 Ho2 Hc1 Hc2 h [x1 x2] v Hr. simpl in Hr.
  apply bind_Some in Hr as (v1 & Hr1 & (v2 & Hr2 & [= <-])%bind_Some).
  apply pair_copied; [done..|by apply Hc1|]. intros hn D. apply Hc2.
  by apply (view_mono h); [|apply map_union_subseteq_r].
Qed.

(** The empty memory of a nil pointer or slice. *)
Lemma copied_nil {V T} (w : view V T) (c : V → HM V) h x v :
  vread w ∅ x = Some v → vlocs w ∅ x = [] → c x h = Some (x, h) → copied w c h x v.
Proof.
  intros Hr Hl Hc. exists x, ∅. rewrite (left_id_L ∅ (∪)). split; [done|].
  split; [apply map_disjoint_empty_l|]. unfold owns. rewrite Hl, dom_empty_L.
  split_and!; [done|constructor|done].
Qed.

#[export] Instance copy_ptr_copies A `{!Stored A} : Copies (v_ptr A) (copy_ptr A).
Proof.
  intros h [l|] v; simpl; [|intros [= <-]; by apply copied_nil].
  intros (a & Ha & ->)%fmap_Some. destruct (new_spec A a h) as (l' & E & Hl').
  exists (Some l'), {[l' := to_cell a]}. unfold copy_ptr.
  rewrite (heap_bind _ _ _ _ _ (run_load A _ _ _ Ha)), (heap_bind _ _ _ _ _ E).
  split; [done|]. split; [by apply new_disjoint|].
  destruct (owns_cell l' (to_cell a) ∅ []) as [Hn Hd]; [done|constructor|by rewrite dom_empty_L|].
  pose proof (lookup_cell_new A a ∅ l') as Hr. rewrite (right_id_L ∅ (∪)) in Hr, Hd.
  unfold owns. simpl. by rewrite Hr.
Qed.

#[export] Instance copy_map_copies `{GoMapRange} site :
  Copies (v_ptr (gmap string string)) (copy_map site).
Proof.
  intros h x v Hr. destruct (copy_ptr_copies _ h x v Hr) as (y & hn & E & Hrest).
  exists y, hn. split; [|done]. rewrite <-E. destruct x as [l|]; [|done]. simpl.
  unfold mbind, HM_bind. destruct (load l h) as [[m h']|]; [|done].
  by rewrite map_copy_union, (right_id_L ∅ (∪)).
Qed.

#[export] Instance copy_slice_copies A `{!Stored (list A)} : Copies (v_slice A) (copy_slice A).
Proof.
  intros h [s|] v; simpl; [|intros [= <-]; by apply copied_nil].
  intros (k & Hk & ->)%fmap_Some. destruct (new_spec _ k h) as (l' & E & Hl').
  exists (Some (mkSlice l' 0 (length k))), {[l' := to_cell k]}. unfold copy_slice.
  rewrite (heap_bind _ _ _ _ _ (run_load_slice A _ _ _ Hk)).
  rewrite (heap_bind _ _ _ _ _ (run_new_slice A _ _ _ _ E)).
  split; [done|]. split; [by apply new_disjoint|].
  destruct (owns_cell l' (to_cell k) ∅ []) as [Hn Hd]; [done|constructor|by rewrite dom_empty_L|].
  pose proof (slice_elems_new A k ∅ l') as Hr. rewrite (right_id_L ∅ (∪)) in Hr, Hd.
  unfold owns. simpl. by rewrite Hr.
Qed.

(** Copying the elements one after the other is copying pairs. *)
#[export] Instance copy_each_copies {V T} (w : view V T) c :
  ViewOk w → Copies w c → Copies (v_list w) (copy_each c).
Proof.
  intros Ho Hc h l. revert h. induction l as [|x l IH]; intros h v Hr.
  - simpl in Hr. injection Hr as <-. by apply copied_nil.
  - simpl in Hr. apply bind_Some in Hr as (t & Ht & (ts & Hts & [= <-])%bind_Some).
    destruct (pair_copied w (v_list w) c (copy_each c) h x l t ts) as ([y k] & hn & E & D & O).
    + by apply Hc.
    + intros hn D. apply IH. apply (view_mono (w := v_list w) h); [done|by apply map_union_subseteq_r].
    + exists (y :: k), hn. split; [|split; [done|]].
      * simpl. unfold c_pair in E. cbn [fst snd] in E. unfold mbind, HM_bind in *.
        destruct (c x h) as [[y' h']|]; [|done]. destruct (copy_each c l h') as [[k' h'']|]; [|done].
        simpl in *. by injection E as -> -> ->.
      * destruct O as (Or & On & Od). simpl in Or, On, Od.
        apply bind_Some in Or as (? & Ey & (? & Ek & [= -> ->])%bind_Some).
        unfold owns. simpl. by rewrite Ey, Ek.
Qed.

(** A new cell for a copied struct or array. *)
Lemma owns_new {V T} A `{!Stored A} (w : view V T) `{!ViewOk w} l (a : A) h y v :
  h !! l = None → owns w y v h →
  vread w ({[l := to_cell a]} ∪ h) y = Some v
  ∧ NoDup (l :: vlocs w ({[l := to_cell a]} ∪ h) y)
  ∧ list_to_set (l :: vlocs w ({[l := to_cell a]} ∪ h) y) =@{gset loc} dom ({[l := to_cell a]} ∪ h).
Proof.
  intros Hl (Hr & Hn & Hd).
  destruct (view_mono h ({[l := to_cell a]} ∪ h) y v Hr) as [-> ->].
  - apply map_union_subseteq_r, map_disjoint_singleton_l, Hl.
  - split; [done|]. by apply owns_cell.
Qed.

#[export] Instance copy_structs_copies {V T} `{!Stored (list V)} (w : view V T) c :
  ViewOk w → Copies w c → Copies (v_structs w) (copy_structs c).
Proof.
  intros Ho Hc h [s|] v Hr; [|injection Hr as <-; by apply copied_nil].
  cbn [vread v_structs] in Hr. apply bind_Some in Hr as (l & Hl & (ts & Hts & ->)%fmap_Some).
  destruct (copy_each_copies w c Ho Hc h l ts Hts) as (k & hn & E & D & O).
  destruct (new_spec _ k (hn ∪ h)) as (a & Ea & Ha). apply lookup_union_None in Ha as [Ha Hah].
  exists (Some (mkSlice a 0 (length k))), ({[a := to_cell k]} ∪ hn). unfold copy_structs.
  rewrite (heap_bind _ _ _ _ _ (run_load_slice V _ _ _ Hl)), (heap_bind _ _ _ _ _ E).
  rewrite (heap_bind _ _ _ _ _ (run_new_slice _ _ _ _ _ Ea)).
  split; [by rewrite <-(assoc_L (∪))|].
  split; [apply map_disjoint_union_l; split; [by apply new_disjoint|done]|].
  destruct (owns_new _ (v_list w) a k hn k ts Ha O) as (Hr & Hn & Hd).
  unfold owns. cbn [vread vlocs v_structs sl_array].
  rewrite slice_elems_new. cbn [mbind option_bind]. rewrite Hr. done.
Qed.

#[export] Instance copy_struct_ptr_copies {V T} `{!Stored V} (w : view V T) c :
  ViewOk w → Copies w c → Copies (v_struct_ptr w) (copy_struct_ptr c).
Proof.
  intros Ho Hc h [l|] v Hr; [|injection Hr as <-; by apply copied_nil].
  cbn [vread v_struct_ptr] in Hr. apply bind_Some in Hr as (x & Hx & (t & Ht & ->)%fmap_Some).
  destruct (Hc h x t Ht) as (y & hn & E & D & O).
  destruct (new_spec _ y (hn ∪ h)) as (a & Ea & Ha). apply lookup_union_None in Ha as [Ha Hah].
  exists (Some a), ({[a := to_cell y]} ∪ hn). unfold copy_struct_ptr.
  rewrite (heap_bind _ _ _ _ _ (run_load V _ _ _ Hx)), (heap_bind _ _ _ _ _ E).
  rewrite (heap_bind _ _ _ _ _ Ea). split; [by rewrite <-(assoc_L (∪))|].
  split; [apply map_disjoint_union_l; split; [by apply new_disjoint|done]|].
  destruct (owns_new _ w a y hn y t Ha O) as (Hr & Hn & Hd).
  unfold owns. cbn [vread vlocs v_struct_ptr]. rewrite lookup_cell_new.
  cbn [mbind option_bind]. rewrite Hr. done.
Qed.

(** A struct is copied by copying its fields in order. *)
Lemma struct_copies {V V' T T'} (fields : V → V') (build : V' → V) (build_tree : T' → T)
    (w : view V' T') (c : V → HM V) (c' : V' → HM V') :
  (∀ y, fields (build y) = y) →
  (∀ x h, c x h = (build <$> c' (fields x)) h) →
  Copies w c' → Copies (v_struct fields build_tree w) c.
Proof.
  intros Hfb Hc Hw h x v. simpl. intros (t & Ht & ->)%fmap_Some.
  destruct (Hw h _ t Ht) as (y & hn & E & D & Or & On & Od).
  exists (build y), hn. rewrite Hc. unfold fmap, HM_fmap. rewrite (heap_bind _ _ _ _ _ E).
  split; [done|]. split; [done|]. unfold owns. simpl. by rewrite Hfb, Or.
Qed.

Lemma copies_separate {V T} (w : view V T) `{!ViewOk w} c `{!Copies w c} h x v :
  vread w h x = Some v → ∃ y h', c x h = Some (y, h') ∧ separate w h x v y h'.
Proof.
  intros Hr. destruct (copies h x v Hr) as (y & hn & E & D & Or & On & Od).
  exists y, (hn ∪ h). unfold separate.
  destruct (view_mono hn (hn ∪ h) y v Or) as [Hy Hl]; [by apply map_union_subseteq_l|].
  split; [done|]. split; [done|]. split; [by apply (view_mono h); [|apply map_union_subseteq_r]|].
  split; [|split].
  - intros g Hg. apply (view_mono h g); [done|]. apply map_subseteq_spec. intros l a Ha.
    rewrite Hg by (by apply elem_of_dom_2 in Ha). by apply lookup_union_Some_r.
  - intros g Hg. apply (view_mono hn g); [done|]. apply map_subseteq_spec. intros l a Ha.
    rewrite Hg; [by apply lookup_union_Some_l|]. apply not_elem_of_dom.
    by apply (map_disjoint_Some_l hn h l a).
  - rewrite Hl. split; [done|]. intros l Hin Hh.
    apply map_disjoint_dom in D. apply (D l); [|done]. rewrite <-Od.
    by apply elem_of_list_to_set.
Qed.
End copying.
