(* ===== verification/DeepCopyFacts.v ===== *)
(** Correctness of the deep copies of DeepCopy.v: the copy of a resource or of a
    list of resources has the same value and shares no memory with it. *)

From S2P Require Import Prelude ApiTypes GoHeap DeepCopy Views.

Local Open Scope view_scope.
Local Open Scope string_scope.

(** How the structs of the Kubernetes API are read from the heap. *)
Class ForeignViews `{ForeignTypes} := {
  ObjectMeta_view : view (FObjectMeta HeapR) (FObjectMeta TreeR);
  ListMeta_view : view (FListMeta HeapR) (FListMeta TreeR);
  VolumeSource_view : view (FVolumeSource HeapR) (FVolumeSource TreeR);
  SessionAffinityConfig_view : view (FSessionAffinityConfig HeapR) (FSessionAffinityConfig TreeR);
  Time_view : view (FTime HeapR) (FTime TreeR)
}.

(** Their methods DeepCopyInto are deep copies. *)
Class ForeignLaws `{ForeignCopies, !ForeignViews} : Prop := {
  #[global] ObjectMeta_view_ok :: ViewOk ObjectMeta_view;
  #[global] ListMeta_view_ok :: ViewOk ListMeta_view;
  #[global] VolumeSource_view_ok :: ViewOk VolumeSource_view;
  #[global] SessionAffinityConfig_view_ok :: ViewOk SessionAffinityConfig_view;
  #[global] Time_view_ok :: ViewOk Time_view;
  #[global] ObjectMeta_copies :: Copies ObjectMeta_view ObjectMeta_DeepCopyInto;
  #[global] ListMeta_copies :: Copies ListMeta_view ListMeta_DeepCopyInto;
  #[global] VolumeSource_copies :: Copies VolumeSource_view VolumeSource_DeepCopyInto;
  #[global] SessionAffinityConfig_copies ::
    Copies SessionAffinityConfig_view SessionAffinityConfig_DeepCopyInto;
  #[global] Time_copies :: Copies Time_view Time_DeepCopyInto
}.

(** ** The structs, field by field *)

Section struct_views.
Context `{ForeignViews}.

Definition AutoscalingSpec_view : view (GAutoscalingSpec HeapR) (GAutoscalingSpec TreeR) :=
  v_struct
    (λ x : GAutoscalingSpec HeapR, (gas_Enabled x, gas_MinReplicas x, gas_MaxReplicas x,
      gas_TargetCPUUtilizationPercentage x))
    (λ '(a, b, c, d), mkGAutoscalingSpec (r := TreeR) a b c d)
    (v_ptr bool ⊗ v_ptr Z ⊗ v_ptr Z ⊗ v_ptr Z).

Definition CatalogSpec_view : view (GCatalogSpec HeapR) (GCatalogSpec TreeR) :=
  v_struct
    (λ x : GCatalogSpec HeapR, (gcat_Name x, gcat_Content x))
    (λ '(a, b), mkGCatalogSpec (r := TreeR) a b)
    (v_plain ⊗ v_ptr (gmap string string)).

Definition CatalogList_view : view (GCatalogList HeapR) (GCatalogList TreeR) :=
  v_struct
    (λ x : GCatalogList HeapR, (gcl_CatalogSecrets x, gcl_CatalogSpec x))
    (λ '(a, b), mkGCatalogList (r := TreeR) a b)
    (v_slice CatalogSecret ⊗ v_structs CatalogSpec_view).

Definition CoordinatorSpec_view : view (GCoordinatorSpec HeapR) (GCoordinatorSpec TreeR) :=
  v_struct
    (λ x : GCoordinatorSpec HeapR, (gcs_MemoryLimit x, gcs_AdditionalJVMConfig x,
      gcs_AdditionalProps x, gcs_CpuLimit x, gcs_CpuRequest x, gcs_HttpsEnabled x,
      gcs_HttpsKeyPairSecretName x, gcs_HttpsKeyPairSecretKey x, gcs_HttpsKeyPairPassword x))
    (λ '(a, b, c, d, e, f, g, h, i), mkGCoordinatorSpec (r := TreeR) a b c d e f g h i)
    (v_plain ⊗ v_plain ⊗ v_ptr (gmap string string) ⊗ v_plain ⊗ v_plain ⊗ v_plain ⊗ v_plain ⊗
      v_plain ⊗ v_plain).

Definition WorkerSpec_view : view (GWorkerSpec HeapR) (GWorkerSpec TreeR) :=
  v_struct
    (λ x : GWorkerSpec HeapR, (gws_MemoryLimit x, gws_AdditionalJVMConfig x,
      gws_AdditionalProps x, gws_CpuLimit x, gws_CpuRequest x,
      gws_TerminationGracePeriodSeconds x, gws_Count x, gws_Autoscaling x))
    (λ '(a, b, c, d, e, f, g, h), mkGWorkerSpec (r := TreeR) a b c d e f g h)
    (v_plain ⊗ v_plain ⊗ v_ptr (gmap string string) ⊗ v_plain ⊗ v_plain ⊗ v_ptr Z ⊗ v_ptr Z ⊗
      AutoscalingSpec_view).

Definition ServiceSpec_view : view (GServiceSpec HeapR) (GServiceSpec TreeR) :=
  v_struct
    (λ x : GServiceSpec HeapR, (gss_NodePort x, gss_Port x, gss_ClusterIP x, gss_Type x,
      gss_ExternalIPs x, gss_SessionAffinity x, gss_LoadBalancerIP x,
      gss_LoadBalancerSourceRanges x, gss_ExternalName x, gss_ExternalTrafficPolicy x,
      gss_HealthCheckNodePort x, gss_PublishNotReadyAddresses x, gss_SessionAffinityConfig x,
      gss_IPFamily x))
    (λ '(a, b, c, d, e, f, g, h, i, j, k, l, m, n), mkGServiceSpec (r := TreeR) a b c d e f g
      h i j k l m n)
    (v_ptr Z ⊗ v_ptr Z ⊗ v_plain ⊗ v_plain ⊗ v_slice string ⊗ v_plain ⊗ v_plain ⊗ v_slice
      string ⊗ v_plain ⊗ v_plain ⊗ v_plain ⊗ v_plain ⊗ v_struct_ptr SessionAffinityConfig_view
      ⊗ v_ptr string).

Definition PrestoVolumeSpec_view : view (GPrestoVolumeSpec HeapR) (GPrestoVolumeSpec TreeR) :=
  v_struct
    (λ x : GPrestoVolumeSpec HeapR, (gpv_Name x, gpv_VolumeSource x, gpv_ReadOnly x,
      gpv_MountPath x, gpv_SubPath x, gpv_MountPropagation x, gpv_SubPathExpr x))
    (λ '(a, b, c, d, e, f, g), mkGPrestoVolumeSpec (r := TreeR) a b c d e f g)
    (v_plain ⊗ VolumeSource_view ⊗ v_plain ⊗ v_plain ⊗ v_plain ⊗ v_ptr string ⊗ v_plain).

Definition PrestoSpec_view : view (GPrestoSpec HeapR) (GPrestoSpec TreeR) :=
  v_struct
    (λ x : GPrestoSpec HeapR, (gp_Coordinator x, gp_Worker x, gp_Catalogs x, gp_Service x,
      gp_InternalHiveMetaStore x, gp_ImageDetails x, gp_AdditionalPrestoPropFiles x,
      gp_Volumes x))
    (λ '(a, b, c, d, e, f, g, h), mkGPrestoSpec (r := TreeR) a b c d e f g h)
    (CoordinatorSpec_view ⊗ WorkerSpec_view ⊗ CatalogList_view ⊗ ServiceSpec_view ⊗ v_plain ⊗
      v_plain ⊗ v_ptr (gmap string string) ⊗ v_structs PrestoVolumeSpec_view).

Definition PrestoStatus_view : view (GPrestoStatus HeapR) (GPrestoStatus TreeR) :=
  v_struct
    (λ x : GPrestoStatus HeapR, (gst_Uuid x, gst_DesiredWorkers x, gst_CurrentWorkers x,
      gst_HeadlessService x, gst_Service x, gst_CoordinatorAddress x, gst_CatalogConfig x,
      gst_CoordinatorConfig x, gst_WorkerConfig x, gst_WorkerReplicaset x,
      gst_CoordinatorReplicaset x, gst_HpaName x, gst_ClusterState x, gst_ErrorReason x,
      gst_ModificationTime x, gst_CoordinatorCPU x, gst_WorkerCPU x))
    (λ '(a, b, c, d, e, f, g, h, i, j, k, l, m, n, o, p, q), mkGPrestoStatus (r := TreeR) a b
      c d e f g h i j k l m n o p q)
    (v_plain ⊗ v_plain ⊗ v_plain ⊗ v_plain ⊗ v_plain ⊗ v_plain ⊗ v_plain ⊗ v_plain ⊗ v_plain ⊗
      v_plain ⊗ v_plain ⊗ v_plain ⊗ v_plain ⊗ v_plain ⊗ Time_view ⊗ v_plain ⊗ v_plain).

Definition Presto_view : view (GPresto HeapR) (GPresto TreeR) :=
  v_struct
    (λ x : GPresto HeapR, (g_TypeMeta x, g_ObjectMeta x, g_Spec x, g_Status x))
    (λ '(a, b, c, d), mkGPresto (r := TreeR) a b c d)
    (v_plain ⊗ ObjectMeta_view ⊗ PrestoSpec_view ⊗ PrestoStatus_view).

Definition PrestoList_view : view (GPrestoList HeapR) (GPrestoList TreeR) :=
  v_struct
    (λ x : GPrestoList HeapR, (gpl_TypeMeta x, gpl_ListMeta x, gpl_Items x))
    (λ '(a, b, c), mkGPrestoList (r := TreeR) a b c)
    (v_plain ⊗ ListMeta_view ⊗ v_structs Presto_view).

End struct_views.

(** A method that copies the fields of a struct one after the other. *)
Tactic Notation "copy_fields" reference(method) :=
  intros ? ?; unfold method; cbv [c_pair c_plain fmap HM_fmap mbind HM_bind mret HM_ret fst snd];
  repeat match goal with
  | |- ?a = ?a => reflexivity
  | |- context [match ?m with Some _ => _ | None => _ end] =>
    lazymatch m with
    | context [match _ with Some _ => _ | None => _ end] => fail
    | _ => destruct m as [[]|]; try reflexivity
    end
  end.

Section struct_copies.
Context `{GoMapRange, ForeignLaws}.

#[export] Instance AutoscalingSpec_view_ok : ViewOk AutoscalingSpec_view.
Proof. apply _. Qed.

#[export] Instance AutoscalingSpec_copies : Copies AutoscalingSpec_view AutoscalingSpec_DeepCopyInto.
Proof.
  apply (struct_copies _
    (λ '(a, b, c, d), mkGAutoscalingSpec (r := HeapR) a b c d)
    _ _ _
    (copy_ptr bool ⊛ copy_ptr Z ⊛ copy_ptr Z ⊛ copy_ptr Z));
    [by intros y; repeat destruct y as [y ?]|copy_fields AutoscalingSpec_DeepCopyInto|apply _].
Qed.

#[export] Instance CatalogSpec_view_ok : ViewOk CatalogSpec_view.
Proof. apply _. Qed.

#[export] Instance CatalogSpec_copies : Copies CatalogSpec_view CatalogSpec_DeepCopyInto.
Proof.
  apply (struct_copies _
    (λ '(a, b), mkGCatalogSpec (r := HeapR) a b)
    _ _ _
    (c_plain ⊛ copy_map 0));
    [by intros y; repeat destruct y as [y ?]|copy_fields CatalogSpec_DeepCopyInto|apply _].
Qed.

#[export] Instance CatalogList_view_ok : ViewOk CatalogList_view.
Proof. apply _. Qed.

#[export] Instance CatalogList_copies : Copies CatalogList_view CatalogList_DeepCopyInto.
Proof.
  apply (struct_copies _
    (λ '(a, b), mkGCatalogList (r := HeapR) a b)
    _ _ _
    (copy_slice CatalogSecret ⊛ copy_structs CatalogSpec_DeepCopyInto));
    [by intros y; repeat destruct y as [y ?]|copy_fields CatalogList_DeepCopyInto|apply _].
Qed.

#[export] Instance CoordinatorSpec_view_ok : ViewOk CoordinatorSpec_view.
Proof. apply _. Qed.

#[export] Instance CoordinatorSpec_copies : Copies CoordinatorSpec_view CoordinatorSpec_DeepCopyInto.
Proof.
  apply (struct_copies _
    (λ '(a, b, c, d, e, f, g, h, i), mkGCoordinatorSpec (r := HeapR) a b c d e f g h i)
    _ _ _
    (c_plain ⊛ c_plain ⊛ copy_map 1 ⊛ c_plain ⊛ c_plain ⊛ c_plain ⊛ c_plain ⊛ c_plain ⊛
      c_plain));
    [by intros y; repeat destruct y as [y ?]|copy_fields CoordinatorSpec_DeepCopyInto|apply _].
Qed.

#[export] Instance WorkerSpec_view_ok : ViewOk WorkerSpec_view.
Proof. apply _. Qed.

#[export] Instance WorkerSpec_copies : Copies WorkerSpec_view WorkerSpec_DeepCopyInto.
Proof.
  apply (struct_copies _
    (λ '(a, b, c, d, e, f, g, h), mkGWorkerSpec (r := HeapR) a b c d e f g h)
    _ _ _
    (c_plain ⊛ c_plain ⊛ copy_map 2 ⊛ c_plain ⊛ c_plain ⊛ copy_ptr Z ⊛ copy_ptr Z ⊛
      AutoscalingSpec_DeepCopyInto));
    [by intros y; repeat destruct y as [y ?]|copy_fields WorkerSpec_DeepCopyInto|apply _].
Qed.

#[export] Instance ServiceSpec_view_ok : ViewOk ServiceSpec_view.
Proof. apply _. Qed.

#[export] Instance ServiceSpec_copies : Copies ServiceSpec_view ServiceSpec_DeepCopyInto.
Proof.
  apply (struct_copies _
    (λ '(a, b, c, d, e, f, g, h, i, j, k, l, m, n), mkGServiceSpec (r := HeapR) a b c d e f g
      h i j k l m n)
    _ _ _
    (copy_ptr Z ⊛ copy_ptr Z ⊛ c_plain ⊛ c_plain ⊛ copy_slice string ⊛ c_plain ⊛ c_plain ⊛
      copy_slice string ⊛ c_plain ⊛ c_plain ⊛ c_plain ⊛ c_plain ⊛ copy_struct_ptr
      SessionAffinityConfig_DeepCopyInto ⊛ copy_ptr string));
    [by intros y; repeat destruct y as [y ?]|copy_fields ServiceSpec_DeepCopyInto|apply _].
Qed.

#[export] Instance PrestoVolumeSpec_view_ok : ViewOk PrestoVolumeSpec_view.
Proof. apply _. Qed.

#[export] Instance PrestoVolumeSpec_copies : Copies PrestoVolumeSpec_view PrestoVolumeSpec_DeepCopyInto.
Proof.
  apply (struct_copies _
    (λ '(a, b, c, d, e, f, g), mkGPrestoVolumeSpec (r := HeapR) a b c d e f g)
    _ _ _
    (c_plain ⊛ VolumeSource_DeepCopyInto ⊛ c_plain ⊛ c_plain ⊛ c_plain ⊛ copy_ptr string ⊛
      c_plain));
    [by intros y; repeat destruct y as [y ?]|copy_fields PrestoVolumeSpec_DeepCopyInto|apply _].
Qed.

#[export] Instance PrestoSpec_view_ok : ViewOk PrestoSpec_view.
Proof. apply _. Qed.

#[export] Instance PrestoSpec_copies : Copies PrestoSpec_view PrestoSpec_DeepCopyInto.
Proof.
  apply (struct_copies _
    (λ '(a, b, c, d, e, f, g, h), mkGPrestoSpec (r := HeapR) a b c d e f g h)
    _ _ _
    (CoordinatorSpec_DeepCopyInto ⊛ WorkerSpec_DeepCopyInto ⊛ CatalogList_DeepCopyInto ⊛
      ServiceSpec_DeepCopyInto ⊛ c_plain ⊛ c_plain ⊛ copy_map 3 ⊛ copy_structs
      PrestoVolumeSpec_DeepCopyInto));
    [by intros y; repeat destruct y as [y ?]|copy_fields PrestoSpec_DeepCopyInto|apply _].
Qed.

#[export] Instance PrestoStatus_view_ok : ViewOk PrestoStatus_view.
Proof. apply _. Qed.

#[export] Instance PrestoStatus_copies : Copies PrestoStatus_view PrestoStatus_DeepCopyInto.
Proof.
  apply (struct_copies _
    (λ '(a, b, c, d, e, f, g, h, i, j, k, l, m, n, o, p, q), mkGPrestoStatus (r := HeapR) a b
      c d e f g h i j k l m n o p q)
    _ _ _
    (c_plain ⊛ c_plain ⊛ c_plain ⊛ c_plain ⊛ c_plain ⊛ c_plain ⊛ c_plain ⊛ c_plain ⊛ c_plain ⊛
      c_plain ⊛ c_plain ⊛ c_plain ⊛ c_plain ⊛ c_plain ⊛ Time_DeepCopyInto ⊛ c_plain ⊛ c_plain));
    [by intros y; repeat destruct y as [y ?]|copy_fields PrestoStatus_DeepCopyInto|apply _].
Qed.

#[export] Instance Presto_view_ok : ViewOk Presto_view.
Proof. apply _. Qed.

#[export] Instance Presto_copies : Copies Presto_view Presto_DeepCopyInto.
Proof.
  apply (struct_copies _
    (λ '(a, b, c, d), mkGPresto (r := HeapR) a b c d)
    _ _ _
    (c_plain ⊛ ObjectMeta_DeepCopyInto ⊛ PrestoSpec_DeepCopyInto ⊛ PrestoStatus_DeepCopyInto));
    [by intros y; repeat destruct y as [y ?]|copy_fields Presto_DeepCopyInto|apply _].
Qed.

#[export] Instance PrestoList_view_ok : ViewOk PrestoList_view.
Proof. apply _. Qed.

#[export] Instance PrestoList_copies : Copies PrestoList_view PrestoList_DeepCopyInto.
Proof.
  apply (struct_copies _
    (λ '(a, b, c), mkGPrestoList (r := HeapR) a b c)
    _ _ _
    (c_plain ⊛ ListMeta_DeepCopyInto ⊛ copy_structs Presto_DeepCopyInto));
    [by intros y; repeat destruct y as [y ?]|copy_fields PrestoList_DeepCopyInto|apply _].
Qed.

(** C13: deep copies. The copy that DeepCopyObject makes of a resource, or of a
    list of resources, is nil when the original is; otherwise it has the same
    value, nil and empty maps and slices kept apart, and shares no memory with
    the original or within itself: writing to the one does not change the
    other. *)
Theorem deep_copies_separate :
  (∀ h in_ v, vread (v_struct_ptr Presto_view) h in_ = Some v →
     ∃ out h', Presto_DeepCopyObject in_ h = Some (ObjPresto <$> out, h')
       ∧ separate (v_struct_ptr Presto_view) h in_ v out h') ∧
  (∀ h in_ v, vread (v_struct_ptr PrestoList_view) h in_ = Some v →
     ∃ out h', PrestoList_DeepCopyObject in_ h = Some (ObjPrestoList <$> out, h')
       ∧ separate (v_struct_ptr PrestoList_view) h in_ v out h').
Proof.
  split; intros h in_ v Hr.
  - destruct (copies_separate _ Presto_DeepCopy h in_ v Hr) as (out & h' & E & Hs).
    exists out, h'. split; [|done]. unfold Presto_DeepCopyObject.
    rewrite (heap_bind _ _ _ _ _ E). by destruct out.
  - destruct (copies_separate _ PrestoList_DeepCopy h in_ v Hr) as (out & h' & E & Hs).
    exists out, h'. split; [|done]. unfold PrestoList_DeepCopyObject.
    rewrite (heap_bind _ _ _ _ _ E). by destruct out.
Qed.
End struct_copies.

(** ** Witness

    A resource on a heap, with one map shared by its two roles. *)

Module SmallForeign.

(** An ObjectMeta with a name and labels; the other structs without pointers. *)
Record meta (r : repr) := mkMeta { m_Name : string; m_Labels : ptr r (gmap string string) }.

#[local] Instance types : ForeignTypes :=
  {| FObjectMeta := meta; FListMeta := λ _, string; FVolumeSource := λ _, string;
     FSessionAffinityConfig := λ _, bool; FTime := λ _, Z; FCell := unit |}.

Definition meta_copy (in_ : meta HeapR) : HM (meta HeapR) :=
  l ← copy_ptr (gmap string string) (m_Labels _ in_); mret (mkMeta HeapR (m_Name _ in_) l).

#[local] Instance foreign_copies : ForeignCopies :=
  {| ObjectMeta_DeepCopyInto := meta_copy; ListMeta_DeepCopyInto := c_plain;
     VolumeSource_DeepCopyInto := c_plain; SessionAffinityConfig_DeepCopyInto := c_plain;
     Time_DeepCopyInto := c_plain |}.

Definition meta_view : view (meta HeapR) (meta TreeR) :=
  v_struct (λ x : meta HeapR, (m_Name _ x, m_Labels _ x)) (λ '(a, b), mkMeta TreeR a b)
    (v_plain ⊗ v_ptr (gmap string string)).

#[local] Instance foreign_views : ForeignViews :=
  {| ObjectMeta_view := meta_view; ListMeta_view := v_plain; VolumeSource_view := v_plain;
     SessionAffinityConfig_view := v_plain; Time_view := v_plain |}.

#[local] Instance meta_copies : Copies meta_view meta_copy.
Proof.
  apply (struct_copies _ (λ '(a, b), mkMeta HeapR a b) _ _ _
           (c_plain ⊛ copy_ptr (gmap string string)));
    [by intros y; repeat destruct y as [y ?]|copy_fields meta_copy|apply _].
Qed.

#[local] Instance foreign_laws : ForeignLaws.
Proof. split; simpl; apply _. Qed.

Definition labels : gmap string string := {["app" := "presto"]}.
Definition props : gmap string string := {["query.max-memory" := "1GB"]}.

(** The resource at address 1; its labels are at 2, the shared properties at 3,
    the worker count at 4. *)
Definition shared : GPresto HeapR :=
  mkGPresto (r := HeapR) (mkTypeMeta "Presto" "falarica.io/v1alpha1")
    (mkMeta HeapR "cluster" (Some 2%positive))
    (mkGPrestoSpec (r := HeapR)
       (mkGCoordinatorSpec (r := HeapR) "2Gi" EmptyString (Some 3%positive) "1" EmptyString false EmptyString EmptyString EmptyString)
       (mkGWorkerSpec (r := HeapR) "2Gi" EmptyString (Some 3%positive) "1" EmptyString None (Some 4%positive)
          (mkGAutoscalingSpec (r := HeapR) None None None None))
       (mkGCatalogList (r := HeapR) None None)
       (mkGServiceSpec (r := HeapR) None None EmptyString EmptyString None EmptyString EmptyString None EmptyString EmptyString 0%Z false None None)
       mkGHMSSpec (mkImageSpec EmptyString EmptyString) None None)
    (mkGPrestoStatus (r := HeapR) EmptyString 0%Z 0%Z EmptyString EmptyString EmptyString EmptyString EmptyString EmptyString EmptyString EmptyString EmptyString EmptyString EmptyString 0%Z EmptyString EmptyString).

(** Its value. *)
Definition sharedTree : GPresto TreeR :=
  mkGPresto (r := TreeR) (mkTypeMeta "Presto" "falarica.io/v1alpha1")
    (mkMeta TreeR "cluster" (Some labels))
    (mkGPrestoSpec (r := TreeR)
       (mkGCoordinatorSpec (r := TreeR) "2Gi" EmptyString (Some props) "1" EmptyString false EmptyString EmptyString EmptyString)
       (mkGWorkerSpec (r := TreeR) "2Gi" EmptyString (Some props) "1" EmptyString None (Some 2%Z)
          (mkGAutoscalingSpec (r := TreeR) None None None None))
       (mkGCatalogList (r := TreeR) None None)
       (mkGServiceSpec (r := TreeR) None None EmptyString EmptyString None EmptyString EmptyString None EmptyString EmptyString 0%Z false None None)
       mkGHMSSpec (mkImageSpec EmptyString EmptyString) None None)
    (mkGPrestoStatus (r := TreeR) EmptyString 0%Z 0%Z EmptyString EmptyString EmptyString EmptyString EmptyString EmptyString EmptyString EmptyString EmptyString EmptyString EmptyString 0%Z EmptyString EmptyString).

Definition someHeap : heap :=
  list_to_map [(1%positive, CPresto shared);
               (2%positive, CStringMap labels);
               (3%positive, CStringMap props);
               (4%positive, CInt 2)].
End SmallForeign.

Lemma deep_copies_separate_witness :
  ∃ out h',
    Presto_DeepCopyObject (H0 := SmallForeign.foreign_copies) (H1 := sorted_range)
      (Some 1%positive) SmallForeign.someHeap = Some (Some (ObjPresto out), h')
    ∧ separate (v_struct_ptr (Presto_view (H0 := SmallForeign.foreign_views)))
        SmallForeign.someHeap (Some 1%positive)
        (Some SmallForeign.sharedTree) (Some out) h'.
Proof.
  destruct (proj1 (@deep_copies_separate sorted_range SmallForeign.types SmallForeign.foreign_copies
                     SmallForeign.foreign_views SmallForeign.foreign_laws)
              SmallForeign.someHeap (Some 1%positive) (Some SmallForeign.sharedTree)) as (out & h' & E & Hs).
  - vm_compute. reflexivity.
  - destruct out as [out|]; [|by destruct Hs as (Hr & _)]. exists out, h'. split; [exact E|exact Hs].
Defined.
