(* ===== verification/Json.v ===== *)
(** The JSON form of the resource: the struct tags of
    pkg/apis/falarica/v1alpha1/presto_types.go, as package encoding/json reads
    them.

    [encode_T] writes a struct field by field under the names of its tags; a
    field with the option omitempty is left out when it is false, zero, nil or
    empty, which a struct never is. [decode_T] starts from the zero value and
    sets the fields whose names occur, null leaving a field as it is; names are
    compared exactly, as the case-sensitive decoder of apimachinery does. A
    string is written as valid UTF-8, each byte that is not part of a rune as
    U+FFFD. The structs are the trees of GoHeap.v, which tell a nil map from an empty one,
    as JSON does. *)

From Stdlib Require Import Ascii.
From stdpp Require Import sorting.
From S2P Require Import Prelude ApiTypes GoHeap.

Local Open Scope string_scope.

(** ** JSON values *)

#[warnings="-register-all"]
Inductive json :=
  | JNull
  | JBool (b : bool)
  | JInt (n : Z)
  | JString (s : string)
  | JArray (l : list json)
  | JObject (fields : list (string * json)).

(** ** UTF-8

    The number of bytes of the first rune of a string, as utf8.DecodeRune finds
    it: at most four, no overlong form, no surrogate, nothing after U+10FFFF. *)

Definition byte_in (lo hi : N) (c : ascii) : bool :=
  (lo <=? N_of_ascii c)%N && (N_of_ascii c <=? hi)%N.

Definition continuation : ascii → bool := byte_in 128 191.

Definition rune_size (s : string) : option nat :=
  match s with
  | EmptyString => None
  | String c0 rest =>
    if byte_in 0 127 c0 then Some 1%nat
    else
      match rest with
      | EmptyString => None
      | String c1 rest1 =>
        if byte_in 194 223 c0 && continuation c1 then Some 2%nat
        else
          match rest1 with
          | EmptyString => None
          | String c2 rest2 =>
            let three :=
              byte_in 224 224 c0 && byte_in 160 191 c1
              || byte_in 225 236 c0 && continuation c1
              || byte_in 237 237 c0 && byte_in 128 159 c1
              || byte_in 238 239 c0 && continuation c1 in
            if three && continuation c2 then Some 3%nat
            else
              match rest2 with
              | EmptyString => None
              | String c3 _ =>
                let four :=
                  byte_in 240 240 c0 && byte_in 144 191 c1
                  || byte_in 241 243 c0 && continuation c1
                  || byte_in 244 244 c0 && byte_in 128 143 c1 in
                if four && continuation c2 && continuation c3 then Some 4%nat else None
              end
          end
      end
  end.

(** U+FFFD, three bytes in UTF-8. *)
Definition replacement : string :=
  String (ascii_of_N 239) (String (ascii_of_N 191) (String (ascii_of_N 189) EmptyString)).

(** The bytes of a string after [skip] bytes of a rune already found. *)
Fixpoint write_runes (skip : nat) (s : string) : string :=
  match s with
  | EmptyString => EmptyString
  | String c rest =>
    match skip with
    | S k => String c (write_runes k rest)
    | O =>
      match rune_size s with
      | Some n => String c (write_runes (n - 1) rest)
      | None => replacement ⊕ write_runes O rest
      end
    end
  end.

Definition to_valid_utf8 (s : string) : string := write_runes O s.

Fixpoint runes_ok (skip : nat) (s : string) : bool :=
  match s with
  | EmptyString => true
  | String _ rest =>
    match skip with
    | S k => runes_ok k rest
    | O => match rune_size s with Some n => runes_ok (n - 1) rest | None => false end
    end
  end.

(** utf8.ValidString *)
Definition valid_utf8 (s : string) : bool := runes_ok O s.

(** ** Encoding *)

Definition encode_string (s : string) : json := JString (to_valid_utf8 s).

(** A field of a struct: the name of its tag and what is written, if it is. *)
Definition member : Type := string * option json.

Definition field (name : string) (j : json) : member := (name, Some j).

Definition omitempty (name : string) (empty : bool) (j : json) : member :=
  (name, if empty then None else Some j).

(** The fields of an embedded struct. *)
Definition embedded (fields : list (string * json)) : list member :=
  map (λ kj, (kj.1, Some kj.2)) fields.

Definition written (l : list member) : list (string * json) :=
  omap (λ kj, (λ j, (kj.1, j)) <$> kj.2) l.

Definition object (l : list member) : json := JObject (written l).

Definition encode_ptr {A} (encode : A → json) (p : option A) : json :=
  match p with None => JNull | Some a => encode a end.

Definition encode_slice {A} (encode : A → json) (s : option (list A)) : json :=
  match s with None => JNull | Some l => JArray (map encode l) end.

(** The keys of a map are written in increasing order. *)
Definition key_le (a b : string * string) : Prop := String.leb a.1 b.1 = true.

#[export] Instance key_le_dec a b : Decision (key_le a b).
Proof. unfold key_le. apply _. Defined.

Definition sorted_entries (m : gmap string string) : list (string * string) :=
  merge_sort key_le (map_to_list m).

Definition encode_map (m : option (gmap string string)) : json :=
  match m with
  | None => JNull
  | Some m => JObject (map (λ kv, (to_valid_utf8 kv.1, encode_string kv.2)) (sorted_entries m))
  end.

Definition is_nil {A} (p : option A) : bool := match p with None => true | Some _ => false end.

Definition empty_slice {A} (s : option (list A)) : bool :=
  match s with None | Some [] => true | _ => false end.

Definition empty_map (m : option (gmap string string)) : bool :=
  match m with None => true | Some m => (size m =? 0)%nat end.

(** ** Decoding *)

(** The last field of a name counts. *)
Fixpoint get (name : string) (fields : list (string * json)) : option json :=
  match fields with
  | [] => None
  | (k, j) :: rest =>
    match get name rest with
    | Some j' => Some j'
    | None => if String.eqb k name then Some j else None
    end
  end.

Definition or_zero {A} (zero : A) (decode : json → option A) (j : json) : option A :=
  match j with JNull => Some zero | _ => decode j end.

Definition get_field {A} (zero : A) (decode : json → option A) (name : string)
    (fields : list (string * json)) : option A :=
  match get name fields with None => Some zero | Some j => or_zero zero decode j end.

Definition decode_string (j : json) : option string :=
  match j with JString s => Some s | _ => None end.

Definition decode_bool (j : json) : option bool :=
  match j with JBool b => Some b | _ => None end.

(** A number outside of the range of the field's type is an error. *)
Definition decode_int32 (j : json) : option Z :=
  match j with JInt n => if decide (in_int32 n) then Some n else None | _ => None end.

Definition decode_int64 (j : json) : option Z :=
  match j with JInt n => if decide (in_int64 n) then Some n else None | _ => None end.

Definition decode_ptr {A} (decode : json → option A) (j : json) : option (option A) :=
  Some <$> decode j.

Definition decode_slice {A} (zero : A) (decode : json → option A) (j : json)
    : option (option (list A)) :=
  match j with JArray l => Some <$> mapM (or_zero zero decode) l | _ => None end.

Definition decode_entry (kv : string * json) : option (string * string) :=
  v ← or_zero EmptyString decode_string kv.2; Some (kv.1, v).

(** A later entry replaces an earlier one with its key. *)
Definition decode_map (j : json) : option (option (gmap string string)) :=
  match j with
  | JObject fs => l ← mapM decode_entry fs; Some (Some (list_to_map (reverse l)))
  | _ => None
  end.

(** ** The structs of the Kubernetes API

    Their encoding, decoding and zero values; corev1.VolumeSource is embedded,
    so that its fields stand among those of PrestoVolumeSpec. *)
Class ForeignJson `{ForeignTypes} := {
  encode_ObjectMeta : FObjectMeta TreeR → json;
  decode_ObjectMeta : json → option (FObjectMeta TreeR);
  zero_ObjectMeta : FObjectMeta TreeR;
  fields_VolumeSource : FVolumeSource TreeR → list (string * json);
  decode_VolumeSource : list (string * json) → option (FVolumeSource TreeR);
  zero_VolumeSource : FVolumeSource TreeR;
  encode_SessionAffinityConfig : FSessionAffinityConfig TreeR → json;
  decode_SessionAffinityConfig : json → option (FSessionAffinityConfig TreeR);
  encode_Time : FTime TreeR → json;
  decode_Time : json → option (FTime TreeR);
  zero_Time : FTime TreeR
}.

(** ** The tags of the structs *)

Definition encode_AutoscalingSpec (x : GAutoscalingSpec TreeR) : json :=
  object [
    omitempty "enabled" (is_nil (gas_Enabled x)) (encode_ptr JBool (gas_Enabled x));
    omitempty "minReplicas" (is_nil (gas_MinReplicas x)) (encode_ptr JInt (gas_MinReplicas x));
    omitempty "maxReplicas" (is_nil (gas_MaxReplicas x)) (encode_ptr JInt (gas_MaxReplicas x));
    omitempty "targetCPUUtilizationPercentage" (is_nil (gas_TargetCPUUtilizationPercentage x))
      (encode_ptr JInt (gas_TargetCPUUtilizationPercentage x))].

Definition decode_AutoscalingSpec (j : json) : option (GAutoscalingSpec TreeR) :=
  match j with
  | JObject fs =>
    Enabled ← get_field None (decode_ptr decode_bool) "enabled" fs;
    MinReplicas ← get_field None (decode_ptr decode_int32) "minReplicas" fs;
    MaxReplicas ← get_field None (decode_ptr decode_int32) "maxReplicas" fs;
    Target ← get_field None (decode_ptr decode_int32) "targetCPUUtilizationPercentage" fs;
    Some (mkGAutoscalingSpec (r := TreeR) Enabled MinReplicas MaxReplicas Target)
  | _ => None
  end.

Definition zero_AutoscalingSpec : GAutoscalingSpec TreeR :=
  mkGAutoscalingSpec (r := TreeR) None None None None.

Definition encode_CatalogSpec (x : GCatalogSpec TreeR) : json :=
  object [
    field "name" (encode_string (gcat_Name x));
    field "content" (encode_map (gcat_Content x))].

Definition decode_CatalogSpec (j : json) : option (GCatalogSpec TreeR) :=
  match j with
  | JObject fs =>
    Name ← get_field EmptyString decode_string "name" fs;
    Content ← get_field None decode_map "content" fs;
    Some (mkGCatalogSpec (r := TreeR) Name Content)
  | _ => None
  end.

Definition zero_CatalogSpec : GCatalogSpec TreeR := mkGCatalogSpec (r := TreeR) EmptyString None.

Definition encode_CatalogSecret (x : CatalogSecret) : json :=
  object [
    omitempty "secretName" (is_empty (csec_SecretName x)) (encode_string (csec_SecretName x));
    omitempty "secretKey" (is_empty (csec_SecretKey x)) (encode_string (csec_SecretKey x))].

Definition decode_CatalogSecret (j : json) : option CatalogSecret :=
  match j with
  | JObject fs =>
    SecretName ← get_field EmptyString decode_string "secretName" fs;
    SecretKey ← get_field EmptyString decode_string "secretKey" fs;
    Some (mkCatalogSecret SecretName SecretKey)
  | _ => None
  end.

Definition zero_CatalogSecret : CatalogSecret := mkCatalogSecret EmptyString EmptyString.

Definition encode_CatalogList (x : GCatalogList TreeR) : json :=
  object [
    omitempty "catalogSecrets" (empty_slice (gcl_CatalogSecrets x))
      (encode_slice encode_CatalogSecret (gcl_CatalogSecrets x));
    omitempty "catalogSpec" (empty_slice (gcl_CatalogSpec x))
      (encode_slice encode_CatalogSpec (gcl_CatalogSpec x))].

Definition decode_CatalogList (j : json) : option (GCatalogList TreeR) :=
  match j with
  | JObject fs =>
    CatalogSecrets ← get_field None (decode_slice zero_CatalogSecret decode_CatalogSecret)
                       "catalogSecrets" fs;
    CatalogSpecs ← get_field None (decode_slice zero_CatalogSpec decode_CatalogSpec)
                     "catalogSpec" fs;
    Some (mkGCatalogList (r := TreeR) CatalogSecrets CatalogSpecs)
  | _ => None
  end.

Definition zero_CatalogList : GCatalogList TreeR := mkGCatalogList (r := TreeR) None None.

Definition encode_CoordinatorSpec (x : GCoordinatorSpec TreeR) : json :=
  object [
    field "memoryLimit" (encode_string (gcs_MemoryLimit x));
    omitempty "additionalJVMConfig" (is_empty (gcs_AdditionalJVMConfig x))
      (encode_string (gcs_AdditionalJVMConfig x));
    omitempty "additionalProps" (empty_map (gcs_AdditionalProps x))
      (encode_map (gcs_AdditionalProps x));
    field "cpuLimit" (encode_string (gcs_CpuLimit x));
    omitempty "cpuRequest" (is_empty (gcs_CpuRequest x)) (encode_string (gcs_CpuRequest x));
    omitempty "httpsEnabled" (negb (gcs_HttpsEnabled x)) (JBool (gcs_HttpsEnabled x));
    omitempty "httpsKeyPairSecretName" (is_empty (gcs_HttpsKeyPairSecretName x))
      (encode_string (gcs_HttpsKeyPairSecretName x));
    omitempty "httpsKeyPairSecretKey" (is_empty (gcs_HttpsKeyPairSecretKey x))
      (encode_string (gcs_HttpsKeyPairSecretKey x));
    omitempty "httpsKeyPairPassword" (is_empty (gcs_HttpsKeyPairPassword x))
      (encode_string (gcs_HttpsKeyPairPassword x))].

Definition decode_CoordinatorSpec (j : json) : option (GCoordinatorSpec TreeR) :=
  match j with
  | JObject fs =>
    MemoryLimit ← get_field EmptyString decode_string "memoryLimit" fs;
    AdditionalJVMConfig ← get_field EmptyString decode_string "additionalJVMConfig" fs;
    AdditionalProps ← get_field None decode_map "additionalProps" fs;
    CpuLimit ← get_field EmptyString decode_string "cpuLimit" fs;
    CpuRequest ← get_field EmptyString decode_string "cpuRequest" fs;
    HttpsEnabled ← get_field false decode_bool "httpsEnabled" fs;
    SecretName ← get_field EmptyString decode_string "httpsKeyPairSecretName" fs;
    SecretKey ← get_field EmptyString decode_string "httpsKeyPairSecretKey" fs;
    Password ← get_field EmptyString decode_string "httpsKeyPairPassword" fs;
    Some (mkGCoordinatorSpec (r := TreeR) MemoryLimit AdditionalJVMConfig AdditionalProps CpuLimit
            CpuRequest HttpsEnabled SecretName SecretKey Password)
  | _ => None
  end.

Definition zero_CoordinatorSpec : GCoordinatorSpec TreeR :=
  mkGCoordinatorSpec (r := TreeR) EmptyString EmptyString None EmptyString EmptyString false
    EmptyString EmptyString EmptyString.

Definition encode_WorkerSpec (x : GWorkerSpec TreeR) : json :=
  object [
    field "memoryLimit" (encode_string (gws_MemoryLimit x));
    omitempty "additionalJVMConfig" (is_empty (gws_AdditionalJVMConfig x))
      (encode_string (gws_AdditionalJVMConfig x));
    omitempty "additionalProps" (empty_map (gws_AdditionalProps x))
      (encode_map (gws_AdditionalProps x));
    field "cpuLimit" (encode_string (gws_CpuLimit x));
    omitempty "cpuRequest" (is_empty (gws_CpuRequest x)) (encode_string (gws_CpuRequest x));
    omitempty "terminationGracePeriodSeconds" (is_nil (gws_TerminationGracePeriodSeconds x))
      (encode_ptr JInt (gws_TerminationGracePeriodSeconds x));
    field "count" (encode_ptr JInt (gws_Count x));
    field "autoscaling" (encode_AutoscalingSpec (gws_Autoscaling x))].

Definition decode_WorkerSpec (j : json) : option (GWorkerSpec TreeR) :=
  match j with
  | JObject fs =>
    MemoryLimit ← get_field EmptyString decode_string "memoryLimit" fs;
    AdditionalJVMConfig ← get_field EmptyString decode_string "additionalJVMConfig" fs;
    AdditionalProps ← get_field None decode_map "additionalProps" fs;
    CpuLimit ← get_field EmptyString decode_string "cpuLimit" fs;
    CpuRequest ← get_field EmptyString decode_string "cpuRequest" fs;
    Grace ← get_field None (decode_ptr decode_int64) "terminationGracePeriodSeconds" fs;
    Count ← get_field None (decode_ptr decode_int32) "count" fs;
    Autoscaling ← get_field zero_AutoscalingSpec decode_AutoscalingSpec "autoscaling" fs;
    Some (mkGWorkerSpec (r := TreeR) MemoryLimit AdditionalJVMConfig AdditionalProps CpuLimit
            CpuRequest Grace Count Autoscaling)
  | _ => None
  end.

Definition zero_WorkerSpec : GWorkerSpec TreeR :=
  mkGWorkerSpec (r := TreeR) EmptyString EmptyString None EmptyString EmptyString None None
    zero_AutoscalingSpec.

Definition encode_HMSSpec (x : GHMSSpec) : json := JObject [].

Definition decode_HMSSpec (j : json) : option GHMSSpec :=
  match j with JObject _ => Some mkGHMSSpec | _ => None end.

Definition encode_ImageSpec (x : ImageSpec) : json :=
  object [
    field "name" (encode_string (is_Name x));
    field "prestoPath" (encode_string (is_PrestoPath x))].

Definition decode_ImageSpec (j : json) : option ImageSpec :=
  match j with
  | JObject fs =>
    Name ← get_field EmptyString decode_string "name" fs;
    PrestoPath ← get_field EmptyString decode_string "prestoPath" fs;
    Some (mkImageSpec Name PrestoPath)
  | _ => None
  end.

Definition zero_ImageSpec : ImageSpec := mkImageSpec EmptyString EmptyString.

Section tags.
Context `{ForeignJson}.

Definition encode_ServiceSpec (x : GServiceSpec TreeR) : json :=
  object [
    omitempty "nodePort" (is_nil (gss_NodePort x)) (encode_ptr JInt (gss_NodePort x));
    omitempty "port" (is_nil (gss_Port x)) (encode_ptr JInt (gss_Port x));
    omitempty "clusterIP" (is_empty (gss_ClusterIP x)) (encode_string (gss_ClusterIP x));
    omitempty "type" (is_empty (gss_Type x)) (encode_string (gss_Type x));
    omitempty "externalIPs" (empty_slice (gss_ExternalIPs x))
      (encode_slice encode_string (gss_ExternalIPs x));
    omitempty "sessionAffinity" (is_empty (gss_SessionAffinity x))
      (encode_string (gss_SessionAffinity x));
    omitempty "loadBalancerIP" (is_empty (gss_LoadBalancerIP x)) (encode_string (gss_LoadBalancerIP x));
    omitempty "loadBalancerSourceRanges" (empty_slice (gss_LoadBalancerSourceRanges x))
      (encode_slice encode_string (gss_LoadBalancerSourceRanges x));
    omitempty "externalName" (is_empty (gss_ExternalName x)) (encode_string (gss_ExternalName x));
    omitempty "externalTrafficPolicy" (is_empty (gss_ExternalTrafficPolicy x))
      (encode_string (gss_ExternalTrafficPolicy x));
    omitempty "healthCheckNodePort" (gss_HealthCheckNodePort x =? 0)%Z
      (JInt (gss_HealthCheckNodePort x));
    omitempty "publishNotReadyAddresses" (negb (gss_PublishNotReadyAddresses x))
      (JBool (gss_PublishNotReadyAddresses x));
    omitempty "sessionAffinityConfig" (is_nil (gss_SessionAffinityConfig x))
      (encode_ptr encode_SessionAffinityConfig (gss_SessionAffinityConfig x));
    omitempty "ipFamily" (is_nil (gss_IPFamily x)) (encode_ptr encode_string (gss_IPFamily x))].

Definition decode_ServiceSpec (j : json) : option (GServiceSpec TreeR) :=
  match j with
  | JObject fs =>
    NodePort ← get_field None (decode_ptr decode_int32) "nodePort" fs;
    Port ← get_field None (decode_ptr decode_int32) "port" fs;
    ClusterIP ← get_field EmptyString decode_string "clusterIP" fs;
    Type_ ← get_field EmptyString decode_string "type" fs;
    ExternalIPs ← get_field None (decode_slice EmptyString decode_string) "externalIPs" fs;
    SessionAffinity ← get_field EmptyString decode_string "sessionAffinity" fs;
    LoadBalancerIP ← get_field EmptyString decode_string "loadBalancerIP" fs;
    Ranges ← get_field None (decode_slice EmptyString decode_string) "loadBalancerSourceRanges" fs;
    ExternalName ← get_field EmptyString decode_string "externalName" fs;
    Policy ← get_field EmptyString decode_string "externalTrafficPolicy" fs;
    HealthCheck ← get_field 0%Z decode_int32 "healthCheckNodePort" fs;
    Publish ← get_field false decode_bool "publishNotReadyAddresses" fs;
    Affinity ← get_field None (decode_ptr decode_SessionAffinityConfig) "sessionAffinityConfig" fs;
    IPFamily ← get_field None (decode_ptr decode_string) "ipFamily" fs;
    Some (mkGServiceSpec (r := TreeR) NodePort Port ClusterIP Type_ ExternalIPs SessionAffinity
            LoadBalancerIP Ranges ExternalName Policy HealthCheck Publish Affinity IPFamily)
  | _ => None
  end.

Definition zero_ServiceSpec : GServiceSpec TreeR :=
  mkGServiceSpec (r := TreeR) None None EmptyString EmptyString None EmptyString EmptyString None
    EmptyString EmptyString 0%Z false None None.

Definition encode_PrestoVolumeSpec (x : GPrestoVolumeSpec TreeR) : json :=
  object (field "name" (encode_string (gpv_Name x)) ::
    embedded (fields_VolumeSource (gpv_VolumeSource x)) ++ [
    omitempty "readOnly" (negb (gpv_ReadOnly x)) (JBool (gpv_ReadOnly x));
    field "mountPath" (encode_string (gpv_MountPath x));
    omitempty "subPath" (is_empty (gpv_SubPath x)) (encode_string (gpv_SubPath x));
    omitempty "mountPropagation" (is_nil (gpv_MountPropagation x))
      (encode_ptr encode_string (gpv_MountPropagation x));
    omitempty "subPathExpr" (is_empty (gpv_SubPathExpr x)) (encode_string (gpv_SubPathExpr x))])%list.

Definition decode_PrestoVolumeSpec (j : json) : option (GPrestoVolumeSpec TreeR) :=
  match j with
  | JObject fs =>
    Name ← get_field EmptyString decode_string "name" fs;
    VolumeSource ← decode_VolumeSource fs;
    ReadOnly ← get_field false decode_bool "readOnly" fs;
    MountPath ← get_field EmptyString decode_string "mountPath" fs;
    SubPath ← get_field EmptyString decode_string "subPath" fs;
    MountPropagation ← get_field None (decode_ptr decode_string) "mountPropagation" fs;
    SubPathExpr ← get_field EmptyString decode_string "subPathExpr" fs;
    Some (mkGPrestoVolumeSpec (r := TreeR) Name VolumeSource ReadOnly MountPath SubPath
            MountPropagation SubPathExpr)
  | _ => None
  end.

Definition zero_PrestoVolumeSpec : GPrestoVolumeSpec TreeR :=
  mkGPrestoVolumeSpec (r := TreeR) EmptyString zero_VolumeSource false EmptyString EmptyString None
    EmptyString.

(** The tags of InternalHiveMetaStore, ImageDetails and
    AdditionalPrestoPropFiles have omitempty outside of the quotes, where it is
    not part of the tag's value: the fields are always written. *)
Definition encode_PrestoSpec (x : GPrestoSpec TreeR) : json :=
  object [
    field "coordinator" (encode_CoordinatorSpec (gp_Coordinator x));
    field "worker" (encode_WorkerSpec (gp_Worker x));
    field "catalogs" (encode_CatalogList (gp_Catalogs x));
    field "service" (encode_ServiceSpec (gp_Service x));
    field "internalHiveMetaStore" (encode_HMSSpec (gp_InternalHiveMetaStore x));
    field "imageDetails" (encode_ImageSpec (gp_ImageDetails x));
    field "additionalPrestoPropFiles" (encode_map (gp_AdditionalPrestoPropFiles x));
    omitempty "volumes" (empty_slice (gp_Volumes x))
      (encode_slice encode_PrestoVolumeSpec (gp_Volumes x))].

Definition decode_PrestoSpec (j : json) : option (GPrestoSpec TreeR) :=
  match j with
  | JObject fs =>
    Coordinator ← get_field zero_CoordinatorSpec decode_CoordinatorSpec "coordinator" fs;
    Worker ← get_field zero_WorkerSpec decode_WorkerSpec "worker" fs;
    Catalogs ← get_field zero_CatalogList decode_CatalogList "catalogs" fs;
    Service ← get_field zero_ServiceSpec decode_ServiceSpec "service" fs;
    HiveMetaStore ← get_field mkGHMSSpec decode_HMSSpec "internalHiveMetaStore" fs;
    ImageDetails ← get_field zero_ImageSpec decode_ImageSpec "imageDetails" fs;
    Files ← get_field None decode_map "additionalPrestoPropFiles" fs;
    Volumes ← get_field None (decode_slice zero_PrestoVolumeSpec decode_PrestoVolumeSpec)
                "volumes" fs;
    Some (mkGPrestoSpec (r := TreeR) Coordinator Worker Catalogs Service HiveMetaStore ImageDetails
            Files Volumes)
  | _ => None
  end.

Definition zero_PrestoSpec : GPrestoSpec TreeR :=
  mkGPrestoSpec (r := TreeR) zero_CoordinatorSpec zero_WorkerSpec zero_CatalogList zero_ServiceSpec
    mkGHMSSpec zero_ImageSpec None None.

Definition encode_PrestoStatus (x : GPrestoStatus TreeR) : json :=
  object [
    field "uuid" (encode_string (gst_Uuid x));
    field "desiredWorkers" (JInt (gst_DesiredWorkers x));
    field "currentWorkers" (JInt (gst_CurrentWorkers x));
    field "headlessService" (encode_string (gst_HeadlessService x));
    field "service" (encode_string (gst_Service x));
    field "coordinatorAddress" (encode_string (gst_CoordinatorAddress x));
    field "catalogConfig" (encode_string (gst_CatalogConfig x));
    field "coordinatorConfig" (encode_string (gst_CoordinatorConfig x));
    field "workerConfig" (encode_string (gst_WorkerConfig x));
    field "workerReplicaset" (encode_string (gst_WorkerReplicaset x));
    field "coordinatorReplicaset" (encode_string (gst_CoordinatorReplicaset x));
    field "hpaName" (encode_string (gst_HpaName x));
    field "clusterState" (encode_string (gst_ClusterState x));
    field "errorReason" (encode_string (gst_ErrorReason x));
    field "modificationTime" (encode_Time (gst_ModificationTime x));
    omitempty "coordinatorCPU" (is_empty (gst_CoordinatorCPU x)) (encode_string (gst_CoordinatorCPU x));
    omitempty "workerCPU" (is_empty (gst_WorkerCPU x)) (encode_string (gst_WorkerCPU x))].

Definition decode_PrestoStatus (j : json) : option (GPrestoStatus TreeR) :=
  match j with
  | JObject fs =>
    Uuid ← get_field EmptyString decode_string "uuid" fs;
    DesiredWorkers ← get_field 0%Z decode_int32 "desiredWorkers" fs;
    CurrentWorkers ← get_field 0%Z decode_int32 "currentWorkers" fs;
    HeadlessService ← get_field EmptyString decode_string "headlessService" fs;
    Service ← get_field EmptyString decode_string "service" fs;
    CoordinatorAddress ← get_field EmptyString decode_string "coordinatorAddress" fs;
    CatalogConfig ← get_field EmptyString decode_string "catalogConfig" fs;
    CoordinatorConfig ← get_field EmptyString decode_string "coordinatorConfig" fs;
    WorkerConfig ← get_field EmptyString decode_string "workerConfig" fs;
    WorkerReplicaset ← get_field EmptyString decode_string "workerReplicaset" fs;
    CoordinatorReplicaset ← get_field EmptyString decode_string "coordinatorReplicaset" fs;
    HpaName ← get_field EmptyString decode_string "hpaName" fs;
    ClusterState ← get_field EmptyString decode_string "clusterState" fs;
    ErrorReason ← get_field EmptyString decode_string "errorReason" fs;
    ModificationTime ← get_field zero_Time decode_Time "modificationTime" fs;
    CoordinatorCPU ← get_field EmptyString decode_string "coordinatorCPU" fs;
    WorkerCPU ← get_field EmptyString decode_string "workerCPU" fs;
    Some (mkGPrestoStatus (r := TreeR) Uuid DesiredWorkers CurrentWorkers HeadlessService Service
            CoordinatorAddress CatalogConfig CoordinatorConfig WorkerConfig WorkerReplicaset
            CoordinatorReplicaset HpaName ClusterState ErrorReason ModificationTime
            CoordinatorCPU WorkerCPU)
  | _ => None
  end.

Definition zero_PrestoStatus : GPrestoStatus TreeR :=
  mkGPrestoStatus (r := TreeR) EmptyString 0%Z 0%Z EmptyString EmptyString EmptyString EmptyString
    EmptyString EmptyString EmptyString EmptyString EmptyString EmptyString EmptyString zero_Time
    EmptyString EmptyString.

(** The fields of metav1.TypeMeta are embedded. *)
Definition encode_Presto (x : GPresto TreeR) : json :=
  object [
    omitempty "kind" (is_empty (tm_Kind (g_TypeMeta x))) (encode_string (tm_Kind (g_TypeMeta x)));
    omitempty "apiVersion" (is_empty (tm_APIVersion (g_TypeMeta x)))
      (encode_string (tm_APIVersion (g_TypeMeta x)));
    field "metadata" (encode_ObjectMeta (g_ObjectMeta x));
    field "spec" (encode_PrestoSpec (g_Spec x));
    field "status" (encode_PrestoStatus (g_Status x))].

Definition decode_Presto (j : json) : option (GPresto TreeR) :=
  match j with
  | JObject fs =>
    Kind ← get_field EmptyString decode_string "kind" fs;
    APIVersion ← get_field EmptyString decode_string "apiVersion" fs;
    ObjectMeta ← get_field zero_ObjectMeta decode_ObjectMeta "metadata" fs;
    Spec ← get_field zero_PrestoSpec decode_PrestoSpec "spec" fs;
    Status ← get_field zero_PrestoStatus decode_PrestoStatus "status" fs;
    Some (mkGPresto (r := TreeR) (mkTypeMeta Kind APIVersion) ObjectMeta Spec Status)
  | _ => None
  end.
End tags.
