(* ===== verification/JsonFacts.v ===== *)
(** What the JSON form of the resource keeps: decoding what was encoded gives a
    resource with the same contents, where strings are valid UTF-8, and times to
    the second. *)

From stdpp Require Import sorting.
From S2P Require Import Prelude ApiTypes Status Store GoHeap DeepCopy Views DeepCopyFacts Json.

Local Open Scope string_scope.

(** ** From trees to the records of ApiTypes.v

    where a nil map or slice is an empty one. *)

(** The contents of the structs of the Kubernetes API, a time in nanoseconds since
    1970; a struct is storable when its strings are valid UTF-8, its numbers in
    their range and its times whole seconds that JSON has a form for. *)
Class ForeignApi `{ForeignTypes} := {
  api_ObjectMeta : FObjectMeta TreeR → ObjectMeta;
  api_VolumeSource : FVolumeSource TreeR → VolumeSource;
  api_SessionAffinityConfig : FSessionAffinityConfig TreeR → Opaque;
  api_Time : FTime TreeR → Z;
  storable_ObjectMeta : FObjectMeta TreeR → Prop;
  storable_VolumeSource : FVolumeSource TreeR → Prop;
  storable_SessionAffinityConfig : FSessionAffinityConfig TreeR → Prop
}.

Definition api_map (m : option (gmap string string)) : gmap string string := default ∅ m.

Definition api_slice {A B} (api : A → B) (s : option (list A)) : list B := map api (default [] s).

Definition api_AutoscalingSpec (x : GAutoscalingSpec TreeR) : AutoscalingSpec :=
  mkAutoscalingSpec (gas_Enabled x) (gas_MinReplicas x) (gas_MaxReplicas x)
    (gas_TargetCPUUtilizationPercentage x).

Definition api_CatalogSpec (x : GCatalogSpec TreeR) : CatalogSpec :=
  mkCatalogSpec (gcat_Name x) (api_map (gcat_Content x)).

Definition api_CatalogList (x : GCatalogList TreeR) : CatalogList :=
  mkCatalogList (api_slice id (gcl_CatalogSecrets x))
    (api_slice api_CatalogSpec (gcl_CatalogSpec x)).

Definition api_CoordinatorSpec (x : GCoordinatorSpec TreeR) : CoordinatorSpec :=
  mkCoordinatorSpec (gcs_MemoryLimit x) (gcs_AdditionalJVMConfig x)
    (api_map (gcs_AdditionalProps x)) (gcs_CpuLimit x) (gcs_CpuRequest x) (gcs_HttpsEnabled x)
    (gcs_HttpsKeyPairSecretName x) (gcs_HttpsKeyPairSecretKey x) (gcs_HttpsKeyPairPassword x).

Definition api_WorkerSpec (x : GWorkerSpec TreeR) : WorkerSpec :=
  mkWorkerSpec (gws_MemoryLimit x) (gws_AdditionalJVMConfig x) (api_map (gws_AdditionalProps x))
    (gws_CpuLimit x) (gws_CpuRequest x) (gws_TerminationGracePeriodSeconds x) (gws_Count x)
    (api_AutoscalingSpec (gws_Autoscaling x)).

Section api.
Context `{ForeignApi}.

Definition api_ServiceSpec (x : GServiceSpec TreeR) : ServiceSpec :=
  mkServiceSpec (gss_NodePort x) (gss_Port x) (gss_ClusterIP x) (gss_Type x)
    (api_slice id (gss_ExternalIPs x)) (gss_SessionAffinity x) (gss_LoadBalancerIP x)
    (api_slice id (gss_LoadBalancerSourceRanges x)) (gss_ExternalName x)
    (gss_ExternalTrafficPolicy x) (gss_HealthCheckNodePort x) (gss_PublishNotReadyAddresses x)
    (option_map api_SessionAffinityConfig (gss_SessionAffinityConfig x)) (gss_IPFamily x).

Definition api_PrestoVolumeSpec (x : GPrestoVolumeSpec TreeR) : PrestoVolumeSpec :=
  mkPrestoVolumeSpec (gpv_Name x) (api_VolumeSource (gpv_VolumeSource x)) (gpv_ReadOnly x)
    (gpv_MountPath x) (gpv_SubPath x) (gpv_MountPropagation x) (gpv_SubPathExpr x).

Definition api_PrestoSpec (x : GPrestoSpec TreeR) : PrestoSpec :=
  mkPrestoSpec (api_CoordinatorSpec (gp_Coordinator x)) (api_WorkerSpec (gp_Worker x))
    (api_CatalogList (gp_Catalogs x)) (api_ServiceSpec (gp_Service x)) (gp_ImageDetails x)
    (api_map (gp_AdditionalPrestoPropFiles x)) (api_slice api_PrestoVolumeSpec (gp_Volumes x)).

Definition api_PrestoStatus (x : GPrestoStatus TreeR) : PrestoStatus :=
  mkPrestoStatus (gst_Uuid x) (gst_DesiredWorkers x) (gst_CurrentWorkers x)
    (gst_HeadlessService x) (gst_Service x) (gst_CoordinatorAddress x) (gst_CatalogConfig x)
    (gst_CoordinatorConfig x) (gst_WorkerConfig x) (gst_WorkerReplicaset x)
    (gst_CoordinatorReplicaset x) (gst_HpaName x) (gst_ClusterState x) (gst_ErrorReason x)
    (api_Time (gst_ModificationTime x)) (gst_CoordinatorCPU x) (gst_WorkerCPU x).

Definition api_Presto (x : GPresto TreeR) : Presto :=
  mkPresto (g_TypeMeta x) (api_ObjectMeta (g_ObjectMeta x)) (api_PrestoSpec (g_Spec x))
    (api_PrestoStatus (g_Status x)).
End api.

(** ** Well-typed trees: the integers are in the range of their types *)

Definition int32_ptr (p : option Z) : Prop := match p with Some n => in_int32 n | None => True end.
Definition int64_ptr (p : option Z) : Prop := match p with Some n => in_int64 n | None => True end.

Definition typed_AutoscalingSpec (x : GAutoscalingSpec TreeR) : Prop :=
  int32_ptr (gas_MinReplicas x) ∧ int32_ptr (gas_MaxReplicas x)
  ∧ int32_ptr (gas_TargetCPUUtilizationPercentage x).

Definition typed_WorkerSpec (x : GWorkerSpec TreeR) : Prop :=
  int64_ptr (gws_TerminationGracePeriodSeconds x) ∧ int32_ptr (gws_Count x)
  ∧ typed_AutoscalingSpec (gws_Autoscaling x).

Definition typed_ServiceSpec `{ForeignTypes} (x : GServiceSpec TreeR) : Prop :=
  int32_ptr (gss_NodePort x) ∧ int32_ptr (gss_Port x) ∧ in_int32 (gss_HealthCheckNodePort x).

Definition typed_Presto `{ForeignTypes} (x : GPresto TreeR) : Prop :=
  typed_WorkerSpec (gp_Worker (g_Spec x)) ∧ typed_ServiceSpec (gp_Service (g_Spec x))
  ∧ in_int32 (gst_DesiredWorkers (g_Status x)) ∧ in_int32 (gst_CurrentWorkers (g_Status x)).

(** ** Storable trees: the strings are valid UTF-8 *)

Definition Utf8 (s : string) : Prop := valid_utf8 s = true.

Definition utf8_ptr (p : option string) : Prop := match p with Some s => Utf8 s | None => True end.

Definition utf8_map (m : option (gmap string string)) : Prop :=
  map_Forall (λ k v, Utf8 k ∧ Utf8 v) (api_map m).

#[export] Instance utf8_map_dec m : Decision (utf8_map m).
Proof. unfold utf8_map, Utf8. apply _. Defined.

Definition utf8_slice (s : option (list string)) : Prop := Forall Utf8 (default [] s).

Definition storable_CatalogSpec (x : GCatalogSpec TreeR) : Prop :=
  Utf8 (gcat_Name x) ∧ utf8_map (gcat_Content x).

Definition storable_CatalogSecret (x : CatalogSecret) : Prop :=
  Utf8 (csec_SecretName x) ∧ Utf8 (csec_SecretKey x).

Definition storable_CatalogList (x : GCatalogList TreeR) : Prop :=
  Forall storable_CatalogSecret (default [] (gcl_CatalogSecrets x))
  ∧ Forall storable_CatalogSpec (default [] (gcl_CatalogSpec x)).

Definition storable_CoordinatorSpec (x : GCoordinatorSpec TreeR) : Prop :=
  Utf8 (gcs_MemoryLimit x) ∧ Utf8 (gcs_AdditionalJVMConfig x) ∧ utf8_map (gcs_AdditionalProps x)
  ∧ Utf8 (gcs_CpuLimit x) ∧ Utf8 (gcs_CpuRequest x) ∧ Utf8 (gcs_HttpsKeyPairSecretName x)
  ∧ Utf8 (gcs_HttpsKeyPairSecretKey x) ∧ Utf8 (gcs_HttpsKeyPairPassword x).

Definition storable_WorkerSpec (x : GWorkerSpec TreeR) : Prop :=
  Utf8 (gws_MemoryLimit x) ∧ Utf8 (gws_AdditionalJVMConfig x) ∧ utf8_map (gws_AdditionalProps x)
  ∧ Utf8 (gws_CpuLimit x) ∧ Utf8 (gws_CpuRequest x).

Definition storable_ImageSpec (x : ImageSpec) : Prop :=
  Utf8 (is_Name x) ∧ Utf8 (is_PrestoPath x).

Section storable.
Context `{ForeignApi}.

Definition storable_affinity (p : option (FSessionAffinityConfig TreeR)) : Prop :=
  match p with Some a => storable_SessionAffinityConfig a | None => True end.

Definition storable_ServiceSpec (x : GServiceSpec TreeR) : Prop :=
  Utf8 (gss_ClusterIP x) ∧ Utf8 (gss_Type x) ∧ utf8_slice (gss_ExternalIPs x)
  ∧ Utf8 (gss_SessionAffinity x) ∧ Utf8 (gss_LoadBalancerIP x)
  ∧ utf8_slice (gss_LoadBalancerSourceRanges x) ∧ Utf8 (gss_ExternalName x)
  ∧ Utf8 (gss_ExternalTrafficPolicy x) ∧ storable_affinity (gss_SessionAffinityConfig x)
  ∧ utf8_ptr (gss_IPFamily x).

Definition storable_PrestoVolumeSpec (x : GPrestoVolumeSpec TreeR) : Prop :=
  Utf8 (gpv_Name x) ∧ storable_VolumeSource (gpv_VolumeSource x) ∧ Utf8 (gpv_MountPath x)
  ∧ Utf8 (gpv_SubPath x) ∧ utf8_ptr (gpv_MountPropagation x) ∧ Utf8 (gpv_SubPathExpr x).

Definition storable_PrestoSpec (x : GPrestoSpec TreeR) : Prop :=
  storable_CoordinatorSpec (gp_Coordinator x) ∧ storable_WorkerSpec (gp_Worker x)
  ∧ storable_CatalogList (gp_Catalogs x) ∧ storable_ServiceSpec (gp_Service x)
  ∧ storable_ImageSpec (gp_ImageDetails x) ∧ utf8_map (gp_AdditionalPrestoPropFiles x)
  ∧ Forall storable_PrestoVolumeSpec (default [] (gp_Volumes x)).

(** The years 1 to 9999, in nanoseconds since 1970. *)
Definition calendar_time (z : Z) : Prop :=
  (-62135596800 * 10 ^ 9 ≤ z < 253402300800 * 10 ^ 9)%Z.

Definition storable_PrestoStatus (x : GPrestoStatus TreeR) : Prop :=
  Utf8 (gst_Uuid x) ∧ Utf8 (gst_HeadlessService x) ∧ Utf8 (gst_Service x)
  ∧ Utf8 (gst_CoordinatorAddress x) ∧ Utf8 (gst_CatalogConfig x) ∧ Utf8 (gst_CoordinatorConfig x)
  ∧ Utf8 (gst_WorkerConfig x) ∧ Utf8 (gst_WorkerReplicaset x) ∧ Utf8 (gst_CoordinatorReplicaset x)
  ∧ Utf8 (gst_HpaName x) ∧ Utf8 (gst_ClusterState x) ∧ Utf8 (gst_ErrorReason x)
  ∧ calendar_time (api_Time (gst_ModificationTime x))
  ∧ Utf8 (gst_CoordinatorCPU x) ∧ Utf8 (gst_WorkerCPU x).

Definition storable_Presto (x : GPresto TreeR) : Prop :=
  Utf8 (tm_Kind (g_TypeMeta x)) ∧ Utf8 (tm_APIVersion (g_TypeMeta x))
  ∧ storable_ObjectMeta (g_ObjectMeta x) ∧ storable_PrestoSpec (g_Spec x)
  ∧ storable_PrestoStatus (g_Status x).
End storable.

(** The contents that JSON keeps. *)
Definition kept (p : Presto) : Presto := set_Status p (kept_status (Status p)).

(** ** What is known of the structs of the Kubernetes API *)

(** The fields of PrestoVolumeSpec itself. *)
Definition volume_fields : list string :=
  ["name"; "readOnly"; "mountPath"; "subPath"; "mountPropagation"; "subPathExpr"].

(** The storable ones are encoded and decoded without loss, a time loses its
    fraction of a second; a SessionAffinityConfig is written as an object; a
    VolumeSource has fields of different names, none of them a field of
    PrestoVolumeSpec, and is decoded from its own fields. *)
Class ForeignJsonLaws `{ForeignJson, !ForeignApi} : Prop := {
  ObjectMeta_roundtrip x :
    storable_ObjectMeta x →
    ∃ y, or_zero zero_ObjectMeta decode_ObjectMeta (encode_ObjectMeta x) = Some y
      ∧ api_ObjectMeta y = api_ObjectMeta x;
  Time_roundtrip x :
    calendar_time (api_Time x) →
    ∃ y, or_zero zero_Time decode_Time (encode_Time x) = Some y
      ∧ api_Time y = whole_seconds (api_Time x);
  SessionAffinityConfig_object x : ∃ fs, encode_SessionAffinityConfig x = JObject fs;
  SessionAffinityConfig_roundtrip x :
    storable_SessionAffinityConfig x →
    ∃ y, decode_SessionAffinityConfig (encode_SessionAffinityConfig x) = Some y
      ∧ api_SessionAffinityConfig y = api_SessionAffinityConfig x;
  VolumeSource_names x :
    NoDup (volume_fields ++ (fields_VolumeSource x).*1)%list;
  VolumeSource_roundtrip x fs :
    storable_VolumeSource x →
    (∀ k, k ∉ volume_fields → get k fs = get k (fields_VolumeSource x)) →
    ∃ y, decode_VolumeSource fs = Some y ∧ api_VolumeSource y = api_VolumeSource x
}.

(** ** UTF-8 *)

Lemma write_runes_id skip s : runes_ok skip s = true → write_runes skip s = s.
Proof.
  revert skip. induction s as [|c s IH]; intros skip; [done|]. cbn [runes_ok write_runes].
  destruct skip as [|k]; [|intros; by rewrite IH].
  destruct (rune_size (String c s)); [|done]. intros. by rewrite IH.
Qed.

(** The bytes of a rune decide that it is one. *)
Fixpoint same_prefix (n : nat) (s t : string) : Prop :=
  match n, s, t with
  | S k, String c s', String d t' => c = d ∧ same_prefix k s' t'
  | O, _, _ => True
  | _, _, _ => False
  end.

Lemma rune_size_prefix c s t n :
  rune_size (String c s) = Some n → same_prefix (n - 1) s t → rune_size (String c t) = Some n.
Proof.
  cbn [rune_size]. cbv zeta. destruct (byte_in 0 127 c); [done|].
  destruct s as [|c1 s]; [done|]. destruct (_ && continuation c1) eqn:E2.
  { intros [= <-] Hp. destruct t as [|d1 t]; [done|]. destruct Hp as [<- _]. by rewrite E2. }
  destruct s as [|c2 s]; [done|]. destruct (_ && continuation c2) eqn:E3.
  { intros [= <-] Hp. destruct t as [|d1 [|d2 t]]; [done|by destruct Hp|].
    destruct Hp as (<- & <- & _). by rewrite E2, E3. }
  destruct s as [|c3 s]; [done|]. destruct (_ && continuation c3) eqn:E4; [|done].
  intros [= <-] Hp. destruct t as [|d1 [|d2 [|d3 t]]];
    [done|by destruct Hp|by destruct Hp as (_ & _ & [])|].
  destruct Hp as (<- & <- & <- & _). by rewrite E2, E3, E4.
Qed.

Lemma rune_size_length c s n :
  rune_size (String c s) = Some n → (n - 1 ≤ String.length s)%nat.
Proof.
  cbn [rune_size]. cbv zeta. destruct (byte_in 0 127 c); [intros [= <-]; lia|].
  destruct s as [|c1 s]; [done|]. destruct (_ && continuation c1); [intros [= <-]; simpl; lia|].
  destruct s as [|c2 s]; [done|]. destruct (_ && continuation c2); [intros [= <-]; simpl; lia|].
  destruct s as [|c3 s]; [done|]. destruct (_ && continuation c3); [|done].
  intros [= <-]. simpl. lia.
Qed.

Lemma write_runes_prefix skip s :
  (skip ≤ String.length s)%nat → same_prefix skip s (write_runes skip s).
Proof.
  revert skip. induction s as [|c s IH]; intros [|k] Hk; simpl in *; [done|lia|done|].
  split; [done|]. apply IH. lia.
Qed.

(** What is written is valid UTF-8. *)
Lemma write_runes_ok skip s : runes_ok skip (write_runes skip s) = true.
Proof.
  revert skip. induction s as [|c s IH]; intros skip; [done|]. cbn [write_runes].
  destruct skip as [|k]; [|apply IH].
  destruct (rune_size (String c s)) as [n|] eqn:Hn; [|apply (IH O)].
  cbn [runes_ok]. rewrite (rune_size_prefix c s _ n Hn); [apply IH|].
  apply write_runes_prefix. by eapply rune_size_length.
Qed.

Lemma to_valid_utf8_ok s : Utf8 (to_valid_utf8 s).
Proof. apply write_runes_ok. Qed.

Lemma to_valid_utf8_id s : Utf8 s → to_valid_utf8 s = s.
Proof. apply write_runes_id. Qed.

Lemma encode_string_id s : Utf8 s → encode_string s = JString s.
Proof. intros. unfold encode_string. by rewrite to_valid_utf8_id. Qed.

(** ** Members of an object *)

Fixpoint assoc (name : string) (l : list member) : option json :=
  match l with
  | [] => None
  | (k, o) :: rest => if String.eqb k name then o else assoc name rest
  end.

Lemma assoc_notin name l : name ∉ l.*1 → assoc name l = None.
Proof.
  induction l as [|[k o] l IH]; [done|]. csimpl. rewrite not_elem_of_cons.
  intros [Hne Hni]. destruct (String.eqb_spec k name); [congruence|by apply IH].
Qed.

Lemma get_written name l : NoDup l.*1 → get name (written l) = assoc name l.
Proof.
  induction l as [|[k o] l IH]; [done|]. csimpl. intros [Hni Hnd]%NoDup_cons.
  destruct o as [j|]; simpl; rewrite IH by done.
  - destruct (String.eqb_spec k name) as [->|]; [by rewrite assoc_notin|].
    by destruct (assoc name l).
  - destruct (String.eqb_spec k name) as [->|]; [by apply assoc_notin|done].
Qed.

Lemma assoc_app name l1 l2 :
  assoc name (l1 ++ l2)%list = if decide (name ∈ l1.*1) then assoc name l1 else assoc name l2.
Proof.
  induction l1 as [|[k o] l1 IH]; csimpl; [done|].
  destruct (String.eqb_spec k name) as [->|Hne]; [by rewrite decide_True by left|].
  rewrite IH. destruct (decide (name ∈ l1.*1)) as [Hin|Hin].
  - by rewrite decide_True by (by right).
  - rewrite decide_False; [done|]. rewrite not_elem_of_cons. naive_solver.
Qed.

Lemma written_embedded fs : written (embedded fs) = fs.
Proof.
  induction fs as [|[k j] fs IH]; [done|].
  change (written (embedded ((k, j) :: fs))) with ((k, j) :: written (embedded fs)). by rewrite IH.
Qed.

Lemma embedded_names fs : (embedded fs).*1 = fs.*1.
Proof. induction fs as [|[k j] fs IH]; [done|]. csimpl. by rewrite IH. Qed.

(** What get_field makes of a member. *)
Definition read_member {A} (zero : A) (decode : json → option A) (o : option json) : option A :=
  match o with None => Some zero | Some j => or_zero zero decode j end.

Lemma get_field_written {A} (zero : A) decode name l :
  NoDup l.*1 →
  get_field zero decode name (written l) = read_member zero decode (assoc name l).
Proof. intros Hnd. unfold get_field. by rewrite get_written. Qed.

(** Reading a member gives a value with the contents [b]. *)
Definition Reads {A B} (api : A → B) (zero : A) (decode : json → option A) (o : option json) (b : B)
    : Prop :=
  ∃ y, read_member zero decode o = Some y ∧ api y = b.

Create HintDb reads.

Lemma reads_string s : Utf8 s → Reads id EmptyString decode_string (Some (encode_string s)) s.
Proof. intros. rewrite encode_string_id by done. by exists s. Qed.

Lemma reads_string_omit s :
  Utf8 s → Reads id EmptyString decode_string (if is_empty s then None else Some (encode_string s)) s.
Proof.
  intros. destruct (is_empty s) eqn:E; [|by apply reads_string].
  apply is_empty_true in E as ->. by eexists.
Qed.

Lemma reads_bool_omit b : Reads id false decode_bool (if negb b then None else Some (JBool b)) b.
Proof. by destruct b; eexists. Qed.

Lemma decode_int32_ok n : in_int32 n → decode_int32 (JInt n) = Some n.
Proof. intros. simpl. by rewrite decide_True. Qed.

Lemma decode_int64_ok n : in_int64 n → decode_int64 (JInt n) = Some n.
Proof. intros. simpl. by rewrite decide_True. Qed.

Lemma reads_int32 n : in_int32 n → Reads id 0%Z decode_int32 (Some (JInt n)) n.
Proof. intros. exists n. split; [|done]. by apply decode_int32_ok. Qed.

Lemma reads_int32_omit n :
  in_int32 n → Reads id 0%Z decode_int32 (if (n =? 0)%Z then None else Some (JInt n)) n.
Proof. intros. destruct (Z.eqb_spec n 0) as [->|]; [by eexists|by apply reads_int32]. Qed.

(** A pointer to a value that is not written as null. *)
Lemma reads_ptr {A} (decode : json → option A) (encode : A → json) (p : option A) :
  (∀ a, p = Some a → encode a ≠ JNull ∧ decode (encode a) = Some a) →
  Reads id None (decode_ptr decode) (Some (encode_ptr encode p)) p.
Proof.
  destruct p as [a|]; intros Ha; [|by eexists]. destruct (Ha a eq_refl) as [Hn Hd].
  exists (Some a). split; [|done]. simpl. unfold or_zero, decode_ptr. rewrite Hd.
  by destruct (encode a).
Qed.

Lemma reads_omit_nil {A B} (api : option A → B) (decode : json → option A) (encode : A → json) p b :
  Reads api None (decode_ptr decode) (Some (encode_ptr encode p)) b →
  Reads api None (decode_ptr decode) (if is_nil p then None else Some (encode_ptr encode p)) b.
Proof. by destruct p. Qed.

Lemma reads_bool_ptr p : Reads id None (decode_ptr decode_bool) (Some (encode_ptr JBool p)) p.
Proof. by apply reads_ptr. Qed.

Lemma reads_string_ptr p :
  utf8_ptr p → Reads id None (decode_ptr decode_string) (Some (encode_ptr encode_string p)) p.
Proof. intros Hp. apply reads_ptr. intros s ->. by rewrite encode_string_id. Qed.

Lemma reads_int32_ptr p :
  int32_ptr p → Reads id None (decode_ptr decode_int32) (Some (encode_ptr JInt p)) p.
Proof. intros Hp. apply reads_ptr. intros n ->. split; [done|by apply decode_int32_ok]. Qed.

Lemma reads_int64_ptr p :
  int64_ptr p → Reads id None (decode_ptr decode_int64) (Some (encode_ptr JInt p)) p.
Proof. intros Hp. apply reads_ptr. intros n ->. split; [done|by apply decode_int64_ok]. Qed.

(** Maps. *)
Lemma sorted_entries_perm m : sorted_entries m ≡ₚ map_to_list m.
Proof. apply merge_sort_Permutation. Qed.

Lemma decode_entries (l : list (string * string)) :
  Forall (λ kv, Utf8 kv.1 ∧ Utf8 kv.2) l →
  mapM decode_entry (map (λ kv, (to_valid_utf8 kv.1, encode_string kv.2)) l) = Some l.
Proof.
  induction 1 as [|[k v] l [Hk Hv] Hl IH]; [done|]. simpl in Hk, Hv |- *.
  rewrite IH, !to_valid_utf8_id by done. done.
Qed.

Lemma decode_encode_map m : utf8_map (Some m) → decode_map (encode_map (Some m)) = Some (Some m).
Proof.
  intros Hm. simpl. rewrite decode_entries; simpl; [do 2 f_equal|].
  2:{ rewrite sorted_entries_perm. apply map_Forall_to_list in Hm.
      eapply Forall_impl; [exact Hm|]. by intros []. }
  rewrite <-(list_to_map_to_list m) at 2. apply list_to_map_proper.
  - rewrite reverse_Permutation, sorted_entries_perm. apply NoDup_fst_map_to_list.
  - by rewrite reverse_Permutation, sorted_entries_perm.
Qed.

Lemma reads_map m :
  utf8_map m → Reads api_map None decode_map (Some (encode_map m)) (api_map m).
Proof.
  destruct m as [m|]; intros Hm; [|by eexists]. exists (Some m). split; [|done].
  by rewrite <-(decode_encode_map m Hm).
Qed.

Lemma reads_map_omit m :
  utf8_map m →
  Reads api_map None decode_map (if empty_map m then None else Some (encode_map m)) (api_map m).
Proof.
  destruct m as [m|]; intros Hm; [|by eexists]. unfold empty_map.
  destruct (Nat.eqb_spec (size m) 0) as [E|]; [|by apply reads_map].
  apply map_size_empty_inv in E as ->. by eexists.
Qed.

(** Slices. *)
Lemma reads_slice_omit {A B} (P : A → Prop) (api : A → B) zero decode encode (s : option (list A)) :
  (∀ a, P a → ∃ y, or_zero zero decode (encode a) = Some y ∧ api y = api a) →
  Forall P (default [] s) →
  Reads (api_slice api) None (decode_slice zero decode)
    (if empty_slice s then None else Some (encode_slice encode s)) (api_slice api s).
Proof.
  intros Ha Hs. destruct s as [[|a l]|]; [by eexists| |by eexists].
  assert (∃ k, mapM (or_zero zero decode) (map encode (a :: l)) = Some k
               ∧ map api k = map api (a :: l)) as (k & Hk & Hm).
  { simpl in Hs. induction Hs as [|x l' Hx' Hl (k & Hk & Hm)]; [by exists []|].
    destruct (Ha x Hx') as (y & Hy & Hx).
    exists (y :: k). simpl. by rewrite Hy, Hk, Hx, <-Hm. }
  exists (Some k). split; [|done]. change (Some <$> mapM (or_zero zero decode) (map encode (a :: l)) = Some (Some k)).
  by rewrite Hk.
Qed.

Lemma reads_strings_omit s :
  utf8_slice s →
  Reads (api_slice id) None (decode_slice EmptyString decode_string)
    (if empty_slice s then None else Some (encode_slice encode_string s)) (api_slice id s).
Proof. apply (reads_slice_omit Utf8). intros a Ha. rewrite encode_string_id by done. by exists a. Qed.

#[export] Hint Resolve reads_string reads_string_omit reads_bool_omit reads_int32 reads_int32_omit
  reads_omit_nil reads_bool_ptr reads_string_ptr reads_int32_ptr reads_int64_ptr reads_map
  reads_map_omit reads_strings_omit : reads.

(** Read the members of an encoded struct one after the other. *)
Ltac struct_names :=
  repeat match goal with
  | |- context [get_field ?z ?d ?n (written ?l)] =>
    rewrite (get_field_written z d n l)
      by (apply (bool_decide_unpack _); vm_compute; exact I)
  end;
  cbn [assoc field omitempty String.eqb Ascii.eqb Bool.eqb].

Ltac struct_members :=
  repeat match goal with
  | |- context [read_member ?z ?d ?o] =>
    let y := fresh "y" in let Hy := fresh "Hy" in let Ha := fresh "Ha" in
    eassert (Reads _ z d o _) as (y & Hy & Ha); [solve [eauto with reads]|];
    rewrite Hy; cbn [mbind option_bind]; clear Hy
  end;
  eexists; split; [reflexivity|]; unfold id in *; subst; simpl; congruence.

Ltac roundtrip := unfold Reads, read_member, or_zero, object; struct_names; struct_members.

Lemma reads_AutoscalingSpec x :
  typed_AutoscalingSpec x →
  Reads api_AutoscalingSpec zero_AutoscalingSpec decode_AutoscalingSpec
    (Some (encode_AutoscalingSpec x)) (api_AutoscalingSpec x).
Proof.
  intros (? & ? & ?). unfold encode_AutoscalingSpec, decode_AutoscalingSpec, api_AutoscalingSpec.
  roundtrip.
Qed.

Lemma reads_CatalogSpec x :
  storable_CatalogSpec x →
  Reads api_CatalogSpec zero_CatalogSpec decode_CatalogSpec (Some (encode_CatalogSpec x))
    (api_CatalogSpec x).
Proof.
  intros (? & ?). unfold encode_CatalogSpec, decode_CatalogSpec, api_CatalogSpec. roundtrip.
Qed.

Lemma reads_CatalogSecret x :
  storable_CatalogSecret x →
  Reads id zero_CatalogSecret decode_CatalogSecret (Some (encode_CatalogSecret x)) x.
Proof.
  destruct x as [a b]. intros (? & ?). unfold encode_CatalogSecret, decode_CatalogSecret.
  cbn [csec_SecretName csec_SecretKey]. roundtrip.
Qed.

Lemma reads_secrets s :
  Forall storable_CatalogSecret (default [] s) →
  Reads (api_slice id) None (decode_slice zero_CatalogSecret decode_CatalogSecret)
    (if empty_slice s then None else Some (encode_slice encode_CatalogSecret s)) (api_slice id s).
Proof. apply reads_slice_omit, reads_CatalogSecret. Qed.

Lemma reads_catalogs s :
  Forall storable_CatalogSpec (default [] s) →
  Reads (api_slice api_CatalogSpec) None (decode_slice zero_CatalogSpec decode_CatalogSpec)
    (if empty_slice s then None else Some (encode_slice encode_CatalogSpec s))
    (api_slice api_CatalogSpec s).
Proof. apply reads_slice_omit, reads_CatalogSpec. Qed.

#[export] Hint Resolve reads_AutoscalingSpec reads_secrets reads_catalogs : reads.

Lemma reads_CatalogList x :
  storable_CatalogList x →
  Reads api_CatalogList zero_CatalogList decode_CatalogList (Some (encode_CatalogList x))
    (api_CatalogList x).
Proof.
  intros (? & ?). unfold encode_CatalogList, decode_CatalogList, api_CatalogList. roundtrip.
Qed.

Lemma reads_CoordinatorSpec x :
  storable_CoordinatorSpec x →
  Reads api_CoordinatorSpec zero_CoordinatorSpec decode_CoordinatorSpec
    (Some (encode_CoordinatorSpec x)) (api_CoordinatorSpec x).
Proof.
  intros (? & ? & ? & ? & ? & ? & ? & ?).
  unfold encode_CoordinatorSpec, decode_CoordinatorSpec, api_CoordinatorSpec. roundtrip.
Qed.

Lemma reads_WorkerSpec x :
  typed_WorkerSpec x → storable_WorkerSpec x →
  Reads api_WorkerSpec zero_WorkerSpec decode_WorkerSpec (Some (encode_WorkerSpec x))
    (api_WorkerSpec x).
Proof.
  intros (? & ? & ?) (? & ? & ? & ? & ?). unfold encode_WorkerSpec, decode_WorkerSpec, api_WorkerSpec. roundtrip.
Qed.

Lemma reads_HMSSpec x : Reads id mkGHMSSpec decode_HMSSpec (Some (encode_HMSSpec x)) x.
Proof. destruct x. by eexists. Qed.

Lemma reads_ImageSpec x :
  storable_ImageSpec x →
  Reads id zero_ImageSpec decode_ImageSpec (Some (encode_ImageSpec x)) x.
Proof.
  destruct x as [a b]. intros (? & ?). unfold encode_ImageSpec, decode_ImageSpec. cbn [is_Name is_PrestoPath].
  roundtrip.
Qed.

#[export] Hint Resolve reads_CatalogList reads_CoordinatorSpec reads_WorkerSpec reads_HMSSpec
  reads_ImageSpec : reads.

Section roundtrips.
Context `{ForeignJsonLaws}.

Lemma reads_affinity p :
  storable_affinity p →
  Reads (option_map api_SessionAffinityConfig) None (decode_ptr decode_SessionAffinityConfig)
    (Some (encode_ptr encode_SessionAffinityConfig p)) (option_map api_SessionAffinityConfig p).
Proof.
  destruct p as [a|]; intros Hp; [|by eexists].
  destruct (SessionAffinityConfig_roundtrip a Hp) as (y & Hy & Ha).
  destruct (SessionAffinityConfig_object a) as [fs Hfs]. exists (Some y). simpl. rewrite Ha.
  split; [|done]. unfold or_zero, decode_ptr. rewrite Hy. by rewrite Hfs.
Qed.

Lemma reads_Time x :
  calendar_time (api_Time x) →
  Reads api_Time zero_Time decode_Time (Some (encode_Time x)) (whole_seconds (api_Time x)).
Proof. apply Time_roundtrip. Qed.

Lemma reads_ObjectMeta x :
  storable_ObjectMeta x →
  Reads api_ObjectMeta zero_ObjectMeta decode_ObjectMeta (Some (encode_ObjectMeta x))
    (api_ObjectMeta x).
Proof. apply ObjectMeta_roundtrip. Qed.

#[local] Hint Resolve reads_affinity reads_Time reads_ObjectMeta : reads.

Lemma reads_ServiceSpec x :
  typed_ServiceSpec x → storable_ServiceSpec x →
  Reads api_ServiceSpec zero_ServiceSpec decode_ServiceSpec (Some (encode_ServiceSpec x))
    (api_ServiceSpec x).
Proof.
  intros (? & ? & ?) (? & ? & ? & ? & ? & ? & ? & ? & ? & ?).
  unfold encode_ServiceSpec, decode_ServiceSpec, api_ServiceSpec. roundtrip.
Qed.

Lemma reads_PrestoStatus x :
  in_int32 (gst_DesiredWorkers x) → in_int32 (gst_CurrentWorkers x) → storable_PrestoStatus x →
  Reads api_PrestoStatus zero_PrestoStatus decode_PrestoStatus (Some (encode_PrestoStatus x))
    (kept_status (api_PrestoStatus x)).
Proof.
  intros ? ? (? & ? & ? & ? & ? & ? & ? & ? & ? & ? & ? & ? & ? & ? & ?).
  unfold encode_PrestoStatus, decode_PrestoStatus, kept_status, set_ModificationTime, api_PrestoStatus.
  roundtrip.
Qed.

(** PrestoVolumeSpec: the embedded fields are among its own. *)
Definition volume_own (x : GPrestoVolumeSpec TreeR) : list member :=
  [omitempty "readOnly" (negb (gpv_ReadOnly x)) (JBool (gpv_ReadOnly x));
   field "mountPath" (encode_string (gpv_MountPath x));
   omitempty "subPath" (is_empty (gpv_SubPath x)) (encode_string (gpv_SubPath x));
   omitempty "mountPropagation" (is_nil (gpv_MountPropagation x))
     (encode_ptr encode_string (gpv_MountPropagation x));
   omitempty "subPathExpr" (is_empty (gpv_SubPathExpr x)) (encode_string (gpv_SubPathExpr x))].

Definition volume_members (x : GPrestoVolumeSpec TreeR) : list member :=
  (field "name" (encode_string (gpv_Name x)) ::
     embedded (fields_VolumeSource (gpv_VolumeSource x)) ++ volume_own x)%list.

Lemma volume_names x : NoDup (volume_members x).*1.
Proof.
  assert ((volume_members x).*1
          ≡ₚ (volume_fields ++ (fields_VolumeSource (gpv_VolumeSource x)).*1)%list) as ->;
    [|apply VolumeSource_names].
  unfold volume_members. rewrite fmap_cons, fmap_app, embedded_names.
  change volume_fields with ("name" :: tail volume_fields). rewrite <-app_comm_cons.
  constructor. apply Permutation_app_comm.
Qed.

Lemma volume_not_foreign x k : k ∈ volume_fields → k ∉ (fields_VolumeSource x).*1.
Proof.
  intros Hk Hin. pose proof (VolumeSource_names x) as Hn.
  apply NoDup_app in Hn as (_ & Hd & _). by apply (Hd k).
Qed.

Lemma get_volume_own {A} (zero : A) decode x k :
  k ∈ volume_fields →
  get_field zero decode k (written (volume_members x))
  = read_member zero decode (assoc k (field "name" (encode_string (gpv_Name x)) :: volume_own x)).
Proof.
  intros Hk. rewrite get_field_written by apply volume_names.
  unfold volume_members. cbn [assoc field].
  destruct (String.eqb "name" k); [done|]. rewrite assoc_app, embedded_names, decide_False; [done|].
  by apply volume_not_foreign.
Qed.

Lemma get_volume_foreign x k :
  k ∉ volume_fields →
  get k (written (volume_members x)) = get k (fields_VolumeSource (gpv_VolumeSource x)).
Proof.
  intros Hk. rewrite get_written by apply volume_names. unfold volume_members. cbn [assoc field].
  destruct (String.eqb_spec "name" k) as [<-|_]; [by destruct Hk; left|].
  pose proof (VolumeSource_names (gpv_VolumeSource x)) as (_ & _ & Hn)%NoDup_app.
  rewrite assoc_app. rewrite <-(written_embedded (fields_VolumeSource _)) at 3.
  rewrite get_written by (by rewrite embedded_names). case_decide as Hin; [done|].
  rewrite (assoc_notin _ (embedded _)) by done. apply assoc_notin.
  intros Hk'. apply Hk. unfold volume_fields. right. exact Hk'.
Qed.

Lemma reads_PrestoVolumeSpec x :
  storable_PrestoVolumeSpec x →
  ∃ y, or_zero zero_PrestoVolumeSpec decode_PrestoVolumeSpec (encode_PrestoVolumeSpec x) = Some y
    ∧ api_PrestoVolumeSpec y = api_PrestoVolumeSpec x.
Proof.
  intros (? & Hstore & ? & ? & ? & ?).
  change (encode_PrestoVolumeSpec x) with (JObject (written (volume_members x))).
  unfold or_zero, decode_PrestoVolumeSpec, api_PrestoVolumeSpec.
  destruct (VolumeSource_roundtrip (gpv_VolumeSource x) (written (volume_members x)) Hstore)
    as (vs & Hvs & Hapi); [apply get_volume_foreign|].
  rewrite Hvs, !get_volume_own by (apply (bool_decide_unpack _); vm_compute; exact I).
  unfold volume_own. cbn [assoc field omitempty String.eqb Ascii.eqb Bool.eqb mbind option_bind].
  struct_members.
Qed.

Lemma reads_volumes s :
  Forall storable_PrestoVolumeSpec (default [] s) →
  Reads (api_slice api_PrestoVolumeSpec) None
    (decode_slice zero_PrestoVolumeSpec decode_PrestoVolumeSpec)
    (if empty_slice s then None else Some (encode_slice encode_PrestoVolumeSpec s))
    (api_slice api_PrestoVolumeSpec s).
Proof. apply reads_slice_omit, reads_PrestoVolumeSpec. Qed.

#[local] Hint Resolve reads_ServiceSpec reads_PrestoStatus reads_volumes : reads.

Lemma reads_PrestoSpec x :
  typed_WorkerSpec (gp_Worker x) → typed_ServiceSpec (gp_Service x) → storable_PrestoSpec x →
  Reads api_PrestoSpec zero_PrestoSpec decode_PrestoSpec (Some (encode_PrestoSpec x))
    (api_PrestoSpec x).
Proof.
  intros ? ? (? & ? & ? & ? & ? & ? & ?). unfold encode_PrestoSpec, decode_PrestoSpec, api_PrestoSpec. roundtrip.
Qed.

#[local] Hint Resolve reads_PrestoSpec : reads.

(** C11: the JSON round trip. Take a resource whose integers are in the range of
    their types, whose strings are valid UTF-8 and whose modification time is in
    the years 1 to 9999. Decoding its JSON form succeeds and gives a resource with
    the same contents, but for the fraction of a second of that time: omitempty
    and the tags lose nothing else than the difference between a nil and an empty
    map or slice. *)
Theorem json_roundtrip x :
  typed_Presto x → storable_Presto x →
  ∃ y, decode_Presto (encode_Presto x) = Some y ∧ api_Presto y = kept (api_Presto x).
Proof.
  intros (? & ? & ? & ?) (? & ? & ? & ? & ?).
  destruct x as [[kind version] om spec st].
  unfold encode_Presto, decode_Presto, api_Presto, kept, set_Status, object.
  cbn [g_TypeMeta g_ObjectMeta g_Spec g_Status tm_Kind tm_APIVersion] in *.
  struct_names. struct_members.
Qed.
End roundtrips.

(** ** Witness *)

Module SmallJson.
Import SmallForeign.
#[local] Existing Instance types.

Definition encode_meta (m : meta TreeR) : json :=
  object [omitempty "name" (is_empty (m_Name _ m)) (encode_string (m_Name _ m));
          omitempty "labels" (empty_map (m_Labels _ m)) (encode_map (m_Labels _ m))].

Definition decode_meta (j : json) : option (meta TreeR) :=
  match j with
  | JObject fs =>
    name ← get_field EmptyString decode_string "name" fs;
    lbls ← get_field None decode_map "labels" fs;
    Some (mkMeta TreeR name lbls)
  | _ => None
  end.

(** The zero time. *)
Definition year_one : Z := (-62135596800 * 10 ^ 9)%Z.

#[local] Instance foreign_json : ForeignJson :=
  {| encode_ObjectMeta := encode_meta;
     decode_ObjectMeta := decode_meta;
     zero_ObjectMeta := mkMeta TreeR EmptyString None;
     fields_VolumeSource s := [("hostPath", encode_string s)];
     decode_VolumeSource := get_field EmptyString decode_string "hostPath";
     zero_VolumeSource := EmptyString;
     encode_SessionAffinityConfig b := JObject [("clientIP", JBool b)];
     decode_SessionAffinityConfig j :=
       match j with JObject fs => get_field false decode_bool "clientIP" fs | _ => None end;
     encode_Time z := if (z =? year_one)%Z then JNull else JInt (z / 10 ^ 9);
     decode_Time j := match j with JInt n => Some (n * 10 ^ 9)%Z | _ => None end;
     zero_Time := year_one |}.

#[local] Instance foreign_api : ForeignApi :=
  {| api_ObjectMeta m :=
       mkObjectMeta (m_Name _ m) EmptyString EmptyString EmptyString EmptyString 0%Z
         (api_map (m_Labels _ m)) [];
     api_VolumeSource s := VSOther s;
     api_SessionAffinityConfig b := if b then "clientIP" else EmptyString;
     api_Time := id;
     storable_ObjectMeta m := Utf8 (m_Name _ m) ∧ utf8_map (m_Labels _ m);
     storable_VolumeSource := Utf8;
     storable_SessionAffinityConfig _ := True |}.

#[local] Instance foreign_json_laws : ForeignJsonLaws.
Proof.
  split.
  - intros x (? & ?).
    unfold encode_ObjectMeta, decode_ObjectMeta, api_ObjectMeta, foreign_json, foreign_api.
    unfold encode_meta, decode_meta, or_zero, object. struct_names. struct_members.
  - intros x _. unfold encode_Time, decode_Time, zero_Time, foreign_json.
    destruct (Z.eqb_spec x year_one) as [->|]; by eexists.
  - intros x. by eexists.
  - intros x _. by exists x.
  - intros x. apply (bool_decide_unpack _). vm_compute. exact I.
  - intros x fs Hx Hfs. exists x. split; [|done].
    unfold decode_VolumeSource, foreign_json, get_field.
    rewrite Hfs by (apply (bool_decide_unpack _); vm_compute; exact I).
    simpl. by rewrite to_valid_utf8_id.
Qed.

(** A resource of which JSON keeps all but half a second. *)
Definition storedTree : GPresto TreeR :=
  let s := g_Spec sharedTree in
  mkGPresto (r := TreeR) (g_TypeMeta sharedTree) (g_ObjectMeta sharedTree)
    (mkGPrestoSpec (r := TreeR) (gp_Coordinator s) (gp_Worker s)
       (mkGCatalogList (r := TreeR) (Some [mkCatalogSecret "geheimnis-für-hive" "schlüssel"])
          (Some [mkGCatalogSpec (r := TreeR) "tpch" (Some {["connector.name" := "tpch"]})]))
       (gp_Service s) (gp_InternalHiveMetaStore s) (gp_ImageDetails s) None
       (Some [mkGPrestoVolumeSpec (r := TreeR) "données" "/mnt" false "/data" EmptyString
                None EmptyString]))
    (mkGPrestoStatus (r := TreeR) "b1f2" 2%Z 1%Z EmptyString EmptyString EmptyString EmptyString
       EmptyString EmptyString EmptyString EmptyString EmptyString "Pending" EmptyString
       1600000000500000000%Z EmptyString EmptyString).

Lemma storedTree_storable : storable_Presto (H0 := foreign_api) storedTree.
Proof.
  repeat match goal with
  | |- _ ∧ _ => split
  | |- Utf8 _ => reflexivity
  | |- valid_utf8 _ = true => reflexivity
  | |- utf8_map _ => apply (bool_decide_unpack _); vm_compute; exact I
  | |- utf8_slice _ => apply Forall_nil_2
  | |- utf8_ptr _ => exact I
  | |- storable_affinity _ => exact I
  | |- calendar_time _ => unfold calendar_time; simpl; lia
  | |- Forall _ _ => constructor
  | |- ?P => progress hnf
  end.
Qed.
End SmallJson.

Lemma json_roundtrip_witness :
  ∃ y, decode_Presto (H0 := SmallJson.foreign_json)
         (encode_Presto (H0 := SmallJson.foreign_json) SmallJson.storedTree) = Some y
    ∧ api_Presto (H0 := SmallJson.foreign_api) y
      = kept (api_Presto (H0 := SmallJson.foreign_api) SmallJson.storedTree).
Proof.
  apply (json_roundtrip (H2 := SmallJson.foreign_json_laws)).
  - split_and!; simpl; (done || unfold in_int32; lia).
  - exact SmallJson.storedTree_storable.
Defined.
