(* ===== verification/OpenApi.v ===== *)
(** The OpenAPI definitions of the resource:
    pkg/apis/falarica/v1alpha1/zz_generated.openapi.go, without the
    descriptions, and what it means for a JSON value to conform to a schema. *)

From S2P Require Import Prelude Json.

Local Open Scope string_scope.

(** ** Schemas

    spec.Schema of go-openapi with the fields the file sets. A map from names to
    schemas is a list of pairs with different names; AdditionalProperties is the
    schema of the further fields, where they have one. *)
#[warnings="-register-all"]
Inductive Schema := mkSchema {
  s_Type : list string;
  s_Format : string;
  s_Properties : list (string * Schema);
  s_AdditionalProperties : option Schema;
  s_Items : option Schema;
  s_Ref : option string;
  s_Required : list string
}.

(** common.OpenAPIDefinition: a schema and the types it refers to. *)
Record OpenAPIDefinition := mkOpenAPIDefinition {
  d_Schema : Schema;
  d_Dependencies : list string
}.

(** The five forms of schema the file writes. *)
Definition leaf (type format : string) : Schema := mkSchema [type] format [] None None None [].

Definition objectSchema (properties : list (string * Schema)) (required : list string) : Schema :=
  mkSchema ["object"] EmptyString properties None None None required.

Definition stringMap : Schema :=
  mkSchema ["object"] EmptyString [] (Some (leaf "string" EmptyString)) None None [].

Definition array (items : Schema) : Schema :=
  mkSchema ["array"] EmptyString [] None (Some items) None [].

Definition reference (name : string) : Schema := mkSchema [] EmptyString [] None None (Some name) [].

(** The name of a type of the package. *)
Definition pkg (T : string) : string :=
  "github.com/falarica/steerd-presto-operator/pkg/apis/falarica/v1alpha1." ⊕ T.

(** ** The definitions

    [ref] is the callback which turns the name of a type into a reference. *)

Definition schema_pkg_apis_falarica_v1alpha1_AutoscalingSpec (ref : string → string) : OpenAPIDefinition :=
  mkOpenAPIDefinition
    (objectSchema
      [("enabled", leaf "boolean" EmptyString);
       ("minReplicas", leaf "integer" "int32");
       ("maxReplicas", leaf "integer" "int32");
       ("targetCPUUtilizationPercentage", leaf "integer" "int32")]
      [])
    [].

Definition schema_pkg_apis_falarica_v1alpha1_CatalogList (ref : string → string) : OpenAPIDefinition :=
  mkOpenAPIDefinition
    (objectSchema
      [("catalogSecrets", array (reference (ref (pkg "CatalogSecret"))));
       ("catalogSpec", array (reference (ref (pkg "CatalogSpec"))))]
      [])
    [pkg "CatalogSecret"; pkg "CatalogSpec"].

Definition schema_pkg_apis_falarica_v1alpha1_CatalogSecret (ref : string → string) : OpenAPIDefinition :=
  mkOpenAPIDefinition
    (objectSchema
      [("secretName", leaf "string" EmptyString);
       ("secretKey", leaf "string" EmptyString)]
      [])
    [].

Definition schema_pkg_apis_falarica_v1alpha1_CatalogSpec (ref : string → string) : OpenAPIDefinition :=
  mkOpenAPIDefinition
    (objectSchema
      [("name", leaf "string" EmptyString);
       ("content", stringMap)]
      ["name"; "content"])
    [].

Definition schema_pkg_apis_falarica_v1alpha1_CoordinatorSpec (ref : string → string) : OpenAPIDefinition :=
  mkOpenAPIDefinition
    (objectSchema
      [("memoryLimit", leaf "string" EmptyString);
       ("additionalJVMConfig", leaf "string" EmptyString);
       ("additionalProps", stringMap);
       ("cpuLimit", leaf "string" EmptyString);
       ("cpuRequest", leaf "string" EmptyString);
       ("httpsEnabled", leaf "boolean" EmptyString);
       ("httpsKeyPairSecretName", leaf "string" EmptyString);
       ("httpsKeyPairSecretKey", leaf "string" EmptyString);
       ("httpsKeyPairPassword", leaf "string" EmptyString)]
      ["memoryLimit"; "cpuLimit"])
    [].

Definition schema_pkg_apis_falarica_v1alpha1_HMSSpec (ref : string → string) : OpenAPIDefinition :=
  mkOpenAPIDefinition
    (objectSchema [] [])
    [].

Definition schema_pkg_apis_falarica_v1alpha1_ImageSpec (ref : string → string) : OpenAPIDefinition :=
  mkOpenAPIDefinition
    (objectSchema
      [("name", leaf "string" EmptyString);
       ("prestoPath", leaf "string" EmptyString)]
      ["name"; "prestoPath"])
    [].

Definition schema_pkg_apis_falarica_v1alpha1_Presto (ref : string → string) : OpenAPIDefinition :=
  mkOpenAPIDefinition
    (objectSchema
      [("kind", leaf "string" EmptyString);
       ("apiVersion", leaf "string" EmptyString);
       ("metadata", reference (ref "k8s.io/apimachinery/pkg/apis/meta/v1.ObjectMeta"));
       ("spec", reference (ref (pkg "PrestoSpec")));
       ("status", reference (ref (pkg "PrestoStatus")))]
      [])
    [pkg "PrestoSpec"; pkg "PrestoStatus"; "k8s.io/apimachinery/pkg/apis/meta/v1.ObjectMeta"].

Definition schema_pkg_apis_falarica_v1alpha1_PrestoSpec (ref : string → string) : OpenAPIDefinition :=
  mkOpenAPIDefinition
    (objectSchema
      [("coordinator", reference (ref (pkg "CoordinatorSpec")));
       ("worker", reference (ref (pkg "WorkerSpec")));
       ("catalogs", reference (ref (pkg "CatalogList")));
       ("service", reference (ref (pkg "ServiceSpec")));
       ("internalHiveMetaStore", reference (ref (pkg "HMSSpec")));
       ("imageDetails", reference (ref (pkg "ImageSpec")));
       ("additionalPrestoPropFiles", stringMap);
       ("volumes", array (reference (ref (pkg "PrestoVolumeSpec"))))]
      ["coordinator"; "worker"; "internalHiveMetaStore"; "imageDetails";
       "additionalPrestoPropFiles"])
    [pkg "CatalogList"; pkg "CoordinatorSpec"; pkg "HMSSpec"; pkg "ImageSpec";
     pkg "PrestoVolumeSpec"; pkg "ServiceSpec"; pkg "WorkerSpec"].

Definition schema_pkg_apis_falarica_v1alpha1_PrestoStatus (ref : string → string) : OpenAPIDefinition :=
  mkOpenAPIDefinition
    (objectSchema
      [("uuid", leaf "string" EmptyString);
       ("desiredWorkers", leaf "integer" "int32");
       ("currentWorkers", leaf "integer" "int32");
       ("headlessService", leaf "string" EmptyString);
       ("service", leaf "string" EmptyString);
       ("coordinatorAddress", leaf "string" EmptyString);
       ("catalogConfig", leaf "string" EmptyString);
       ("coordinatorConfig", leaf "string" EmptyString);
       ("workerConfig", leaf "string" EmptyString);
       ("workerReplicaset", leaf "string" EmptyString);
       ("coordinatorReplicaset", leaf "string" EmptyString);
       ("hpaName", leaf "string" EmptyString);
       ("clusterState", leaf "string" EmptyString);
       ("errorReason", leaf "string" EmptyString);
       ("modificationTime", reference (ref "k8s.io/apimachinery/pkg/apis/meta/v1.Time"));
       ("coordinatorCPU", leaf "string" EmptyString);
       ("workerCPU", leaf "string" EmptyString)]
      ["uuid"; "desiredWorkers"; "currentWorkers"; "headlessService"; "service";
       "coordinatorAddress"; "catalogConfig"; "coordinatorConfig"; "workerConfig";
       "workerReplicaset"; "coordinatorReplicaset"; "hpaName"; "clusterState"; "errorReason"])
    ["k8s.io/apimachinery/pkg/apis/meta/v1.Time"].

Definition schema_pkg_apis_falarica_v1alpha1_ServiceSpec (ref : string → string) : OpenAPIDefinition :=
  mkOpenAPIDefinition
    (objectSchema
      [("nodePort", leaf "integer" "int32");
       ("port", leaf "integer" "int32");
       ("clusterIP", leaf "string" EmptyString);
       ("type", leaf "string" EmptyString);
       ("externalIPs", array (leaf "string" EmptyString));
       ("sessionAffinity", leaf "string" EmptyString);
       ("loadBalancerIP", leaf "string" EmptyString);
       ("loadBalancerSourceRanges", array (leaf "string" EmptyString));
       ("externalName", leaf "string" EmptyString);
       ("externalTrafficPolicy", leaf "string" EmptyString);
       ("healthCheckNodePort", leaf "integer" "int32");
       ("publishNotReadyAddresses", leaf "boolean" EmptyString);
       ("sessionAffinityConfig", reference (ref "k8s.io/api/core/v1.SessionAffinityConfig"));
       ("ipFamily", leaf "string" EmptyString)]
      [])
    ["k8s.io/api/core/v1.SessionAffinityConfig"].

Definition schema_pkg_apis_falarica_v1alpha1_WorkerSpec (ref : string → string) : OpenAPIDefinition :=
  mkOpenAPIDefinition
    (objectSchema
      [("memoryLimit", leaf "string" EmptyString);
       ("additionalJVMConfig", leaf "string" EmptyString);
       ("additionalProps", stringMap);
       ("cpuLimit", leaf "string" EmptyString);
       ("cpuRequest", leaf "string" EmptyString);
       ("terminationGracePeriodSeconds", leaf "integer" "int64");
       ("count", leaf "integer" "int32");
       ("autoscaling", reference (ref (pkg "AutoscalingSpec")))]
      ["memoryLimit"; "cpuLimit"; "count"])
    [pkg "AutoscalingSpec"].

Definition GetOpenAPIDefinitions (ref : string → string) : list (string * OpenAPIDefinition) :=
  [(pkg "AutoscalingSpec", schema_pkg_apis_falarica_v1alpha1_AutoscalingSpec ref);
   (pkg "CatalogList", schema_pkg_apis_falarica_v1alpha1_CatalogList ref);
   (pkg "CatalogSecret", schema_pkg_apis_falarica_v1alpha1_CatalogSecret ref);
   (pkg "CatalogSpec", schema_pkg_apis_falarica_v1alpha1_CatalogSpec ref);
   (pkg "CoordinatorSpec", schema_pkg_apis_falarica_v1alpha1_CoordinatorSpec ref);
   (pkg "HMSSpec", schema_pkg_apis_falarica_v1alpha1_HMSSpec ref);
   (pkg "ImageSpec", schema_pkg_apis_falarica_v1alpha1_ImageSpec ref);
   (pkg "Presto", schema_pkg_apis_falarica_v1alpha1_Presto ref);
   (pkg "PrestoSpec", schema_pkg_apis_falarica_v1alpha1_PrestoSpec ref);
   (pkg "PrestoStatus", schema_pkg_apis_falarica_v1alpha1_PrestoStatus ref);
   (pkg "ServiceSpec", schema_pkg_apis_falarica_v1alpha1_ServiceSpec ref);
   (pkg "WorkerSpec", schema_pkg_apis_falarica_v1alpha1_WorkerSpec ref)].

(** ** Conformance

    A value conforms to a schema when it has one of its types and, for an object,
    has the required fields, fields of the schemas of their names and further
    fields of the schema of additional properties, for an array, elements of the
    schema of its items. With [strict] a field no schema is given for is refused. *)

Definition format_ok (format : string) (n : Z) : bool :=
  if String.eqb format "int32" then bool_decide (in_int32 n)
  else if String.eqb format "int64" then bool_decide (in_int64 n)
  else true.

Definition type_ok (type format : string) (j : json) : bool :=
  match j with
  | JNull => false
  | JBool _ => String.eqb type "boolean"
  | JInt n => String.eqb type "integer" && format_ok format n
  | JString _ => String.eqb type "string"
  | JArray _ => String.eqb type "array"
  | JObject _ => String.eqb type "object"
  end.

Definition has_field (fields : list (string * json)) (k : string) : bool :=
  match get k fields with Some _ => true | None => false end.

Definition property_ok (rec : Schema → json → bool) (fields : list (string * json))
    (p : string * Schema) : bool :=
  match get p.1 fields with Some j => rec p.2 j | None => true end.

Definition further_ok (strict : bool) (rec : Schema → json → bool) (s : Schema)
    (kj : string * json) : bool :=
  existsb (String.eqb kj.1) (map fst (s_Properties s))
  || match s_AdditionalProperties s with Some a => rec a kj.2 | None => negb strict end.

Definition schema_ok (strict : bool) (rec : Schema → json → bool) (s : Schema) (j : json) : bool :=
  existsb (λ t, type_ok t (s_Format s) j) (s_Type s)
  && match j with
     | JObject fs =>
       forallb (has_field fs) (s_Required s)
       && forallb (property_ok rec fs) (s_Properties s)
       && forallb (further_ok strict rec s) fs
     | JArray l => match s_Items s with Some i => forallb (rec i) l | None => true end
     | _ => true
     end.

(** The definition a reference stands for, in the table of the package. *)
Definition find_definition (ref : string → string) (r : string) : option Schema :=
  d_Schema ∘ snd <$> find (λ kd, String.eqb (ref kd.1) r) (GetOpenAPIDefinitions ref).

(** [foreign] decides conformance to the definitions of other packages; a
    reference neither they nor the table has is not conformed to. A reference
    uses up a step and so does the schema it stands for. *)
Fixpoint conforms (strict : bool) (ref : string → string) (foreign : string → option (json → bool))
    (n : nat) (s : Schema) (j : json) : bool :=
  match n with
  | O => false
  | S n =>
    match s_Ref s with
    | None => schema_ok strict (conforms strict ref foreign n) s j
    | Some r =>
      match find_definition ref r with
      | Some s' => conforms strict ref foreign n s' j
      | None => match foreign r with Some ok => ok j | None => false end
      end
    end
  end.
