(* ===== verification/OpenApiFacts.v ===== *)
(** Which resources conform to the OpenAPI definition of Presto, and what the
    references between the definitions stand for. *)

From S2P Require Import Prelude ApiTypes GoHeap DeepCopy Views DeepCopyFacts Json JsonFacts OpenApi.

Local Open Scope string_scope.

(** ** Objects *)

Definition present (o : option json) : bool := match o with Some _ => true | None => false end.

Definition member_ok (rec : Schema → json → bool) (s : Schema) (o : option json) : bool :=
  match o with Some j => rec s j | None => true end.

Lemma written_names l k j : (k, j) ∈ written l → k ∈ l.*1.
Proof.
  intros ((k' & o) & Hin & Ho)%list_elem_of_omap. destruct o as [j'|]; [|done].
  simpl in Ho. injection Ho as -> ->. apply list_elem_of_fmap. by exists (k, Some j).
Qed.

Lemma forallb_same {A} (f g : A → bool) l : (∀ a, f a = g a) → forallb f l = forallb g l.
Proof. intros Hfg. induction l as [|a l IH]; [done|]. simpl. by rewrite Hfg, IH. Qed.

(** An object with different fields, each of them declared, conforms when it has
    the required ones and each is of the schema of its name. *)
Lemma object_ok strict rec props req l :
  NoDup l.*1 →
  forallb (λ k, existsb (String.eqb k) (map fst props)) l.*1 = true →
  schema_ok strict rec (objectSchema props req) (object l)
  = forallb (λ k, present (assoc k l)) req && forallb (λ p, member_ok rec p.2 (assoc p.1 l)) props.
Proof.
  intros Hnd Hdecl. unfold schema_ok, object, objectSchema. cbn -[forallb further_ok has_field].
  assert (forallb (further_ok strict rec (objectSchema props req)) (written l) = true) as Hf.
  { apply forallb_forall. intros [k j] Hin%list_elem_of_In%written_names. unfold further_ok.
    rewrite forallb_forall in Hdecl. simpl. by rewrite Hdecl by (by apply list_elem_of_In). }
  unfold objectSchema in Hf. rewrite Hf, andb_true_r. f_equal.
  - apply forallb_same. intros k. unfold has_field, present. by rewrite get_written.
  - apply forallb_same. intros [k s]. unfold property_ok, member_ok. by rewrite get_written.
Qed.

(** A catalog whose content is not nil. *)
Definition has_content (c : GCatalogSpec TreeR) : bool := negb (is_nil (gcat_Content c)).

(** ** Leaves *)

Section conformance.
Context (strict : bool) (ref : string → string) (foreign : string → option (json → bool)).
Context (Href : Inj (=) (=) ref) (Hforeign : ∀ T, foreign (ref (pkg T)) = None).

#[local] Abbreviation conf := (conforms strict ref foreign).

Lemma eqb_ref a b : String.eqb (ref a) (ref b) = String.eqb a b.
Proof.
  destruct (String.eqb_spec a b) as [->|Hne]; [apply String.eqb_refl|].
  apply String.eqb_neq. intros E. by apply Hne, Href.
Qed.

Lemma find_definition_ref k :
  find_definition ref (ref k)
  = d_Schema ∘ snd <$> find (λ kd, String.eqb kd.1 k) (GetOpenAPIDefinitions ref).
Proof.
  unfold find_definition. f_equal. induction (GetOpenAPIDefinitions ref) as [|[k' d] l IH]; [done|].
  simpl. by rewrite eqb_ref, IH.
Qed.

Lemma ok_string n s : conf (S n) (leaf "string" EmptyString) (encode_string s) = true.
Proof. done. Qed.

Lemma ok_string_omit n s :
  member_ok (conf (S n)) (leaf "string" EmptyString) (if is_empty s then None else Some (encode_string s))
  = true.
Proof. by destruct (is_empty s). Qed.

Lemma ok_bool_omit n b :
  member_ok (conf (S n)) (leaf "boolean" EmptyString) (if negb b then None else Some (JBool b))
  = true.
Proof. by destruct b. Qed.

Lemma ok_int32 n z : in_int32 z → conf (S n) (leaf "integer" "int32") (JInt z) = true.
Proof.
  intros Hz. change ((format_ok "int32" z || false) && true = true).
  unfold format_ok. cbn [String.eqb Ascii.eqb Bool.eqb]. by rewrite bool_decide_eq_true_2.
Qed.

Lemma ok_int64 n z : in_int64 z → conf (S n) (leaf "integer" "int64") (JInt z) = true.
Proof.
  intros Hz. change ((format_ok "int64" z || false) && true = true).
  unfold format_ok. cbn [String.eqb Ascii.eqb Bool.eqb]. by rewrite bool_decide_eq_true_2.
Qed.

Lemma ok_int32_omit n z :
  in_int32 z →
  member_ok (conf (S n)) (leaf "integer" "int32") (if (z =? 0)%Z then None else Some (JInt z)) = true.
Proof. intros Hz. destruct (z =? 0)%Z; [done|]. by apply ok_int32. Qed.

(** A pointer that is left out when it is nil. *)
Lemma ok_ptr_omit {A} (encode : A → json) n s p :
  (∀ a, p = Some a → conf n s (encode a) = true) →
  member_ok (conf n) s (if is_nil p then None else Some (encode_ptr encode p)) = true.
Proof. intros Hp. destruct p as [a|]; [by apply Hp|done]. Qed.

Lemma ok_bool_ptr n p :
  member_ok (conf (S n)) (leaf "boolean" EmptyString)
    (if is_nil p then None else Some (encode_ptr JBool p)) = true.
Proof. by apply ok_ptr_omit. Qed.

Lemma ok_string_ptr n p :
  member_ok (conf (S n)) (leaf "string" EmptyString)
    (if is_nil p then None else Some (encode_ptr encode_string p)) = true.
Proof. by apply ok_ptr_omit. Qed.

Lemma ok_int32_ptr n p :
  int32_ptr p →
  member_ok (conf (S n)) (leaf "integer" "int32")
    (if is_nil p then None else Some (encode_ptr JInt p)) = true.
Proof. intros Hp. apply ok_ptr_omit. intros z ->. by apply ok_int32. Qed.

Lemma ok_int64_ptr n p :
  int64_ptr p →
  member_ok (conf (S n)) (leaf "integer" "int64")
    (if is_nil p then None else Some (encode_ptr JInt p)) = true.
Proof. intros Hp. apply ok_ptr_omit. intros z ->. by apply ok_int64. Qed.

(** A count is always written, as null when it is nil. *)
Lemma ok_count n p :
  int32_ptr p → conf (S n) (leaf "integer" "int32") (encode_ptr JInt p) = negb (is_nil p).
Proof. intros Hp. destruct p as [z|]; [by apply ok_int32|done]. Qed.

Lemma ok_map n m : conf (S (S n)) stringMap (encode_map m) = negb (is_nil m).
Proof.
  destruct m as [m|]; [|done]. simpl. unfold schema_ok. simpl.
  apply forallb_forall. intros kj Hin%in_map_iff. by destruct Hin as (kv & <- & _).
Qed.

Lemma ok_map_omit n m :
  member_ok (conf (S (S n))) stringMap (if empty_map m then None else Some (encode_map m)) = true.
Proof. destruct (empty_map m) eqn:E; [done|]. unfold member_ok. rewrite ok_map. by destruct m. Qed.

Lemma ok_slice_omit {A} (encode : A → json) n i (s : option (list A)) :
  member_ok (conf (S n)) (array i) (if empty_slice s then None else Some (encode_slice encode s))
  = forallb (λ a, conf n i (encode a)) (default [] s).
Proof.
  destruct s as [[|a l]|]; [done| |done]. simpl. unfold schema_ok. simpl. f_equal.
  induction l as [|b l IH]; [done|]. simpl. by rewrite IH.
Qed.

Lemma ok_strings n s :
  member_ok (conf (S (S n))) (array (leaf "string" EmptyString))
    (if empty_slice s then None else Some (encode_slice encode_string s)) = true.
Proof. rewrite ok_slice_omit. by apply forallb_forall. Qed.

(** ** The structs *)

Lemma conf_reference n T d j :
  find (λ kd, String.eqb kd.1 (pkg T)) (GetOpenAPIDefinitions ref) = Some (pkg T, d) →
  s_Ref (d_Schema d) = None →
  conf (S (S n)) (reference (ref (pkg T))) j = schema_ok strict (conf n) (d_Schema d) j.
Proof.
  intros Hf Hr. cbn [conforms reference s_Ref]. rewrite find_definition_ref, Hf.
  cbn [fmap option_fmap option_map compose snd]. by rewrite Hr.
Qed.

Lemma conf_foreign n k j :
  find (λ kd, String.eqb kd.1 k) (GetOpenAPIDefinitions ref) = None →
  conf (S n) (reference (ref k)) j = match foreign (ref k) with Some ok => ok j | None => false end.
Proof. intros Hf. cbn [conforms reference s_Ref]. by rewrite find_definition_ref, Hf. Qed.

(** Look up the definition and take the members one after the other. *)
Ltac open_object :=
  erewrite conf_reference by reflexivity;
  match goal with |- context [d_Schema ?d] => let d' := eval hnf in d in change d with d' end;
  cbn [d_Schema];
  rewrite object_ok by (first [apply (bool_decide_unpack _); vm_compute; exact I | reflexivity]);
  cbn [forallb assoc field omitempty String.eqb Ascii.eqb Bool.eqb fst snd present andb];
  repeat first
    [ rewrite ok_string_omit | rewrite ok_bool_omit | rewrite ok_bool_ptr | rewrite ok_string_ptr
    | rewrite ok_int32_omit by done | rewrite ok_int32_ptr by done | rewrite ok_int64_ptr by done
    | rewrite ok_map_omit | rewrite ok_strings ];
  cbn [member_ok];
  repeat first
    [ rewrite ok_string | rewrite ok_int32 by done | rewrite ok_count by done | rewrite ok_map ];
  cbn [andb]; rewrite ?andb_true_r.

Lemma ok_AutoscalingSpec n x :
  typed_AutoscalingSpec x →
  conf (S (S (S n))) (reference (ref (pkg "AutoscalingSpec"))) (encode_AutoscalingSpec x) = true.
Proof. intros (? & ? & ?). unfold encode_AutoscalingSpec. by open_object. Qed.

Lemma ok_CatalogSecret n x :
  conf (S (S (S n))) (reference (ref (pkg "CatalogSecret"))) (encode_CatalogSecret x) = true.
Proof. unfold encode_CatalogSecret. by open_object. Qed.

Lemma ok_CatalogSpec n x :
  conf (S (S (S (S n)))) (reference (ref (pkg "CatalogSpec"))) (encode_CatalogSpec x)
  = has_content x.
Proof. unfold encode_CatalogSpec. by open_object. Qed.

Lemma ok_CatalogList n x :
  conf (S (S (S (S (S (S (S n))))))) (reference (ref (pkg "CatalogList"))) (encode_CatalogList x)
  = forallb has_content (default [] (gcl_CatalogSpec x)).
Proof.
  unfold encode_CatalogList. open_object. rewrite !ok_slice_omit.
  erewrite (forallb_same _ (λ _, true)) by (intros; apply ok_CatalogSecret).
  erewrite (forallb_same (λ a, conf _ _ (encode_CatalogSpec a))) by (intros; apply ok_CatalogSpec).
  replace (forallb (λ _ : CatalogSecret, true) _) with true; [done|].
  symmetry. by apply forallb_forall.
Qed.

Lemma ok_CoordinatorSpec n x :
  conf (S (S (S (S n)))) (reference (ref (pkg "CoordinatorSpec"))) (encode_CoordinatorSpec x) = true.
Proof. unfold encode_CoordinatorSpec. by open_object. Qed.

Lemma ok_WorkerSpec n x :
  typed_WorkerSpec x →
  conf (S (S (S (S (S n))))) (reference (ref (pkg "WorkerSpec"))) (encode_WorkerSpec x)
  = negb (is_nil (gws_Count x)).
Proof.
  intros (? & ? & ?). unfold encode_WorkerSpec. open_object. rewrite ok_AutoscalingSpec by done.
  apply andb_true_r.
Qed.

Lemma ok_HMSSpec n x :
  conf (S (S n)) (reference (ref (pkg "HMSSpec"))) (encode_HMSSpec x) = true.
Proof. unfold encode_HMSSpec. by erewrite conf_reference by reflexivity. Qed.

Lemma ok_ImageSpec n x :
  conf (S (S (S n))) (reference (ref (pkg "ImageSpec"))) (encode_ImageSpec x) = true.
Proof. unfold encode_ImageSpec. by open_object. Qed.

(** A part of the resource that is a struct of the Kubernetes API is accepted. *)
Definition accepted (name : string) (j : json) : bool :=
  match foreign (ref name) with Some ok => ok j | None => false end.

Context `{ForeignJson}.

Lemma ok_ServiceSpec n x :
  typed_ServiceSpec x →
  conf (S (S (S (S n)))) (reference (ref (pkg "ServiceSpec"))) (encode_ServiceSpec x)
  = forallb (accepted "k8s.io/api/core/v1.SessionAffinityConfig" ∘ encode_SessionAffinityConfig)
      (option_list (gss_SessionAffinityConfig x)).
Proof.
  intros (? & ? & ?). unfold encode_ServiceSpec. open_object.
  destruct (gss_SessionAffinityConfig x) as [a|]; [|done]. cbn [is_nil encode_ptr member_ok].
  rewrite conf_foreign by done. symmetry. apply andb_true_r.
Qed.

Lemma ok_PrestoStatus n x :
  in_int32 (gst_DesiredWorkers x) → in_int32 (gst_CurrentWorkers x) →
  conf (S (S (S n))) (reference (ref (pkg "PrestoStatus"))) (encode_PrestoStatus x)
  = accepted "k8s.io/apimachinery/pkg/apis/meta/v1.Time" (encode_Time (gst_ModificationTime x)).
Proof.
  intros ? ?. unfold encode_PrestoStatus. open_object. by rewrite conf_foreign by done.
Qed.

(** No value conforms to the reference to PrestoVolumeSpec. *)
Lemma ok_volumes n s :
  member_ok (conf (S (S n))) (array (reference (ref (pkg "PrestoVolumeSpec"))))
    (if empty_slice s then None else Some (encode_slice encode_PrestoVolumeSpec s))
  = empty_slice s.
Proof.
  rewrite ok_slice_omit. destruct s as [[|v l]|]; [done| |done].
  cbn [from_option forallb empty_slice id]. rewrite conf_foreign by done. by rewrite Hforeign.
Qed.

Lemma ok_PrestoSpec n x :
  typed_WorkerSpec (gp_Worker x) → typed_ServiceSpec (gp_Service x) →
  conf (S (S (S (S (S (S (S (S (S n))))))))) (reference (ref (pkg "PrestoSpec")))
    (encode_PrestoSpec x)
  = negb (is_nil (gws_Count (gp_Worker x)))
    && (forallb has_content (default [] (gcl_CatalogSpec (gp_Catalogs x)))
    && (forallb (accepted "k8s.io/api/core/v1.SessionAffinityConfig" ∘ encode_SessionAffinityConfig)
          (option_list (gss_SessionAffinityConfig (gp_Service x)))
    && (negb (is_nil (gp_AdditionalPrestoPropFiles x))
    && empty_slice (gp_Volumes x)))).
Proof.
  intros ? ?. unfold encode_PrestoSpec. open_object.
  rewrite ok_CoordinatorSpec, ok_WorkerSpec, ok_CatalogList, ok_ServiceSpec, ok_HMSSpec,
    ok_ImageSpec, ok_volumes by done. done.
Qed.

(** What a resource needs for its schema: the fields which are always written and
    have no null in the schema are set, and there are no volumes. *)
Definition conformant (x : GPresto TreeR) : Prop :=
  is_Some (gws_Count (gp_Worker (g_Spec x)))
  ∧ is_Some (gp_AdditionalPrestoPropFiles (g_Spec x))
  ∧ (∀ c, c ∈ default [] (gcl_CatalogSpec (gp_Catalogs (g_Spec x))) → is_Some (gcat_Content c))
  ∧ default [] (gp_Volumes (g_Spec x)) = [].

(** Its parts that are structs of the Kubernetes API are accepted. *)
Definition parts_accepted (x : GPresto TreeR) : Prop :=
  accepted "k8s.io/apimachinery/pkg/apis/meta/v1.ObjectMeta" (encode_ObjectMeta (g_ObjectMeta x))
  = true
  ∧ accepted "k8s.io/apimachinery/pkg/apis/meta/v1.Time"
      (encode_Time (gst_ModificationTime (g_Status x))) = true
  ∧ ∀ a, gss_SessionAffinityConfig (gp_Service (g_Spec x)) = Some a →
      accepted "k8s.io/api/core/v1.SessionAffinityConfig" (encode_SessionAffinityConfig a) = true.

Lemma not_nil {A} (p : option A) : negb (is_nil p) = true ↔ is_Some p.
Proof. by destruct p. Qed.

Lemma no_elements {A} (s : option (list A)) : empty_slice s = true ↔ default [] s = [].
Proof. by destruct s as [[|]|]. Qed.

Lemma all_have_content l : forallb has_content l = true ↔ ∀ c, c ∈ l → is_Some (gcat_Content c).
Proof.
  rewrite forallb_forall. split; intros Hl c Hc.
  - apply not_nil, Hl. by apply list_elem_of_In.
  - apply not_nil, Hl. by apply list_elem_of_In.
Qed.

Lemma optional_accepted {A} (f : A → bool) p :
  forallb f (option_list p) = true ↔ ∀ a, p = Some a → f a = true.
Proof.
  destruct p as [a|]; simpl; [|done]. rewrite andb_true_r. split; [|naive_solver].
  intros Ha b Hb. congruence.
Qed.

(** C14: typing. Let references be injective, so that a reference names one type,
    and the definitions of other packages have none for types of this one. The
    JSON form of a resource whose integers are in the range of their types conforms to the
    OpenAPI definition of Presto, eleven steps or more of unfolding being enough,
    exactly when the resource sets the worker count, the property files and the
    content of every catalog, has no volumes, and its parts that are structs of
    the Kubernetes API conform to theirs. The same is true when undeclared fields
    are refused: every tag of a struct is declared in its schema. *)
Theorem json_conforms n x :
  (11 ≤ n)%nat → typed_Presto x →
  conf n (reference (ref (pkg "Presto"))) (encode_Presto x) = true ↔
  conformant x ∧ parts_accepted x.
Proof.
  intros Hn (? & ? & ? & ?).
  replace n with (S (S (S (S (S (S (S (S (S (S (S (n - 11)))))))))))) by lia.
  unfold encode_Presto. open_object. rewrite conf_foreign, ok_PrestoSpec, ok_PrestoStatus by done.
  rewrite !andb_true_iff, !not_nil, no_elements, all_have_content, optional_accepted.
  unfold conformant, parts_accepted, accepted, compose. tauto.
Qed.
End conformance.

(** ** Witness

    References as in a Swagger document; the other packages take any metadata
    that is an object, any number as a time and any affinity. *)

Definition swagger_ref (name : string) : string := "#/definitions/" ⊕ name.

#[export] Instance swagger_ref_inj : Inj (=) (=) swagger_ref.
Proof. unfold swagger_ref. apply _. Qed.

Definition other_packages (r : string) : option (json → bool) :=
  if String.eqb r (swagger_ref "k8s.io/apimachinery/pkg/apis/meta/v1.ObjectMeta")
  then Some (type_ok "object" EmptyString)
  else if String.eqb r (swagger_ref "k8s.io/apimachinery/pkg/apis/meta/v1.Time")
  then Some (type_ok "integer" EmptyString)
  else None.

Definition conformantTree : GPresto (H := SmallForeign.types) TreeR :=
  let x := SmallForeign.sharedTree in
  let s := g_Spec x in
  mkGPresto (H := SmallForeign.types) (r := TreeR) (g_TypeMeta x) (g_ObjectMeta x)
    (mkGPrestoSpec (H := SmallForeign.types) (r := TreeR) (gp_Coordinator s) (gp_Worker s)
       (mkGCatalogList (r := TreeR) None
          (Some [mkGCatalogSpec (r := TreeR) "tpch" (Some {["connector.name" := "tpch"]})]))
       (gp_Service s) (gp_InternalHiveMetaStore s) (gp_ImageDetails s) (Some ∅) None)
    (g_Status x).

Lemma json_conforms_witness :
  conforms true swagger_ref other_packages 11 (reference (swagger_ref (pkg "Presto")))
    (encode_Presto (H0 := SmallJson.foreign_json) conformantTree) = true.
Proof.
  apply (json_conforms true swagger_ref other_packages _ ltac:(done)
           (H0 := SmallJson.foreign_json) 11 conformantTree); [lia| |split].
  - split_and!; simpl; (done || unfold in_int32; lia).
  - split; [by eexists|split; [by eexists|split; [|reflexivity]]].
    intros c Hc. apply list_elem_of_singleton in Hc as ->. by eexists.
  - split_and!; [reflexivity|reflexivity|]. intros a. vm_compute. discriminate.
Defined.

(** ** References *)

(** The references of a schema. *)
Fixpoint references (s : Schema) : list string :=
  match s with
  | mkSchema _ _ props extra items r _ =>
    match r with Some name => [name] | None => [] end
    ++ concat (map (λ p, match p with (_, s') => references s' end) props)
    ++ match extra with Some s' => references s' | None => [] end
    ++ match items with Some s' => references s' | None => [] end
  end%list.

(** The types of other packages the definitions depend on. *)
Definition kubernetes_types : list string :=
  ["k8s.io/api/core/v1.SessionAffinityConfig"; "k8s.io/apimachinery/pkg/apis/meta/v1.ObjectMeta";
   "k8s.io/apimachinery/pkg/apis/meta/v1.Time"].

Definition defined_types (ref : string → string) : list string :=
  map fst (GetOpenAPIDefinitions ref).

Lemma dependencies_complete ref :
  Forall (λ Td, references (d_Schema Td.2) ≡ₚ map ref (d_Dependencies Td.2))
    (GetOpenAPIDefinitions ref).
Proof.
  unfold GetOpenAPIDefinitions. repeat apply Forall_cons_2; [..|apply Forall_nil_2]; cbn [snd].
  all: match goal with |- context [d_Schema ?d] => let d' := eval hnf in d in change d with d' end.
  all: cbn [d_Schema d_Dependencies objectSchema references map concat app array leaf
    reference stringMap].
  all: solve_Permutation.
Qed.

Lemma dependencies_resolved ref :
  Forall (λ Td, Forall (λ T, T ∈ defined_types ref ∨ T ∈ kubernetes_types
                             ∨ T = pkg "PrestoVolumeSpec") (d_Dependencies Td.2))
    (GetOpenAPIDefinitions ref).
Proof.
  unfold GetOpenAPIDefinitions.
  repeat apply Forall_cons_2; [..|apply Forall_nil_2];
    apply (bool_decide_unpack _); vm_compute; exact I.
Qed.

(** References. The table defines a type at most once. Every definition
    declares as dependencies the types its schema refers to, and each of them is
    in the table, is a type of Kubernetes or is PrestoVolumeSpec, which PrestoSpec
    depends on and the table does not define. *)
Theorem openapi_references ref :
  NoDup (defined_types ref)
  ∧ (∀ T d, (T, d) ∈ GetOpenAPIDefinitions ref →
       references (d_Schema d) ≡ₚ map ref (d_Dependencies d)
       ∧ ∀ T', T' ∈ d_Dependencies d →
           T' ∈ defined_types ref ∨ T' ∈ kubernetes_types ∨ T' = pkg "PrestoVolumeSpec")
  ∧ (∃ d, (pkg "PrestoSpec", d) ∈ GetOpenAPIDefinitions ref
       ∧ pkg "PrestoVolumeSpec" ∈ d_Dependencies d)
  ∧ pkg "PrestoVolumeSpec" ∉ defined_types ref.
Proof.
  split_and!.
  - apply (bool_decide_unpack _). vm_compute. exact I.
  - intros T d Hd. split.
    + apply (proj1 (Forall_forall _ _) (dependencies_complete ref) (T, d) Hd).
    + apply Forall_forall, (proj1 (Forall_forall _ _) (dependencies_resolved ref) (T, d) Hd).
  - exists (schema_pkg_apis_falarica_v1alpha1_PrestoSpec ref).
    split; [do 8 right; left|do 4 right; left].
  - apply (bool_decide_unpack _). vm_compute. exact I.
Qed.
